(* ===== verification/_CoqProject ===== *)
-Q . S2P
Prelude.v
GoString.v
GoTime.v
Types.v
Services.v
Effects.v
RefServices.v
Redis.v
RedisScan.v
Reaper.v
ReaperTick.v
Config.v
Registry.v
GoJson.v
GoUtf8.v
GoJsonText.v
GoJsonCodec.v
Memory.v
Queue.v
Provider.v
Concurrency.v
Lifecycle.v
Interference.v
BenchJobs.v
RefBench.v
BenchRoundtrip.v
BenchBehaviour.v
FlakyCounter.v
BenchRegistry.v
BenchFlaky.v
BenchStress.v
JobJson.v
Queuebench.v
