(* ===== verification/Prelude.v ===== *)
(** * Adele queue: a verification development

    adele-queue is a job queue for the Adele framework, written in Go. An
    application registers handlers by job name, dispatches jobs, and a pool
    of workers runs them. There are two backends. The memory backend hands
    jobs over on an unbuffered channel and retries from detached goroutines.
    The redis backend keeps every job as a hash whose key says its state,
    queues:<channel>:<pending|locked|completed|failed>:<id>; workers scan for
    pending keys, claim one by renaming it to locked, run the handler and
    rename it on; a reaper puts locks that have expired back or fails them.

    ** How the program is modelled

    Operations are programs over explicit effects (Effects.v): one
    constructor of [eff] for each thing the code does to its surroundings (a
    redis command, a clock reading, a handler call, an insert, an atomic
    counter, a channel operation, a go statement, ...). [run] executes a
    program alone on a [world], the shared mutable state (the redis server,
    the database, the registry, the counters, the channel, the package
    variables systemShutdown and wg); Concurrency.v interleaves programs
    effect by effect. Panics are values of [res]. [wp] is the weakest
    precondition of a run that does not panic, with a rule for each effect.

    Code outside the repository is a parameter (Services.v): the redis
    server, the redigo client, the database session, the clock and the ids,
    the application's handlers, the YAML parser, the framework and the random
    generator. What is relied on is in classes of laws. A redis command that
    answers has its documented effect; one that fails may or may not have had
    it; a [healthy] server always answers. A struct written with AddFlat
    reads back with ScanStruct ([wire]); a row written to the database reads
    back with the columns that the tags of types.go give it
    ([same_columns]), not with the fields tagged away. RefServices.v and RefBench.v have
    executable instances of all of them, on which the witnesses run. The
    parts of Go's standard library that the code uses (strings, strconv,
    time with its RFC3339 layout, UTF-8, encoding/json with its scanner,
    escapes, base64 and struct tags) are defined, not assumed; of JSON only
    the printing and parsing of float64 and the wording of errors are
    parameters ([JsonLib]). Integers are 64 bits wide: [wrap64] is written
    wherever the code adds or multiplies.

    ** Files

    - Prelude.v: notation scope, hint databases, tactics, 64-bit integers,
      lemmas on strings and lists.
    - GoString.v, GoTime.v, GoJson.v, GoUtf8.v, GoJsonText.v (texts and
      values), GoJsonCodec.v (Go types and values): the standard library.
    - Types.v: the structs of api/types.go. Services.v: the interfaces.
      Effects.v: effects, worlds, runs and their rules. RefServices.v:
      reference instances.
    - Redis.v: api/redis.go ([handleRedisJob] and its branches,
      [processKey], [processPage] and [scanLoop] are the body and the loops
      of cursorScanRedisDb). RedisScan.v: the scan loop and channel names.
    - Reaper.v: api/reaper.go ([reapKey], [reapPage], [reapScan] are the
      loops of runReaperTick). ReaperTick.v: whole ticks.
    - Config.v: configuration, queue.yml and buildQueue of api/queue.go.
    - Registry.v: RegisterHandler, RegisterHandlerCtx.
    - Memory.v: api/memory.go, runHandler and the memory worker.
    - Queue.v: Dispatch, DispatchIn, Depth, worker, Listen, Close.
    - JobJson.v: the JSON tags of Job and UnmarshalPayload.
    - Provider.v: provider.go and the constructors of queue.go.
    - Concurrency.v: pools of goroutines and the invariants of every
      schedule. Lifecycle.v: the specification of the redis backend (a store
      of keys and actors with their protocols) and the refinement of its
      traces. Interference.v: what a program does for sure while workers and
      the reaper step in between.
    - BenchJobs.v: internal/bench/benchjobs, every payload, handler and
      constructor; [benchSig] makes the fifteen handlers an instance of the
      interface that the queue is modelled against, so that the theorems on
      the queue apply to them. RefBench.v: reference instances.
      BenchRoundtrip.v, BenchBehaviour.v: what a built job does when its
      handler is called. FlakyCounter.v: concurrent calls of
      loadOrCreateCounter. BenchFlaky.v: a flaky job on the memory queue.
      BenchRegistry.v: registry.go. BenchStress.v: stress.go.
    - Queuebench.v: cmd/queuebench/main.go over the provider, the queue and
      the bench jobs; main interleaves with the goroutines it started.

    ** What the theorems show

    - One claimed job (C1-C3): each branch of handleRedisJob, as the exact
      keyspace, row and clock readings it leaves. Keys that are not handled
      (C10): gated jobs go back, lost races change nothing. C4 and C19: a job
      that always fails runs MaxAttempts + 1 times on either backend, on
      redis over any sequence of visits with any clock readings of others in
      between: each visit at which it is pending and due is one run, until
      it is failed. C8 and C9: from Dispatch to completed.
    - Interleavings: C5, under every schedule of applications, workers and
      reaper and with failing commands, the trace of commands (with replies
      and senders) is a trace of the specification in Lifecycle.v, whose
      promises therefore hold of every job; C6, without the
      reaper no schedule loses a job; C7, the pending count of the memory
      backend is the number of jobs in flight under any schedule, so it is
      never negative; C37, the races of the reaper with a worker, as
      executed schedules.
    - The reaper (C11, C12, C36): each outcome for one lock; that a tick
      alone keeps every job, judges every scanned key by the state it finds
      it in, adds exactly these verdicts to the counters and ends; and where
      the timeout overflows.
    - The memory backend (C19-C22): attempts, rows, delays, the worker's
      loop on an open and on a closed channel, the bound on the failure
      cache, the three ways of a dispatch.
    - Depth, configuration, registry and provider (C23, C31-C34): Depth
      misses no pending job of channels without glob characters, defaults
      are exactly the well-formed configurations, the first registration of
      a name wins, queue.yml is seeded once.
    - JSON (C24, C25): UnmarshalPayload reads back what Marshal printed of a
      job, and whatever it accepts is a job whose fields fit their types.
    - The bench jobs: C14, each constructor followed by its handler prints,
      returns or panics as expected; C27 and C28, which calls return and
      which payloads are refused; C26, concurrent calls count their attempts
      without gaps or repeats; C13, a job that fails k times is run k + 1
      times by the memory queue and recorded as completed; C15, the two
      ways from a job to its handler agree.
    - The bench harness: C29, seeding reports exactly the failing jobs; C17
      and C18, every job of a load run is counted once, no more dispatches
      than allowed are in flight, and every run ends; C30, the job mix;
      C16 and C39, queuebench from its first line to the end of its seeding,
      in every interleaving with the workers and the reaper, and its shutdown.
    - Robustness and limits (C35, C38, C40): the scan loop does not panic on
      a reachable server; Close is process-wide on redis; a job with a bad
      gate ends its worker. Lemmas of RedisScan.v and Queue.v add that
      channel names normalise, that a colon in a channel name hides its
      jobs, that dates are truncated to seconds and that a send after Close
      panics.

    ** Fuel

    Loops that the code leaves unbounded take fuel: [scanLoop] and
    [reaperLoop] run until shutdown, so their theorems hold for every fuel;
    [reapScan] and [depthScan] end, and C12 and C23 show that enough fuel
    makes them return (a bound on the pages of a scan, the pages that the law
    of SCAN provides); [memoryLoop] takes one unit for each receive, and C20
    holds for every number of receives.
    [counter_loop] takes fuel because its loop need not end; C27 says exactly
    when it does. [Stress] is a step relation; C18 shows that it ends. The
    JSON scanner and parser are structural, over bytes and tokens.

    ** What is not modelled

    Log output and the printed report of Stress (handlers record what they
    print); mutexes as such (what runs under one is one effect, or runs
    alone); the data race on systemShutdown (reads and writes are atomic);
    monotonic clock readings; the real duration of sleeps and waits (C5 to
    C7 and C16 to C18 allow every order, hence every duration; a dispatch
    from a goroutine of Stress is one step); the loading of
    .env.queuebench and the delivery of signals; the SQL schema of the
    migrations. *)

From stdpp Require Import base gmap strings list list_numbers sets relations.
From Stdlib Require Import ZArith Lia.

(** ** Scopes and hint databases *)

Declare Scope go_scope.
Delimit Scope go_scope with go.

Create HintDb adele.
Create Rewrite HintDb adele.

(** Concatenation of byte strings (Go's [a + b]) is stdpp's [+:+]; it
    computes as soon as its first argument is a constructor. *)
#[global] Arguments String.append !_ _ / : simpl nomatch.

Open Scope go_scope.
Open Scope Z_scope.

(** ** Machine integers

    Go's [int] is 64 bits wide on the platforms the package is built for,
    and so are [int64] and [time.Duration]; additions and products wrap. *)

Definition two63 : Z := 9223372036854775808.
Definition two64 : Z := 18446744073709551616.

Definition wrap64 (z : Z) : Z := (z + two63) mod two64 - two63.

Definition in_int64 (z : Z) : Prop := - two63 <= z < two63.

Lemma wrap64_id z : in_int64 z -> wrap64 z = z.
Proof.
  unfold in_int64, wrap64, two63, two64. intros H.
  rewrite Z.mod_small; lia.
Qed.

Lemma wrap64_range z : in_int64 (wrap64 z).
Proof.
  unfold in_int64, wrap64, two63, two64.
  pose proof (Z.mod_pos_bound (z + 9223372036854775808) 18446744073709551616).
  lia.
Qed.

Lemma wrap64_add_l a b : wrap64 (wrap64 a + b) = wrap64 (a + b).
Proof.
  unfold wrap64, two63, two64.
  replace ((a + 9223372036854775808) mod 18446744073709551616
           - 9223372036854775808 + b + 9223372036854775808)
    with ((a + 9223372036854775808) mod 18446744073709551616 + b) by lia.
  rewrite Zplus_mod_idemp_l. f_equal. f_equal. lia.
Qed.

(** Unsigned 64-bit counters ([atomic.Uint64]). *)
Definition wrapU64 (z : Z) : Z := z mod two64.

Lemma wrapU64_add_l a b : wrapU64 (wrapU64 a + b) = wrapU64 (a + b).
Proof. unfold wrapU64. apply Zplus_mod_idemp_l. Qed.

#[export] Hint Resolve wrap64_range : adele.
#[export] Hint Rewrite wrap64_add_l wrapU64_add_l : adele.

(** ** Strings *)

Lemma append_assoc (a b c : string) : (a +:+ b) +:+ c = a +:+ (b +:+ c).
Proof. induction a as [|x a IH]; simpl; [done|by rewrite IH]. Qed.

Lemma append_nil_r (a : string) : a +:+ EmptyString = a.
Proof. induction a as [|x a IH]; simpl; [done|by rewrite IH]. Qed.

Lemma append_cons x (a b : string) : String x a +:+ b = String x (a +:+ b).
Proof. done. Qed.

Lemma append_inj_l (a b c : string) : a +:+ b = a +:+ c -> b = c.
Proof. induction a as [|x a IH]; simpl; [done|intros [=]; auto]. Qed.

#[export] Hint Rewrite append_assoc append_nil_r append_cons : adele.

(** Membership of a byte in a string, as a boolean test. *)
Fixpoint has_byte (c : Ascii.ascii) (s : string) : bool :=
  match s with
  | EmptyString => false
  | String x s' => Ascii.eqb x c || has_byte c s'
  end.

Lemma has_byte_app c a b : has_byte c (a +:+ b) = has_byte c a || has_byte c b.
Proof. induction a as [|x a IH]; simpl; [done|by rewrite IH, orb_assoc]. Qed.

#[export] Hint Rewrite has_byte_app : adele.

(** ** Lists *)

(** Sums over lists of integers, used by the counting invariants. *)
Definition sumZ (l : list Z) : Z := foldr Z.add 0 l.

Lemma sumZ_app l k : sumZ (l ++ k) = sumZ l + sumZ k.
Proof. induction l as [|x l IH]; simpl; [done|rewrite IH; lia]. Qed.

Lemma sumZ_insert l i x y :
  l !! i = Some x -> sumZ (<[i := y]> l) = sumZ l - x + y.
Proof.
  revert i. induction l as [|z l IH]; intros [|i] H; simplify_eq/=; [lia|].
  rewrite (IH _ H). lia.
Qed.

(** ** Tactics *)

(** Linear arithmetic with division and remainder by constants. *)
Ltac zlia := Z.to_euclidean_division_equations; lia.

(** Booleans of the model turned into the propositions they decide. *)
Ltac bool_facts :=
  repeat match goal with
  | H : (_ && _)%bool = true |- _ => apply andb_true_iff in H; destruct H
  | H : (_ || _)%bool = false |- _ => apply orb_false_iff in H; destruct H
  | H : negb _ = true |- _ => apply negb_true_iff in H
  | H : negb _ = false |- _ => apply negb_false_iff in H
  | H : (_ =? _)%Z = true |- _ => apply Z.eqb_eq in H
  | H : (_ =? _)%Z = false |- _ => apply Z.eqb_neq in H
  | H : (_ <? _)%Z = true |- _ => apply Z.ltb_lt in H
  | H : (_ <? _)%Z = false |- _ => apply Z.ltb_ge in H
  | H : (_ <=? _)%Z = true |- _ => apply Z.leb_le in H
  | H : (_ <=? _)%Z = false |- _ => apply Z.leb_gt in H
  | H : (_ =? _)%string = true |- _ => apply String.eqb_eq in H
  | H : (_ =? _)%string = false |- _ => apply String.eqb_neq in H
  end.

(** The default of a present value. *)
Ltac simpl_default :=
  repeat match goal with
  | |- context [default ?d (Some ?x)] => change (default d (Some x)) with x
  end.
