(* ===== verification/GoString.v ===== *)
(** * Strings of the Go standard library

    The functions of [strings], [strconv] and [fmt] the queue calls, on byte
    strings: [strings.Split] with a one-byte separator, [strings.Contains],
    [strings.NewReplacer] with one-byte patterns, [strings.ToLower],
    [strconv.Itoa], [strconv.Atoi] and [fmt.Sprintf] with [%s] verbs. *)

From stdpp Require Import base strings list.
From Stdlib Require Import ZArith Lia Ascii DecimalString DecimalZ DecimalFacts.
From S2P Require Import Prelude.

Open Scope Z_scope.

Definition colon : ascii := ":"%char.

(** ** strings.Split *)

(** [strings.Split(s, sep)] for a one-byte separator: always at least one
    piece. *)
Fixpoint Split (s : string) (sep : ascii) : list string :=
  match s with
  | EmptyString => [EmptyString]
  | String c s' =>
      if Ascii.eqb c sep then EmptyString :: Split s' sep
      else match Split s' sep with
           | [] => [String c EmptyString]
           | p :: ps => String c p :: ps
           end
  end.

Lemma Split_nonempty s sep : Split s sep <> [].
Proof. destruct s as [|c s]; simpl; [done|]. repeat case_match; done. Qed.

Lemma Split_no_sep s sep : has_byte sep s = false -> Split s sep = [s].
Proof.
  induction s as [|c s IH]; simpl; [done|]. intros H.
  apply orb_false_iff in H as [-> H]. by rewrite (IH H).
Qed.

Lemma Split_app_sep s t sep :
  has_byte sep s = false ->
  Split (s +:+ String sep t) sep = s :: Split t sep.
Proof.
  induction s as [|c s IH]; simpl; intros H.
  - by rewrite Ascii.eqb_refl.
  - apply orb_false_iff in H as [-> H]. by rewrite (IH H).
Qed.

(** The number of pieces is one more than the number of separators. *)
Fixpoint count_byte (c : ascii) (s : string) : nat :=
  match s with
  | EmptyString => 0%nat
  | String x s' => ((if Ascii.eqb x c then 1 else 0) + count_byte c s')%nat
  end.

Lemma Split_length s sep : length (Split s sep) = S (count_byte sep s).
Proof.
  induction s as [|c s IH]; simpl; [done|].
  destruct (Ascii.eqb c sep); simpl; [by rewrite IH|].
  pose proof (Split_nonempty s sep). destruct (Split s sep); [done|].
  simpl in *. lia.
Qed.

Lemma count_byte_app c a b :
  count_byte c (a +:+ b) = (count_byte c a + count_byte c b)%nat.
Proof. induction a as [|x a IH]; simpl; [done|rewrite IH; lia]. Qed.

(** The pieces have no separator. *)
Lemma Split_pieces s sep : Forall (fun p => has_byte sep p = false) (Split s sep).
Proof.
  induction s as [|c s IH]; cbn; [by constructor|].
  destruct (Ascii.eqb c sep) eqn:E; [by constructor|].
  destruct (Split s sep) as [|p ps]; [repeat constructor; cbn; by rewrite E|].
  inversion IH; subst. constructor; [cbn; by rewrite E|done].
Qed.

(** [strings.Join(l, sep)] for a one-byte separator, the inverse of [Split]. *)
Fixpoint Join (l : list string) (sep : ascii) : string :=
  match l with
  | [] => EmptyString
  | [p] => p
  | p :: ps => p +:+ String sep (Join ps sep)
  end.

Lemma Join_Split s sep : Join (Split s sep) sep = s.
Proof.
  induction s as [|c s IH]; simpl; [done|].
  destruct (Ascii.eqb_spec c sep) as [->|].
  - pose proof (Split_nonempty s sep). destruct (Split s sep); [done|].
    simpl in *. by rewrite IH.
  - pose proof (Split_nonempty s sep). destruct (Split s sep) as [|p [|p' ps]];
      simpl in *; by rewrite ?IH, <- ?IH.
Qed.

(** ** strings.Contains *)

Fixpoint HasPrefix (s p : string) : bool :=
  match p, s with
  | EmptyString, _ => true
  | String a p', String b s' => Ascii.eqb a b && HasPrefix s' p'
  | _, EmptyString => false
  end.

Fixpoint Contains (s sub : string) : bool :=
  HasPrefix s sub ||
  match s with
  | EmptyString => false
  | String _ s' => Contains s' sub
  end.

Lemma HasPrefix_app p t : HasPrefix (p +:+ t) p = true.
Proof. induction p as [|x p IH]; simpl; [by destruct t|by rewrite Ascii.eqb_refl, IH]. Qed.

Lemma HasPrefix_spec s p : HasPrefix s p = true <-> exists t, s = p +:+ t.
Proof.
  split; [|intros [t ->]; apply HasPrefix_app].
  revert s. induction p as [|x p IH]; intros s H; [by exists s|].
  destruct s as [|y s]; simpl in H; [done|].
  apply andb_true_iff in H as [->%Ascii.eqb_eq [t ->]%IH]. by exists t.
Qed.

Lemma Contains_spec s sub :
  Contains s sub = true <-> exists a b, s = a +:+ (sub +:+ b).
Proof.
  split.
  - induction s as [|c s IH]; cbn [Contains]; intros H;
      apply orb_true_iff in H as [H|H].
    + apply HasPrefix_spec in H as [t Ht]. by exists EmptyString, t.
    + done.
    + apply HasPrefix_spec in H as [t Ht]. by exists EmptyString, t.
    + apply IH in H as (a & b & ->). by exists (String c a), b.
  - intros (a & b & ->). induction a as [|c a IH].
    + change (EmptyString +:+ (sub +:+ b)) with (sub +:+ b).
      pose proof (HasPrefix_app sub b) as Hp.
      destruct (sub +:+ b); cbn [Contains]; by rewrite Hp.
    + simpl. rewrite IH. by rewrite orb_true_r.
Qed.

Lemma Contains_app_l a s sub : Contains s sub = true -> Contains (a +:+ s) sub = true.
Proof.
  rewrite !Contains_spec. intros (x & y & ->). exists (a +:+ x), y.
  by rewrite append_assoc.
Qed.

(** ** strings.NewReplacer with one-byte patterns, strings.ToLower *)

(** [strings.NewReplacer(olds and news).Replace(s)] when every pattern is
    one byte: each byte is replaced by the first pattern that matches it. *)
Fixpoint replace_byte (rules : list (ascii * string)) (c : ascii) : string :=
  match rules with
  | [] => String c EmptyString
  | (o, n) :: rs => if Ascii.eqb c o then n else replace_byte rs c
  end.

Fixpoint Replace (rules : list (ascii * string)) (s : string) : string :=
  match s with
  | EmptyString => EmptyString
  | String c s' => replace_byte rules c +:+ Replace rules s'
  end.

Definition is_ascii_byte (c : ascii) : bool := (N_of_ascii c <? 128)%N.

Fixpoint is_ascii (s : string) : bool :=
  match s with
  | EmptyString => true
  | String c s' => is_ascii_byte c && is_ascii s'
  end.

Definition is_upper (c : ascii) : bool :=
  let n := N_of_ascii c in ((65 <=? n) && (n <=? 90))%N.

Definition lower_byte (c : ascii) : ascii :=
  if is_upper c then ascii_of_N (N_of_ascii c + 32) else c.

Fixpoint lower_ascii (s : string) : string :=
  match s with
  | EmptyString => EmptyString
  | String c s' => String (lower_byte c) (lower_ascii s')
  end.

(** [strings.ToLower]: bytewise on ASCII strings; on others it maps every
    rune with [unicode.ToLower], whose tables are the argument [uni]. *)
Definition ToLower (uni : string -> string) (s : string) : string :=
  if is_ascii s then lower_ascii s else uni s.

Lemma lower_byte_not_upper c : is_upper (lower_byte c) = false.
Proof. destruct c as [[] [] [] [] [] [] [] []]; reflexivity. Qed.

Lemma lower_byte_idem c : lower_byte (lower_byte c) = lower_byte c.
Proof. unfold lower_byte at 1. by rewrite lower_byte_not_upper. Qed.

Lemma lower_ascii_idem s : lower_ascii (lower_ascii s) = lower_ascii s.
Proof. induction s as [|c s IH]; simpl; [done|by rewrite lower_byte_idem, IH]. Qed.

Lemma lower_byte_ascii c : is_ascii_byte (lower_byte c) = is_ascii_byte c.
Proof. destruct c as [[] [] [] [] [] [] [] []]; reflexivity. Qed.

Lemma is_ascii_lower s : is_ascii (lower_ascii s) = is_ascii s.
Proof. induction s as [|c s IH]; simpl; [done|by rewrite lower_byte_ascii, IH]. Qed.

(** ** strconv.Itoa and strconv.Atoi *)

Definition Itoa (z : Z) : string := NilZero.string_of_int (Z.to_int z).

(** [strconv.Atoi]: an optional sign, at least one digit, nothing else. The
    flag is false when an error is returned; the value then is 0, or the
    nearest [int] when the number is out of range. *)
Definition Atoi (s : string) : Z * bool :=
  let digits :=
    match s with
    | String c s' =>
        if Ascii.eqb c "+" then
          match s' with
          | String d _ => if Ascii.eqb d "-" then None
                          else NilZero.int_of_string s'
          | EmptyString => None
          end
        else NilZero.int_of_string s
    | EmptyString => None
    end in
  match digits with
  | Some d =>
      let z := Z.of_int d in
      if z <? - two63 then (- two63, false)
      else if two63 <=? z then (two63 - 1, false)
      else (z, true)
  | None => (0, false)
  end.

Lemma Itoa_not_nil z : Z.to_int z <> Decimal.Pos Decimal.Nil /\
                       Z.to_int z <> Decimal.Neg Decimal.Nil.
Proof.
  split; intros H.
  - pose proof (to_of (Decimal.Pos Decimal.Nil)) as E. simpl in E.
    destruct z; simpl in H; try discriminate; injection H as H;
      by apply DecimalPos.Unsigned.to_uint_nonnil in H.
  - destruct z; simpl in H; try discriminate; injection H as H;
      by apply DecimalPos.Unsigned.to_uint_nonnil in H.
Qed.

Lemma int_of_string_Itoa z : NilZero.int_of_string (Itoa z) = Some (Z.to_int z).
Proof. destruct (Itoa_not_nil z). by apply NilZero.isi. Qed.

Lemma int_of_string_no_plus s d :
  NilZero.int_of_string s = Some d ->
  match s with String c _ => Ascii.eqb c "+" = false | EmptyString => False end.
Proof.
  destruct s as [|c s]; [done|].
  destruct (Ascii.eqb_spec c "+") as [->|]; [|done].
  simpl. by destruct (NilEmpty.uint_of_string s).
Qed.

(** [Atoi] reads back what [Itoa] writes. *)
Lemma Atoi_Itoa z : in_int64 z -> Atoi (Itoa z) = (z, true).
Proof.
  intros Hz. unfold Atoi.
  pose proof (int_of_string_Itoa z) as Hi.
  pose proof (int_of_string_no_plus _ _ Hi) as Hp.
  destruct (Itoa z) as [|c s]; [done|]. rewrite Hp, Hi, of_to.
  unfold in_int64 in Hz.
  destruct (Z.ltb_spec z (- two63)); [lia|].
  destruct (Z.leb_spec two63 z); [lia|done].
Qed.

Lemma Itoa_inj a b : Itoa a = Itoa b -> a = b.
Proof.
  intros H. apply to_int_inj.
  pose proof (int_of_string_Itoa a) as Ha. rewrite H in Ha.
  rewrite int_of_string_Itoa in Ha. by injection Ha.
Qed.

(** ** fmt.Sprintf with string verbs *)

(** [fmt.Sprintf(format, args)] for formats whose only verb is [%s]; a verb
    without an argument prints as Go's missing-argument marker. *)
Fixpoint Sprintf (f : string) (args : list string) : string :=
  match f with
  | String "%" (String "s" f') =>
      match args with
      | a :: args' => a +:+ Sprintf f' args'
      | [] => "%!s(MISSING)" +:+ Sprintf f' []
      end
  | String c f' => String c (Sprintf f' args)
  | EmptyString => EmptyString
  end.
