(* ===== verification/GoTime.v ===== *)
(** * Time of the Go standard library

    [time.Time], [time.Duration] and the RFC3339 layout, as far as the queue
    uses them: [Now], [UTC], [Add], [Sub]/[Since]/[Until], [After],
    [Format(time.RFC3339)] and [Parse(time.RFC3339, ...)]. An instant is a
    number of nanoseconds since 1970-01-01T00:00:00Z with the offset of the
    zone it is displayed in; the calendar is the proleptic Gregorian one. *)

From stdpp Require Import base strings list.
From Stdlib Require Import ZArith Lia Ascii.
From S2P Require Import Prelude GoString.

Open Scope Z_scope.

Record gotime := mkTime { t_ns : Z; t_off : Z }.

#[export] Instance gotime_eq_dec : EqDecision gotime.
Proof. solve_decision. Defined.

(** The zero [time.Time], 0001-01-01T00:00:00Z. *)
Definition zeroTime : gotime := mkTime (-62135596800000000000) 0.

(** ** Durations *)

Definition Duration := Z.
Definition Second : Duration := 1000000000.

(** [time.Duration(n) * time.Second], with the wrap-around of [int64]. *)
Definition seconds (n : Z) : Duration := wrap64 (n * Second).

Lemma seconds_small n : -9223372036 <= n <= 9223372036 -> seconds n = n * Second.
Proof.
  intros H. unfold seconds. apply wrap64_id.
  unfold in_int64, two63, Second. lia.
Qed.

Definition UTC (t : gotime) : gotime := mkTime (t_ns t) 0.

Definition Add (t : gotime) (d : Duration) : gotime := mkTime (t_ns t + d) (t_off t).

(** [t.Sub(u)] saturates at the extreme durations. *)
Definition saturate (z : Z) : Duration := Z.max (- two63) (Z.min (two63 - 1) z).
Definition Sub (t u : gotime) : Duration := saturate (t_ns t - t_ns u).

Definition After (t u : gotime) : bool := t_ns u <? t_ns t.

(** ** The calendar *)

(** Days since the epoch to year, month and day, and back, counting years
    from the first of March of year 0 in cycles of 400 years. *)
Definition yoe_of (doe : Z) : Z := (doe - doe / 1460 + doe / 36524 - doe / 146096) / 365.
Definition doy_of (doe : Z) : Z :=
  let yoe := yoe_of doe in doe - (365 * yoe + yoe / 4 - yoe / 100).

Definition civil_of_days (days : Z) : Z * Z * Z :=
  let z := days + 719468 in
  let era := z / 146097 in
  let doe := z mod 146097 in
  let yoe := yoe_of doe in
  let doy := doy_of doe in
  let mp := (5 * doy + 2) / 153 in
  let d := doy - (153 * mp + 2) / 5 + 1 in
  let m := if mp <? 10 then mp + 3 else mp - 9 in
  (yoe + era * 400 + (if m <=? 2 then 1 else 0), m, d).

Definition days_of_civil (y m d : Z) : Z :=
  let y' := y - (if m <=? 2 then 1 else 0) in
  let era := y' / 400 in
  let yoe := y' mod 400 in
  let mp := if 2 <? m then m - 3 else m + 9 in
  let doy := (153 * mp + 2) / 5 + d - 1 in
  let doe := yoe * 365 + yoe / 4 - yoe / 100 + doy in
  era * 146097 + doe - 719468.

Definition isLeap (y : Z) : bool :=
  (y mod 4 =? 0) && (negb (y mod 100 =? 0) || (y mod 400 =? 0)).

Definition daysIn (m y : Z) : Z :=
  if m =? 2 then (if isLeap y then 29 else 28)
  else if (m =? 4) || (m =? 6) || (m =? 9) || (m =? 11) then 30 else 31.

(** The start of the year [yoe] of a cycle. *)
Definition year_start (yoe : Z) : Z := 365 * yoe + yoe / 4 - yoe / 100.

Lemma yoe_range doe : 0 <= doe < 146097 -> 0 <= yoe_of doe < 400.
Proof. intros H. unfold yoe_of. zlia. Qed.

Lemma doy_nonneg doe : 0 <= doe < 146097 -> 0 <= doy_of doe.
Proof.
  intros H. unfold doy_of, yoe_of.
  zlia.
Qed.

Lemma doy_bound doe : 0 <= doe < 146097 -> doy_of doe <= 365.
Proof.
  intros H. unfold doy_of, yoe_of.
  zlia.
Qed.

Lemma doy_leap doe :
  0 <= doe < 146097 -> doy_of doe = 365 ->
  isLeap (yoe_of doe + 1) = true.
Proof.
  intros H E. unfold isLeap. unfold doy_of, yoe_of in *.
  set (y := (doe - doe / 1460 + doe / 36524 - doe / 146096) / 365) in *.
  assert ((y + 1) mod 4 = 0 /\ ((y + 1) mod 100 <> 0 \/ (y + 1) mod 400 = 0))
    as [-> H2] by (subst y; zlia).
  destruct ((y + 1) mod 100 =? 0) eqn:E1, ((y + 1) mod 400 =? 0) eqn:E2;
    bool_facts; lia || done.
Qed.

Lemma isLeap_period y k : isLeap (y + k * 400) = isLeap y.
Proof.
  unfold isLeap.
  replace ((y + k * 400) mod 4) with (y mod 4) by (zlia).
  replace ((y + k * 400) mod 100) with (y mod 100) by (zlia).
  replace ((y + k * 400) mod 400) with (y mod 400) by (zlia).
  done.
Qed.

(** Every day has a valid date, and the date gives the day back. *)
Lemma civil_of_days_valid days y m d :
  civil_of_days days = (y, m, d) -> 1 <= m <= 12 /\ 1 <= d <= daysIn m y.
Proof.
  unfold civil_of_days. intros [= <- <- <-].
  set (doe := (days + 719468) mod 146097).
  assert (Hdoe : 0 <= doe < 146097) by (apply Z.mod_pos_bound; lia).
  pose proof (doy_nonneg doe Hdoe) as Hd0. pose proof (doy_bound doe Hdoe) as Hd1.
  pose proof (doy_leap doe Hdoe) as Hl.
  set (era := (days + 719468) / 146097). set (y := yoe_of doe) in *.
  set (k := doy_of doe) in *. clearbody era y k. clear Hdoe.
  assert (Hmp : 0 <= (5 * k + 2) / 153 <= 11) by (zlia).
  assert (Hk : 0 <= k - (153 * ((5 * k + 2) / 153) + 2) / 5) by (zlia).
  remember ((5 * k + 2) / 153) as mp eqn:Emp.
  assert (Hup : 153 * mp <= 5 * k + 2 < 153 * mp + 153)
    by (subst mp; zlia).
  clear Emp. split; [destruct (Z.ltb_spec mp 10); lia|].
  assert (Hcases : mp = 0 \/ mp = 1 \/ mp = 2 \/ mp = 3 \/ mp = 4 \/ mp = 5 \/
    mp = 6 \/ mp = 7 \/ mp = 8 \/ mp = 9 \/ mp = 10 \/ mp = 11) by lia.
  repeat destruct Hcases as [->|Hcases]; [..|subst mp];
    cbv [Z.ltb Z.compare Pos.compare Pos.compare_cont];
    match goal with |- context [daysIn ?m _] =>
      let v := eval vm_compute in m in change m with v end;
    cbv [daysIn Z.eqb Pos.eqb orb Z.leb Z.compare Pos.compare Pos.compare_cont];
    try zlia.
  replace (y + era * 400 + 1) with (y + 1 + era * 400) by lia.
  rewrite isLeap_period.
  destruct (isLeap (y + 1)) eqn:E; [zlia|].
  assert (k <> 365) by (intros Hk5; specialize (Hl Hk5); congruence). zlia.
Qed.

Lemma days_of_civil_of_days days y m d :
  civil_of_days days = (y, m, d) -> days_of_civil y m d = days.
Proof.
  unfold civil_of_days. intros [= <- <- <-].
  set (doe := (days + 719468) mod 146097).
  assert (Hdoe : 0 <= doe < 146097) by (apply Z.mod_pos_bound; lia).
  pose proof (doy_nonneg doe Hdoe) as Hd0. pose proof (doy_bound doe Hdoe) as Hd1.
  pose proof (yoe_range doe Hdoe) as Hy.
  assert (Hdoy : doy_of doe = doe - year_start (yoe_of doe)) by done.
  assert (Hdays : days = (days + 719468) / 146097 * 146097 + doe - 719468)
    by (subst doe; zlia).
  set (era := (days + 719468) / 146097) in *. set (yo := yoe_of doe) in *.
  set (k := doy_of doe) in *. clearbody doe era yo k. subst days.
  assert (Hmp : 0 <= (5 * k + 2) / 153 <= 11) by (zlia).
  set (mp := (5 * k + 2) / 153) in *. clearbody mp.
  unfold days_of_civil.
  set (m := if mp <? 10 then mp + 3 else mp - 9).
  assert (Hm : (if 2 <? m then m - 3 else m + 9) = mp).
  { subst m. destruct (Z.ltb_spec mp 10).
    - destruct (Z.ltb_spec 2 (mp + 3)); lia.
    - destruct (Z.ltb_spec 2 (mp - 9)); lia. }
  rewrite Hm.
  replace (yo + era * 400 + (if m <=? 2 then 1 else 0) - (if m <=? 2 then 1 else 0))
    with (yo + era * 400) by lia.
  rewrite Z.div_add, Z.mod_add by lia.
  rewrite (Z.div_small yo 400), (Z.mod_small yo 400) by lia.
  unfold year_start in *. lia.
Qed.

(** ** Format(time.RFC3339) *)

Definition digit (d : Z) : ascii := ascii_of_N (48 + Z.to_N d).

(** Exactly [w] decimal digits. *)
Fixpoint fixed_digits (w : nat) (x : Z) : string :=
  match w with
  | O => EmptyString
  | S w' => fixed_digits w' (x / 10) +:+ String (digit (x mod 10)) EmptyString
  end.

(** [appendInt(b, x, width)]: a sign when negative, padded with zeros. *)
Definition appendInt (x : Z) (w : nat) : string :=
  let a := Z.abs x in
  (if x <? 0 then "-" else EmptyString) +:+
  (if a <? 10 ^ Z.of_nat w then fixed_digits w a else Itoa a).

Definition format_zone (off : Z) : string :=
  if off =? 0 then "Z"
  else
    let zone := Z.quot off 60 in
    (if zone <? 0 then "-" else "+") +:+
    appendInt (Z.abs zone / 60) 2 +:+ ":" +:+ appendInt (Z.abs zone mod 60) 2.

(** The layout with a fraction of the second after the seconds. *)
Definition format_frac (frac : string) (t : gotime) : string :=
  let l := t_ns t / Second + t_off t in
  let sod := l mod 86400 in
  let '(y, m, d) := civil_of_days (l / 86400) in
  appendInt y 4 +:+ "-" +:+ appendInt m 2 +:+ "-" +:+ appendInt d 2 +:+ "T" +:+
  appendInt (sod / 3600) 2 +:+ ":" +:+ appendInt (sod mod 3600 / 60) 2 +:+ ":" +:+
  appendInt (sod mod 60) 2 +:+ frac +:+ format_zone (t_off t).

Definition Format (t : gotime) : string := format_frac EmptyString t.

(** The [w] last digits of [x] without the zeros at their end. *)
Fixpoint trimmed_digits (w : nat) (x : Z) : string :=
  match w with
  | O => EmptyString
  | S w' => if x mod 10 =? 0 then trimmed_digits w' (x / 10) else fixed_digits w x
  end.

(** [Format(time.RFC3339Nano)]: the fraction is left out when it is zero. *)
Definition FormatNano (t : gotime) : string :=
  let ns := t_ns t mod Second in
  format_frac (if ns =? 0 then EmptyString else "." +:+ trimmed_digits 9 ns) t.

(** ** Parse(time.RFC3339, value) *)

Definition isDigit (c : ascii) : bool :=
  let n := N_of_ascii c in ((48 <=? n) && (n <=? 57))%N.
Definition dval (c : ascii) : Z := Z.of_N (N_of_ascii c) - 48.

(** [getnum]: two digits, or one when [fixed] is false. *)
Definition getnum (s : string) (fixed : bool) : option (Z * string) :=
  match s with
  | String a s1 =>
      if isDigit a then
        match s1 with
        | String b s2 =>
            if isDigit b then Some (dval a * 10 + dval b, s2)
            else if fixed then None else Some (dval a, s1)
        | EmptyString => if fixed then None else Some (dval a, s1)
        end
      else None
  | EmptyString => None
  end.

Definition skip (c : ascii) (s : string) : option string :=
  match s with
  | String x s' => if Ascii.eqb x c then Some s' else None
  | EmptyString => None
  end.

Definition get_year (s : string) : option (Z * string) :=
  match s with
  | String a (String b (String c (String d s'))) =>
      if isDigit a && isDigit b && isDigit c && isDigit d
      then Some (dval a * 1000 + dval b * 100 + dval c * 10 + dval d, s') else None
  | _ => None
  end.

(** The fraction after the seconds, which the layout does not have but the
    parser accepts: all its digits are consumed, nine of them count. *)
Fixpoint frac_digits (n : nat) (s : string) (scale acc : Z) : Z * string :=
  match s with
  | String c s' =>
      if isDigit c then
        match n with
        | O => frac_digits O s' scale acc
        | S n' => frac_digits n' s' (scale / 10) (acc + dval c * scale)
        end
      else (acc, s)
  | EmptyString => (acc, s)
  end.

Definition get_fraction (s : string) : Z * string :=
  match s with
  | String p (String d s') =>
      if (Ascii.eqb p "." || Ascii.eqb p ",") && isDigit d
      then frac_digits 9 (String d s') 100000000 0 else (0, s)
  | _ => (0, s)
  end.

(** The zone: [Z], or a sign with hours and minutes; nothing may follow. *)
Definition get_zone (s : string) : option Z :=
  match s with
  | String "Z" EmptyString => Some 0
  | String sg (String h1 (String h2 (String ":" (String m1 (String m2 EmptyString))))) =>
      if isDigit h1 && isDigit h2 && isDigit m1 && isDigit m2 then
        let hr := dval h1 * 10 + dval h2 in
        let mm := dval m1 * 10 + dval m2 in
        if (24 <? hr) || (60 <? mm) then None
        else if Ascii.eqb sg "+" then Some ((hr * 60 + mm) * 60)
        else if Ascii.eqb sg "-" then Some (- ((hr * 60 + mm) * 60))
        else None
      else None
  | _ => None
  end.

Definition guard_opt (b : bool) : option unit := if b then Some tt else None.

Definition Parse (s : string) : option gotime :=
  '(y, s) ← get_year s; s ← skip "-" s;
  '(mo, s) ← getnum s true; guard_opt ((1 <=? mo) && (mo <=? 12)) ≫= λ _,
  s ← skip "-" s; '(d, s) ← getnum s true; s ← skip "T" s;
  '(h, s) ← getnum s false; guard_opt (h <? 24) ≫= λ _, s ← skip ":" s;
  '(mi, s) ← getnum s true; guard_opt (mi <? 60) ≫= λ _, s ← skip ":" s;
  '(se, s) ← getnum s true; guard_opt (se <? 60) ≫= λ _,
  let '(ns, s) := get_fraction s in
  off ← get_zone s;
  guard_opt ((1 <=? d) && (d <=? daysIn mo y)) ≫= λ _,
  let secs := days_of_civil y mo d * 86400 + h * 3600 + mi * 60 + se - off in
  Some (mkTime (secs * Second + ns) off).

(** ** Parsing what was formatted *)

Lemma digit_cases d (P : ascii -> Z -> Prop) :
  0 <= d < 10 -> (forall n, (n < 10)%nat -> P (digit (Z.of_nat n)) (Z.of_nat n)) -> P (digit d) d.
Proof.
  intros Hd H. rewrite <- (Z2Nat.id d) by lia. apply H. lia.
Qed.

Lemma isDigit_digit d : 0 <= d < 10 -> isDigit (digit d) = true.
Proof.
  intros Hd. apply (digit_cases d (fun c _ => isDigit c = true)); [done|].
  intros n Hn. do 10 (destruct n as [|n]; [reflexivity|]). lia.
Qed.

Lemma dval_digit d : 0 <= d < 10 -> dval (digit d) = d.
Proof.
  intros Hd. apply (digit_cases d (fun c z => dval c = z)); [done|].
  intros n Hn. do 10 (destruct n as [|n]; [reflexivity|]). lia.
Qed.

Lemma appendInt_2 x : 0 <= x < 100 ->
  appendInt x 2 = String (digit (x / 10)) (String (digit (x mod 10)) EmptyString).
Proof.
  intros H. unfold appendInt. rewrite (Z.abs_eq x) by lia.
  destruct (Z.ltb_spec x 0); [lia|].
  destruct (Z.ltb_spec x (10 ^ Z.of_nat 2)); [|simpl in *; lia].
  cbn. by rewrite (Z.mod_small (x / 10) 10) by zlia.
Qed.

Lemma appendInt_4 x : 0 <= x < 10000 ->
  appendInt x 4 =
    String (digit (x / 1000)) (String (digit (x / 100 mod 10))
      (String (digit (x / 10 mod 10)) (String (digit (x mod 10)) EmptyString))).
Proof.
  intros H. unfold appendInt. rewrite (Z.abs_eq x) by lia.
  destruct (Z.ltb_spec x 0); [lia|].
  destruct (Z.ltb_spec x (10 ^ Z.of_nat 4)); [|simpl in *; lia].
  cbn. rewrite !Z.div_div by lia.
  change (10 * (10 * 10)) with 1000. change (10 * 10) with 100.
  by rewrite (Z.mod_small (x / 1000) 10) by zlia.
Qed.

Lemma getnum_appendInt x s fixed :
  0 <= x < 100 -> getnum (appendInt x 2 +:+ s) fixed = Some (x, s).
Proof.
  intros H. rewrite appendInt_2 by done. cbn.
  rewrite !isDigit_digit, !dval_digit by zlia. do 2 f_equal. zlia.
Qed.

Lemma get_year_appendInt y s :
  0 <= y < 10000 -> get_year (appendInt y 4 +:+ s) = Some (y, s).
Proof.
  intros H. rewrite appendInt_4 by done. cbn.
  rewrite !isDigit_digit, !dval_digit by zlia. cbn. do 2 f_equal. zlia.
Qed.

(** Offsets that RFC3339 can show: whole minutes, less than a day. *)
Definition zone_ok (off : Z) : Prop := off mod 60 = 0 /\ -86400 < off < 86400.

Lemma quot_minutes off : zone_ok off -> exists z, off = z * 60 /\ Z.quot off 60 = z /\ -1440 < z < 1440.
Proof.
  intros [Hm Hr]. exists (off / 60). split; [zlia|]. split; [|zlia].
  assert (off = off / 60 * 60) as E by zlia. rewrite E at 1.
  by rewrite Z.quot_mul by lia.
Qed.

Lemma get_zone_format off : zone_ok off -> get_zone (format_zone off) = Some off.
Proof.
  intros Hok. unfold format_zone. destruct (Z.eqb_spec off 0) as [->|H0]; [done|].
  destruct (quot_minutes off Hok) as (z & -> & -> & Hz).
  assert (Hh : 0 <= Z.abs z / 60 < 24) by zlia.
  assert (Hmin : 0 <= Z.abs z mod 60 < 60) by zlia.
  assert (Hz' : Z.abs z = Z.abs z / 60 * 60 + Z.abs z mod 60) by zlia.
  rewrite !appendInt_2 by lia.
  revert Hh Hmin Hz'. generalize (Z.abs z / 60) (Z.abs z mod 60). intros h m Hh Hm E.
  destruct (Z.ltb_spec z 0); cbn;
    rewrite !isDigit_digit, !dval_digit by zlia; cbn;
    replace (h / 10 * 10 + h mod 10) with h by zlia;
    replace (m / 10 * 10 + m mod 10) with m by zlia;
    destruct (Z.ltb_spec 24 h); try lia; destruct (Z.ltb_spec 60 m); try lia; cbn;
    f_equal; lia.
Qed.

Lemma get_fraction_zone off : get_fraction (format_zone off) = (0, format_zone off).
Proof.
  unfold format_zone. destruct (off =? 0); [done|].
  destruct (Z.quot off 60 <? 0); cbn; by destruct (appendInt _ 2 +:+ _).
Qed.

(** The year a time is displayed in. *)
Definition Year (t : gotime) : Z :=
  fst (fst (civil_of_days ((t_ns t / Second + t_off t) / 86400))).

(** Times RFC3339 can show without loss beyond the second. *)
Definition rfc3339_ok (t : gotime) : Prop := 0 <= Year t < 10000 /\ zone_ok (t_off t).

Lemma guard_opt_true (A : Type) b (k : unit -> option A) : b = true -> guard_opt b ≫= k = k tt.
Proof. by intros ->. Qed.

(** [Parse] reads the second back, and the fraction that it finds. *)
Lemma Parse_format_frac frac ns t :
  rfc3339_ok t -> get_fraction (frac +:+ format_zone (t_off t)) = (ns, format_zone (t_off t)) ->
  Parse (format_frac frac t) = Some (mkTime (t_ns t / Second * Second + ns) (t_off t)).
Proof.
  intros [Hy Hz] Hfrac. unfold Year in Hy. unfold format_frac.
  set (l := t_ns t / Second + t_off t) in *.
  destruct (civil_of_days (l / 86400)) as [[y m] d] eqn:E. cbn in Hy.
  pose proof (civil_of_days_valid _ _ _ _ E) as [Hm Hd].
  assert (daysIn m y <= 31) by (unfold daysIn; repeat case_match; lia).
  assert (Hsod : 0 <= l mod 86400 < 86400) by zlia.
  set (sod := l mod 86400) in *.
  unfold Parse. rewrite get_year_appendInt by lia. cbn.
  rewrite getnum_appendInt by lia. cbn. rewrite guard_opt_true by lia. cbn.
  rewrite getnum_appendInt by lia. cbn. rewrite getnum_appendInt by zlia. cbn.
  rewrite guard_opt_true by zlia. cbn. rewrite getnum_appendInt by zlia. cbn.
  rewrite guard_opt_true by zlia. cbn. rewrite getnum_appendInt by zlia. cbn.
  rewrite guard_opt_true by zlia. rewrite Hfrac.
  rewrite get_zone_format by done. cbn. rewrite guard_opt_true by lia.
  rewrite (days_of_civil_of_days _ _ _ _ E). do 2 f_equal.
  assert (l = l / 86400 * 86400 + sod) by (subst sod; zlia).
  assert (sod = sod / 3600 * 3600 + sod mod 3600 / 60 * 60 + sod mod 60) by zlia.
  subst l. lia.
Qed.

(** [Parse] after [Format] is truncation to the second. *)
Lemma Parse_Format t :
  rfc3339_ok t -> Parse (Format t) = Some (mkTime (t_ns t / Second * Second) (t_off t)).
Proof.
  intros H. unfold Format. rewrite (Parse_format_frac _ 0); [by rewrite Z.add_0_r|done|].
  apply get_fraction_zone.
Qed.

(** Reading a fraction of [w] digits. *)
Lemma frac_fixed w n x z p acc :
  (w <= n)%nat -> 0 <= x < 10 ^ Z.of_nat w -> Z.of_nat w <= p + 1 ->
  frac_digits n (fixed_digits w x +:+ z) (10 ^ p) acc =
  frac_digits (n - w) z (10 ^ p / 10 ^ Z.of_nat w) (acc + x * 10 ^ (p + 1 - Z.of_nat w)).
Proof.
  revert x z. induction w as [|w IH]; intros x z Hn Hx Hp.
  { change (Z.of_nat 0) with 0 in *. change (10 ^ 0) with 1 in *.
    replace x with 0 by lia. cbn [fixed_digits]. rewrite Z.div_1_r, Z.mul_0_l, Z.add_0_r.
    by rewrite Nat.sub_0_r. }
  rewrite Nat2Z.inj_succ, Z.pow_succ_r in * by lia.
  cbn [fixed_digits]. rewrite append_assoc, IH by (try lia; zlia).
  replace (n - w)%nat with (S (n - S w))%nat by lia. cbn [String.append frac_digits].
  rewrite isDigit_digit, dval_digit by zlia. f_equal.
  - rewrite Z.div_div by lia. f_equal. lia.
  - replace (10 ^ p / 10 ^ Z.of_nat w) with (10 ^ (p - Z.of_nat w))
      by (symmetry; rewrite <- Z.pow_sub_r by lia; done).
    replace (p + 1 - Z.of_nat w) with (Z.succ (p - Z.of_nat w)) by lia.
    rewrite Z.pow_succ_r by lia. replace (p + 1 - Z.succ (Z.of_nat w)) with (p - Z.of_nat w) by lia.
    assert (x = x / 10 * 10 + x mod 10) by zlia. nia.
Qed.

Lemma frac_trimmed w n x z p :
  (w <= n)%nat -> 0 < x < 10 ^ Z.of_nat w -> Z.of_nat w <= p + 1 ->
  (match z with String c _ => isDigit c = false | EmptyString => True end) ->
  frac_digits n (trimmed_digits w x +:+ z) (10 ^ p) 0 = (x * 10 ^ (p + 1 - Z.of_nat w), z).
Proof.
  revert x. induction w as [|w IH]; intros x Hn Hx Hp Hz.
  { change (10 ^ Z.of_nat 0) with 1 in Hx. lia. }
  cbn [trimmed_digits]. destruct (Z.eqb_spec (x mod 10) 0) as [H0|H0].
  - rewrite Nat2Z.inj_succ, Z.pow_succ_r in * by lia.
    rewrite IH by (try lia; try done; zlia). f_equal.
    replace (p + 1 - Z.of_nat w) with (Z.succ (p + 1 - Z.succ (Z.of_nat w))) by lia.
    rewrite Z.pow_succ_r by lia. assert (x = x / 10 * 10) by zlia. nia.
  - rewrite frac_fixed by lia. rewrite Z.add_0_l.
    destruct z as [|c z]; cbn [frac_digits]; [by destruct (n - S w)%nat|by rewrite Hz].
Qed.

Lemma trimmed_first w x : 0 < x < 10 ^ Z.of_nat w ->
  exists d s, trimmed_digits w x = String d s /\ isDigit d = true.
Proof.
  assert (Hf : forall w y, 0 <= y -> exists d s, fixed_digits (S w) y = String d s /\ isDigit d = true).
  { intros w'. induction w' as [|w' IH]; intros y Hy.
    - eexists _, _. split; [reflexivity|]. apply isDigit_digit. zlia.
    - destruct (IH (y / 10)) as (d & s & E & Hd); [zlia|]. cbn [fixed_digits] in E |- *.
      rewrite E. by exists d, (s +:+ String (digit (y mod 10)) EmptyString). }
  revert x. induction w as [|w IH]; intros x Hx; [change (10 ^ Z.of_nat 0) with 1 in Hx; lia|].
  cbn [trimmed_digits]. destruct (Z.eqb_spec (x mod 10) 0); [|apply Hf; lia].
  rewrite Nat2Z.inj_succ, Z.pow_succ_r in Hx by lia. apply IH. zlia.
Qed.

(** [Parse] after [Format(RFC3339Nano)] is the time itself. *)
Lemma Parse_FormatNano t : rfc3339_ok t -> Parse (FormatNano t) = Some t.
Proof.
  intros H. unfold FormatNano. assert (Hns : 0 <= t_ns t mod Second < Second) by (unfold Second; zlia).
  assert (Ht : forall ns, ns = t_ns t mod Second ->
    Some (mkTime (t_ns t / Second * Second + ns) (t_off t)) = Some t).
  { intros ns ->. destruct t as [a b]. cbn [t_ns t_off]. do 2 f_equal. unfold Second. zlia. }
  destruct (Z.eqb_spec (t_ns t mod Second) 0) as [E|E].
  { rewrite (Parse_format_frac _ 0); [by apply Ht|done|apply get_fraction_zone]. }
  rewrite (Parse_format_frac _ (t_ns t mod Second)); [by apply Ht|done|].
  destruct (trimmed_first 9 (t_ns t mod Second)) as (d & s & Ed & Hd); [cbn; unfold Second in *; lia|].
  unfold get_fraction. rewrite append_assoc. cbn [String.append]. rewrite Ed. cbn [String.append].
  cbn [Ascii.eqb Bool.eqb orb andb]. rewrite Hd. cbn [andb].
  change (String d (s +:+ format_zone (t_off t))) with (String d s +:+ format_zone (t_off t)).
  rewrite <- Ed. change 100000000 with (10 ^ 8).
  rewrite frac_trimmed; [|lia|cbn; unfold Second in *; lia|lia|].
  - cbn. by rewrite Z.mul_1_r.
  - unfold format_zone. destruct (t_off t =? 0); [done|]. by destruct (Z.quot (t_off t) 60 <? 0).
Qed.

(** Times of an era that leaves room for any duration on both sides. *)
Definition epoch_ok (t : gotime) : Prop :=
  0 <= t_ns t < 200000000000 * Second /\ zone_ok (t_off t).

Lemma rfc3339_ok_range t :
  -10000000000 * Second <= t_ns t < 240000000000 * Second -> zone_ok (t_off t) -> rfc3339_ok t.
Proof.
  intros H Hz. split; [|done]. unfold Year.
  assert (Hl : -10000086400 <= t_ns t / Second + t_off t < 240000086400).
  { destruct Hz as [_ Hz]. unfold Second in *. zlia. }
  set (l := t_ns t / Second + t_off t) in *. clearbody l.
  unfold civil_of_days. cbn [fst].
  pose proof (yoe_range ((l / 86400 + 719468) mod 146097)) as Hy.
  set (yo := yoe_of _) in *. clearbody yo.
  specialize (Hy ltac:(apply Z.mod_pos_bound; lia)).
  assert (0 <= (l / 86400 + 719468) / 146097 <= 23) by zlia.
  case_match; lia.
Qed.

Lemma epoch_ok_Add t d : epoch_ok t -> in_int64 d -> rfc3339_ok (Add t d).
Proof.
  intros [H Hz] Hd. apply rfc3339_ok_range; [|done].
  unfold in_int64, two63, Second in *. simpl. lia.
Qed.

Lemma epoch_ok_rfc t : epoch_ok t -> rfc3339_ok t.
Proof. intros [H Hz]. apply rfc3339_ok_range; [|done]. unfold Second in *. lia. Qed.

Lemma epoch_ok_UTC t : epoch_ok t -> epoch_ok (UTC t).
Proof. intros [H Hz]. split; [done|]. by split. Qed.

#[export] Hint Resolve epoch_ok_Add epoch_ok_rfc epoch_ok_UTC : adele.

#[export] Hint Rewrite Parse_Format using done : adele.
