(* ===== verification/Types.v ===== *)
(** * Data of the queue (api/types.go)

    [Configuration], the read-only part of [Queue], [Job], the handler
    registry entries, and the signature of the handlers an application
    supplies. The mutable parts of [Queue] are fields of the world of
    Effects.v. *)

From stdpp Require Import base strings list.
From Stdlib Require Import ZArith.
From S2P Require Import Prelude GoString GoTime.

Open Scope Z_scope.

(** ** Handlers

    Handlers are functions of the application: the types of plain and
    context-aware handlers, the application state they act on and what a
    call does are parameters. A call returns nil, returns an error with its
    message, or panics with a value printed as a message. A context-aware
    handler also sees whether the lifecycle context is cancelled. *)

Inductive outcome :=
| HOk
| HErr (msg : string)
| HPanic (msg : string).

#[export] Instance outcome_eq_dec : EqDecision outcome.
Proof. solve_decision. Defined.

Class HandlerSig := {
  handler_t : Type;
  ctxhandler_t : Type;
  app_t : Type;
  invoke : handler_t -> option string -> app_t -> outcome * app_t;
  invoke_ctx : ctxhandler_t -> bool -> option string -> app_t -> outcome * app_t;
}.

(** ** Texts of the standard library

    [unicode.ToLower] on strings with bytes outside ASCII, the quoting of
    [%q], which keeps printable runes, and the message of a time that does
    not parse. *)
Class UnicodeTables := {
  uni_ToLower : string -> string;
  uni_Quote : string -> string;
  time_ParseError : string -> string;
}.

(** ** Configuration *)

Record Configuration := mkConfiguration {
  c_Backend : string;
  c_WorkerCount : Z;
  c_MaxAttempts : Z;
  c_HighWaterMark : Z;
  c_QueueChannels : list string;
  c_QueueChannelDefault : string;
  c_Debug : bool;
  c_RedisPrefix : string;
  c_RedisScanInterval : Z;
  c_LockTimeout : Z;
  c_ReaperInterval : Z;
}.

#[export] Instance Configuration_eq_dec : EqDecision Configuration.
Proof. solve_decision. Defined.

(** The zero value of the struct. *)
Definition zeroConfiguration : Configuration :=
  mkConfiguration EmptyString 0 0 0 [] EmptyString false EmptyString 0 0 0.

(** ** Redis and Queue *)

(** [Pool] is a pointer of the redis client: only whether it is nil is a
    fact of this package. *)
Record Redis := mkRedis {
  r_Pool : bool;
  r_Prefix : string;
  r_ScanInterval : Z;
}.

(** The fields of [Queue] that no operation writes after [buildQueue];
    [q_DB] says whether a database session is wired. *)
Record Queue := mkQueue {
  q_Backend : string;
  q_Debug : bool;
  q_WorkerCount : Z;
  q_MaxAttempts : Z;
  q_HighWaterMark : Z;
  q_QueueChannels : list string;
  q_QueueChannelDefault : string;
  q_LockTimeout : Z;
  q_ReaperInterval : Z;
  q_Redis : Redis;
  q_DB : bool;
}.

(** ** ReaperStats (api/reaper.go)

    The package-level counters, in the order of the struct. *)
Record ReaperStats := mkReaperStats {
  rs_Ticks : Z;
  rs_ScannedKeys : Z;
  rs_Requeued : Z;
  rs_Permafailed : Z;
  rs_SkippedRecent : Z;
  rs_SkippedDupePending : Z;
  rs_Errors : Z;
}.

#[export] Instance ReaperStats_eq_dec : EqDecision ReaperStats.
Proof. solve_decision. Defined.

Definition zeroStats : ReaperStats := mkReaperStats 0 0 0 0 0 0 0.

(** ** registeredHandler *)

Section Data.
Context {HS : HandlerSig}.

Record registeredHandler := mkRegistered {
  rh_plain : option handler_t;
  rh_ctx : option ctxhandler_t;
}.

(** ** Job

    A nil [Payload] is [None]. *)
Record Job := mkJob {
  j_ID : string;
  j_Handler : option handler_t;
  j_Name : string;
  j_Payload : option string;
  j_Retry : bool;
  j_RetryInSeconds : Z;
  j_RetryCounter : Z;
  j_ReservedAt : string;
  j_RetryAfter : string;
  j_DispatchAt : string;
  j_CompletedAt : string;
  j_FailedAt : string;
  j_LockedAt : string;
  j_LockFor : Z;
  j_Queue : string;
  j_CreatedAt : gotime;
  j_UpdatedAt : gotime;
  j_Exception : string;
  j_Status : string;
}.

(** The zero value of the struct. *)
Definition zeroJob : Job :=
  mkJob EmptyString None EmptyString None false 0 0 EmptyString EmptyString
    EmptyString EmptyString EmptyString EmptyString 0 EmptyString zeroTime zeroTime
    EmptyString EmptyString.

(** Assignments to one field. *)
Definition set_ID (v : string) (j : Job) : Job :=
  mkJob v (j_Handler j) (j_Name j) (j_Payload j) (j_Retry j)
    (j_RetryInSeconds j) (j_RetryCounter j) (j_ReservedAt j) (j_RetryAfter
    j) (j_DispatchAt j) (j_CompletedAt j) (j_FailedAt j) (j_LockedAt j)
    (j_LockFor j) (j_Queue j) (j_CreatedAt j) (j_UpdatedAt j) (j_Exception
    j) (j_Status j).

Definition set_Handler (v : option handler_t) (j : Job) : Job :=
  mkJob (j_ID j) v (j_Name j) (j_Payload j) (j_Retry j) (j_RetryInSeconds j)
    (j_RetryCounter j) (j_ReservedAt j) (j_RetryAfter j) (j_DispatchAt j)
    (j_CompletedAt j) (j_FailedAt j) (j_LockedAt j) (j_LockFor j) (j_Queue
    j) (j_CreatedAt j) (j_UpdatedAt j) (j_Exception j) (j_Status j).

Definition set_Name (v : string) (j : Job) : Job :=
  mkJob (j_ID j) (j_Handler j) v (j_Payload j) (j_Retry j) (j_RetryInSeconds
    j) (j_RetryCounter j) (j_ReservedAt j) (j_RetryAfter j) (j_DispatchAt j)
    (j_CompletedAt j) (j_FailedAt j) (j_LockedAt j) (j_LockFor j) (j_Queue
    j) (j_CreatedAt j) (j_UpdatedAt j) (j_Exception j) (j_Status j).

Definition set_Payload (v : option string) (j : Job) : Job :=
  mkJob (j_ID j) (j_Handler j) (j_Name j) v (j_Retry j) (j_RetryInSeconds j)
    (j_RetryCounter j) (j_ReservedAt j) (j_RetryAfter j) (j_DispatchAt j)
    (j_CompletedAt j) (j_FailedAt j) (j_LockedAt j) (j_LockFor j) (j_Queue
    j) (j_CreatedAt j) (j_UpdatedAt j) (j_Exception j) (j_Status j).

Definition set_Retry (v : bool) (j : Job) : Job :=
  mkJob (j_ID j) (j_Handler j) (j_Name j) (j_Payload j) v (j_RetryInSeconds
    j) (j_RetryCounter j) (j_ReservedAt j) (j_RetryAfter j) (j_DispatchAt j)
    (j_CompletedAt j) (j_FailedAt j) (j_LockedAt j) (j_LockFor j) (j_Queue
    j) (j_CreatedAt j) (j_UpdatedAt j) (j_Exception j) (j_Status j).

Definition set_RetryCounter (v : Z) (j : Job) : Job :=
  mkJob (j_ID j) (j_Handler j) (j_Name j) (j_Payload j) (j_Retry j)
    (j_RetryInSeconds j) v (j_ReservedAt j) (j_RetryAfter j) (j_DispatchAt
    j) (j_CompletedAt j) (j_FailedAt j) (j_LockedAt j) (j_LockFor j)
    (j_Queue j) (j_CreatedAt j) (j_UpdatedAt j) (j_Exception j) (j_Status j).

Definition set_ReservedAt (v : string) (j : Job) : Job :=
  mkJob (j_ID j) (j_Handler j) (j_Name j) (j_Payload j) (j_Retry j)
    (j_RetryInSeconds j) (j_RetryCounter j) v (j_RetryAfter j) (j_DispatchAt
    j) (j_CompletedAt j) (j_FailedAt j) (j_LockedAt j) (j_LockFor j)
    (j_Queue j) (j_CreatedAt j) (j_UpdatedAt j) (j_Exception j) (j_Status j).

Definition set_RetryAfter (v : string) (j : Job) : Job :=
  mkJob (j_ID j) (j_Handler j) (j_Name j) (j_Payload j) (j_Retry j)
    (j_RetryInSeconds j) (j_RetryCounter j) (j_ReservedAt j) v (j_DispatchAt
    j) (j_CompletedAt j) (j_FailedAt j) (j_LockedAt j) (j_LockFor j)
    (j_Queue j) (j_CreatedAt j) (j_UpdatedAt j) (j_Exception j) (j_Status j).

Definition set_DispatchAt (v : string) (j : Job) : Job :=
  mkJob (j_ID j) (j_Handler j) (j_Name j) (j_Payload j) (j_Retry j)
    (j_RetryInSeconds j) (j_RetryCounter j) (j_ReservedAt j) (j_RetryAfter
    j) v (j_CompletedAt j) (j_FailedAt j) (j_LockedAt j) (j_LockFor j)
    (j_Queue j) (j_CreatedAt j) (j_UpdatedAt j) (j_Exception j) (j_Status j).

Definition set_CompletedAt (v : string) (j : Job) : Job :=
  mkJob (j_ID j) (j_Handler j) (j_Name j) (j_Payload j) (j_Retry j)
    (j_RetryInSeconds j) (j_RetryCounter j) (j_ReservedAt j) (j_RetryAfter
    j) (j_DispatchAt j) v (j_FailedAt j) (j_LockedAt j) (j_LockFor j)
    (j_Queue j) (j_CreatedAt j) (j_UpdatedAt j) (j_Exception j) (j_Status j).

Definition set_FailedAt (v : string) (j : Job) : Job :=
  mkJob (j_ID j) (j_Handler j) (j_Name j) (j_Payload j) (j_Retry j)
    (j_RetryInSeconds j) (j_RetryCounter j) (j_ReservedAt j) (j_RetryAfter
    j) (j_DispatchAt j) (j_CompletedAt j) v (j_LockedAt j) (j_LockFor j)
    (j_Queue j) (j_CreatedAt j) (j_UpdatedAt j) (j_Exception j) (j_Status j).

Definition set_LockedAt (v : string) (j : Job) : Job :=
  mkJob (j_ID j) (j_Handler j) (j_Name j) (j_Payload j) (j_Retry j)
    (j_RetryInSeconds j) (j_RetryCounter j) (j_ReservedAt j) (j_RetryAfter
    j) (j_DispatchAt j) (j_CompletedAt j) (j_FailedAt j) v (j_LockFor j)
    (j_Queue j) (j_CreatedAt j) (j_UpdatedAt j) (j_Exception j) (j_Status j).

Definition set_LockFor (v : Z) (j : Job) : Job :=
  mkJob (j_ID j) (j_Handler j) (j_Name j) (j_Payload j) (j_Retry j)
    (j_RetryInSeconds j) (j_RetryCounter j) (j_ReservedAt j) (j_RetryAfter
    j) (j_DispatchAt j) (j_CompletedAt j) (j_FailedAt j) (j_LockedAt j) v
    (j_Queue j) (j_CreatedAt j) (j_UpdatedAt j) (j_Exception j) (j_Status j).

Definition set_Queue (v : string) (j : Job) : Job :=
  mkJob (j_ID j) (j_Handler j) (j_Name j) (j_Payload j) (j_Retry j)
    (j_RetryInSeconds j) (j_RetryCounter j) (j_ReservedAt j) (j_RetryAfter
    j) (j_DispatchAt j) (j_CompletedAt j) (j_FailedAt j) (j_LockedAt j)
    (j_LockFor j) v (j_CreatedAt j) (j_UpdatedAt j) (j_Exception j)
    (j_Status j).

Definition set_CreatedAt (v : gotime) (j : Job) : Job :=
  mkJob (j_ID j) (j_Handler j) (j_Name j) (j_Payload j) (j_Retry j)
    (j_RetryInSeconds j) (j_RetryCounter j) (j_ReservedAt j) (j_RetryAfter
    j) (j_DispatchAt j) (j_CompletedAt j) (j_FailedAt j) (j_LockedAt j)
    (j_LockFor j) (j_Queue j) v (j_UpdatedAt j) (j_Exception j) (j_Status j).

Definition set_UpdatedAt (v : gotime) (j : Job) : Job :=
  mkJob (j_ID j) (j_Handler j) (j_Name j) (j_Payload j) (j_Retry j)
    (j_RetryInSeconds j) (j_RetryCounter j) (j_ReservedAt j) (j_RetryAfter
    j) (j_DispatchAt j) (j_CompletedAt j) (j_FailedAt j) (j_LockedAt j)
    (j_LockFor j) (j_Queue j) (j_CreatedAt j) v (j_Exception j) (j_Status j).

Definition set_Exception (v : string) (j : Job) : Job :=
  mkJob (j_ID j) (j_Handler j) (j_Name j) (j_Payload j) (j_Retry j)
    (j_RetryInSeconds j) (j_RetryCounter j) (j_ReservedAt j) (j_RetryAfter
    j) (j_DispatchAt j) (j_CompletedAt j) (j_FailedAt j) (j_LockedAt j)
    (j_LockFor j) (j_Queue j) (j_CreatedAt j) (j_UpdatedAt j) v (j_Status j).

Definition set_Status (v : string) (j : Job) : Job :=
  mkJob (j_ID j) (j_Handler j) (j_Name j) (j_Payload j) (j_Retry j)
    (j_RetryInSeconds j) (j_RetryCounter j) (j_ReservedAt j) (j_RetryAfter
    j) (j_DispatchAt j) (j_CompletedAt j) (j_FailedAt j) (j_LockedAt j)
    (j_LockFor j) (j_Queue j) (j_CreatedAt j) (j_UpdatedAt j) (j_Exception
    j) v.

End Data.

#[global] Arguments registeredHandler {HS}.
#[global] Arguments Job {HS}.
