(* ===== verification/Services.v ===== *)
(** * Services the queue calls

    The redis server and the redigo client, the database session, the clock
    and the generator of job ids are not part of this repository. Each is an
    interface (a class of operations) with its documented behaviour as a
    separate class of laws; the components are defined over the operations
    and their theorems use the laws. RefServices.v gives instances. *)

From stdpp Require Import base gmap strings list.
From Stdlib Require Import ZArith Ascii.
From S2P Require Import Prelude GoString GoTime Types.

Open Scope Z_scope.

(** ** Redis: commands and replies *)

(** The replies redigo's [Conn.Do] hands over, and its error. *)
Inductive rval :=
| RNil
| RInt (z : Z)
| RBulk (s : string)
| RStatus (s : string)
| RArray (l : list rval).

Inductive reply :=
| Reply (v : rval)
| RErr (msg : string).

(** The commands the package sends. *)
Inductive cmd :=
| SCAN (cursor pattern : string) (count : Z)
| HSET (key : string) (fields : list (string * string))
| HGETALL (key : string)
| RENAME (old new : string)
| EXISTS (key : string)
| DEL (key : string).

#[export] Instance cmd_eq_dec : EqDecision cmd.
Proof. solve_decision. Defined.

(** Contents of the server: hashes by key. *)
Abbreviation hash := (gmap string string).
Abbreviation keys := (gmap string (gmap string string)).

Definition hset (fs : list (string * string)) (h : hash) : hash :=
  foldl (fun h '(f, v) => <[f := v]> h) h fs.

(** Writing one field of an existing hash. *)
Lemma hset_field f v (h : hash) : hset [(f, v)] (default ∅ (Some h)) = <[f := v]> h.
Proof. done. Qed.

(** What a command does to the keys, as the redis documentation says. *)
Definition exec_keys (c : cmd) (m : keys) : keys :=
  match c with
  | HSET k fs => <[k := hset fs (default ∅ (m !! k))]> m
  | RENAME a b => match m !! a with
                  | Some h => <[b := h]> (delete a m)
                  | None => m
                  end
  | DEL k => delete k m
  | SCAN _ _ _ | HGETALL _ | EXISTS _ => m
  end.

Definition flat_pairs (ps : list (string * string)) : list rval :=
  concat ((fun '(f, v) => [RBulk f; RBulk v]) <$> ps).

Definition scan_reply (cursor : string) (ks : list string) : reply :=
  Reply (RArray [RBulk cursor; RArray (RBulk <$> ks)]).

(** Glob patterns whose only special character is the star. *)
Fixpoint star_match (p : string) : string -> bool :=
  match p with
  | EmptyString => fun s => String.eqb s EmptyString
  | String c p' =>
      if Ascii.eqb c "*" then
        fix any (s : string) : bool :=
          star_match p' s ||
          match s with EmptyString => false | String _ s' => any s' end
      else fun s =>
        match s with
        | EmptyString => false
        | String x s' => Ascii.eqb x c && star_match p' s'
        end
  end.

Definition plain_pattern (p : string) : bool :=
  negb (has_byte "?" p || has_byte "[" p || has_byte "\" p).

Class RedisServer := {
  rstate : Type;
  redis_do : cmd -> rstate -> reply * rstate;
  keyspace : rstate -> keys;
  conn_err : rstate -> option string; (* Err() of a connection from the pool *)
}.

(** The reply of a server that is reachable. A cursor of SCAN is an index
    into the server's hash table, so it is far below the 64 bits of the
    protocol. *)
Definition answers (c : cmd) (m : keys) (r : reply) : Prop :=
  match c with
  | SCAN _ p _ =>
      exists n ks, r = scan_reply (Itoa n) ks /\ 0 <= n < two63 /\
        (plain_pattern p = true -> Forall (fun k => star_match p k = true) ks)
  | HSET _ _ | DEL _ => exists n, r = Reply (RInt n)
  | HGETALL k =>
      exists ps, ps ≡ₚ map_to_list (default ∅ (m !! k)) /\
        r = Reply (RArray (flat_pairs ps))
  | RENAME a _ =>
      match m !! a with
      | Some _ => r = Reply (RStatus "OK")
      | None => exists msg, r = RErr msg /\ Contains msg "no such key" = true
      end
  | EXISTS k => r = Reply (RInt (match m !! k with Some _ => 1 | None => 0 end))
  end.

Section Scan.
Context `{RS : RedisServer}.

(** A full iteration of SCAN: the pages returned from a cursor up to the
    reply whose cursor is 0. *)
Inductive scan_pages (p : string) (n : Z) : rstate -> string -> list (list string) -> rstate -> Prop :=
| scan_last s cur ks s' :
    redis_do (SCAN cur p n) s = (scan_reply "0" ks, s') ->
    scan_pages p n s cur [ks] s'
| scan_next s cur next ks s' rest s'' :
    next <> "0" ->
    redis_do (SCAN cur p n) s = (scan_reply next ks, s') ->
    scan_pages p n s' next rest s'' ->
    scan_pages p n s cur (ks :: rest) s''.

End Scan.

(** The documented behaviour of the server. A command that answers has its
    effect; one that fails (the connection may be lost before or after the
    server runs it) has it or not. [healthy] is a server that is reachable
    and stays so. *)
Class RedisLaws (RS : RedisServer) := {
  healthy : rstate -> Prop;
  healthy_conn s : healthy s -> conn_err s = None;
  do_effect c s r s' : redis_do c s = (r, s') ->
    keyspace s' = keyspace s \/ keyspace s' = exec_keys c (keyspace s);
  do_reply c s v s' : redis_do c s = (Reply v, s') ->
    keyspace s' = exec_keys c (keyspace s);
  do_rename_present a b s v s' : redis_do (RENAME a b) s = (Reply v, s') ->
    is_Some (keyspace s !! a);
  do_exists k s v s' : redis_do (EXISTS k) s = (Reply v, s') ->
    v = RInt (match keyspace s !! k with Some _ => 1 | None => 0 end);
  healthy_do c s r s' : healthy s -> redis_do c s = (r, s') ->
    healthy s' /\ keyspace s' = exec_keys c (keyspace s) /\ answers c (keyspace s) r;
  healthy_scan s p n : healthy s -> plain_pattern p = true ->
    exists pages s', scan_pages p n s "0" pages s' /\ healthy s' /\
      forall k, k ∈ concat pages <-> is_Some (keyspace s !! k) /\ star_match p k = true;
}.

(** ** Redigo: arguments and replies *)

Section Redigo.
Context {HS : HandlerSig}.

(** [redis.Args.AddFlat] of a struct, [redis.ScanStruct] and the reply
    helpers; errors carry their message. *)
Class Redigo := {
  AddFlat : Job -> list (string * string);
  ScanStruct : list rval -> string + Job;
  Values : reply -> string + list rval;
  redis_String : rval -> string + string;
  Strings : rval -> string + list string;
  Int : reply -> string + Z;
}.

(** A struct written with [AddFlat] over a hash reads back with the fields
    tagged [redis:"-"] at their zero values ([wire_payload] is what a byte
    slice becomes); a field written alone changes that field; a field absent
    from the hash keeps its zero value. *)
Class RedigoLaws (RG : Redigo) := {
  wire_payload : option string -> option string;
  wire_payload_Some p : wire_payload (Some p) = Some p;
  wire_payload_idem p : wire_payload (wire_payload p) = wire_payload p;
  decode : hash -> string + Job;
  ScanStruct_decode ps h : ps ≡ₚ map_to_list h -> ScanStruct (flat_pairs ps) = decode h;
  decode_AddFlat j h : decode (hset (AddFlat j) h) =
    inr (set_Handler None (set_Payload (wire_payload (j_Payload j))
          (set_CreatedAt zeroTime (set_UpdatedAt zeroTime j))));
  decode_LockedAt v h j : decode h = inr j ->
    decode (<["LockedAt" := v]> h) = inr (set_LockedAt v j);
  decode_Status v h j : decode h = inr j ->
    decode (<["Status" := v]> h) = inr (set_Status v j);
  decode_empty : decode ∅ = inr zeroJob;
  Values_array l : Values (Reply (RArray l)) = inr l;
  Values_error m : Values (RErr m) = inl m;
  redis_String_bulk s : redis_String (RBulk s) = inr s;
  Strings_bulks l : Strings (RArray (RBulk <$> l)) = inr l;
  Int_int z : Int (Reply (RInt z)) = inr z;
  Int_error m : Int (RErr m) = inl m;
}.

(** What a job becomes when it goes through redis. *)
Definition wire `{RedigoLaws} (j : Job) : Job :=
  set_Handler None (set_Payload (wire_payload (j_Payload j))
    (set_CreatedAt zeroTime (set_UpdatedAt zeroTime j))).

(** ** The database session

    Inserting a row into a table, and reading a table ordered by id. *)
Class Database := {
  dbstate : Type;
  db_insert : string -> Job -> dbstate -> option string * dbstate;
  db_all : string -> dbstate -> string + list Job;
  db_rows : dbstate -> string -> list Job;
}.

(** The fields of a job that have a column which keeps what is written
    (the db tags of types.go: job_id, name, payload, attempts). ReservedAt
    and Status are tagged db:-, a function has no column, most of the
    others have no tag, the timestamps lose precision and zone, and only
    [failed_jobs] has a column for the exception. *)
Definition same_columns (j row : Job) : Prop :=
  j_ID row = j_ID j /\ j_Name row = j_Name j /\ j_Payload row = j_Payload j /\
  j_RetryCounter row = j_RetryCounter j.

(** A row that was inserted is read back after the older ones, with the
    columns that were written. *)
Class DatabaseLaws (DB : Database) := {
  db_insert_ok t j d d' : db_insert t j d = (None, d') ->
    (exists row, same_columns j row /\ (t = "failed_jobs" -> j_Exception row = j_Exception j) /\
       db_rows d' t = db_rows d t ++ [row]) /\
    forall t', t' <> t -> db_rows d' t' = db_rows d t';
  db_insert_err t j d e d' : db_insert t j d = (Some e, d') ->
    forall t', db_rows d' t' = db_rows d t';
  db_all_ok t d l : db_all t d = inr l -> l = db_rows d t;
}.

End Redigo.

(** ** Clock and job ids

    The n-th reading of the clock and the n-th random id ([None] when the
    system's source of randomness fails). *)
Class Env := {
  clock : nat -> gotime;
  uuids : nat -> option string;
}.

(** Consecutive readings of the clock do not go back, and every reading is
    in the era of [epoch_ok]. *)
Class ClockLaws (EV : Env) := {
  clock_mono n m : (n <= m)%nat -> t_ns (clock n) <= t_ns (clock m);
  clock_ok n : epoch_ok (clock n);
}.
