(* ===== verification/Effects.v ===== *)
(** * Effects

    The operations of the queue are programs over the effects they have:
    calls of the services, reads and writes of the shared fields of [Queue]
    and of the package's variables, and channel and goroutine operations.
    [run] executes a program alone on a world; Concurrency.v interleaves
    programs effect by effect. [wp] is the weakest precondition of a run
    that does not panic, with one rule per effect.

    Log output is not an effect of the model: the branches that only log are
    left out. *)

From stdpp Require Import base gmap strings list.
From Stdlib Require Import ZArith.
From S2P Require Import Prelude GoString GoTime Types Services.

Open Scope Z_scope.

(** The counters of reaper.go. *)
Inductive counter :=
| reaperTicks | reaperScannedKeys | reaperRequeued | reaperPermafailed
| reaperSkippedRecent | reaperSkippedDupePend | reaperErrors.

(** The value of a Go call that may panic. *)
Inductive res (A : Type) :=
| Ok (a : A)
| Panicked (msg : string).
#[global] Arguments Ok {A} a.
#[global] Arguments Panicked {A} msg.

Section Effects.
Context {HS : HandlerSig} {RS : RedisServer} {DB : Database} {EV : Env}.

(** ** Programs *)

(** The goroutines the package starts: the detached send of a delayed or
    retried job (sleep, add one to pendingCount, send), a worker, the
    reaper. *)
Inductive goroutine :=
| GSend (d : Duration) (j : Job)
| GWorker (id : Z)
| GReaper.

Inductive eff :=
| ENow                                             (* time.Now() *)
| ESleep (d : Duration)                            (* time.Sleep(d) *)
| EShutdown                                        (* read systemShutdown *)
| ESetShutdown                                     (* systemShutdown = true *)
| ECancel                                          (* q.lifecycleCancel() *)
| EUuid                                            (* uuid.NewRandom() *)
| EDo (c : cmd)                                    (* conn.Do *)
| EConnErr                                         (* conn.Err() of a new connection *)
| ELookup (name : string)                          (* q.handlers.m[name] under RLock *)
| EInvoke (h : handler_t) (p : option string)      (* call of a plain handler *)
| EInvokeCtx (h : ctxhandler_t) (p : option string) (* call with q.lifecycleCtx *)
| EInsert (t : string) (j : Job)                   (* collection.Insert *)
| EStat (c : counter) (n : Z)                      (* counter.Add(uint64(n)) *)
| EPending (n : Z)                                 (* q.pendingCount.Add(n) *)
| ELoadPending                                     (* q.pendingCount.Load() *)
| EFailed (f : list string -> list string)         (* q.FailedJobs.data under its mutex *)
| ESend (j : Job)                                  (* q.Jobs <- j *)
| ERecv                                            (* receive of range q.Jobs *)
| ECloseChan                                       (* close(q.Jobs) *)
| EGo (g : goroutine)                              (* go ... *)
| EWg (n : Z)                                      (* wg.Add(n) *)
| EWait                                            (* wg.Wait() *)
| EWaitTimeout (d : Duration)                      (* wg.Wait(), for at most d *)
| EMDone.                                          (* mWG.Done() *)

Definition resp (e : eff) : Type :=
  match e with
  | ENow => gotime
  | EShutdown => bool
  | EUuid => option string
  | EConnErr => option string
  | EDo _ => reply
  | ELookup _ => option registeredHandler
  | EInvoke _ _ | EInvokeCtx _ _ => outcome
  | EInsert _ _ => option string
  | ELoadPending => Z
  | ERecv => option Job
  | _ => unit
  end.

Inductive prog (A : Type) : Type :=
| Ret (a : A)
| Panic (msg : string)
| Op (e : eff) (k : resp e -> prog A).

#[global] Arguments Ret {A} a.
#[global] Arguments Panic {A} msg.
#[global] Arguments Op {A} e k.

Fixpoint pbind {A B} (p : prog A) (f : A -> prog B) : prog B :=
  match p with
  | Ret a => f a
  | Panic m => Panic m
  | Op e k => Op e (fun r => pbind (k r) f)
  end.

(** One effect as a program. *)
Definition perform (e : eff) : prog (resp e) := Op e Ret.

(** ** Worlds *)

Record world := mkWorld {
  w_redis : rstate; (* the redis server *)
  w_db : dbstate; (* the database *)
  w_app : app_t; (* state of the application's handlers *)
  w_clock : nat; (* readings of the clock so far *)
  w_uuid : nat; (* job ids drawn so far *)
  w_shutdown : bool; (* systemShutdown *)
  w_cancelled : bool; (* lifecycleCtx is cancelled *)
  w_handlers : option (gmap string registeredHandler); (* q.handlers.m, None when nil *)
  w_stats : ReaperStats; (* the reaper's counters *)
  w_pending : Z; (* q.pendingCount *)
  w_failed : list string; (* q.FailedJobs.data *)
  w_closed : bool; (* q.Jobs is closed *)
  w_inbox : list Job; (* jobs that senders offer on q.Jobs *)
  w_sent : list Job; (* jobs handed over on q.Jobs *)
  w_go : list goroutine; (* goroutines started *)
  w_wg : Z; (* the package's WaitGroup *)
  w_mwg : Z; (* Done calls on the caller's WaitGroup *)
}.

Definition put_redis (v : rstate) (w : world) : world :=
  mkWorld v (w_db w) (w_app w) (w_clock w) (w_uuid w) (w_shutdown w)
    (w_cancelled w) (w_handlers w) (w_stats w) (w_pending w) (w_failed w)
    (w_closed w) (w_inbox w) (w_sent w) (w_go w) (w_wg w) (w_mwg w).

Definition put_db (v : dbstate) (w : world) : world :=
  mkWorld (w_redis w) v (w_app w) (w_clock w) (w_uuid w) (w_shutdown w)
    (w_cancelled w) (w_handlers w) (w_stats w) (w_pending w) (w_failed w)
    (w_closed w) (w_inbox w) (w_sent w) (w_go w) (w_wg w) (w_mwg w).

Definition put_app (v : app_t) (w : world) : world :=
  mkWorld (w_redis w) (w_db w) v (w_clock w) (w_uuid w) (w_shutdown w)
    (w_cancelled w) (w_handlers w) (w_stats w) (w_pending w) (w_failed w)
    (w_closed w) (w_inbox w) (w_sent w) (w_go w) (w_wg w) (w_mwg w).

Definition put_clock (v : nat) (w : world) : world :=
  mkWorld (w_redis w) (w_db w) (w_app w) v (w_uuid w) (w_shutdown w)
    (w_cancelled w) (w_handlers w) (w_stats w) (w_pending w) (w_failed w)
    (w_closed w) (w_inbox w) (w_sent w) (w_go w) (w_wg w) (w_mwg w).

Definition put_uuid (v : nat) (w : world) : world :=
  mkWorld (w_redis w) (w_db w) (w_app w) (w_clock w) v (w_shutdown w)
    (w_cancelled w) (w_handlers w) (w_stats w) (w_pending w) (w_failed w)
    (w_closed w) (w_inbox w) (w_sent w) (w_go w) (w_wg w) (w_mwg w).

Definition put_shutdown (v : bool) (w : world) : world :=
  mkWorld (w_redis w) (w_db w) (w_app w) (w_clock w) (w_uuid w) v
    (w_cancelled w) (w_handlers w) (w_stats w) (w_pending w) (w_failed w)
    (w_closed w) (w_inbox w) (w_sent w) (w_go w) (w_wg w) (w_mwg w).

Definition put_cancelled (v : bool) (w : world) : world :=
  mkWorld (w_redis w) (w_db w) (w_app w) (w_clock w) (w_uuid w) (w_shutdown
    w) v (w_handlers w) (w_stats w) (w_pending w) (w_failed w) (w_closed w)
    (w_inbox w) (w_sent w) (w_go w) (w_wg w) (w_mwg w).

Definition put_handlers (v : option (gmap string registeredHandler)) (w : world) : world :=
  mkWorld (w_redis w) (w_db w) (w_app w) (w_clock w) (w_uuid w) (w_shutdown
    w) (w_cancelled w) v (w_stats w) (w_pending w) (w_failed w) (w_closed w)
    (w_inbox w) (w_sent w) (w_go w) (w_wg w) (w_mwg w).

Definition put_stats (v : ReaperStats) (w : world) : world :=
  mkWorld (w_redis w) (w_db w) (w_app w) (w_clock w) (w_uuid w) (w_shutdown
    w) (w_cancelled w) (w_handlers w) v (w_pending w) (w_failed w) (w_closed
    w) (w_inbox w) (w_sent w) (w_go w) (w_wg w) (w_mwg w).

Definition put_pending (v : Z) (w : world) : world :=
  mkWorld (w_redis w) (w_db w) (w_app w) (w_clock w) (w_uuid w) (w_shutdown
    w) (w_cancelled w) (w_handlers w) (w_stats w) v (w_failed w) (w_closed
    w) (w_inbox w) (w_sent w) (w_go w) (w_wg w) (w_mwg w).

Definition put_failed (v : list string) (w : world) : world :=
  mkWorld (w_redis w) (w_db w) (w_app w) (w_clock w) (w_uuid w) (w_shutdown
    w) (w_cancelled w) (w_handlers w) (w_stats w) (w_pending w) v (w_closed
    w) (w_inbox w) (w_sent w) (w_go w) (w_wg w) (w_mwg w).

Definition put_closed (v : bool) (w : world) : world :=
  mkWorld (w_redis w) (w_db w) (w_app w) (w_clock w) (w_uuid w) (w_shutdown
    w) (w_cancelled w) (w_handlers w) (w_stats w) (w_pending w) (w_failed w)
    v (w_inbox w) (w_sent w) (w_go w) (w_wg w) (w_mwg w).

Definition put_inbox (v : list Job) (w : world) : world :=
  mkWorld (w_redis w) (w_db w) (w_app w) (w_clock w) (w_uuid w) (w_shutdown
    w) (w_cancelled w) (w_handlers w) (w_stats w) (w_pending w) (w_failed w)
    (w_closed w) v (w_sent w) (w_go w) (w_wg w) (w_mwg w).

Definition put_sent (v : list Job) (w : world) : world :=
  mkWorld (w_redis w) (w_db w) (w_app w) (w_clock w) (w_uuid w) (w_shutdown
    w) (w_cancelled w) (w_handlers w) (w_stats w) (w_pending w) (w_failed w)
    (w_closed w) (w_inbox w) v (w_go w) (w_wg w) (w_mwg w).

Definition put_go (v : list goroutine) (w : world) : world :=
  mkWorld (w_redis w) (w_db w) (w_app w) (w_clock w) (w_uuid w) (w_shutdown
    w) (w_cancelled w) (w_handlers w) (w_stats w) (w_pending w) (w_failed w)
    (w_closed w) (w_inbox w) (w_sent w) v (w_wg w) (w_mwg w).

Definition put_wg (v : Z) (w : world) : world :=
  mkWorld (w_redis w) (w_db w) (w_app w) (w_clock w) (w_uuid w) (w_shutdown
    w) (w_cancelled w) (w_handlers w) (w_stats w) (w_pending w) (w_failed w)
    (w_closed w) (w_inbox w) (w_sent w) (w_go w) v (w_mwg w).

Definition put_mwg (v : Z) (w : world) : world :=
  mkWorld (w_redis w) (w_db w) (w_app w) (w_clock w) (w_uuid w) (w_shutdown
    w) (w_cancelled w) (w_handlers w) (w_stats w) (w_pending w) (w_failed w)
    (w_closed w) (w_inbox w) (w_sent w) (w_go w) (w_wg w) v.

(** [counter.Add] on an [atomic.Uint64]. *)
Definition add_stat (c : counter) (n : Z) (s : ReaperStats) : ReaperStats :=
  let '(mkReaperStats t k r p e d x) := s in
  match c with
  | reaperTicks => mkReaperStats (wrapU64 (t + n)) k r p e d x
  | reaperScannedKeys => mkReaperStats t (wrapU64 (k + n)) r p e d x
  | reaperRequeued => mkReaperStats t k (wrapU64 (r + n)) p e d x
  | reaperPermafailed => mkReaperStats t k r (wrapU64 (p + n)) e d x
  | reaperSkippedRecent => mkReaperStats t k r p (wrapU64 (e + n)) d x
  | reaperSkippedDupePend => mkReaperStats t k r p e (wrapU64 (d + n)) x
  | reaperErrors => mkReaperStats t k r p e d (wrapU64 (x + n))
  end.

Definition lookup_handler (name : string) (w : world) : option registeredHandler :=
  match w_handlers w with
  | Some m => m !! name
  | None => None
  end.

(** ** Running one effect

    The channel is unbuffered: [w_inbox] are the jobs of senders that are
    blocked on it. A send on a closed channel and closing it twice panic;
    closing it under blocked senders makes those panic, which ends the
    process; a receive on the closed channel ends the loop over it at once.
    A WaitGroup that goes negative panics. A receive from an open channel
    that nobody offers a job on, and a wait for goroutines that are not
    done, wait for ever, which the Go runtime reports as a deadlock when the
    program runs alone. *)
Definition handle (e : eff) (w : world) : res (resp e) * world :=
  match e return res (resp e) * world with
  | ENow => (Ok (clock (w_clock w)), put_clock (S (w_clock w)) w)
  | ESleep _ => (Ok tt, w)
  | EShutdown => (Ok (w_shutdown w), w)
  | ESetShutdown => (Ok tt, put_shutdown true w)
  | ECancel => (Ok tt, put_cancelled true w)
  | EUuid => (Ok (uuids (w_uuid w)), put_uuid (S (w_uuid w)) w)
  | EDo c => let '(r, s) := redis_do c (w_redis w) in (Ok r, put_redis s w)
  | EConnErr => (Ok (conn_err (w_redis w)), w)
  | ELookup name => (Ok (lookup_handler name w), w)
  | EInvoke h p => let '(o, a) := invoke h p (w_app w) in (Ok o, put_app a w)
  | EInvokeCtx h p =>
      let '(o, a) := invoke_ctx h (w_cancelled w) p (w_app w) in (Ok o, put_app a w)
  | EInsert t j => let '(e, d) := db_insert t j (w_db w) in (Ok e, put_db d w)
  | EStat c n => (Ok tt, put_stats (add_stat c n (w_stats w)) w)
  | EPending n => (Ok tt, put_pending (wrap64 (w_pending w + n)) w)
  | ELoadPending => (Ok (w_pending w), w)
  | EFailed f => (Ok tt, put_failed (f (w_failed w)) w)
  | ESend j =>
      if w_closed w then (Panicked "send on closed channel", w)
      else (Ok tt, put_sent (w_sent w ++ [j]) w)
  | ERecv =>
      if w_closed w then (Ok None, w)
      else match w_inbox w with
           | j :: js => (Ok (Some j), put_inbox js w)
           | [] => (Panicked "all goroutines are asleep - deadlock!", w)
           end
  | ECloseChan =>
      if w_closed w then (Panicked "close of closed channel", w)
      else match w_inbox w with
           | _ :: _ => (Panicked "send on closed channel", w)
           | [] => (Ok tt, put_closed true w)
           end
  | EGo g => (Ok tt, put_go (w_go w ++ [g]) w)
  | EWg n =>
      if w_wg w + n <? 0 then (Panicked "sync: negative WaitGroup counter", w)
      else (Ok tt, put_wg (w_wg w + n) w)
  | EWait =>
      if 0 <? w_wg w then (Panicked "all goroutines are asleep - deadlock!", w) else (Ok tt, w)
  | EWaitTimeout _ => (Ok tt, w)
  | EMDone => (Ok tt, put_mwg (w_mwg w + 1) w)
  end.

Fixpoint run {A} (p : prog A) (w : world) : res A * world :=
  match p with
  | Ret a => (Ok a, w)
  | Panic m => (Panicked m, w)
  | Op e k =>
      match handle e w with
      | (Ok r, w') => run (k r) w'
      | (Panicked m, w') => (Panicked m, w')
      end
  end.

End Effects.

#[global] Arguments prog {HS} A.
#[global] Arguments world {HS RS DB}.

Notation "'let*' x ':=' p 'in' q" := (pbind p (fun x => q))
  (at level 10, x pattern, p at level 100, q at level 200) : go_scope.
Notation "'do!' e ';' q" := (Op e (fun _ => q))
  (at level 10, e at level 100, q at level 200) : go_scope.

(** ** Laws of runs *)

Section Laws.
Context {HS : HandlerSig} {RS : RedisServer} {DB : Database} {EV : Env}.

Lemma run_bind {A B} (p : prog A) (f : A -> prog B) w :
  run (pbind p f) w =
    match run p w with
    | (Ok a, w') => run (f a) w'
    | (Panicked m, w') => (Panicked m, w')
    end.
Proof.
  revert w. induction p as [a|m|e k IH]; intros w; simpl; [done|done|].
  destruct (handle e w) as [[r|m] w']; [apply IH|done].
Qed.

(** [p] run from [w] returns (it does not panic) a value and a world that
    satisfy [Q]. *)
Definition wp {A} (p : prog A) (Q : A -> world -> Prop) (w : world) : Prop :=
  match run p w with
  | (Ok a, w') => Q a w'
  | (Panicked _, _) => False
  end.

Lemma wp_ret {A} (a : A) Q w : Q a w -> wp (Ret a) Q w.
Proof. done. Qed.

Lemma wp_bind {A B} (p : prog A) (f : A -> prog B) Q w :
  wp p (fun a w' => wp (f a) Q w') w -> wp (pbind p f) Q w.
Proof. unfold wp. rewrite run_bind. by destruct (run p w) as [[a|m] w']. Qed.

Lemma wp_mono {A} (p : prog A) (Q R : A -> world -> Prop) w :
  (forall a w', Q a w' -> R a w') -> wp p Q w -> wp p R w.
Proof. unfold wp. intros H. destruct (run p w) as [[a|m] w']; auto. Qed.

Lemma wp_and {A} (p : prog A) (Q R : A -> world -> Prop) w :
  wp p Q w -> wp p R w -> wp p (fun a w' => Q a w' /\ R a w') w.
Proof. unfold wp. by destruct (run p w) as [[a|] w']. Qed.

Lemma wp_op {A} e (k : resp e -> prog A) Q w :
  match handle e w with
  | (Ok r, w') => wp (k r) Q w'
  | (Panicked _, _) => False
  end -> wp (Op e k) Q w.
Proof. unfold wp. simpl. by destruct (handle e w) as [[r|m] w']. Qed.

(** Every effect of [p] satisfies [P] and [p] does not panic by itself,
    whatever the answers it gets. *)
Fixpoint allEff {A} (P : eff -> Prop) (p : prog A) : Prop :=
  match p with
  | Ret _ => True
  | Panic _ => False
  | Op e k => P e /\ forall r, allEff P (k r)
  end.

Lemma allEff_bind {A B} P (p : prog A) (f : A -> prog B) :
  allEff P p -> (forall a, allEff P (f a)) -> allEff P (pbind p f).
Proof.
  intros Hp Hf. induction p as [a|m|e k IH]; simpl in *; [done|done|].
  destruct Hp as [He Hk]. split; [done|]. intros r. by apply IH.
Qed.

(** Effects that cannot panic: all but those of channels and WaitGroups. *)
Definition calm (e : eff) : Prop :=
  match e with ESend _ | ERecv | ECloseChan | EWg _ | EWait => False | _ => True end.

(** ** The commands of a run

    The redis commands that [p] sends when it runs from [w], each with its
    reply, in order. *)
Fixpoint sent {A} (p : prog A) (w : world) : list (cmd * reply) :=
  match p with
  | Ret _ | Panic _ => []
  | Op e k =>
      match handle e w with
      | (Ok r, w') =>
          match e as e return resp e -> list (cmd * reply) with
          | EDo c => fun r => [(c, r)]
          | _ => fun _ => []
          end r ++ sent (k r) w'
      | (Panicked _, _) => []
      end
  end.

Lemma sent_bind {A B} (p : prog A) (f : A -> prog B) w :
  sent (pbind p f) w = sent p w ++ match run p w with
                                   | (Ok a, w') => sent (f a) w'
                                   | (Panicked _, _) => []
                                   end.
Proof.
  revert w. induction p as [a|m|e k IH]; intros w; [done|done|]. cbn [pbind sent run].
  destruct (handle e w) as [[r|m] w']; [|done]. by rewrite IH, app_assoc.
Qed.

(** [wp] that also speaks of the commands sent. *)
Definition wps {A} (p : prog A) (Q : list (cmd * reply) -> A -> world -> Prop) (w : world) : Prop :=
  wp p (Q (sent p w)) w.

Lemma wps_ret {A} (a : A) Q w : Q [] a w -> wps (Ret a) Q w.
Proof. done. Qed.

Lemma wps_bind {A B} (p : prog A) (f : A -> prog B) Q w :
  wps p (fun l a w' => wps (f a) (fun l' => Q (l ++ l')) w') w -> wps (pbind p f) Q w.
Proof.
  unfold wps, wp. rewrite run_bind, sent_bind. by destruct (run p w) as [[a|m] w'].
Qed.

Lemma wps_mono {A} (p : prog A) (Q R : list (cmd * reply) -> A -> world -> Prop) w :
  (forall l a w', Q l a w' -> R l a w') -> wps p Q w -> wps p R w.
Proof. intros H. apply wp_mono. intros a w'. apply H. Qed.

Lemma wps_do {A} c (k : reply -> prog A) Q w :
  (forall r s', redis_do c (w_redis w) = (r, s') ->
     wps (k r) (fun l => Q ((c, r) :: l)) (put_redis s' w)) ->
  wps (Op (EDo c) k) Q w.
Proof.
  unfold wps. intros H. cbn [sent handle]. destruct (redis_do c (w_redis w)) as [r s'] eqn:E.
  apply wp_op. cbn [handle]. rewrite E. by apply H.
Qed.

Definition no_command (e : eff) : Prop := match e with EDo _ => False | _ => True end.

Lemma wps_other {A} e (k : resp e -> prog A) Q w :
  no_command e ->
  match handle e w with
  | (Ok r, w') => wps (k r) Q w'
  | (Panicked _, _) => False
  end -> wps (Op e k) Q w.
Proof.
  unfold wps. intros He H. apply wp_op. cbn [sent]. destruct (handle e w) as [[r|m] w'] eqn:E; [|done].
  by destruct e.
Qed.

(** Runs whose commands all satisfy [P]. *)
Lemma wps_all {A} (P : cmd -> Prop) (p : prog A) Q w :
  allEff (fun e => match e with EDo c => P c | _ => True end) p ->
  wp p Q w -> wps p (fun l a w' => Forall (fun x => P x.1) l /\ Q a w') w.
Proof.
  intros Hp H. unfold wps. eapply wp_mono; [intros a w' Ha; split; [|exact Ha]|exact H].
  clear Q H a w' Ha. revert w. induction p as [a|m|e k IH]; intros w; [constructor..|].
  destruct Hp as [He Hk]. cbn [sent]. destruct (handle e w) as [[r|m] w']; [|constructor].
  apply Forall_app. split; [|by apply IH]. destruct e; repeat constructor. exact He.
Qed.

(** A command on a server that may fail: nothing is known of the reply. *)
Lemma wp_do {A} c (k : reply -> prog A) Q w :
  (forall r s', redis_do c (w_redis w) = (r, s') -> wp (k r) Q (put_redis s' w)) ->
  wp (Op (EDo c) k) Q w.
Proof.
  intros H. apply wp_op. simpl.
  destruct (redis_do c (w_redis w)) as [r s'] eqn:E. by apply H.
Qed.

Context {RL : RedisLaws RS}.

(** Rules for a reachable server, one per command. *)
Lemma wp_healthy {A} c (k : reply -> prog A) Q w :
  healthy (w_redis w) ->
  (forall r s', healthy s' -> keyspace s' = exec_keys c (keyspace (w_redis w)) ->
     answers c (keyspace (w_redis w)) r -> wp (k r) Q (put_redis s' w)) ->
  wp (Op (EDo c) k) Q w.
Proof.
  intros Hh H. apply wp_do. intros r s' E.
  destruct (healthy_do _ _ _ _ Hh E) as (? & ? & ?). by apply H.
Qed.

Lemma wp_hset {A} key fs (k : reply -> prog A) Q w :
  healthy (w_redis w) ->
  (forall n s', healthy s' ->
     keyspace s' = <[key := hset fs (default ∅ (keyspace (w_redis w) !! key))]> (keyspace (w_redis w)) ->
     wp (k (Reply (RInt n))) Q (put_redis s' w)) ->
  wp (Op (EDo (HSET key fs)) k) Q w.
Proof. intros Hh H. apply wp_healthy; [done|]. intros r s' ? ? [n ->]. by apply H. Qed.

Lemma wp_rename {A} a b h (k : reply -> prog A) Q w :
  healthy (w_redis w) -> keyspace (w_redis w) !! a = Some h ->
  (forall s', healthy s' -> keyspace s' = <[b := h]> (delete a (keyspace (w_redis w))) ->
     wp (k (Reply (RStatus "OK"))) Q (put_redis s' w)) ->
  wp (Op (EDo (RENAME a b)) k) Q w.
Proof.
  intros Hh Ha H. apply wp_healthy; [done|]. intros r s' ?. simpl. rewrite Ha.
  intros ? ->. by apply H.
Qed.

Lemma wp_rename_missing {A} a b (k : reply -> prog A) Q w :
  healthy (w_redis w) -> keyspace (w_redis w) !! a = None ->
  (forall msg s', healthy s' -> keyspace s' = keyspace (w_redis w) ->
     Contains msg "no such key" = true -> wp (k (RErr msg)) Q (put_redis s' w)) ->
  wp (Op (EDo (RENAME a b)) k) Q w.
Proof.
  intros Hh Ha H. apply wp_healthy; [done|]. intros r s' ?. simpl. rewrite Ha.
  intros ? (msg & -> & ?). by apply H.
Qed.

Lemma wp_exists {A} key (k : reply -> prog A) Q w :
  healthy (w_redis w) ->
  (forall s', healthy s' -> keyspace s' = keyspace (w_redis w) ->
     wp (k (Reply (RInt (match keyspace (w_redis w) !! key with Some _ => 1 | None => 0 end))))
       Q (put_redis s' w)) ->
  wp (Op (EDo (EXISTS key)) k) Q w.
Proof. intros Hh H. apply wp_healthy; [done|]. intros r s' ? ? ->. by apply H. Qed.

Lemma wp_del {A} key (k : reply -> prog A) Q w :
  healthy (w_redis w) ->
  (forall n s', healthy s' -> keyspace s' = delete key (keyspace (w_redis w)) ->
     wp (k (Reply (RInt n))) Q (put_redis s' w)) ->
  wp (Op (EDo (DEL key)) k) Q w.
Proof. intros Hh H. apply wp_healthy; [done|]. intros r s' ? ? [n ->]. by apply H. Qed.

Lemma wp_hgetall {A} key (k : reply -> prog A) Q w :
  healthy (w_redis w) ->
  (forall ps s', healthy s' -> keyspace s' = keyspace (w_redis w) ->
     ps ≡ₚ map_to_list (default ∅ (keyspace (w_redis w) !! key)) ->
     wp (k (Reply (RArray (flat_pairs ps)))) Q (put_redis s' w)) ->
  wp (Op (EDo (HGETALL key)) k) Q w.
Proof. intros Hh H. apply wp_healthy; [done|]. intros r s' ? ? (ps & ? & ->). by apply H. Qed.

End Laws.

(** Reading fields of an updated world. *)
Ltac wsimpl := cbn [
    w_redis w_db w_app w_clock w_uuid w_shutdown w_cancelled
    w_handlers w_stats w_pending w_failed w_closed w_inbox w_sent w_go
    w_wg w_mwg put_redis put_db put_app put_clock put_uuid
    put_shutdown put_cancelled put_handlers put_stats put_pending
    put_failed put_closed put_inbox put_sent put_go put_wg put_mwg].
Tactic Notation "wsimpl" "in" hyp(H) := cbn [
    w_redis w_db w_app w_clock w_uuid w_shutdown w_cancelled
    w_handlers w_stats w_pending w_failed w_closed w_inbox w_sent w_go
    w_wg w_mwg put_redis put_db put_app put_clock put_uuid
    put_shutdown put_cancelled put_handlers put_stats put_pending
    put_failed put_closed put_inbox put_sent put_go put_wg put_mwg] in H.

(** Symbolic execution of the effects that need no law. *)
Ltac wp_pure := lazymatch goal with
  | |- wp (pbind _ _) _ _ => apply wp_bind; cbv beta
  | |- wp (perform (EDo _)) _ _ => fail
  | |- wp (Op (EDo _) _) _ _ => fail
  | |- wp (perform _) _ _ => apply wp_op; cbn [handle]; wsimpl
  | |- wp (Op _ _) _ _ => apply wp_op; cbn [handle]; wsimpl
  | |- wp (Ret _) _ _ => apply wp_ret; cbv beta
  end.

(** Proofs of [allEff] by the shape of the program. *)
Ltac all_eff := repeat first
  [ progress (intros; cbv beta)
  | lazymatch goal with
    | |- allEff _ (Ret _) => exact I
    | |- allEff _ (perform _) => split; [|intros ?; exact I]
    | |- allEff _ (pbind _ _) => apply allEff_bind
    | |- allEff _ (match ?x with _ => _ end) => destruct x eqn:?
    | |- allEff _ (let '(_, _) := ?x in _) => destruct x
    end ].
