(* ===== verification/RefServices.v ===== *)
(** * Reference services

    Executable instances of the interfaces of Services.v that satisfy their
    laws: an in-memory redis whose connection can be told to fail, a codec of
    jobs, an in-memory database, a clock that advances a second per reading
    and handlers with a fixed outcome that count their calls. The witnesses
    of the component theorems run on them. *)

From stdpp Require Import base gmap strings list.
From Stdlib Require Import ZArith DecimalString DecimalZ.
From S2P Require Import Prelude GoString GoTime Types Services Effects.

Open Scope Z_scope.

(** ** Handlers and environment *)

(** A handler is its outcome; a context-aware one has an outcome for a live
    and one for a cancelled context. The application state counts calls. *)
#[export] Instance refHandlers : HandlerSig := {|
  handler_t := outcome;
  ctxhandler_t := outcome * outcome;
  app_t := nat;
  invoke h _ n := (h, S n);
  invoke_ctx h c _ n := ((if c then h.2 else h.1), S n);
|}.

#[export] Instance refEnv : Env := {|
  clock n := mkTime ((1700000000 + Z.min 1000000000 (Z.of_nat n)) * Second) 0;
  uuids n := Some ("id" +:+ Itoa (Z.of_nat n));
|}.

(** ** Redis *)

Record refredis := mkRef { rf_keys : keys; rf_faults : list bool }.

Definition ref_reply (c : cmd) (m : keys) : reply :=
  match c with
  | SCAN _ p _ =>
      scan_reply "0" (filter (fun k => star_match p k = true) (map_to_list m).*1)
  | HSET _ _ | DEL _ => Reply (RInt 1)
  | HGETALL k => Reply (RArray (flat_pairs (map_to_list (default ∅ (m !! k)))))
  | RENAME a _ => match m !! a with
                  | Some _ => Reply (RStatus "OK")
                  | None => RErr "ERR no such key"
                  end
  | EXISTS k => Reply (RInt (match m !! k with Some _ => 1 | None => 0 end))
  end.

Definition ref_do (c : cmd) (s : refredis) : reply * refredis :=
  match rf_faults s with
  | true :: fs => (RErr "connection reset by peer", mkRef (rf_keys s) fs)
  | fs => (ref_reply c (rf_keys s), mkRef (exec_keys c (rf_keys s)) (tail fs))
  end.

#[export] Instance refRedis : RedisServer := {|
  rstate := refredis;
  redis_do := ref_do;
  keyspace := rf_keys;
  conn_err s := match rf_faults s with true :: _ => Some "dial tcp: connection refused" | _ => None end;
|}.

Lemma ref_do_cases c s r s' : ref_do c s = (r, s') ->
  (rf_keys s' = rf_keys s /\ exists m, r = RErr m) \/
  (r = ref_reply c (rf_keys s) /\ rf_keys s' = exec_keys c (rf_keys s)).
Proof.
  unfold ref_do. destruct (rf_faults s) as [|[] fs]; intros [= <- <-]; simpl; eauto.
Qed.

Lemma ref_scan_elem p (m : keys) k :
  k ∈ filter (fun k => star_match p k = true) (map_to_list m).*1 <->
  is_Some (m !! k) /\ star_match p k = true.
Proof.
  rewrite list_elem_of_filter, list_elem_of_fmap. split.
  - intros [? ([k' h] & -> & H%elem_of_map_to_list)]. eauto.
  - intros [[h H] ?]. split; [done|]. exists (k, h). split; [done|].
    by apply elem_of_map_to_list.
Qed.

#[export] Instance refRedisLaws : RedisLaws refRedis.
Proof.
  refine (Build_RedisLaws refRedis (fun s : refredis => rf_faults s = []) _ _ _ _ _ _ _); simpl.
  - by intros s ->.
  - intros c s r s' [[? _]|[_ ?]]%ref_do_cases; auto.
  - intros c s v s' [[_ [m ?]]|[_ ?]]%ref_do_cases; done.
  - intros a b s v s' [[_ [m ?]]|[E _]]%ref_do_cases; [done|].
    simpl in E. by destruct (rf_keys s !! a).
  - intros k s v s' [[_ [m ?]]|[E _]]%ref_do_cases; [done|].
    simpl in E. by injection E as ->.
  - intros c s r s' Hs. unfold ref_do. rewrite Hs. intros [= <- <-]. simpl.
    split; [done|]. split; [done|].
    destruct c; simpl; eauto.
    + exists 0. eexists. split; [reflexivity|]. split; [by vm_compute|].
      intros _. apply Forall_forall. intros k. rewrite list_elem_of_filter. by intros [? _].
    + by destruct (rf_keys s !! old); eauto.
  - intros s p n Hs Hp. exists [filter (fun k => star_match p k = true) (map_to_list (rf_keys s)).*1].
    eexists. split; [|split].
    + apply scan_last. simpl. unfold ref_do. rewrite Hs. reflexivity.
    + done.
    + intros k. simpl. rewrite app_nil_r. apply ref_scan_elem.
Defined.

(** ** Redigo *)

Definition enc_bool (b : bool) : string := if b then "1" else "0".
Definition dec_bool (s : string) : option bool :=
  if String.eqb s "1" then Some true
  else if String.eqb s "0" then Some false else None.
Definition dec_int (s : string) : option Z := Z.of_int <$> NilZero.int_of_string s.

Section Codec.
Context {HS : HandlerSig}.

Definition ref_AddFlat (j : Job) : list (string * string) :=
  [("ID", j_ID j); ("Name", j_Name j); ("Payload", default EmptyString (j_Payload j));
   ("Retry", enc_bool (j_Retry j)); ("RetryInSeconds", Itoa (j_RetryInSeconds j));
   ("RetryCounter", Itoa (j_RetryCounter j)); ("ReservedAt", j_ReservedAt j);
   ("RetryAfter", j_RetryAfter j); ("DispatchAt", j_DispatchAt j);
   ("CompletedAt", j_CompletedAt j); ("FailedAt", j_FailedAt j);
   ("LockedAt", j_LockedAt j); ("LockFor", Itoa (j_LockFor j)); ("Queue", j_Queue j);
   ("Exception", j_Exception j); ("Status", j_Status j)].

Definition fld_string (h : hash) (f : string) : string := default EmptyString (h !! f).
Definition fld {A} (dec : string -> option A) (dflt : A) (h : hash) (f : string) : string + A :=
  match h !! f with
  | None => inr dflt
  | Some s => match dec s with Some a => inr a | None => inl ("cannot convert field " +:+ f) end
  end.

Definition ref_decode (h : hash) : string + Job :=
  match fld dec_bool false h "Retry", fld dec_int 0 h "RetryInSeconds",
        fld dec_int 0 h "RetryCounter", fld dec_int 0 h "LockFor" with
  | inr rt, inr ris, inr rc, inr lf =>
      inr (mkJob (fld_string h "ID") None (fld_string h "Name") (h !! "Payload") rt ris rc
        (fld_string h "ReservedAt") (fld_string h "RetryAfter") (fld_string h "DispatchAt")
        (fld_string h "CompletedAt") (fld_string h "FailedAt") (fld_string h "LockedAt") lf
        (fld_string h "Queue") zeroTime zeroTime (fld_string h "Exception")
        (fld_string h "Status"))
  | inl e, _, _, _ | _, inl e, _, _ | _, _, inl e, _ | _, _, _, inl e => inl e
  end.

End Codec.

Fixpoint unflat (l : list rval) : list (string * string) :=
  match l with
  | RBulk f :: RBulk v :: l' => (f, v) :: unflat l'
  | _ => []
  end.

Definition bulk_string (v : rval) : string :=
  match v with RBulk s | RStatus s => s | _ => EmptyString end.

#[export] Instance refRedigo {HS : HandlerSig} : Redigo := {|
  AddFlat := ref_AddFlat;
  ScanStruct l := ref_decode (list_to_map (unflat l));
  Values r := match r with
              | Reply (RArray l) => inr l
              | RErr m => inl m
              | _ => inl "redigo: unexpected type for Values"
              end;
  redis_String v := match v with
                    | RBulk s | RStatus s => inr s
                    | _ => inl "redigo: unexpected type for String"
                    end;
  Strings v := match v with
               | RArray l => inr (bulk_string <$> l)
               | _ => inl "redigo: unexpected type for Strings"
               end;
  Int r := match r with
           | Reply (RInt z) => inr z
           | RErr m => inl m
           | _ => inl "redigo: unexpected type for Int"
           end;
|}.

Lemma dec_int_Itoa z : dec_int (Itoa z) = Some z.
Proof. unfold dec_int. rewrite int_of_string_Itoa. simpl. by rewrite of_to. Qed.

Lemma dec_bool_enc b : dec_bool (enc_bool b) = Some b.
Proof. by destruct b. Qed.

Lemma unflat_flat ps : unflat (flat_pairs ps) = ps.
Proof.
  induction ps as [|[f v] ps IH]; [done|].
  change (flat_pairs ((f, v) :: ps)) with (RBulk f :: RBulk v :: flat_pairs ps).
  simpl. by rewrite IH.
Qed.

Lemma list_to_map_perm (ps : list (string * string)) (h : hash) :
  ps ≡ₚ map_to_list h -> list_to_map ps = h.
Proof.
  intros Hp. rewrite <- (list_to_map_to_list h). apply list_to_map_proper; [|done].
  rewrite Hp. apply NoDup_fst_map_to_list.
Qed.

Lemma bulk_strings (l : list string) : bulk_string <$> (RBulk <$> l) = l.
Proof. induction l as [|x l IH]; [done|]. simpl. f_equal. apply IH. Qed.

(** Lookups of literal fields in a written hash. *)
Ltac field_lookups :=
  repeat first [ rewrite lookup_insert_eq
               | rewrite lookup_insert_ne by (intros [=]) ].

#[export] Instance refRedigoLaws {HS : HandlerSig} : RedigoLaws refRedigo.
Proof.
  refine (@Build_RedigoLaws HS refRedigo
    (fun p => match p with Some p => Some p | None => Some EmptyString end)
    _ _ ref_decode _ _ _ _ _ _ _ _ _ _ _); simpl; try done.
  - by intros [].
  - intros ps h Hp. rewrite unflat_flat. by rewrite (list_to_map_perm _ _ Hp).
  - intros j h. unfold ref_decode, fld, fld_string, ref_AddFlat, hset. simpl.
    field_lookups. rewrite dec_bool_enc, !dec_int_Itoa. by destruct j as [? ? ? []].
  - intros v h j. unfold ref_decode, fld, fld_string. field_lookups.
    repeat case_match; naive_solver.
  - intros v h j. unfold ref_decode, fld, fld_string. field_lookups.
    repeat case_match; naive_solver.
  - intros l. by rewrite bulk_strings.
Defined.

(** ** Database *)

(** The columns of the tables; a field without one reads as its zero value. *)
Definition columns {HS : HandlerSig} (t : string) (j : Job) : Job :=
  mkJob (j_ID j) None (j_Name j) (j_Payload j) false 0 (j_RetryCounter j) EmptyString EmptyString
    EmptyString EmptyString EmptyString EmptyString 0 EmptyString (j_CreatedAt j) (j_UpdatedAt j)
    (if String.eqb t "failed_jobs" then j_Exception j else EmptyString) EmptyString.

(** The first component makes every insert fail. *)
#[export] Instance refDatabase {HS : HandlerSig} : Database := {|
  dbstate := bool * gmap string (list Job);
  db_insert t j d :=
    if d.1 then (Some "pq: connection refused", d)
    else (None, (d.1, <[t := default [] (d.2 !! t) ++ [columns t j]]> d.2));
  db_all t d := if d.1 then inl "pq: connection refused" else inr (default [] (d.2 !! t));
  db_rows d t := default [] (d.2 !! t);
|}.

#[export] Instance refDatabaseLaws {HS : HandlerSig} : DatabaseLaws refDatabase.
Proof.
  split; simpl.
  - intros t j [[] d] d' [= <-]. simpl. split.
    { exists (columns t j). rewrite lookup_insert_eq. split; [done|]. split; [|done].
      by intros ->. }
    intros t' Ht. by rewrite lookup_insert_ne.
  - intros t j [[] d] e d' [= <- <-]; done.
  - intros t [[] d] l [= <-]; done.
Qed.

#[export] Instance refClockLaws : ClockLaws refEnv.
Proof.
  split; simpl.
  - intros n m H. unfold Second. lia.
  - intros n. split; [unfold Second; simpl; lia|]. by split.
Qed.

(** An empty world. *)
Definition refWorld : world :=
  mkWorld (mkRef ∅ []) (false, ∅) 0%nat 0%nat 0%nat false false (Some ∅) zeroStats 0 []
    false [] [] [] 0 0.

(** Quoting with plain marks; bytes outside ASCII left alone. *)
#[export] Instance refUnicode : UnicodeTables := {|
  uni_ToLower s := s;
  uni_Quote s := "'" +:+ s +:+ "'";
  time_ParseError s := "parsing time '" +:+ s +:+ "'";
|}.

(** A queue, a job and worlds with given keys and handlers. *)
Definition refQueue : Queue :=
  mkQueue "redis" false 1 2 10 ["job"] "job" 300 30 (mkRedis true EmptyString 1) true.

Definition refJob : Job :=
  mkJob "a1" None "mail" (Some "hello") true 0 0 "2023-11-14T22:13:00Z" "2023-11-14T22:13:00Z"
    EmptyString EmptyString EmptyString EmptyString 0 "job" zeroTime zeroTime EmptyString "pending".

Definition refHash (j : Job) : hash := hset (AddFlat j) ∅.

Definition refKeys (ks : list (string * Job)) : keys :=
  list_to_map ((fun '(k, j) => (k, refHash j)) <$> ks).

Definition workWorld (ks : list (string * Job)) (hs : list (string * registeredHandler)) : world :=
  put_handlers (Some (list_to_map hs)) (put_redis (mkRef (refKeys ks) []) refWorld).

Definition plainHandler (o : outcome) : registeredHandler := mkRegistered (Some o) None.

Lemma decode_refHash j : decode (refHash j) = inr (wire j).
Proof. apply decode_AddFlat. Qed.
