(* ===== verification/Redis.v ===== *)
(** * Redis backend (api/redis.go)

    The keys of the keyspace, the claim of a pending job, the gate on
    [RetryAfter], the run of its handler and the transitions to completed,
    back to pending or failed, and the scan loop of a worker. *)

From stdpp Require Import base gmap strings list.
From Stdlib Require Import ZArith Ascii.
From S2P Require Import Prelude GoString GoTime Types Services Effects RefServices.

Open Scope Z_scope.

(** ** Key formats and statuses *)

Definition formatComplete : string := "queues:%s:completed:%s".
Definition formatFailed : string := "queues:%s:failed:%s".
Definition formatLocked : string := "queues:%s:locked:%s".
Definition formatPending : string := "queues:%s:pending:%s".
Definition statusComplete : string := "completed".
Definition statusFailed : string := "failed".
Definition statusActive : string := "processing".
Definition statusPending : string := "pending".

Definition pattern_pending : string := "queues:*:pending*".

(** Whether a loop of the source returned or the fuel of its model ran out. *)
Inductive loop_exit := Returned | OutOfFuel.

(** Whether the loop over a page goes on, or the enclosing function returns. *)
Inductive page_exit := PageDone | PageReturn.

(** The states of a job in the keyspace, and the key of a job in a state. *)
Inductive jstate := Pending | Locked | Completed | Failed.

#[export] Instance jstate_eq_dec : EqDecision jstate.
Proof. solve_decision. Defined.

Definition stateName (st : jstate) : string :=
  match st with
  | Pending => "pending" | Locked => "locked"
  | Completed => "completed" | Failed => "failed"
  end.

Definition stateFormat (st : jstate) : string :=
  match st with
  | Pending => formatPending | Locked => formatLocked
  | Completed => formatComplete | Failed => formatFailed
  end.

Definition stateKey (st : jstate) (queue id : string) : string :=
  Sprintf (stateFormat st) [queue; id].

Section Redis.
Context {HS : HandlerSig} {RS : RedisServer} {RG : Redigo} {DB : Database} {EV : Env}.
Context {UT : UnicodeTables}.

(** [RedisKeyspaceFormater] *)
Definition RedisKeyspaceFormater (keyspace : string) : string :=
  ToLower uni_ToLower
    (Replace [(":"%char, EmptyString); (" "%char, "-"); (","%char, EmptyString)] keyspace).

(** [getRedisValue]; [conn] says whether the connection pointer is non-nil. *)
Definition getRedisValue (conn : bool) (queue id formattedKey : string) : prog (string + Job) :=
  if negb conn then Ret (inl "nil redis connection provided")
  else
    let key := Sprintf formattedKey [queue; id] in
    let* value := perform (EDo (HGETALL key)) in
    match Values value with
    | inl err => Ret (inl ("failed to get value from redis for key " +:+ key +:+ ": " +:+ err))
    | inr value =>
        match ScanStruct value with
        | inl err => Ret (inl ("failed to scan value to struct " +:+ key +:+ ": " +:+ err))
        | inr job => Ret (inr job)
        end
    end.

(** [setRedisKey]: [None] is the nil error. *)
Definition setRedisKey (conn : bool) (queue id oldKey newKey : string) : prog (option string) :=
  if String.eqb oldKey EmptyString then Ret (Some "invalid key provided")
  else if String.eqb newKey EmptyString then Ret (Some "invalid key provided")
  else
    let keyOld := Sprintf oldKey [queue; id] in
    let keyNew := Sprintf newKey [queue; id] in
    if negb conn then Ret (Some "nil redis connection provided")
    else
      let* r := perform (EDo (RENAME keyOld keyNew)) in
      match r with
      | RErr err => Ret (Some ("failed to rename key in redis from " +:+ oldKey +:+ " to "
                               +:+ newKey +:+ ": " +:+ err))
      | Reply _ => Ret None
      end.

(** The handler of a registry entry, run on the payload: [res] and
    [rpcError] of the source. *)
Definition run_registered (reg : option registeredHandler) (cachedJob : Job)
    : prog (Job * Z * option string) :=
  let result (o : outcome) :=
    match o with
    | HOk => (cachedJob, 0, None)
    | HErr m => (cachedJob, 1, Some m)
    | HPanic m => (cachedJob, 1, Some ("handler panic: " +:+ m))
    end in
  match reg with
  | Some (mkRegistered _ (Some h)) =>
      let* o := perform (EInvokeCtx h (j_Payload cachedJob)) in Ret (result o)
  | Some (mkRegistered (Some h) None) =>
      let* o := perform (EInvoke h (j_Payload cachedJob)) in Ret (result o)
  | Some (mkRegistered None None) | None =>
      Ret (set_Retry false cachedJob, 1,
           Some ("no handler registered for " +:+ uni_Quote (j_Name cachedJob)))
  end.

(** The branch of [handleRedisJob] for a handler that succeeded. *)
Definition completeRedisJob (queue : string) (cachedJob : Job) (jobID : string) : prog unit :=
  let* now := perform ENow in
  let cachedJob := set_CompletedAt (Format (UTC now)) cachedJob in
  let cachedJob := set_Status statusComplete cachedJob in
  let cachedJob := set_Exception EmptyString cachedJob in
  let* r := perform (EDo (HSET (Sprintf formatLocked [queue; jobID]) (AddFlat cachedJob))) in
  match r with
  | RErr _ => Ret tt
  | Reply _ =>
      let* _ := setRedisKey true queue jobID formatLocked formatComplete in Ret tt
  end.

(** The retry gate: five seconds, or five seconds per attempt so far. *)
Definition retry_gate (cachedJob : Job) : prog Job :=
  if String.eqb (j_RetryAfter cachedJob) EmptyString then
    let* now := perform ENow in
    Ret (set_RetryAfter (Format (UTC (Add now (5 * Second)))) cachedJob)
  else
    let delay := seconds (wrap64 (j_RetryCounter cachedJob * 5)) in
    let* now := perform ENow in
    Ret (set_RetryAfter (Format (Add now delay)) cachedJob).

(** The branch that puts a failed job back. *)
Definition requeueRedisJob (queue : string) (cachedJob : Job) (jobID : string) : prog unit :=
  let* cachedJob := retry_gate cachedJob in
  let cachedJob := set_RetryCounter (wrap64 (j_RetryCounter cachedJob + 1)) cachedJob in
  let* now := perform ENow in
  let cachedJob := set_CompletedAt (Format (UTC now)) cachedJob in
  let cachedJob := set_Status statusPending cachedJob in
  let* _ := perform (EDo (HSET (Sprintf formatPending [queue; jobID]) (AddFlat cachedJob))) in
  Ret tt.

(** The branch for a permanent failure. *)
Definition failRedisJob (q : Queue) (queue : string) (cachedJob : Job) (jobID : string)
    (rpcError : option string) : prog unit :=
  let* now := perform ENow in
  let cachedJob := set_FailedAt (Format (UTC now)) cachedJob in
  let cachedJob := match rpcError with
                   | Some e => set_Exception e cachedJob
                   | None => cachedJob
                   end in
  let* created := perform ENow in
  let cachedJob := set_CreatedAt created cachedJob in
  let* updated := perform ENow in
  let cachedJob := set_UpdatedAt updated cachedJob in
  let cachedJob := set_Status statusFailed cachedJob in
  let* r := perform (EDo (HSET (Sprintf formatLocked [queue; jobID]) (AddFlat cachedJob))) in
  match r with
  | RErr _ => Ret tt
  | Reply _ =>
      let* err := setRedisKey true queue jobID formatLocked formatFailed in
      match err with
      | Some _ => Ret tt
      | None =>
          if q_DB q then
            let* _ := perform (EInsert "failed_jobs" cachedJob) in Ret tt
          else Ret tt
      end
  end.

(** [handleRedisJob] *)
Definition handleRedisJob (q : Queue) (queue : string) (cachedJob : Job) (jobID : string)
    : prog unit :=
  let* r := perform (EDo (HSET (Sprintf formatLocked [queue; j_ID cachedJob])
                            [("Status", statusActive)])) in
  match r with
  | RErr _ => Ret tt
  | Reply _ =>
      let* reg := perform (ELookup (j_Name cachedJob)) in
      let* (cachedJob, res, rpcError) := run_registered reg cachedJob in
      if res =? 0 then completeRedisJob queue cachedJob jobID
      else if res =? 1 then
        if j_Retry cachedJob && (j_RetryCounter cachedJob <? q_MaxAttempts q)
        then requeueRedisJob queue cachedJob jobID
        else failRedisJob q queue cachedJob jobID rpcError
      else Ret tt
  end.

(** ** The scan loop *)

(** [keyParts[len(keyParts)-i]]; [None] is the index-out-of-range panic. *)
Definition from_end (l : list string) (i : nat) : option string :=
  if (length l <? i)%nat then None else l !! (length l - i)%nat.

Definition bulk_bytes (v : rval) : string :=
  match v with RBulk s => s | _ => EmptyString end.

(** The body of the loop over the keys of a page, for one key. *)
Definition processKey (q : Queue) (v : rval) : prog page_exit :=
  let keyParts := Split (bulk_bytes v) colon in
  match from_end keyParts 1, from_end keyParts 3 with
  | Some jobID, Some queue =>
      let* err := setRedisKey true queue jobID formatPending formatLocked in
      match err with
      | Some _ => Ret PageDone
      | None =>
          let* now := perform ENow in
          let* _ := perform (EDo (HSET (Sprintf formatLocked [queue; jobID])
                                   [("LockedAt", Format (UTC now))])) in
          let* cachedJob := getRedisValue true queue jobID formatLocked in
          match cachedJob with
          | inl _ => Ret PageReturn
          | inr cachedJob =>
              match Parse (j_RetryAfter cachedJob) with
              | None => Ret PageReturn
              | Some retryAfterTime =>
                  let* currentTime := perform ENow in
                  if negb (After currentTime retryAfterTime) then
                    let* err := setRedisKey true queue jobID formatLocked formatPending in
                    match err with
                    | Some _ => Ret PageReturn
                    | None => Ret PageDone
                    end
                  else
                    let* _ := handleRedisJob q queue cachedJob jobID in Ret PageDone
              end
          end
      end
  | _, _ => Panic "runtime error: index out of range"
  end.

Fixpoint processPage (q : Queue) (data : list rval) : prog page_exit :=
  match data with
  | [] => Ret PageDone
  | v :: rest =>
      let* e := processKey q v in
      match e with
      | PageReturn => Ret PageReturn
      | PageDone => processPage q rest
      end
  end.

(** The cursor and the keys of a SCAN reply; [None] when the shape is
    unexpected and the scan returns. *)
Definition scan_parts (r : reply) : option (Z * list rval) :=
  match r with
  | Reply (RArray [c; RArray data]) => Some ((Atoi (bulk_bytes c)).1, data)
  | _ => None
  end.

(** [cursorScanRedisDb] from a cursor. When the cursor is back at 0 the
    function calls itself; when that call returns, the loop goes on with
    cursor 0. Every iteration and every call uses one unit of fuel. *)
Fixpoint scanLoop (fuel : nat) (q : Queue) (cursor : Z) : prog loop_exit :=
  match fuel with
  | O => Ret OutOfFuel
  | S n =>
      let* down := perform EShutdown in
      if down : bool then Ret Returned
      else
        let* _ := perform (ESleep (seconds (r_ScanInterval (q_Redis q)))) in
        let* r := perform (EDo (SCAN (Itoa cursor) pattern_pending 10)) in
        match scan_parts r with
        | None => Ret Returned
        | Some (cursor, data) =>
            let* e := processPage q data in
            match e with
            | PageReturn => Ret Returned
            | PageDone =>
                if cursor =? 0 then
                  let* e := scanLoop n q 0 in
                  match e with
                  | OutOfFuel => Ret OutOfFuel
                  | Returned => scanLoop n q cursor
                  end
                else scanLoop n q cursor
            end
        end
  end.

Definition cursorScanRedisDb (fuel : nat) (q : Queue) : prog loop_exit := scanLoop fuel q 0.

End Redis.

(** ** Keys *)

Lemma stateKey_eq st queue id :
  stateKey st queue id =
    "queues:" +:+ queue +:+ ":" +:+ stateName st +:+ ":" +:+ id.
Proof.
  destruct st; unfold stateKey; simpl; by rewrite append_nil_r.
Qed.

(** The keys of one job in different states differ. *)
Lemma stateKey_state_inj st st' queue id :
  stateKey st queue id = stateKey st' queue id -> st = st'.
Proof.
  rewrite !stateKey_eq. intros H%append_inj_l%append_inj_l.
  by destruct st, st'.
Qed.

Lemma stateName_no_colon st : has_byte colon (stateName st) = false.
Proof. by destruct st. Qed.

Lemma Split_stateKey st queue id :
  has_byte colon queue = false -> has_byte colon id = false ->
  Split (stateKey st queue id) colon = ["queues"; queue; stateName st; id].
Proof.
  intros Hq Hi. rewrite stateKey_eq.
  change ("queues:" +:+ queue +:+ ":" +:+ stateName st +:+ ":" +:+ id)
    with ("queues" +:+ String colon (queue +:+ String colon (stateName st +:+ String colon id))).
  rewrite Split_app_sep by done. rewrite Split_app_sep by done.
  rewrite Split_app_sep by apply stateName_no_colon. by rewrite Split_no_sep.
Qed.

Lemma stateKey_inj st st' queue queue' id id' :
  has_byte colon queue = false -> has_byte colon id = false ->
  has_byte colon queue' = false -> has_byte colon id' = false ->
  stateKey st queue id = stateKey st' queue' id' -> st = st' /\ queue = queue' /\ id = id'.
Proof.
  intros Hq Hi Hq' Hi' H.
  pose proof (Split_stateKey st queue id Hq Hi) as E.
  rewrite H, (Split_stateKey st' queue' id' Hq' Hi') in E. injection E as <- E <-.
  split; [|done]. by destruct st, st'.
Qed.

(** A key that some state, channel and id spell is the key of a job without
    separators only as that job's. *)
Lemma stateKey_other st st0 queue id queue0 id0 :
  has_byte colon queue0 = false -> has_byte colon id0 = false ->
  stateKey st queue id = stateKey st0 queue0 id0 -> st = st0 /\ queue = queue0 /\ id = id0.
Proof.
  intros Hq Hi E.
  assert (Hcount : forall s, count_byte colon s = O -> has_byte colon s = false).
  { induction s as [|c s IH]; [done|]. cbn. by destruct (Ascii.eqb c colon). }
  assert (Hzero : forall s, has_byte colon s = false -> count_byte colon s = O).
  { induction s as [|c s IH]; [done|]. cbn. by destruct (Ascii.eqb c colon). }
  assert (Hc : (count_byte colon queue + count_byte colon id = 0)%nat).
  { pose proof (f_equal (count_byte colon) E) as Ec. rewrite !stateKey_eq, !count_byte_app in Ec.
    rewrite (Hzero queue0 Hq), (Hzero id0 Hi) in Ec.
    rewrite !(Hzero (stateName _)) in Ec by apply stateName_no_colon. cbn in Ec. lia. }
  apply stateKey_inj; [apply Hcount; lia|apply Hcount; lia|done..].
Qed.

Lemma from_end_piece s i p : from_end (Split s colon) i = Some p -> has_byte colon p = false.
Proof.
  unfold from_end. destruct (_ <? _)%nat; [done|]. intros Hp.
  pose proof (Split_pieces s colon) as H. rewrite Forall_lookup in H. by eapply H.
Qed.

#[export] Hint Resolve stateKey_state_inj : adele.

(** Keys of one job in two states are different. *)
Ltac key_ne := let H := fresh in intros H; apply stateKey_state_inj in H; discriminate H.

(** ** Rules for the helpers *)

Section Rules.
Context {HS : HandlerSig} {RS : RedisServer} {RG : Redigo} {DB : Database} {EV : Env}.
Context {RL : RedisLaws RS} {GL : RedigoLaws RG}.

Lemma wp_setRedisKey queue id st st' h Q w :
  healthy (w_redis w) -> keyspace (w_redis w) !! stateKey st queue id = Some h ->
  (forall s', healthy s' ->
     keyspace s' = <[stateKey st' queue id := h]> (delete (stateKey st queue id) (keyspace (w_redis w))) ->
     Q None (put_redis s' w)) ->
  wp (setRedisKey true queue id (stateFormat st) (stateFormat st')) Q w.
Proof.
  intros Hh Hk H. unfold setRedisKey.
  destruct (String.eqb_spec (stateFormat st) EmptyString); [by destruct st|].
  destruct (String.eqb_spec (stateFormat st') EmptyString); [by destruct st'|].
  apply wp_bind. eapply wp_rename; [done..|]. intros s' Hs' Hk'. by apply H.
Qed.

Lemma wp_setRedisKey_missing queue id st st' Q w :
  healthy (w_redis w) -> keyspace (w_redis w) !! stateKey st queue id = None ->
  (forall msg s', healthy s' -> keyspace s' = keyspace (w_redis w) ->
     Contains msg "no such key" = true -> Q (Some msg) (put_redis s' w)) ->
  wp (setRedisKey true queue id (stateFormat st) (stateFormat st')) Q w.
Proof.
  intros Hh Hk H. unfold setRedisKey.
  destruct (String.eqb_spec (stateFormat st) EmptyString); [by destruct st|].
  destruct (String.eqb_spec (stateFormat st') EmptyString); [by destruct st'|].
  apply wp_bind. eapply wp_rename_missing; [done..|]. intros msg s' Hs' Hk' Hm.
  apply H; [done..|].
  change (Contains ("failed to rename key in redis from " +:+ stateFormat st +:+ " to "
    +:+ stateFormat st' +:+ ": " +:+ msg) "no such key" = true).
  by repeat apply Contains_app_l.
Qed.

Lemma wp_getRedisValue queue id st Q w :
  healthy (w_redis w) ->
  (forall s', healthy s' -> keyspace s' = keyspace (w_redis w) ->
     Q (match decode (default ∅ (keyspace (w_redis w) !! stateKey st queue id)) with
        | inl e => inl ("failed to scan value to struct " +:+ stateKey st queue id +:+ ": " +:+ e)
        | inr j => inr j
        end) (put_redis s' w)) ->
  wp (getRedisValue true queue id (stateFormat st)) Q w.
Proof.
  intros Hh H. unfold getRedisValue. apply wp_bind. apply wp_hgetall; [done|].
  intros ps s' Hs' Hk' Hp. wp_pure. rewrite Values_array.
  rewrite (ScanStruct_decode _ _ Hp). specialize (H s' Hs' Hk').
  unfold stateKey in H. by destruct (decode _).
Qed.

End Rules.

(** ** Running a claimed job *)

Section HandleJob.
Context {HS : HandlerSig} {RS : RedisServer} {RG : Redigo} {DB : Database} {EV : Env}.
Context {UT : UnicodeTables} {RL : RedisLaws RS} {GL : RedigoLaws RG}.

(** What calling a registry entry does: [None] when it has no handler. *)
Definition call_entry (reg : option registeredHandler) (p : option string) (w : world)
    : option (outcome * app_t) :=
  match reg with
  | Some (mkRegistered _ (Some h)) => Some (invoke_ctx h (w_cancelled w) p (w_app w))
  | Some (mkRegistered (Some h) None) => Some (invoke h p (w_app w))
  | Some (mkRegistered None None) | None => None
  end.

Definition call_job (j : Job) (w : world) : option (outcome * app_t) :=
  call_entry (lookup_handler (j_Name j) w) (j_Payload j) w.

(** The job as each branch writes it. *)
Definition completed_job (now : gotime) (j : Job) : Job :=
  set_Exception EmptyString (set_Status statusComplete (set_CompletedAt (Format (UTC now)) j)).

Definition retry_after (now : gotime) (j : Job) : string :=
  if String.eqb (j_RetryAfter j) EmptyString then Format (UTC (Add now (5 * Second)))
  else Format (Add now (seconds (wrap64 (j_RetryCounter j * 5)))).

Definition requeued_job (t1 t2 : gotime) (j : Job) : Job :=
  set_Status statusPending (set_CompletedAt (Format (UTC t2))
    (set_RetryCounter (wrap64 (j_RetryCounter j + 1)) (set_RetryAfter (retry_after t1 j) j))).

Definition failed_job (t1 t2 t3 : gotime) (e : string) (j : Job) : Job :=
  set_Status statusFailed (set_UpdatedAt t3 (set_CreatedAt t2
    (set_Exception e (set_FailedAt (Format (UTC t1)) j)))).

(** Whether a failed attempt is retried. *)
Definition retries (q : Queue) (j : Job) : bool :=
  j_Retry j && (j_RetryCounter j <? q_MaxAttempts q).

Definition error_of (o : outcome) : string :=
  match o with HOk => EmptyString | HErr m => m | HPanic m => "handler panic: " +:+ m end.

Lemma decode_wire j h : decode (hset (AddFlat j) h) = inr (wire j).
Proof. apply decode_AddFlat. Qed.

Lemma wp_completeRedisJob queue j id h Q w :
  healthy (w_redis w) -> keyspace (w_redis w) !! stateKey Locked queue id = Some h ->
  (forall s' h', healthy s' ->
     decode h' = inr (wire (completed_job (clock (w_clock w)) j)) ->
     keyspace s' = <[stateKey Completed queue id := h']>
                     (delete (stateKey Locked queue id) (keyspace (w_redis w))) ->
     Q tt (put_redis s' (put_clock (S (w_clock w)) w))) ->
  wp (completeRedisJob queue j id) Q w.
Proof.
  intros Hh Hk H. unfold completeRedisJob. repeat wp_pure.
  apply wp_hset; [done|]. intros n s1 Hs1 Hk1. repeat wp_pure.
  change (Sprintf formatLocked [queue; id]) with (stateKey Locked queue id) in *.
  eapply (wp_setRedisKey queue id Locked Completed); [done|wsimpl; rewrite Hk1; apply lookup_insert_eq|].
  intros s2 Hs2 Hk2. repeat wp_pure. wsimpl in Hk2. rewrite Hk1 in Hk2.
  rewrite delete_insert_eq in Hk2.
  eapply H; [done| |exact Hk2]. apply decode_wire.
Qed.

Lemma wp_requeueRedisJob queue j id Q w :
  healthy (w_redis w) ->
  (forall s' h', healthy s' ->
     decode h' = inr (wire (requeued_job (clock (w_clock w)) (clock (S (w_clock w))) j)) ->
     keyspace s' = <[stateKey Pending queue id := h']> (keyspace (w_redis w)) ->
     Q tt (put_redis s' (put_clock (S (S (w_clock w))) w))) ->
  wp (requeueRedisJob queue j id) Q w.
Proof.
  intros Hh H. unfold requeueRedisJob. apply wp_bind.
  assert (Hg : wp (retry_gate j) (fun j' w' =>
    j' = set_RetryAfter (retry_after (clock (w_clock w)) j) j /\
    w' = put_clock (S (w_clock w)) w) w).
  { unfold retry_gate, retry_after.
    destruct (String.eqb_spec (j_RetryAfter j) EmptyString); repeat wp_pure; done. }
  eapply wp_mono; [|exact Hg]. clear Hg. intros j' w' [-> ->]. repeat wp_pure.
  apply wp_hset; [done|]. intros n s1 Hs1 Hk1. repeat wp_pure.
  eapply H; [done| |exact Hk1]. apply decode_wire.
Qed.

Lemma wp_failRedisJob q queue j id h e Q w :
  healthy (w_redis w) -> keyspace (w_redis w) !! stateKey Locked queue id = Some h ->
  (forall s' h',
     let n := w_clock w in
     let row := failed_job (clock n) (clock (S n)) (clock (S (S n))) e j in
     healthy s' -> decode h' = inr (wire row) ->
     keyspace s' = <[stateKey Failed queue id := h']>
                     (delete (stateKey Locked queue id) (keyspace (w_redis w))) ->
     Q tt (put_db (if q_DB q then (db_insert "failed_jobs" row (w_db w)).2 else w_db w)
            (put_redis s' (put_clock (S (S (S n))) w)))) ->
  wp (failRedisJob q queue j id (Some e)) Q w.
Proof.
  intros Hh Hk H. unfold failRedisJob. repeat wp_pure.
  apply wp_hset; [done|]. intros n s1 Hs1 Hk1. repeat wp_pure.
  change (Sprintf formatLocked [queue; id]) with (stateKey Locked queue id) in *.
  eapply (wp_setRedisKey queue id Locked Failed); [done|wsimpl; rewrite Hk1; apply lookup_insert_eq|].
  intros s2 Hs2 Hk2. wsimpl in Hk2. rewrite Hk1, delete_insert_eq in Hk2.
  specialize (fun h' => H s2 h' Hs2). cbv zeta in H.
  destruct (q_DB q); repeat wp_pure.
  - destruct (db_insert _ _ _) as [er d] eqn:E. repeat wp_pure.
    eapply H; [|exact Hk2]. apply decode_wire.
  - eapply H; [|exact Hk2]. apply decode_wire.
Qed.

(** The first command and the handler call, whatever the branch. *)
Lemma wp_handle_start q queue j id h Q w :
  healthy (w_redis w) -> keyspace (w_redis w) !! stateKey Locked queue id = Some h ->
  j_ID j = id ->
  (forall s', healthy s' ->
     keyspace s' = <[stateKey Locked queue id := <["Status" := statusActive]> h]> (keyspace (w_redis w)) ->
     match call_job j w with
     | Some (HOk, a) => wp (completeRedisJob queue j id) Q (put_app a (put_redis s' w))
     | Some (o, a) =>
         wp (if retries q j then requeueRedisJob queue j id
             else failRedisJob q queue j id (Some (error_of o))) Q (put_app a (put_redis s' w))
     | None =>
         wp (failRedisJob q queue (set_Retry false j) id
               (Some ("no handler registered for " +:+ uni_Quote (j_Name j)))) Q (put_redis s' w)
     end) ->
  wp (handleRedisJob q queue j id) Q w.
Proof.
  intros Hh Hk Hid H. unfold handleRedisJob. wp_pure.
  apply wp_hset; [done|]. intros n s1 Hs1 Hk1. repeat wp_pure.
  change (Sprintf formatLocked [queue; j_ID j]) with (stateKey Locked queue (j_ID j)) in Hk1.
  rewrite Hid, Hk in Hk1. specialize (H s1 Hs1 Hk1).
  unfold call_job, call_entry, retries in H.
  change (lookup_handler (j_Name j) (put_redis s1 w)) with (lookup_handler (j_Name j) w).
  destruct (lookup_handler (j_Name j) w) as [[[hp|] [hc|]]|]; cbn [run_registered];
    repeat wp_pure; try exact H;
    [destruct (invoke_ctx _ _ _ _) as [[|m|m] a]|destruct (invoke _ _ _) as [[|m|m] a]
    |destruct (invoke_ctx _ _ _ _) as [[|m|m] a]]; repeat wp_pure; exact H.
Qed.

(** C1: a claimed job whose handler returns nil moves from [locked:] to
    [completed:], with its completion time, status and cleared exception
    written; no other key changes and nothing is inserted into the database. *)
Theorem handleRedisJob_completes q queue j id h a w :
  healthy (w_redis w) -> keyspace (w_redis w) !! stateKey Locked queue id = Some h ->
  j_ID j = id -> call_job j w = Some (HOk, a) ->
  wp (handleRedisJob q queue j id) (fun _ w' =>
    healthy (w_redis w') /\ w_app w' = a /\ w_db w' = w_db w /\
    exists h', decode h' = inr (wire (completed_job (clock (w_clock w)) j)) /\
      keyspace (w_redis w') = <[stateKey Completed queue id := h']>
        (delete (stateKey Locked queue id) (keyspace (w_redis w)))) w.
Proof.
  intros Hh Hk Hid Hc. eapply wp_handle_start; [done..|]. rewrite Hc. intros s1 Hs1 Hk1.
  eapply wp_completeRedisJob; [done|wsimpl; rewrite Hk1; apply lookup_insert_eq|].
  wsimpl. intros s2 h' Hs2 Hd Hk2. rewrite Hk1, delete_insert_eq in Hk2. eauto 10.
Qed.

(** C2: a claimed job that may be retried and whose handler returns an error
    or panics is written back to [pending:] with its counter raised by one and
    its gate set; the [locked:] key stays behind with status processing. *)
Theorem handleRedisJob_requeues q queue j id h o a w :
  healthy (w_redis w) -> keyspace (w_redis w) !! stateKey Locked queue id = Some h ->
  j_ID j = id -> call_job j w = Some (o, a) -> o <> HOk -> retries q j = true ->
  wp (handleRedisJob q queue j id) (fun _ w' =>
    healthy (w_redis w') /\ w_app w' = a /\ w_db w' = w_db w /\
    exists h',
      decode h' = inr (wire (requeued_job (clock (w_clock w)) (clock (S (w_clock w))) j)) /\
      keyspace (w_redis w') = <[stateKey Pending queue id := h']>
        (<[stateKey Locked queue id := <["Status" := statusActive]> h]> (keyspace (w_redis w)))) w.
Proof.
  intros Hh Hk Hid Hc Ho Hr. eapply wp_handle_start; [done..|]. rewrite Hc, Hr.
  intros s1 Hs1 Hk1. destruct o; [done|..];
    (apply wp_requeueRedisJob; [done|]; wsimpl; intros s2 h' Hs2 Hd Hk2;
     rewrite Hk1 in Hk2; eauto 10).
Qed.

(** The error a job fails with for good, when it does. *)
Definition final_error (q : Queue) (j : Job) (w : world) : option (string * app_t) :=
  match call_job j w with
  | None => Some ("no handler registered for " +:+ uni_Quote (j_Name j), w_app w)
  | Some (HOk, _) => None
  | Some (o, a) => if retries q j then None else Some (error_of o, a)
  end.

(** C3: a claimed job with no registered handler, or whose handler fails
    when it may not be retried, moves to [failed:] with the error as its
    exception, and one row is offered to [failed_jobs]. *)
Theorem handleRedisJob_fails q queue j id h e a w :
  healthy (w_redis w) -> keyspace (w_redis w) !! stateKey Locked queue id = Some h ->
  j_ID j = id -> final_error q j w = Some (e, a) ->
  wp (handleRedisJob q queue j id) (fun _ w' =>
    healthy (w_redis w') /\ w_app w' = a /\
    exists h' row, decode h' = inr (wire row) /\
      j_ID row = id /\ j_Exception row = e /\ j_Status row = statusFailed /\
      j_RetryCounter row = j_RetryCounter j /\ j_Payload row = j_Payload j /\
      keyspace (w_redis w') = <[stateKey Failed queue id := h']>
        (delete (stateKey Locked queue id) (keyspace (w_redis w))) /\
      w_db w' = (if q_DB q then (db_insert "failed_jobs" row (w_db w)).2 else w_db w)) w.
Proof.
  intros Hh Hk Hid He. eapply wp_handle_start; [done..|]. unfold final_error in He.
  intros s1 Hs1 Hk1.
  assert (Hl : keyspace s1 !! stateKey Locked queue id = Some (<["Status" := statusActive]> h))
    by (rewrite Hk1; apply lookup_insert_eq).
  destruct (call_job j w) as [[o a']|]; [destruct o as [|m|m];
    destruct (retries q j); try done|]; injection He as <- <-;
    (eapply wp_failRedisJob; [done|exact Hl|]; wsimpl; cbv zeta; intros s2 h' Hs2 Hd Hk2;
     rewrite Hk1, delete_insert_eq in Hk2; split; [done|]; split; [done|];
     eexists h', _; split; [exact Hd|]; done).
Qed.

End HandleJob.

(** ** Claiming a key *)

Section Claim.
Context {HS : HandlerSig} {RS : RedisServer} {RG : Redigo} {DB : Database} {EV : Env}.
Context {UT : UnicodeTables} {RL : RedisLaws RS} {GL : RedigoLaws RG}.

Lemma from_end_stateKey st queue id :
  has_byte colon queue = false -> has_byte colon id = false ->
  from_end (Split (stateKey st queue id) colon) 1 = Some id /\
  from_end (Split (stateKey st queue id) colon) 3 = Some queue.
Proof. intros Hq Hi. by rewrite Split_stateKey. Qed.

(** The state of the keys after a claim, and the job the claim reads. *)
Definition claimed_keys (queue id : string) (now : gotime) (h : hash) (m : keys) : keys :=
  <[stateKey Locked queue id := <["LockedAt" := Format (UTC now)]> h]>
    (delete (stateKey Pending queue id) m).

Definition claimed_job (now : gotime) (j : Job) : Job := set_LockedAt (Format (UTC now)) j.

Lemma wp_claim q queue id h j Q w :
  healthy (w_redis w) -> has_byte colon queue = false -> has_byte colon id = false ->
  keyspace (w_redis w) !! stateKey Pending queue id = Some h -> decode h = inr j ->
  (forall s', healthy s' ->
     let n := w_clock w in
     keyspace s' = claimed_keys queue id (clock n) h (keyspace (w_redis w)) ->
     match Parse (j_RetryAfter j) with
     | None => Q PageReturn (put_redis s' (put_clock (S n) w))
     | Some t =>
         let w1 := put_redis s' (put_clock (S (S n)) w) in
         if After (clock (S n)) t
         then wp (handleRedisJob q queue (claimed_job (clock n) j) id) (fun _ => Q PageDone) w1
         else wp (setRedisKey true queue id formatLocked formatPending)
                (fun e => Q (match e with Some _ => PageReturn | None => PageDone end)) w1
     end) ->
  wp (processKey q (RBulk (stateKey Pending queue id))) Q w.
Proof.
  intros Hh Hq Hi Hk Hd H. unfold processKey. cbn [bulk_bytes].
  destruct (from_end_stateKey Pending queue id Hq Hi) as [-> ->]. wp_pure.
  eapply (wp_setRedisKey queue id Pending Locked); [done..|]. intros s1 Hs1 Hk1.
  repeat wp_pure. apply wp_hset; [done|]. intros m s2 Hs2 Hk2. wsimpl in Hk2.
  change (Sprintf formatLocked [queue; id]) with (stateKey Locked queue id) in *.
  rewrite Hk1, lookup_insert_eq, hset_field, insert_insert_eq in Hk2. repeat wp_pure.
  apply (wp_getRedisValue queue id Locked); [done|]. intros s3 Hs3 Hk3. wsimpl in Hk3.
  wsimpl. rewrite Hk2, lookup_insert_eq. simpl_default.
  rewrite (decode_LockedAt _ _ _ Hd).
  rewrite Hk2 in Hk3. specialize (H s3 Hs3 Hk3). cbv zeta in H.
  change (j_RetryAfter (set_LockedAt (Format (UTC (clock (w_clock w)))) j)) with (j_RetryAfter j).
  destruct (Parse (j_RetryAfter j)) as [t|]; [|by repeat wp_pure].
  repeat wp_pure. destruct (After (clock (S (w_clock w))) t); cbn [negb]; wp_pure.
  - eapply wp_mono; [|exact H]. intros [] w' Hw'. by repeat wp_pure.
  - eapply wp_mono; [|exact H]. intros [e|] w' Hw'; by repeat wp_pure.
Qed.

(** A key that another worker has claimed since the page was read (it is
    no longer in [pending:]) is skipped: nothing changes and the page goes on. *)
Lemma processKey_lost_race q queue id w :
  healthy (w_redis w) -> has_byte colon queue = false -> has_byte colon id = false ->
  keyspace (w_redis w) !! stateKey Pending queue id = None ->
  wp (processKey q (RBulk (stateKey Pending queue id))) (fun e w' =>
    e = PageDone /\ healthy (w_redis w') /\ keyspace (w_redis w') = keyspace (w_redis w) /\
    w_app w' = w_app w /\ w_db w' = w_db w) w.
Proof.
  intros Hh Hq Hi Hk. unfold processKey. cbn [bulk_bytes].
  destruct (from_end_stateKey Pending queue id Hq Hi) as [-> ->]. wp_pure.
  eapply (wp_setRedisKey_missing queue id Pending Locked); [done..|]. intros msg s1 Hs1 Hk1 _.
  by repeat wp_pure.
Qed.

(** A pending job whose gate has not passed is not run. It is back in
    [pending:] with its lock time as the only changed field, and a locked key
    left behind by an earlier attempt is gone. *)
Lemma processKey_gated q queue id h j t w :
  healthy (w_redis w) -> has_byte colon queue = false -> has_byte colon id = false ->
  keyspace (w_redis w) !! stateKey Pending queue id = Some h -> decode h = inr j ->
  Parse (j_RetryAfter j) = Some t -> After (clock (S (w_clock w))) t = false ->
  wp (processKey q (RBulk (stateKey Pending queue id))) (fun e w' =>
    e = PageDone /\ healthy (w_redis w') /\ w_app w' = w_app w /\ w_db w' = w_db w /\
    exists h', decode h' = inr (claimed_job (clock (w_clock w)) j) /\
      keyspace (w_redis w') = <[stateKey Pending queue id := h']>
        (delete (stateKey Locked queue id) (keyspace (w_redis w)))) w.
Proof.
  intros Hh Hq Hi Hk Hd Ht Ha. eapply wp_claim; [done..|]. cbv zeta. intros s1 Hs1 Hk1.
  rewrite Ht, Ha. unfold claimed_keys in Hk1.
  eapply (wp_setRedisKey queue id Locked Pending); [done|wsimpl; rewrite Hk1; apply lookup_insert_eq|].
  wsimpl. intros s2 Hs2 Hk2. rewrite Hk1, delete_insert_eq, delete_delete in Hk2.
  rewrite insert_delete_eq in Hk2.
  split; [done|]. split; [done|]. split; [done|]. split; [done|].
  eexists. split; [by apply decode_LockedAt|exact Hk2].
Qed.

(** C10: the keys a worker does not handle. A key that another worker has
    claimed since the page was read (it is no longer in [pending:]) is
    skipped: nothing changes and the page goes on. A pending job whose gate
    has not passed is not run: it is back in [pending:] with its lock time
    as the only changed field, and a locked key left behind by an earlier
    attempt is gone. *)
Theorem processKey_skips q queue id w :
  healthy (w_redis w) -> has_byte colon queue = false -> has_byte colon id = false ->
  (keyspace (w_redis w) !! stateKey Pending queue id = None ->
   wp (processKey q (RBulk (stateKey Pending queue id))) (fun e w' =>
     e = PageDone /\ healthy (w_redis w') /\ keyspace (w_redis w') = keyspace (w_redis w) /\
     w_app w' = w_app w /\ w_db w' = w_db w) w) /\
  (forall h j t, keyspace (w_redis w) !! stateKey Pending queue id = Some h -> decode h = inr j ->
   Parse (j_RetryAfter j) = Some t -> After (clock (S (w_clock w))) t = false ->
   wp (processKey q (RBulk (stateKey Pending queue id))) (fun e w' =>
     e = PageDone /\ healthy (w_redis w') /\ w_app w' = w_app w /\ w_db w' = w_db w /\
     exists h', decode h' = inr (claimed_job (clock (w_clock w)) j) /\
       keyspace (w_redis w') = <[stateKey Pending queue id := h']>
         (delete (stateKey Locked queue id) (keyspace (w_redis w)))) w).
Proof. eauto using processKey_lost_race, processKey_gated. Qed.

End Claim.

(** ** How often a failing job is run *)

Section Attempts.
Context {HS : HandlerSig} {RS : RedisServer} {RG : Redigo} {DB : Database} {EV : Env}.
Context {UT : UnicodeTables} {RL : RedisLaws RS} {GL : RedigoLaws RG} {CL : ClockLaws EV}.
Context (q : Queue) (queue id name : string) (reg : registeredHandler) (calls : app_t -> Z).

(** A visit of the job's pending key by a scan loop. *)
Definition visit : prog page_exit := processKey q (RBulk (stateKey Pending queue id)).

(** Visits one after another; before each, other goroutines read the clock
    as often as the list says. *)
Fixpoint visits (ks : list nat) : prog unit :=
  match ks with
  | [] => Ret tt
  | k :: ks' =>
      let* _ := Nat.iter k (fun p => let* _ := perform ENow in p) (Ret tt) in
      let* _ := visit in visits ks'
  end.

(** The job is pending and the gate of a visit made now is open. *)
Definition due (w : world) : bool :=
  match keyspace (w_redis w) !! stateKey Pending queue id with
  | Some h =>
      match decode h with
      | inr j => match Parse (j_RetryAfter j) with
                 | Some t => After (clock (S (w_clock w))) t
                 | None => false
                 end
      | inl _ => false
      end
  | None => false
  end.

(** How many of the visits are made when the job is due. *)
Fixpoint due_visits (ks : list nat) (w : world) : Z :=
  match ks with
  | [] => 0
  | k :: ks' =>
      let w1 := put_clock (w_clock w + k) w in
      (if due w1 then 1 else 0) + due_visits ks' (run visit w1).2
  end.

(** An entry that always fails, in an application that counts its calls. *)
Definition always_fails : Prop :=
  forall p w, exists o a, call_entry (Some reg) p w = Some (o, a) /\ o <> HOk /\
    calls a = calls (w_app w) + 1.

(** The job is pending after [c] failed runs. *)
Definition pending_after (c : Z) (w : world) : Prop :=
  healthy (w_redis w) /\ lookup_handler name w = Some reg /\ calls (w_app w) = c /\
  exists h j t, keyspace (w_redis w) !! stateKey Pending queue id = Some h /\
    decode h = inr j /\ j_ID j = id /\ j_Name j = name /\ j_Retry j = true /\
    j_RetryCounter j = c /\ Parse (j_RetryAfter j) = Some t.

(** The job has failed for good after [c] runs. *)
Definition failed_after (c : Z) (w : world) : Prop :=
  healthy (w_redis w) /\ calls (w_app w) = c /\
  keyspace (w_redis w) !! stateKey Pending queue id = None /\
  exists h j, keyspace (w_redis w) !! stateKey Failed queue id = Some h /\
    decode h = inr j /\ j_Status j = statusFailed.

(** The state after [d] visits to the due job. *)
Definition after_due (d : Z) (w : world) : Prop :=
  if d <=? q_MaxAttempts q then pending_after d w else failed_after (q_MaxAttempts q + 1) w.

Hypothesis Hq : has_byte colon queue = false.
Hypothesis Hi : has_byte colon id = false.
Hypothesis Hmax : 0 <= q_MaxAttempts q <= 1000000000.
Hypothesis Hfails : always_fails.

Lemma parse_gate (t : gotime) c :
  epoch_ok t -> 0 <= c <= 1000000000 ->
  Parse (Format (Add t (seconds (wrap64 (c * 5))))) =
    Some (mkTime ((t_ns t + 5 * c * Second) / Second * Second) (t_off t)).
Proof.
  intros Ht Hc. rewrite wrap64_id by (unfold in_int64, two63; lia).
  rewrite seconds_small by lia. rewrite Parse_Format.
  - simpl. do 2 f_equal. unfold Second. do 2 f_equal. lia.
  - apply epoch_ok_Add; [done|]. unfold in_int64, two63, Second. lia.
Qed.

Lemma Parse_nonempty s t : Parse s = Some t -> String.eqb s EmptyString = false.
Proof. by destruct s. Qed.

(** The claim of a due job, and the call of its failing handler. *)
Lemma wp_due c (Q : page_exit -> world -> Prop) w :
  pending_after c w -> due w = true ->
  (forall s' h j o a,
     let n := w_clock w in
     let w1 := put_app a (put_redis s' (put_clock (S (S n)) w)) in
     healthy s' -> keyspace s' !! stateKey Locked queue id = Some h ->
     keyspace s' !! stateKey Pending queue id = None ->
     j_ID j = id -> j_Name j = name -> j_Retry j = true -> j_RetryCounter j = c ->
     String.eqb (j_RetryAfter j) EmptyString = false -> calls a = c + 1 ->
     wp (if retries q j then requeueRedisJob queue j id
         else failRedisJob q queue j id (Some (error_of o))) (fun _ => Q PageDone) w1) ->
  wp visit Q w.
Proof.
  intros (Hh & Hl & Hc & h & j & t & Hk & Hd & Hid & Hn & Hr & Hrc & Hp) Hdue H.
  unfold due in Hdue. rewrite Hk, Hd, Hp in Hdue.
  eapply wp_claim; [done..|]. cbv zeta. intros s1 Hs1 Hk1. rewrite Hp, Hdue.
  eapply wp_handle_start; [done|wsimpl; rewrite Hk1; apply lookup_insert_eq|done|].
  wsimpl. intros s2 Hs2 Hk2. unfold call_job.
  change (j_Name (claimed_job (clock (w_clock w)) j)) with (j_Name j).
  change (lookup_handler (j_Name j) (put_redis s1 (put_clock (S (S (w_clock w))) w)))
    with (lookup_handler (j_Name j) w). rewrite Hn, Hl.
  edestruct (Hfails (j_Payload (claimed_job (clock (w_clock w)) j))
    (put_redis s1 (put_clock (S (S (w_clock w))) w))) as (o & a & -> & Ho & Ha).
  wsimpl in Ha.
  assert (Hw : wp (if retries q (claimed_job (clock (w_clock w)) j)
        then requeueRedisJob queue (claimed_job (clock (w_clock w)) j) id
        else failRedisJob q queue (claimed_job (clock (w_clock w)) j) id (Some (error_of o)))
      (fun _ => Q PageDone) (put_app a (put_redis s2 (put_clock (S (S (w_clock w))) w)))).
  { eapply H; try done.
    - rewrite Hk2. apply lookup_insert_eq.
    - rewrite Hk2, lookup_insert_ne by key_ne. rewrite Hk1. unfold claimed_keys.
      rewrite lookup_insert_ne by key_ne. apply lookup_delete_eq.
    - by eapply Parse_nonempty.
    - lia. }
  destruct o; [done|exact Hw..].
Qed.

(** A visit before the gate opens leaves the job as it is. *)
Lemma visit_gated c w :
  pending_after c w -> due w = false -> wp visit (fun _ w' => pending_after c w') w.
Proof.
  intros (Hh & Hl & Hc & h & j & t & Hk & Hd & Hid & Hn & Hr & Hrc & Hp) Hdue.
  unfold due in Hdue. rewrite Hk, Hd, Hp in Hdue.
  eapply wp_claim; [done..|]. cbv zeta. intros s1 Hs1 Hk1. rewrite Hp, Hdue. unfold claimed_keys in Hk1.
  eapply (wp_setRedisKey queue id Locked Pending); [done|wsimpl; rewrite Hk1; apply lookup_insert_eq|].
  wsimpl. intros s2 Hs2 Hk2. split; [done|]. split; [exact Hl|]. split; [done|].
  eexists _, _, t. wsimpl. split; [rewrite Hk2; apply lookup_insert_eq|].
  split; [by apply decode_LockedAt|]. done.
Qed.

Lemma visit_retries c w :
  pending_after c w -> due w = true -> 0 <= c < q_MaxAttempts q ->
  wp visit (fun _ w' => pending_after (c + 1) w') w.
Proof.
  intros Hp Hdue Hc. eapply wp_due; [done..|]. destruct Hp as (_ & Hl & _).
  cbv zeta. intros s1 h j o a Hs1 Hk1 _ Hid Hn Hr Hrc Hra Ha.
  unfold retries. rewrite Hr, Hrc, (proj2 (Z.ltb_lt _ _)) by lia. cbn [andb].
  apply wp_requeueRedisJob; [done|]. wsimpl. intros s2 h2 Hs2 Hd2 Hk2.
  split; [done|]. split; [exact Hl|]. split; [exact Ha|].
  wsimpl. eexists h2, _, _. split; [rewrite Hk2; apply lookup_insert_eq|]. split; [exact Hd2|].
  split; [exact Hid|]. split; [exact Hn|]. split; [exact Hr|].
  split. { cbn. rewrite Hrc. apply wrap64_id. unfold in_int64, two63. lia. }
  cbn. unfold retry_after. rewrite Hra, Hrc. apply parse_gate; [apply clock_ok|lia].
Qed.

Lemma visit_fails w :
  pending_after (q_MaxAttempts q) w -> due w = true ->
  wp visit (fun _ w' => failed_after (q_MaxAttempts q + 1) w') w.
Proof.
  intros Hp Hdue. eapply wp_due; [done..|]. clear Hp.
  cbv zeta. intros s1 h j o a Hs1 Hk1 Hkp Hid Hn Hr Hrc Hra Ha.
  unfold retries. rewrite Hr, Hrc, Z.ltb_irrefl. cbn [andb].
  eapply wp_failRedisJob; [done|exact Hk1|]. wsimpl. cbv zeta. intros s2 h2 Hs2 Hd2 Hk2.
  split; [done|]. split; [exact Ha|]. wsimpl. rewrite Hk2. split.
  - rewrite lookup_insert_ne by key_ne. rewrite lookup_delete_ne by key_ne. exact Hkp.
  - eexists h2, _. split; [apply lookup_insert_eq|]. split; [exact Hd2|done].
Qed.

Lemma visit_failed c w :
  failed_after c w -> due w = false /\ wp visit (fun _ w' => failed_after c w') w.
Proof.
  intros (Hh & Hc & Hk & Hf). split; [unfold due; by rewrite Hk|]. unfold visit, processKey. cbn [bulk_bytes].
  destruct (from_end_stateKey Pending queue id Hq Hi) as [-> ->]. wp_pure.
  eapply (wp_setRedisKey_missing queue id Pending Locked); [done..|]. intros msg s1 Hs1 Hk1 _.
  repeat wp_pure. split; [done|]. split; [done|]. wsimpl. by rewrite Hk1.
Qed.

(** One visit: it counts when the job is due. *)
Lemma visit_once d w :
  0 <= d <= q_MaxAttempts q + 1 -> after_due d w ->
  let d' := d + (if due w then 1 else 0) in
  0 <= d' <= q_MaxAttempts q + 1 /\ wp visit (fun _ w' => after_due d' w') w.
Proof.
  intros Hd. unfold after_due. cbv zeta. destruct (Z.leb_spec d (q_MaxAttempts q)) as [Hle|Hgt]; intros Hw.
  - destruct (due w) eqn:Hdue.
    + destruct (Z.leb_spec (d + 1) (q_MaxAttempts q)); (split; [lia|]); [apply visit_retries; [done..|lia]|].
      replace d with (q_MaxAttempts q) in Hw by lia. by apply visit_fails.
    + rewrite Z.add_0_r, (proj2 (Z.leb_le _ _)) by lia. split; [lia|]. by apply visit_gated.
  - destruct (visit_failed _ _ Hw) as [-> Hv]. rewrite Z.add_0_r, (proj2 (Z.leb_gt _ _)) by lia.
    split; [lia|exact Hv].
Qed.

(** Only the clock differs after the readings of others. *)
Lemma after_due_clock d n w : after_due d w -> after_due d (put_clock n w).
Proof. unfold after_due. by destruct (d <=? q_MaxAttempts q). Qed.

Lemma run_readings k w :
  run (Nat.iter k (fun p => let* _ := perform ENow in p) (Ret tt)) w = (Ok tt, put_clock (w_clock w + k) w).
Proof.
  revert w. induction k as [|k IH]; intros w; [cbn; rewrite Nat.add_0_r; by destruct w|].
  cbn [Nat.iter nat_rect]. rewrite run_bind. cbn [run perform handle]. unfold Nat.iter in IH. rewrite IH.
  wsimpl. by rewrite Nat.add_succ_r.
Qed.

Lemma visits_after ks d w :
  0 <= d <= q_MaxAttempts q + 1 -> after_due d w ->
  let d' := d + due_visits ks w in
  0 <= d' <= q_MaxAttempts q + 1 /\ wp (visits ks) (fun _ w' => after_due d' w') w.
Proof.
  revert d w. induction ks as [|k ks IH]; intros d w Hd Hw; cbv zeta; cbn [due_visits visits].
  { rewrite Z.add_0_r. split; [done|by wp_pure]. }
  set (w1 := put_clock (w_clock w + k) w).
  destruct (visit_once d w1 Hd) as [Hd1 Hv]; [by apply after_due_clock|]. cbv zeta in Hd1, Hv.
  unfold wp in Hv. destruct (run visit w1) as [[e|m] w2] eqn:Er; [|done]. cbn [snd].
  destruct (IH _ w2 Hd1 Hv) as [Hd2 Hvs]. cbv zeta in Hd2, Hvs. rewrite Z.add_assoc.
  split; [exact Hd2|]. apply wp_bind. unfold wp at 1. rewrite run_readings. apply wp_bind.
  unfold wp at 1. fold w1. rewrite Er. exact Hvs.
Qed.

(** C4: a pending job of a reachable redis that may be retried, has not been
    run yet and whose handler always fails, on a channel and with an id
    without separators and MaxAttempts between 0 and 10 to the power of 9,
    is visited any number of times, one visit after the other, with any
    number of clock readings by others in between. It is run once at every
    visit at which its gate has passed, and at no other visit, until it has
    been run [MaxAttempts + 1] times: up to [MaxAttempts] runs it is back in
    [pending:] with as many attempts counted, the next run moves it to
    [failed:], and no later visit runs it again. *)
Theorem redis_attempts ks w :
  pending_after 0 w ->
  let d := due_visits ks w in
  0 <= d <= q_MaxAttempts q + 1 /\
  wp (visits ks) (fun _ w' =>
    if d <=? q_MaxAttempts q then pending_after d w' else failed_after (q_MaxAttempts q + 1) w') w.
Proof.
  intros Hp. destruct (visits_after ks 0 w) as [Hd Hv]; [lia| |exact (conj Hd Hv)].
  unfold after_due. by rewrite (proj2 (Z.leb_le _ _)) by lia.
Qed.

End Attempts.

(** ** Witnesses *)

(** The world in which [refJob] is locked, or pending, and [mail] ends with
    [o]. *)
Definition lockedWorld (j : Job) (o : outcome) : world :=
  workWorld [("queues:job:locked:a1", j)] [("mail", plainHandler o)].
Definition pendingWorld (j : Job) (o : outcome) : world :=
  workWorld [("queues:job:pending:a1", j)] [("mail", plainHandler o)].

Lemma handleRedisJob_completes_witness :
  wp (handleRedisJob refQueue "job" refJob "a1") (fun _ w' =>
    is_Some (keyspace (w_redis w') !! "queues:job:completed:a1") /\
    keyspace (w_redis w') !! "queues:job:locked:a1" = None) (lockedWorld refJob HOk).
Proof.
  eapply wp_mono; [|eapply (handleRedisJob_completes refQueue "job" refJob "a1"); reflexivity].
  intros [] w' (_ & _ & _ & h' & _ & ->). split; [eexists; apply lookup_insert_eq|reflexivity].
Defined.

Lemma handleRedisJob_requeues_witness :
  wp (handleRedisJob refQueue "job" refJob "a1") (fun _ w' =>
    is_Some (keyspace (w_redis w') !! "queues:job:pending:a1") /\
    is_Some (keyspace (w_redis w') !! "queues:job:locked:a1")) (lockedWorld refJob (HPanic "boom")).
Proof.
  eapply wp_mono; [|eapply (handleRedisJob_requeues refQueue "job" refJob "a1");
    [reflexivity..|discriminate|reflexivity]].
  intros [] w' (_ & _ & _ & h' & _ & ->). split; [eexists; apply lookup_insert_eq|eexists; reflexivity].
Defined.

Lemma handleRedisJob_fails_witness :
  wp (handleRedisJob refQueue "job" (set_Retry false refJob) "a1") (fun _ w' =>
    exists h j, keyspace (w_redis w') !! "queues:job:failed:a1" = Some h /\
      decode h = inr j /\ j_Exception j = "down")
    (lockedWorld (set_Retry false refJob) (HErr "down")).
Proof.
  eapply wp_mono; [|eapply (handleRedisJob_fails refQueue "job" (set_Retry false refJob) "a1"); reflexivity].
  intros [] w' (_ & _ & h' & row & Hd & _ & He & _ & _ & _ & -> & _).
  exists h', (wire row). split; [apply lookup_insert_eq|]. split; [exact Hd|exact He].
Defined.

Definition lateJob : Job := set_RetryAfter "2023-11-15T00:00:00Z" refJob.

Lemma processKey_skips_witness :
  wp (processKey refQueue (RBulk "queues:job:pending:a1")) (fun e w' =>
    e = PageDone /\ w_app w' = 0%nat /\
    is_Some (keyspace (w_redis w') !! "queues:job:locked:a1")) (lockedWorld refJob HOk) /\
  wp (processKey refQueue (RBulk "queues:job:pending:a1")) (fun e w' =>
    e = PageDone /\ w_app w' = 0%nat /\
    is_Some (keyspace (w_redis w') !! "queues:job:pending:a1")) (pendingWorld lateJob HOk).
Proof.
  split.
  - eapply wp_mono; [|apply (processKey_skips refQueue "job" "a1"); reflexivity].
    intros e w' (-> & _ & -> & -> & _). split; [done|]. split; [done|]. by eexists.
  - destruct (processKey_skips refQueue "job" "a1" (pendingWorld lateJob HOk)) as [_ H]; [reflexivity..|].
    eapply wp_mono; [|apply (H (refHash lateJob) (wire lateJob) (mkTime (1700006400 * Second) 0));
      try reflexivity; apply decode_refHash].
    intros e w' (-> & _ & -> & _ & h' & _ & ->). split; [done|]. split; [done|].
    eexists. apply lookup_insert_eq.
Defined.

Definition badGateJob : Job := set_RetryAfter "tomorrow" refJob.

Lemma redis_attempts_witness :
  wp (visits refQueue "job" "a1" [0; 9; 0; 9; 9; 9]%nat) (fun _ w' =>
    w_app w' = 3%nat /\ is_Some (keyspace (w_redis w') !! "queues:job:failed:a1"))
    (pendingWorld refJob (HErr "down")).
Proof.
  assert (E : due_visits refQueue "job" "a1" [0; 9; 0; 9; 9; 9]%nat (pendingWorld refJob (HErr "down")) = 3)
    by (vm_compute; reflexivity).
  destruct (redis_attempts refQueue "job" "a1" "mail" (plainHandler (HErr "down")) Z.of_nat
    eq_refl eq_refl ltac:(cbn; lia)
    ltac:(intros p w; exists (HErr "down"), (S (w_app w)); split; [done|]; split; [done|]; cbn; lia)
    [0; 9; 0; 9; 9; 9]%nat (pendingWorld refJob (HErr "down"))) as [_ Hv].
  { split; [reflexivity|]. split; [reflexivity|]. split; [reflexivity|].
    exists (refHash refJob), (wire refJob), (mkTime (1699999980 * Second) 0).
    split; [reflexivity|]. split; [apply decode_refHash|]. by split_and!. }
  rewrite E in Hv. eapply wp_mono; [|exact Hv].
  intros [] w' (_ & Hc & _ & h & j & Hk & _). change (q_MaxAttempts refQueue + 1) with 3 in Hc.
  split; [lia|]. by exists h.
Defined.
