(* ===== verification/RedisScan.v ===== *)
(** * Redis backend: the scan loop and the channel names

    Properties of [cursorScanRedisDb], of the keys it reads and of
    [RedisKeyspaceFormater], on top of the definitions of Redis.v. *)

From stdpp Require Import base gmap strings list.
From Stdlib Require Import ZArith Ascii Lia.
From S2P Require Import Prelude GoString GoTime Types Services Effects RefServices Redis.

Open Scope Z_scope.

(** ** Keys that match the scan pattern *)

Lemma star_match_cons c p s :
  Ascii.eqb c "*" = false ->
  star_match (String c p) s = true ->
  exists s', s = String c s' /\ star_match p s' = true.
Proof.
  cbn [star_match]. intros ->. destruct s as [|x s]; [done|].
  intros [->%Ascii.eqb_eq ?]%andb_true_iff. eauto.
Qed.

Lemma star_match_star p s :
  star_match (String "*" p) s = true -> exists a b, s = a +:+ b /\ star_match p b = true.
Proof.
  induction s as [|x s IH]; cbn; intros H.
  - apply orb_true_iff in H as [H|H]; [|done]. by exists EmptyString, EmptyString.
  - apply orb_true_iff in H as [H|H]; [by exists EmptyString, (String x s)|].
    destruct (IH H) as (a & b & -> & ?). by exists (String x a), b.
Qed.

(** A key has at least the separators of the pattern it matches. *)
Lemma star_match_count c p s :
  c <> "*"%char -> star_match p s = true -> (count_byte c p <= count_byte c s)%nat.
Proof.
  intros Hc. revert s. induction p as [|x p IH]; intros s H; [cbn; lia|].
  destruct (Ascii.eqb_spec x "*") as [->|Hx].
  - apply star_match_star in H as (a & b & -> & H). apply IH in H.
    rewrite count_byte_app. cbn [count_byte].
    destruct (Ascii.eqb_spec "*"%char c); [congruence|]. lia.
  - apply star_match_cons in H as (s' & -> & H); [|by apply Ascii.eqb_neq].
    apply IH in H. cbn [count_byte]. lia.
Qed.

Lemma pattern_pending_parts k :
  star_match pattern_pending k = true -> (3 <= length (Split k colon))%nat.
Proof.
  intros H. rewrite Split_length. apply (star_match_count colon) in H; [|done].
  unfold pattern_pending in H. cbn in H. lia.
Qed.

Lemma pattern_pending_names k : star_match pattern_pending k = true ->
  exists queue' id', from_end (Split k colon) 1 = Some id' /\ from_end (Split k colon) 3 = Some queue'.
Proof.
  intros H%pattern_pending_parts. unfold from_end.
  destruct (Nat.ltb_spec (length (Split k colon)) 1); [lia|].
  destruct (Nat.ltb_spec (length (Split k colon)) 3); [lia|].
  destruct (lookup_lt_is_Some_2 (Split k colon) (length (Split k colon) - 1)) as [id' ->]; [lia|].
  destruct (lookup_lt_is_Some_2 (Split k colon) (length (Split k colon) - 3)) as [queue' ->]; [lia|].
  eauto.
Qed.

(** ** The loop never panics *)

Section Loop.
Context {HS : HandlerSig} {RS : RedisServer} {RG : Redigo} {DB : Database} {EV : Env}.
Context {UT : UnicodeTables} {RL : RedisLaws RS} {GL : RedigoLaws RG}.

Lemma setRedisKey_calm c queue id a b : allEff calm (setRedisKey c queue id a b).
Proof. unfold setRedisKey. all_eff; done. Qed.

Lemma getRedisValue_calm c queue id f : allEff calm (getRedisValue c queue id f).
Proof. unfold getRedisValue. all_eff; done. Qed.

Lemma handleRedisJob_calm q queue j id : allEff calm (handleRedisJob q queue j id).
Proof.
  unfold handleRedisJob, run_registered, completeRedisJob, requeueRedisJob, failRedisJob, retry_gate.
  all_eff; try done; apply setRedisKey_calm.
Qed.

Lemma processKey_calm q k :
  star_match pattern_pending k = true -> allEff calm (processKey q (RBulk k)).
Proof.
  intros (queue & id & Hi & Hq)%pattern_pending_names. unfold processKey. cbn [bulk_bytes].
  rewrite Hi, Hq. all_eff; try done; try apply setRedisKey_calm;
    [apply getRedisValue_calm|apply handleRedisJob_calm].
Qed.

Lemma processPage_calm q ks :
  Forall (fun k => star_match pattern_pending k = true) ks ->
  allEff calm (processPage q (RBulk <$> ks)).
Proof.
  induction 1 as [|k ks Hk _ IH]; [done|]. cbn.
  apply allEff_bind; [|by intros []]. by apply processKey_calm.
Qed.

(** Programs without channel operations keep the server reachable. *)
Lemma wp_calm_healthy {A} (p : prog A) w :
  allEff calm p -> healthy (w_redis w) -> wp p (fun _ w' => healthy (w_redis w')) w.
Proof.
  revert w. induction p as [a|m|e k IH]; intros w; [by intros _ ?|done|].
  intros [He Hk] Hh. destruct e; try done; try (apply wp_op; cbn; by apply IH).
  - apply wp_healthy; [done|]. intros r s' Hs' _ _. by apply IH.
  - apply wp_op. cbn. destruct (invoke _ _ _). by apply IH.
  - apply wp_op. cbn. destruct (invoke_ctx _ _ _ _). by apply IH.
  - apply wp_op. cbn. destruct (db_insert _ _ _). by apply IH.
Qed.

Lemma scan_reply_inj c c' ks ks' : scan_reply c ks = scan_reply c' ks' -> c = c' /\ ks = ks'.
Proof.
  unfold scan_reply. intros [= -> H]. split; [done|]. revert H. apply list_fmap_eq_inj.
  by intros ?? [=].
Qed.

Lemma scan_parts_reply n ks : 0 <= n < two63 ->
  scan_parts (scan_reply (Itoa n) ks) = Some (n, RBulk <$> ks).
Proof.
  intros Hn. cbn. rewrite Atoi_Itoa; [done|]. unfold in_int64. unfold two63 in *. lia.
Qed.

(** C35: with a reachable server the scan loop of a worker never panics,
    whatever the keys, the jobs and the handlers do and however long it
    runs; in particular no key that the pattern selects is too short for
    the indexing of its parts. *)
Theorem scanLoop_no_panic fuel q cursor w :
  healthy (w_redis w) -> wp (scanLoop fuel q cursor) (fun _ w' => healthy (w_redis w')) w.
Proof.
  revert cursor w. induction fuel as [|fuel IH]; intros cursor w Hh; cbn [scanLoop].
  { by wp_pure. }
  repeat wp_pure. destruct (w_shutdown w); [by wp_pure|]. repeat wp_pure.
  apply wp_healthy; [done|]. intros r s1 Hs1 _ (n & ks & -> & Hn & Hm). wp_pure.
  rewrite scan_parts_reply by done. wp_pure.
  eapply wp_mono; [|apply wp_calm_healthy; [apply processPage_calm, Hm; done|done]].
  intros [] w1 Hw1; [|by wp_pure]. destruct (n =? 0); [|by apply IH].
  wp_pure. eapply wp_mono; [|by apply IH]. intros [] w2 Hw2; [by apply IH|by wp_pure].
Qed.

(** ** A job that ends its worker *)

(** Effects that leave a key and the shutdown flag alone. *)
Definition spares (key : string) (e : eff) : Prop :=
  calm e /\
  match e with
  | EDo c => forall m, exec_keys c m !! key = m !! key
  | ESetShutdown => False
  | _ => True
  end.

Lemma wp_spares {A} key (p : prog A) w :
  allEff (spares key) p -> healthy (w_redis w) ->
  wp p (fun _ w' => healthy (w_redis w') /\ w_shutdown w' = w_shutdown w /\
    keyspace (w_redis w') !! key = keyspace (w_redis w) !! key) w.
Proof.
  revert w. induction p as [a|m|e k IH]; intros w; [by intros _ ?|done|].
  intros [[Hc He] Hk] Hh.
  destruct e; try done;
    try (apply wp_op; cbn; eapply wp_mono; [|apply IH; [apply Hk|done]]; by intros ? ?).
  - apply wp_healthy; [done|]. intros r s' Hs' Hks _.
    eapply wp_mono; [|by apply (IH r (put_redis s' w))].
    wsimpl. rewrite Hks, He. done.
  - apply wp_op. cbn. destruct (invoke _ _ _) as [o a].
    by apply (IH o (put_app a w)).
  - apply wp_op. cbn. destruct (invoke_ctx _ _ _ _) as [o a]. by apply (IH o (put_app a w)).
  - apply wp_op. cbn. destruct (db_insert _ _ _) as [o d]. by apply (IH o (put_db d w)).
Qed.

Section OtherJob.
Context (queue id : string) (Hq : has_byte colon queue = false) (Hi : has_byte colon id = false).
Local Abbreviation key := (stateKey Pending queue id).

Lemma other_key st queue' id' :
  st <> Pending \/ (queue', id') <> (queue, id) -> stateKey st queue' id' <> key.
Proof. intros H E. apply stateKey_other in E as (-> & -> & ->); [|done..]. by destruct H. Qed.

Lemma put_spares st queue' id' fs :
  st <> Pending \/ (queue', id') <> (queue, id) ->
  spares key (EDo (HSET (stateKey st queue' id') fs)).
Proof. intros H%other_key. split; [done|]. intros m. cbn. by rewrite lookup_insert_ne. Qed.

Lemma setRedisKey_spares queue' id' st st' :
  (queue', id') <> (queue, id) ->
  allEff (spares key) (setRedisKey true queue' id' (stateFormat st) (stateFormat st')).
Proof.
  intros H. unfold setRedisKey. all_eff; try done. split; [done|]. intros m. cbn [exec_keys].
  change (Sprintf (stateFormat ?s) [queue'; id']) with (stateKey s queue' id').
  destruct (m !! stateKey st queue' id'); [|done].
  by rewrite lookup_insert_ne, lookup_delete_ne by (apply other_key; by right).
Qed.

(** The writes and renames of a visit, by the format of their key. *)
Ltac spared H := lazymatch goal with
  | |- spares _ (EDo (HSET (Sprintf formatLocked [?q; ?i]) ?fs)) =>
      refine (put_spares Locked q i fs _); by left
  | |- spares _ (EDo (HSET (Sprintf formatPending [?q; ?i]) ?fs)) =>
      refine (put_spares Pending q i fs _); by right
  | |- allEff _ (setRedisKey true ?q ?i formatLocked formatComplete) =>
      exact (setRedisKey_spares q i Locked Completed H)
  | |- allEff _ (setRedisKey true ?q ?i formatLocked formatFailed) =>
      exact (setRedisKey_spares q i Locked Failed H)
  | |- allEff _ (setRedisKey true ?q ?i formatPending formatLocked) =>
      exact (setRedisKey_spares q i Pending Locked H)
  | |- allEff _ (setRedisKey true ?q ?i formatLocked formatPending) =>
      exact (setRedisKey_spares q i Locked Pending H)
  | |- spares _ _ => done
  end.

Lemma handleRedisJob_spares q queue' j id' :
  (queue', id') <> (queue, id) -> allEff (spares key) (handleRedisJob q queue' j id').
Proof.
  intros H. unfold handleRedisJob, run_registered, completeRedisJob, requeueRedisJob, failRedisJob,
    retry_gate.
  all_eff; spared H.
Qed.

Lemma processKey_spares q k queue' id' :
  from_end (Split k colon) 1 = Some id' -> from_end (Split k colon) 3 = Some queue' ->
  (queue', id') <> (queue, id) -> allEff (spares key) (processKey q (RBulk k)).
Proof.
  intros Hi' Hq' H. unfold processKey, getRedisValue. cbn [bulk_bytes negb]. rewrite Hi', Hq'.
  all_eff; solve [spared H | by apply handleRedisJob_spares].
Qed.

(** A key is visited as the job that its last parts name. *)
Lemma processKey_named q k :
  from_end (Split k colon) 1 = Some id -> from_end (Split k colon) 3 = Some queue ->
  processKey q (RBulk k) = processKey q (RBulk key).
Proof.
  intros H1 H3. unfold processKey. cbn [bulk_bytes].
  destruct (from_end_stateKey Pending queue id Hq Hi) as [-> ->]. by rewrite H1, H3.
Qed.

(** The page that holds the job ends early: at the job, which is then left
    in [locked:], or at an earlier key, with the job as it was. *)
Lemma processPage_bad_gate q ks h j w :
  healthy (w_redis w) -> Forall (fun k => star_match pattern_pending k = true) ks -> key ∈ ks ->
  keyspace (w_redis w) !! key = Some h -> decode h = inr j -> Parse (j_RetryAfter j) = None ->
  wp (processPage q (RBulk <$> ks)) (fun e w' =>
    e = PageReturn /\ w_shutdown w' = w_shutdown w /\
    (keyspace (w_redis w') !! key = Some h \/
     keyspace (w_redis w') !! key = None /\
     is_Some (keyspace (w_redis w') !! stateKey Locked queue id))) w.
Proof.
  intros Hh Hm Hin Hk Hd Hp. revert w Hh Hk. induction Hm as [|k ks Hmk _ IH]; intros w Hh Hk.
  { by apply not_elem_of_nil in Hin. }
  cbn [fmap list_fmap processPage]. wp_pure.
  destruct (pattern_pending_names k Hmk) as (queue' & id' & Hi' & Hq').
  destruct (decide ((queue', id') = (queue, id))) as [[= -> ->]|Hne].
  - rewrite (processKey_named q k) by done. eapply wp_claim; [done..|]. cbv zeta.
    intros s1 Hs1 Hk1. rewrite Hp. repeat wp_pure. split; [done|]. split; [done|]. right. wsimpl.
    rewrite Hk1. unfold claimed_keys.
    rewrite lookup_insert_eq, lookup_insert_ne, lookup_delete_eq by key_ne. eauto.
  - eapply wp_mono; [|by eapply wp_spares; [by eapply processKey_spares|]].
    intros e w1 (Hh1 & Hs1 & Hk1). rewrite Hk in Hk1. destruct e; [|by wp_pure; auto].
    rewrite <-Hs1. apply IH; [|done..]. apply elem_of_cons in Hin as [<-|Hin]; [|done].
    destruct (from_end_stateKey Pending queue id Hq Hi) as [E1 E3].
    rewrite E1 in Hi'. rewrite E3 in Hq'. congruence.
Qed.

End OtherJob.

(** C40: a worker whose first page holds the key of a job with a gate that
    does not parse, among whatever other keys, leaves its loop for good
    although nobody asked it to stop. The job is then in [locked:] and no
    longer in [pending:], or still in [pending:] as it was (an earlier key of
    the page can end the worker first). *)
Theorem worker_dies_on_bad_gate fuel q queue id h j cur ks s1 w :
  healthy (w_redis w) -> w_shutdown w = false ->
  redis_do (SCAN "0" pattern_pending 10) (w_redis w) = (scan_reply cur ks, s1) ->
  stateKey Pending queue id ∈ ks ->
  has_byte colon queue = false -> has_byte colon id = false ->
  keyspace (w_redis w) !! stateKey Pending queue id = Some h -> decode h = inr j ->
  Parse (j_RetryAfter j) = None ->
  wp (cursorScanRedisDb (S fuel) q) (fun e w' =>
    e = Returned /\ w_shutdown w' = false /\
    (keyspace (w_redis w') !! stateKey Pending queue id = Some h \/
     keyspace (w_redis w') !! stateKey Pending queue id = None /\
     is_Some (keyspace (w_redis w') !! stateKey Locked queue id))) w.
Proof.
  intros Hh Hs Hscan Hin Hq Hi Hk Hd Hp. unfold cursorScanRedisDb. cbn [scanLoop].
  repeat wp_pure. rewrite Hs. repeat wp_pure. apply wp_do. change (Itoa 0) with "0".
  rewrite Hscan. intros r s' [= <- <-].
  destruct (healthy_do _ _ _ _ Hh Hscan) as (Hh1 & Hk1 & (n & ks' & E & Hn & Hm)). cbn in Hk1.
  apply scan_reply_inj in E as [-> ->]. specialize (Hm eq_refl).
  wp_pure. rewrite scan_parts_reply by done. wp_pure.
  eapply wp_mono; [|apply (processPage_bad_gate queue id Hq Hi q ks' h j); wsimpl; try done; by rewrite Hk1].
  intros e w1 (-> & Hs1 & H). wp_pure. split; [done|]. split; [|done]. by rewrite Hs1.
Qed.

(** ** Channels with a separator in their name *)

Lemma Split_app_any s t sep :
  exists pre, Split (s +:+ String sep t) sep = pre ++ Split t sep /\ pre <> [].
Proof.
  induction s as [|c s IH]; cbn.
  - rewrite Ascii.eqb_refl. by exists [EmptyString].
  - destruct IH as (pre & -> & Hpre). destruct (Ascii.eqb c sep).
    + by exists (EmptyString :: pre).
    + destruct pre as [|p pre]; [done|]. by exists (String c p :: pre).
Qed.

Lemma from_end_app_last3 pre a b c :
  from_end (pre ++ [a; b; c]) 1 = Some c /\ from_end (pre ++ [a; b; c]) 3 = Some a.
Proof.
  unfold from_end. rewrite length_app. cbn [length].
  destruct (Nat.ltb_spec (length pre + 3) 1); [lia|].
  destruct (Nat.ltb_spec (length pre + 3) 3); [lia|].
  rewrite !lookup_app_r by lia.
  replace (length pre + 3 - 1 - length pre)%nat with 2%nat by lia.
  by replace (length pre + 3 - 3 - length pre)%nat with 0%nat by lia.
Qed.

(** A job dispatched on a channel whose name has a colon is not found
    under its key: the scanner takes the part after the last colon of the
    channel for the channel, so unless such a key happens to exist, visiting
    the pending key changes nothing and the job is never run. *)
Lemma processKey_colon_channel q a b id w :
  healthy (w_redis w) -> has_byte colon b = false -> has_byte colon id = false ->
  keyspace (w_redis w) !! stateKey Pending b id = None ->
  wp (processKey q (RBulk (stateKey Pending (a +:+ String colon b) id))) (fun e w' =>
    e = PageDone /\ keyspace (w_redis w') = keyspace (w_redis w) /\ w_app w' = w_app w) w.
Proof.
  intros Hh Hb Hi Hk. unfold processKey. cbn [bulk_bytes].
  assert (exists pre, Split (stateKey Pending (a +:+ String colon b) id) colon =
    pre ++ [b; stateName Pending; id]) as [pre ->].
  { assert (stateKey Pending (a +:+ String colon b) id =
      ("queues:" +:+ a) +:+ String colon (b +:+ String colon (stateName Pending +:+ String colon id)))
      as -> by (by rewrite stateKey_eq, !append_assoc).
    destruct (Split_app_any ("queues:" +:+ a)
      (b +:+ String colon (stateName Pending +:+ String colon id)) colon) as (pre & -> & _).
    exists pre. f_equal. rewrite !Split_app_sep by done. by rewrite Split_no_sep. }
  destruct (from_end_app_last3 pre b (stateName Pending) id) as [-> ->]. wp_pure.
  eapply (wp_setRedisKey_missing b id Pending Locked); [done..|]. intros msg s1 Hs1 Hk1 _.
  by repeat wp_pure.
Qed.

(** ** RedisKeyspaceFormater *)

Lemma Replace_ascii rules s :
  Forall (fun r => is_ascii r.2 = true) rules -> is_ascii s = true -> is_ascii (Replace rules s) = true.
Proof.
  intros Hr. assert (Happ : forall a b, is_ascii (a +:+ b) = is_ascii a && is_ascii b).
  { intros a b. induction a as [|x a IHa]; cbn; [done|]. by rewrite IHa, andb_assoc. }
  assert (Hb : forall c, is_ascii_byte c = true -> is_ascii (replace_byte rules c) = true).
  { intros c Hc. induction Hr as [|[o n] rules Ho _ IH]; cbn; [by rewrite Hc|].
    by destruct (Ascii.eqb c o). }
  induction s as [|c s IH]; cbn; [done|]. intros [Hc Hs]%andb_true_iff.
  rewrite Happ, Hb, IH by done. done.
Qed.

(** The bytes the formatter removes or replaces. *)
Definition separator (c : ascii) : bool :=
  Ascii.eqb c ":" || Ascii.eqb c " " || Ascii.eqb c ",".

Fixpoint no_separator (s : string) : bool :=
  match s with
  | EmptyString => true
  | String c s' => negb (separator c) && no_separator s'
  end.

Abbreviation formatter_rules :=
  [(":"%char, EmptyString); (" "%char, "-"); (","%char, EmptyString)].

Lemma no_separator_app a b : no_separator (a +:+ b) = no_separator a && no_separator b.
Proof. induction a as [|x a IH]; cbn; [done|]. by rewrite IH, andb_assoc. Qed.

Lemma no_separator_Replace s : no_separator (Replace formatter_rules s) = true.
Proof.
  induction s as [|c s IH]; [done|]. cbn [Replace]. rewrite no_separator_app, IH, andb_true_r.
  cbn [replace_byte]. destruct (Ascii.eqb c ":") eqn:E1; [done|].
  destruct (Ascii.eqb c " ") eqn:E2; [done|]. destruct (Ascii.eqb c ",") eqn:E3; [done|].
  cbn. unfold separator. by rewrite E1, E2, E3.
Qed.

Lemma Replace_id s : no_separator s = true -> Replace formatter_rules s = s.
Proof.
  induction s as [|c s IH]; [done|]. cbn. intros [Hc Hs]%andb_true_iff.
  unfold separator in Hc. apply negb_true_iff in Hc.
  apply orb_false_iff in Hc as [Hc H3]. apply orb_false_iff in Hc as [H1 H2].
  rewrite H1, H2, H3. cbn. by rewrite IH.
Qed.

Lemma separator_lower c : separator (lower_byte c) = separator c.
Proof. destruct c as [[] [] [] [] [] [] [] []]; reflexivity. Qed.

Lemma no_separator_lower s : no_separator (lower_ascii s) = no_separator s.
Proof. induction s as [|c s IH]; cbn; [done|]. by rewrite separator_lower, IH. Qed.

Lemma no_separator_colon s : no_separator s = true -> has_byte colon s = false.
Proof.
  induction s as [|c s IH]; cbn; [done|]. intros [Hc Hs]%andb_true_iff. rewrite IH by done.
  unfold separator in Hc. rewrite orb_false_r. destruct (Ascii.eqb c colon) eqn:E; [|done].
  change ":"%char with colon in Hc. by rewrite E in Hc.
Qed.

(** On ASCII names the formatter is idempotent and its result has no
    separator, so a key built from it splits back into its parts. *)
Lemma RedisKeyspaceFormater_normal s st id :
  is_ascii s = true -> has_byte colon id = false ->
  RedisKeyspaceFormater (RedisKeyspaceFormater s) = RedisKeyspaceFormater s /\
  no_separator (RedisKeyspaceFormater s) = true /\
  Split (stateKey st (RedisKeyspaceFormater s) id) colon =
    ["queues"; RedisKeyspaceFormater s; stateName st; id].
Proof.
  intros Hs Hid. unfold RedisKeyspaceFormater, ToLower.
  assert (Ha : is_ascii (Replace formatter_rules s) = true)
    by (apply Replace_ascii; [by repeat constructor|done]).
  rewrite Ha.
  assert (Hn : no_separator (lower_ascii (Replace formatter_rules s)) = true)
    by (rewrite no_separator_lower; apply no_separator_Replace).
  rewrite (Replace_id (lower_ascii _)) by done. rewrite is_ascii_lower, Ha, lower_ascii_idem.
  split; [done|]. split; [done|]. apply Split_stateKey; [by apply no_separator_colon|done].
Qed.

End Loop.

(** ** Witnesses *)

Lemma scanLoop_no_panic_witness :
  wp (scanLoop 4 refQueue 0) (fun _ w' => healthy (w_redis w')) (pendingWorld refJob HOk).
Proof. exact (scanLoop_no_panic 4 refQueue 0 (pendingWorld refJob HOk) eq_refl). Defined.

Lemma worker_dies_on_bad_gate_witness :
  wp (cursorScanRedisDb 100 refQueue) (fun e w' => e = Returned /\ w_shutdown w' = false)
    (workWorld [("queues:job:pending:a0", refJob); ("queues:job:pending:a1", badGateJob);
                ("queues:job:pending:a2", refJob)] [("mail", plainHandler HOk)]).
Proof.
  eapply wp_mono; [|eapply (worker_dies_on_bad_gate 99 refQueue "job" "a1" (refHash badGateJob)
    (wire badGateJob)); try reflexivity].
  - intros e w' (-> & -> & _). done.
  - vm_compute. set_solver.
Defined.

Lemma processKey_colon_channel_witness :
  wp (processKey refQueue (RBulk "queues:mail:high:pending:a1")) (fun e w' =>
    e = PageDone /\ w_app w' = 0%nat)
    (workWorld [("queues:mail:high:pending:a1", refJob)] [("mail", plainHandler HOk)]).
Proof.
  eapply wp_mono; [|apply (processKey_colon_channel refQueue "mail" "high" "a1"); reflexivity].
  intros e w' (-> & _ & ->). done.
Defined.

Lemma RedisKeyspaceFormater_normal_witness :
  RedisKeyspaceFormater "High: Priority, Mail" = "high-priority-mail" /\
  Split (stateKey Locked (RedisKeyspaceFormater "High: Priority, Mail") "a1") colon =
    ["queues"; "high-priority-mail"; "locked"; "a1"].
Proof.
  split; [reflexivity|].
  apply (RedisKeyspaceFormater_normal "High: Priority, Mail" Locked "a1"); reflexivity.
Defined.
