(* ===== verification/Reaper.v ===== *)
(** * Stale-lock reaper (api/reaper.go)

    One tick scans the [locked:] keys and, for each lock older than its
    timeout, deletes it when a pending copy exists, puts the job back to
    [pending:] or moves it to [failed:]; the counts of the tick are added to
    the package's counters. *)

From stdpp Require Import base gmap strings list.
From Stdlib Require Import ZArith Ascii Lia.
From S2P Require Import Prelude GoString GoTime Types Services Effects RefServices Redis RedisScan.

Open Scope Z_scope.

Definition pattern_locked : string := "queues:*:locked:*".

Inductive reapOutcome := reapRequeued | reapPermafailed.

(** The local counters of [runReaperTick]. *)
Record tally := mkTally {
  ta_scanned : Z;
  ta_requeued : Z;
  ta_failed : Z;
  ta_recent : Z;
  ta_dupes : Z;
  ta_errs : Z;
}.

Definition zeroTally : tally := mkTally 0 0 0 0 0 0.

Definition inc_scanned (t : tally) : tally :=
  mkTally (ta_scanned t + 1) (ta_requeued t) (ta_failed t) (ta_recent t) (ta_dupes t) (ta_errs t).
Definition inc_requeued (t : tally) : tally :=
  mkTally (ta_scanned t) (ta_requeued t + 1) (ta_failed t) (ta_recent t) (ta_dupes t) (ta_errs t).
Definition inc_failed (t : tally) : tally :=
  mkTally (ta_scanned t) (ta_requeued t) (ta_failed t + 1) (ta_recent t) (ta_dupes t) (ta_errs t).
Definition inc_recent (t : tally) : tally :=
  mkTally (ta_scanned t) (ta_requeued t) (ta_failed t) (ta_recent t + 1) (ta_dupes t) (ta_errs t).
Definition inc_dupes (t : tally) : tally :=
  mkTally (ta_scanned t) (ta_requeued t) (ta_failed t) (ta_recent t) (ta_dupes t + 1) (ta_errs t).
Definition inc_errs (t : tally) : tally :=
  mkTally (ta_scanned t) (ta_requeued t) (ta_failed t) (ta_recent t) (ta_dupes t) (ta_errs t + 1).

Section Reaper.
Context {HS : HandlerSig} {RS : RedisServer} {RG : Redigo} {DB : Database} {EV : Env}.

(** [ReaperStats]: a snapshot of the counters. *)
Definition getReaperStats (w : world) : ReaperStats := w_stats w.

(** The job as [requeueExpiredLock] starts from it. *)
Definition expired_job (j : Job) (timeout : Z) : Job :=
  set_Exception ("lock expired after " +:+ Itoa timeout +:+ "s")
    (set_RetryCounter (wrap64 (j_RetryCounter j + 1)) j).

(** [requeueExpiredLock]; the error is [None] when nil. *)
Definition requeueExpiredLock (q : Queue) (queue jobID : string) (j : Job) (timeout : Z)
    : prog (reapOutcome * option string) :=
  let j := expired_job j timeout in
  if j_Retry j && (j_RetryCounter j <? q_MaxAttempts q) then
    let* now := perform ENow in
    let j := set_RetryAfter (Format (Add now (seconds (wrap64 (j_RetryCounter j * 5))))) j in
    let j := set_Status statusPending j in
    let j := set_LockedAt EmptyString j in
    let* r := perform (EDo (HSET (Sprintf formatLocked [queue; jobID]) (AddFlat j))) in
    match r with
    | RErr err => Ret (reapRequeued, Some err)
    | Reply _ =>
        let* err := setRedisKey true queue jobID formatLocked formatPending in
        match err with
        | Some err =>
            if Contains err "no such key" then Ret (reapRequeued, None)
            else Ret (reapRequeued, Some err)
        | None => Ret (reapRequeued, None)
        end
    end
  else
    let* now := perform ENow in
    let j := set_FailedAt (Format (UTC now)) j in
    let* created := perform ENow in
    let j := set_CreatedAt created j in
    let* updated := perform ENow in
    let j := set_UpdatedAt updated j in
    let j := set_Status statusFailed j in
    let j := set_LockedAt EmptyString j in
    let* r := perform (EDo (HSET (Sprintf formatLocked [queue; jobID]) (AddFlat j))) in
    match r with
    | RErr err => Ret (reapPermafailed, Some err)
    | Reply _ =>
        let* err := setRedisKey true queue jobID formatLocked formatFailed in
        match err with
        | Some err =>
            if Contains err "no such key" then Ret (reapPermafailed, None)
            else Ret (reapPermafailed, Some err)
        | None =>
            let* _ := (if q_DB q then
                         let* _ := perform (EInsert "failed_jobs" j) in Ret tt
                       else Ret tt) in
            Ret (reapPermafailed, None)
        end
    end.

(** When a lock was taken: [LockedAt], or [ReservedAt] when that is empty or
    does not parse. *)
Definition lock_time (job : Job) : option gotime :=
  match Parse (j_LockedAt job) with
  | Some lockedAt =>
      if String.eqb (j_LockedAt job) EmptyString then Parse (j_ReservedAt job) else Some lockedAt
  | None => Parse (j_ReservedAt job)
  end.

(** The timeout of a job's lock. *)
Definition effective_timeout (q : Queue) (job : Job) : Z :=
  if 0 <? j_LockFor job then j_LockFor job else q_LockTimeout q.

(** The body of the loop over the keys of a page, for one key. *)
Definition reapKey (q : Queue) (v : rval) (t : tally) : prog tally :=
  let keyParts := Split (bulk_bytes v) colon in
  if (length keyParts <? 4)%nat then Ret t
  else
    match from_end keyParts 1, from_end keyParts 3 with
    | Some jobID, Some queue =>
        let t := inc_scanned t in
        let* job := getRedisValue true queue jobID formatLocked in
        match job with
        | inl err => if Contains err "no such key" then Ret t else Ret (inc_errs t)
        | inr job =>
            match lock_time job with
            | None => Ret t
            | Some lockedAt =>
                let timeout := effective_timeout q job in
                let* now := perform ENow in
                if Sub now lockedAt <? seconds timeout then Ret (inc_recent t)
                else
                  let* r := perform (EDo (EXISTS (Sprintf formatPending [queue; jobID]))) in
                  match Int r with
                  | inl _ => Ret (inc_errs t)
                  | inr exists_ =>
                      if exists_ =? 1 then
                        let t := inc_dupes t in
                        let* r := perform (EDo (DEL (Sprintf formatLocked [queue; jobID]))) in
                        match r with
                        | RErr _ => Ret (inc_errs t)
                        | Reply _ => Ret t
                        end
                      else
                        let* (outcome, err) := requeueExpiredLock q queue jobID job timeout in
                        match err with
                        | Some _ => Ret (inc_errs t)
                        | None => match outcome with
                                  | reapRequeued => Ret (inc_requeued t)
                                  | reapPermafailed => Ret (inc_failed t)
                                  end
                        end
                  end
            end
        end
    | _, _ => Panic "runtime error: index out of range"
    end.

Fixpoint reapPage (q : Queue) (data : list rval) (t : tally) : prog tally :=
  match data with
  | [] => Ret t
  | v :: rest => let* t := reapKey q v t in reapPage q rest t
  end.

(** The scan of a tick, from a cursor; one unit of fuel per page. *)
Fixpoint reapScan (fuel : nat) (q : Queue) (cursor : Z) (t : tally) : prog (tally * loop_exit) :=
  match fuel with
  | O => Ret (t, OutOfFuel)
  | S n =>
      let* down := perform EShutdown in
      if down : bool then Ret (t, Returned)
      else
        let* r := perform (EDo (SCAN (Itoa cursor) pattern_locked 100)) in
        match r with
        | Reply (RArray [RBulk c; d]) =>
            let '(nextCursor, ok) := Atoi c in
            if negb ok then Ret (inc_errs t, Returned)
            else match d with
                 | RArray data =>
                     let* t := reapPage q data t in
                     if nextCursor =? 0 then Ret (t, Returned) else reapScan n q nextCursor t
                 | _ => Ret (inc_errs t, Returned)
                 end
        | _ => Ret (inc_errs t, Returned)
        end
  end.

(** [runReaperTick] *)
Definition runReaperTick (fuel : nat) (q : Queue) : prog loop_exit :=
  if negb (r_Pool (q_Redis q)) then Panic "invalid memory address or nil pointer dereference"
  else
    let* (t, e) := reapScan fuel q 0 zeroTally in
    match e with
    | OutOfFuel => Ret OutOfFuel
    | Returned =>
        let* _ := perform (EStat reaperTicks 1) in
        let* _ := perform (EStat reaperScannedKeys (ta_scanned t)) in
        let* _ := perform (EStat reaperRequeued (ta_requeued t)) in
        let* _ := perform (EStat reaperPermafailed (ta_failed t)) in
        let* _ := perform (EStat reaperSkippedRecent (ta_recent t)) in
        let* _ := perform (EStat reaperSkippedDupePend (ta_dupes t)) in
        let* _ := perform (EStat reaperErrors (ta_errs t)) in
        Ret Returned
    end.

(** The loop of [reapStaleLocks], one unit of fuel per tick of the timer,
    and the function itself, whose timer refuses an interval that is not
    positive. *)
Fixpoint reaperLoop (fuel : nat) (tickFuel : nat) (q : Queue) : prog loop_exit :=
  match fuel with
  | O => Ret OutOfFuel
  | S n =>
      let* down := perform EShutdown in
      if down : bool then Ret Returned
      else
        let* _ := perform (ESleep (seconds (q_ReaperInterval q))) in
        let* down := perform EShutdown in
        if down : bool then Ret Returned
        else
          let* e := runReaperTick tickFuel q in
          match e with
          | OutOfFuel => Ret OutOfFuel
          | Returned => reaperLoop n tickFuel q
          end
  end.

Definition reapStaleLocks (fuel tickFuel : nat) (q : Queue) : prog loop_exit :=
  if seconds (q_ReaperInterval q) <=? 0 then Panic "non-positive interval for NewTicker"
  else reaperLoop fuel tickFuel q.

End Reaper.

(** ** What a tick does to one lock *)

Section OneLock.
Context {HS : HandlerSig} {RS : RedisServer} {RG : Redigo} {DB : Database} {EV : Env}.
Context {RL : RedisLaws RS} {GL : RedigoLaws RG}.

(** The jobs that [requeueExpiredLock] writes. *)
Definition reaped_requeue (now : gotime) (j : Job) (timeout : Z) : Job :=
  let j := expired_job j timeout in
  set_LockedAt EmptyString (set_Status statusPending
    (set_RetryAfter (Format (Add now (seconds (wrap64 (j_RetryCounter j * 5))))) j)).

Definition reaped_fail (t1 t2 t3 : gotime) (j : Job) (timeout : Z) : Job :=
  set_LockedAt EmptyString (set_Status statusFailed (set_UpdatedAt t3 (set_CreatedAt t2
    (set_FailedAt (Format (UTC t1)) (expired_job j timeout))))).

(** Whether the reaper gives the job another attempt. *)
Definition reaper_retries (q : Queue) (j : Job) : bool :=
  j_Retry j && (wrap64 (j_RetryCounter j + 1) <? q_MaxAttempts q).

Lemma wp_requeueExpiredLock q queue id j timeout h Q w :
  healthy (w_redis w) -> keyspace (w_redis w) !! stateKey Locked queue id = Some h ->
  (forall s' h', healthy s' ->
     let n := w_clock w in
     let m := delete (stateKey Locked queue id) (keyspace (w_redis w)) in
     if reaper_retries q j then
       decode h' = inr (wire (reaped_requeue (clock n) j timeout)) ->
       keyspace s' = <[stateKey Pending queue id := h']> m ->
       Q (reapRequeued, None) (put_redis s' (put_clock (S n) w))
     else
       let row := reaped_fail (clock n) (clock (S n)) (clock (S (S n))) j timeout in
       decode h' = inr (wire row) ->
       keyspace s' = <[stateKey Failed queue id := h']> m ->
       Q (reapPermafailed, None)
         (put_db (if q_DB q then (db_insert "failed_jobs" row (w_db w)).2 else w_db w)
            (put_redis s' (put_clock (S (S (S n))) w)))) ->
  wp (requeueExpiredLock q queue id j timeout) Q w.
Proof.
  intros Hh Hk H. unfold requeueExpiredLock. cbv zeta.
  change (j_Retry (expired_job j timeout) &&
    (j_RetryCounter (expired_job j timeout) <? q_MaxAttempts q)) with (reaper_retries q j).
  destruct (reaper_retries q j); cbv zeta in H; repeat wp_pure;
    (apply wp_hset; [done|]; intros n s1 Hs1 Hk1; wsimpl in Hk1; repeat wp_pure;
     change (Sprintf formatLocked [queue; id]) with (stateKey Locked queue id) in Hk1).
  - eapply (wp_setRedisKey queue id Locked Pending);
      [done|wsimpl; rewrite Hk1; apply lookup_insert_eq|].
    intros s2 Hs2 Hk2. wsimpl in Hk2. rewrite Hk1, delete_insert_eq in Hk2. wp_pure.
    eapply H; [done|apply decode_AddFlat|exact Hk2].
  - eapply (wp_setRedisKey queue id Locked Failed);
      [done|wsimpl; rewrite Hk1; apply lookup_insert_eq|].
    intros s2 Hs2 Hk2. wsimpl in Hk2. rewrite Hk1, delete_insert_eq in Hk2.
    specialize (fun h' => H s2 h' Hs2). destruct (q_DB q); repeat wp_pure.
    + destruct (db_insert _ _ _) as [er d] eqn:E. repeat wp_pure.
      eapply H; [apply decode_AddFlat|exact Hk2].
    + eapply H; [apply decode_AddFlat|exact Hk2].
Qed.

(** A lock that the tick inspects: its job, the time it was taken, and
    whether it is older than its timeout. *)
Definition inspected (queue id : string) (j : Job) (l : gotime) (w : world) : Prop :=
  healthy (w_redis w) /\ has_byte colon queue = false /\ has_byte colon id = false /\
  (exists h, keyspace (w_redis w) !! stateKey Locked queue id = Some h /\ decode h = inr j) /\
  lock_time j = Some l.

Definition expired (q : Queue) (j : Job) (l now : gotime) : bool :=
  negb (Sub now l <? seconds (effective_timeout q j)).

Lemma wp_inspect q queue id j l t Q w :
  inspected queue id j l w ->
  (forall s1, healthy s1 -> keyspace s1 = keyspace (w_redis w) ->
     let w1 := put_redis s1 (put_clock (S (w_clock w)) w) in
     let t := inc_scanned t in
     if expired q j l (clock (w_clock w)) then
       match keyspace s1 !! stateKey Pending queue id with
       | Some _ => forall s2, healthy s2 ->
           keyspace s2 = delete (stateKey Locked queue id) (keyspace s1) ->
           Q (inc_dupes t) (put_redis s2 w1)
       | None => wp (requeueExpiredLock q queue id j (effective_timeout q j))
           (fun r => Q (match r with
                        | (_, Some _) => inc_errs t
                        | (reapRequeued, None) => inc_requeued t
                        | (reapPermafailed, None) => inc_failed t
                        end)) w1
       end
     else Q (inc_recent t) w1) ->
  wp (reapKey q (RBulk (stateKey Locked queue id)) t) Q w.
Proof.
  intros (Hh & Hq & Hi & (h & Hk & Hd) & Hl) H. unfold reapKey. cbn [bulk_bytes].
  rewrite Split_stateKey by done. cbn [length Nat.ltb Nat.leb].
  change (from_end ["queues"; queue; stateName Locked; id] 1) with (Some id).
  change (from_end ["queues"; queue; stateName Locked; id] 3) with (Some queue).
  cbv beta iota. wp_pure. apply (wp_getRedisValue queue id Locked); [done|]. intros s1 Hs1 Hk1.
  rewrite Hk. simpl_default. rewrite Hd, Hl. cbv zeta in H. unfold expired in H.
  repeat wp_pure. destruct (Sub _ _ <? seconds _); cbn [negb] in H.
  - wp_pure. by apply (H s1).
  - wp_pure. apply wp_exists; [done|]. wsimpl. intros s2 Hs2 Hk2. wp_pure. rewrite Int_int.
    change (Sprintf formatPending [queue; id]) with (stateKey Pending queue id).
    assert (Hk12 : keyspace s2 = keyspace (w_redis w)) by (by rewrite Hk2).
    specialize (H s2 Hs2 Hk12). rewrite Hk2 in H.
    destruct (keyspace s1 !! stateKey Pending queue id) as [hp|]; cbn [Z.eqb Pos.eqb].
    + wp_pure. apply wp_del; [done|]. wsimpl. intros n s3 Hs3 Hk3. repeat wp_pure.
      rewrite Hk2 in Hk3. by apply H.
    + wp_pure. eapply wp_mono; [|exact H].
      intros [[] [er|]] w' Hw'; by repeat wp_pure.
Qed.

(** C11: what the reaper does with one lock. A lock younger than its
    effective timeout (the job's own [LockFor] when positive, the queue's
    [LockTimeout] otherwise) is left alone. An expired lock of a job that
    also has a pending copy is deleted; the copy, which owns the retry, is
    untouched. Without a copy, a job that has attempts left after counting
    this one goes back to [pending:] with its counter raised, the lock time
    cleared, the reason recorded and a gate of five seconds per attempt; one
    that has none moves to [failed:] and is offered to [failed_jobs]. *)
Theorem reapKey_spec q queue id j l t w :
  inspected queue id j l w ->
  wp (reapKey q (RBulk (stateKey Locked queue id)) t) (fun t' w' =>
    if negb (expired q j l (clock (w_clock w))) then
      t' = inc_recent (inc_scanned t) /\ keyspace (w_redis w') = keyspace (w_redis w) /\ w_db w' = w_db w
    else if keyspace (w_redis w) !! stateKey Pending queue id is Some _ then
      t' = inc_dupes (inc_scanned t) /\ w_db w' = w_db w /\
      keyspace (w_redis w') = delete (stateKey Locked queue id) (keyspace (w_redis w))
    else if reaper_retries q j then
      t' = inc_requeued (inc_scanned t) /\ w_db w' = w_db w /\
      exists h', decode h' = inr (wire (reaped_requeue (clock (S (w_clock w))) j (effective_timeout q j))) /\
        keyspace (w_redis w') = <[stateKey Pending queue id := h']>
          (delete (stateKey Locked queue id) (keyspace (w_redis w)))
    else
      t' = inc_failed (inc_scanned t) /\
      exists h',
        let n := S (w_clock w) in
        let row := reaped_fail (clock n) (clock (S n)) (clock (S (S n))) j (effective_timeout q j) in
        decode h' = inr (wire row) /\
        keyspace (w_redis w') = <[stateKey Failed queue id := h']>
          (delete (stateKey Locked queue id) (keyspace (w_redis w))) /\
        w_db w' = (if q_DB q then (db_insert "failed_jobs" row (w_db w)).2 else w_db w)) w.
Proof.
  intros Hin. eapply wp_inspect; [done|]. cbv zeta.
  destruct (expired q j l (clock (w_clock w))); [|intros s1 Hs1 Hk1; done].
  intros s1 Hs1 Hk1. rewrite Hk1.
  destruct (keyspace (w_redis w) !! stateKey Pending queue id) as [hp|] eqn:Hp; [intros s2 Hs2 Hk2; done|].
  destruct Hin as (_ & _ & _ & (h & Hk & _) & _).
  eapply wp_requeueExpiredLock; [done|wsimpl; rewrite Hk1; exact Hk|]. wsimpl. cbv zeta.
  intros s2 h' Hs2. destruct (reaper_retries q j); intros Hd Hk2; rewrite Hk1 in Hk2; cbn [negb]; eauto 10.
Qed.

End OneLock.

(** ** Witnesses *)

(** A lock taken 200, or 400, seconds before the clock starts. *)
Definition heldJob : Job := set_LockedAt "2023-11-14T22:10:00Z" refJob.
Definition staleJob : Job := set_LockedAt "2023-11-14T22:06:40Z" refJob.

Lemma inspected_held : inspected "job" "a1" (wire heldJob) (mkTime (1699999800 * Second) 0)
  (lockedWorld heldJob HOk).
Proof.
  split; [reflexivity|]. split; [reflexivity|]. split; [reflexivity|]. split; [|reflexivity].
  exists (refHash heldJob). split; [reflexivity|apply decode_refHash].
Qed.

Lemma inspected_stale : inspected "job" "a1" (wire staleJob) (mkTime (1699999600 * Second) 0)
  (lockedWorld staleJob HOk).
Proof.
  split; [reflexivity|]. split; [reflexivity|]. split; [reflexivity|]. split; [|reflexivity].
  exists (refHash staleJob). split; [reflexivity|apply decode_refHash].
Qed.

Definition dupeWorld : world :=
  workWorld [("queues:job:locked:a1", staleJob); ("queues:job:pending:a1", refJob)] [].

Lemma inspected_dupe :
  inspected "job" "a1" (wire staleJob) (mkTime (1699999600 * Second) 0) dupeWorld.
Proof.
  split; [reflexivity|]. split; [reflexivity|]. split; [reflexivity|]. split; [|reflexivity].
  exists (refHash staleJob). split; [reflexivity|apply decode_refHash].
Qed.

Definition lastAttempt : Job := set_RetryCounter 1 staleJob.

Lemma inspected_last :
  inspected "job" "a1" (wire lastAttempt) (mkTime (1699999600 * Second) 0) (lockedWorld lastAttempt HOk).
Proof.
  split; [reflexivity|]. split; [reflexivity|]. split; [reflexivity|]. split; [|reflexivity].
  exists (refHash lastAttempt). split; [reflexivity|apply decode_refHash].
Qed.

Lemma reapKey_spec_witness :
  wp (reapKey refQueue (RBulk "queues:job:locked:a1") zeroTally) (fun t w' =>
    t = mkTally 1 0 0 1 0 0 /\ is_Some (keyspace (w_redis w') !! "queues:job:locked:a1"))
    (lockedWorld heldJob HOk) /\
  wp (reapKey refQueue (RBulk "queues:job:locked:a1") zeroTally) (fun t w' =>
    t = mkTally 1 0 0 0 1 0 /\ keyspace (w_redis w') !! "queues:job:locked:a1" = None) dupeWorld /\
  wp (reapKey refQueue (RBulk "queues:job:locked:a1") zeroTally) (fun t w' =>
    t = mkTally 1 1 0 0 0 0 /\ is_Some (keyspace (w_redis w') !! "queues:job:pending:a1"))
    (lockedWorld staleJob HOk) /\
  wp (reapKey refQueue (RBulk "queues:job:locked:a1") zeroTally) (fun t w' =>
    t = mkTally 1 0 1 0 0 0 /\ is_Some (keyspace (w_redis w') !! "queues:job:failed:a1"))
    (lockedWorld lastAttempt HOk).
Proof.
  split; [|split; [|split]].
  - eapply wp_mono; [|eapply (reapKey_spec refQueue "job" "a1"); apply inspected_held].
    intros t w' (-> & -> & _). split; [done|]. by eexists.
  - eapply wp_mono; [|eapply (reapKey_spec refQueue "job" "a1"); apply inspected_dupe].
    intros t w' (-> & _ & ->). done.
  - eapply wp_mono; [|eapply (reapKey_spec refQueue "job" "a1"); apply inspected_stale].
    intros t w' (-> & _ & h' & _ & ->). split; [done|]. eexists. apply lookup_insert_eq.
  - eapply wp_mono; [|eapply (reapKey_spec refQueue "job" "a1"); apply inspected_last].
    intros t w' (-> & h' & _ & -> & _). split; [done|]. eexists. apply lookup_insert_eq.
Defined.
