(* ===== verification/ReaperTick.v ===== *)
(** * Stale-lock reaper: whole ticks

    What a tick of the reaper does to all the jobs of the keyspace, what it
    counts, when it ends, and where lock timeouts overflow. *)

From stdpp Require Import base gmap strings list.
From Stdlib Require Import ZArith Ascii Lia.
From S2P Require Import Prelude GoString GoTime Types Services Effects RefServices Redis RedisScan Reaper.

Open Scope Z_scope.

(** ** Jobs that stay *)

(** A job has a key in some state. *)
Definition present (m : keys) (queue id : string) : Prop :=
  exists st, is_Some (m !! stateKey st queue id).

Definition terminal (st : jstate) : bool :=
  match st with Completed | Failed => true | Pending | Locked => false end.

(** No job of [m] is missing from [m'], and what was completed or failed
    still is. Job ids and channels have no separator. *)
Definition keeps (m m' : keys) : Prop :=
  forall queue id, has_byte colon queue = false -> has_byte colon id = false ->
    (present m queue id -> present m' queue id) /\
    (forall st, terminal st = true -> is_Some (m !! stateKey st queue id) ->
       is_Some (m' !! stateKey st queue id)).

#[export] Instance keeps_preorder : PreOrder keeps.
Proof.
  split.
  - by intros m queue id _ _.
  - intros m1 m2 m3 H1 H2 queue id Hq Hi.
    destruct (H1 queue id Hq Hi), (H2 queue id Hq Hi). split; eauto.
Qed.

Lemma keeps_insert (m : keys) k h : keeps m (<[k := h]> m).
Proof.
  intros queue id _ _. assert (Hin : forall k', is_Some (m !! k') -> is_Some (<[k := h]> m !! k')).
  { intros k' Hk. rewrite lookup_insert. by case_decide. }
  split; [|eauto]. intros [st ?]. exists st. eauto.
Qed.

(** Removing a lock is harmless when the job has another key. *)
Lemma keeps_delete_lock (m : keys) queue id st :
  has_byte colon queue = false -> has_byte colon id = false -> st <> Locked ->
  is_Some (m !! stateKey st queue id) -> keeps m (delete (stateKey Locked queue id) m).
Proof.
  intros Hq Hi Hst Hk queue' id' Hq' Hi'.
  assert (Hne : forall st', (st', queue', id') <> (Locked, queue, id) ->
    delete (stateKey Locked queue id) m !! stateKey st' queue' id' = m !! stateKey st' queue' id').
  { intros st' Hne. apply lookup_delete_ne. intros E. apply Hne.
    apply stateKey_inj in E as (-> & -> & ->); done. }
  split.
  - intros [st' Hst'].
    destruct (decide ((st', queue', id') = (Locked, queue, id))) as [[= -> -> ->]|Hn].
    + exists st. rewrite Hne by congruence. done.
    + exists st'. by rewrite Hne.
  - intros st' Ht Hs. rewrite Hne; [done|]. by intros [= -> _ _].
Qed.

Lemma keeps_move (m : keys) queue id st h :
  has_byte colon queue = false -> has_byte colon id = false -> st <> Locked ->
  keeps m (<[stateKey st queue id := h]> (delete (stateKey Locked queue id) m)).
Proof.
  intros Hq Hi Hst. rewrite <- delete_insert_ne by (intros E%stateKey_state_inj; congruence).
  etransitivity; [apply (keeps_insert m (stateKey st queue id) h)|].
  eapply keeps_delete_lock; [done..|]. rewrite lookup_insert_eq. eauto.
Qed.

#[export] Hint Resolve keeps_insert keeps_delete_lock keeps_move : adele.

Lemma from_end_Some l i : (1 <= i <= length l)%nat -> exists p, from_end l i = Some p /\ p ∈ l.
Proof.
  intros H. unfold from_end. destruct (Nat.ltb_spec (length l) i); [lia|].
  destruct (lookup_lt_is_Some_2 l (length l - i)) as [p Hp]; [lia|].
  exists p. split; [done|]. by eapply list_elem_of_lookup_2.
Qed.

(** ** What a tick counts *)

(** The number of jobs in a state: keys of four parts whose third names it. *)
Definition key_state (k : string) : option jstate :=
  match Split k colon with
  | [p; _; s; _] =>
      if String.eqb p "queues" then
        head (filter (fun st => stateName st = s) [Pending; Locked; Completed; Failed])
      else None
  | _ => None
  end.

Definition in_state (st : jstate) (m : keys) : Z :=
  Z.of_nat (size (filter (fun kh => key_state kh.1 = Some st) m)).

Lemma key_state_stateKey st queue id :
  has_byte colon queue = false -> has_byte colon id = false ->
  key_state (stateKey st queue id) = Some st.
Proof. intros Hq Hi. unfold key_state. rewrite Split_stateKey by done. by destruct st. Qed.

Lemma in_state_insert st (m : keys) k h : m !! k = None ->
  in_state st (<[k := h]> m) = in_state st m + (if decide (key_state k = Some st) then 1 else 0).
Proof.
  intros Hk. unfold in_state. case_decide as Hs.
  - rewrite map_filter_insert_True by done.
    rewrite map_size_insert_None; [lia|]. apply map_lookup_filter_None. by left.
  - rewrite map_filter_insert_False by done. rewrite delete_id by done. lia.
Qed.

Lemma in_state_delete st (m : keys) k : is_Some (m !! k) ->
  in_state st (delete k m) = in_state st m - (if decide (key_state k = Some st) then 1 else 0).
Proof.
  intros [h Hk]. rewrite <- (insert_delete_id m k h Hk) at 2.
  rewrite in_state_insert by apply lookup_delete_eq. lia.
Qed.

(** What the reaper decides about a key it scanned: nothing to do (no lock
    is stored under it, or the lock has no date), a lock that does not
    decode, a young lock, and the three ends of an expired lock. *)
Inductive verdict := VNothing | VError | VRecent | VDupe | VRequeued | VFailed.

#[export] Instance verdict_eq_dec : EqDecision verdict.
Proof. solve_decision. Defined.

(** The counts of a list of verdicts. *)
Definition times (v : verdict) (vs : list verdict) : Z :=
  Z.of_nat (length (filter (fun v' => v' = v) vs)).

Definition tally_of (vs : list verdict) : tally :=
  mkTally (Z.of_nat (length vs)) (times VRequeued vs) (times VFailed vs) (times VRecent vs)
    (times VDupe vs) (times VError vs).

Definition add_tally (t : tally) (s : ReaperStats) : ReaperStats :=
  mkReaperStats (wrapU64 (rs_Ticks s + 1)) (wrapU64 (rs_ScannedKeys s + ta_scanned t))
    (wrapU64 (rs_Requeued s + ta_requeued t)) (wrapU64 (rs_Permafailed s + ta_failed t))
    (wrapU64 (rs_SkippedRecent s + ta_recent t)) (wrapU64 (rs_SkippedDupePending s + ta_dupes t))
    (wrapU64 (rs_Errors s + ta_errs t)).

Definition plus_tally (t t' : tally) : tally :=
  mkTally (ta_scanned t + ta_scanned t') (ta_requeued t + ta_requeued t')
    (ta_failed t + ta_failed t') (ta_recent t + ta_recent t') (ta_dupes t + ta_dupes t')
    (ta_errs t + ta_errs t').

Lemma times_app v vs vs' : times v (vs ++ vs') = times v vs + times v vs'.
Proof. unfold times. rewrite filter_app, length_app. lia. Qed.

Lemma plus_tally_app t vs vs' :
  plus_tally t (tally_of (vs ++ vs')) = plus_tally (plus_tally t (tally_of vs)) (tally_of vs').
Proof.
  unfold tally_of, plus_tally. cbn. rewrite !times_app, length_app, Nat2Z.inj_add, !Z.add_assoc. done.
Qed.

Lemma plus_tally_nil t : plus_tally t (tally_of []) = t.
Proof. destruct t. unfold plus_tally, tally_of. cbn. by rewrite !Z.add_0_r. Qed.

Lemma plus_tally_one t v :
  plus_tally t (tally_of [v]) =
    match v with
    | VNothing => inc_scanned t
    | VError => inc_errs (inc_scanned t)
    | VRecent => inc_recent (inc_scanned t)
    | VDupe => inc_dupes (inc_scanned t)
    | VRequeued => inc_requeued (inc_scanned t)
    | VFailed => inc_failed (inc_scanned t)
    end.
Proof.
  destruct t, v; unfold plus_tally, tally_of, inc_scanned, inc_errs, inc_recent, inc_dupes,
    inc_requeued, inc_failed; cbn; by rewrite ?Z.add_0_r.
Qed.

(** The channel and the id that a key names. *)
Definition key_job (k : string) : option (string * string) :=
  if (length (Split k colon) <? 4)%nat then None
  else match from_end (Split k colon) 3, from_end (Split k colon) 1 with
       | Some queue, Some id => Some (queue, id)
       | _, _ => None
       end.

(** The keys that the SCANs of a run returned. *)
Definition scanned_keys (l : list (cmd * reply)) : list string :=
  concat ((fun x : cmd * reply =>
    match x with
    | (SCAN _ _ _, Reply (RArray [_; RArray ks])) => bulk_bytes <$> ks
    | _ => []
    end) <$> l).

Lemma scanned_keys_app l l' : scanned_keys (l ++ l') = scanned_keys l ++ scanned_keys l'.
Proof. unfold scanned_keys. by rewrite fmap_app, concat_app. Qed.

Definition not_scan (c : cmd) : Prop := match c with SCAN _ _ _ => False | _ => True end.

Lemma scanned_keys_none l : Forall (fun x => not_scan x.1) l -> scanned_keys l = [].
Proof. induction 1 as [|[[] r] l H _ IH]; [done|by destruct H|done..]. Qed.

Section Tick.
Context {HS : HandlerSig} {RS : RedisServer} {RG : Redigo} {DB : Database} {EV : Env}.
Context {RL : RedisLaws RS} {GL : RedigoLaws RG}.

(** The verdict on the lock of a job, at a time and in a keyspace. *)
Definition judge (q : Queue) (queue id : string) (now : gotime) (m : keys) : verdict :=
  match m !! stateKey Locked queue id with
  | None => VNothing
  | Some h =>
      match decode h with
      | inl e =>
          if Contains ("failed to scan value to struct " +:+ stateKey Locked queue id +:+ ": " +:+ e)
               "no such key"
          then VNothing else VError
      | inr j =>
          match lock_time j with
          | None => VNothing
          | Some l =>
              if negb (expired q j l now) then VRecent
              else if m !! stateKey Pending queue id is Some _ then VDupe
              else if reaper_retries q j then VRequeued else VFailed
          end
      end
  end.

(** The times a visit reads the clock. *)
Definition readings (v : verdict) : nat :=
  match v with VNothing | VError => 0 | VRecent | VDupe => 1 | VRequeued => 2 | VFailed => 4 end.

(** What a verdict does to the keys. *)
Definition sentence (v : verdict) (queue id : string) (m m' : keys) : Prop :=
  let m0 := delete (stateKey Locked queue id) m in
  match v with
  | VNothing | VError | VRecent => m' = m
  | VDupe => m' = m0
  | VRequeued => exists h, m' = <[stateKey Pending queue id := h]> m0
  | VFailed => exists h, m' = <[stateKey Failed queue id := h]> m0
  end.

(** A sequence of visits: each key is judged by the keyspace and the clock
    it is visited at, and the verdict is carried out. *)
Inductive judged (q : Queue) : nat -> keys -> list string -> list verdict -> nat -> keys -> Prop :=
| judged_nil n m : judged q n m [] [] n m
| judged_snoc n m ks vs n1 m1 k queue id m2 :
    judged q n m ks vs n1 m1 ->
    key_job k = Some (queue, id) ->
    let v := judge q queue id (clock n1) m1 in
    sentence v queue id m1 m2 ->
    judged q n m (ks ++ [k]) (vs ++ [v]) (n1 + readings v) m2.

Lemma judged_app q n m ks vs n1 m1 ks' vs' n2 m2 :
  judged q n m ks vs n1 m1 -> judged q n1 m1 ks' vs' n2 m2 ->
  judged q n m (ks ++ ks') (vs ++ vs') n2 m2.
Proof.
  intros H1. induction 1 as [|n' m' ks' vs' n3 m3 k queue id m2 _ IH Hk v Hs]; [by rewrite !app_nil_r|].
  rewrite !app_assoc. by econstructor; eauto.
Qed.

Lemma key_job_pieces k queue id : key_job k = Some (queue, id) ->
  has_byte colon queue = false /\ has_byte colon id = false.
Proof.
  unfold key_job. destruct (_ <? _)%nat; [done|].
  destruct (from_end _ 3) eqn:E3; [|done]. destruct (from_end _ 1) eqn:E1; [|done].
  intros [= <- <-]. split; by eapply from_end_piece.
Qed.

(** The verdicts count what happened to the keyspace. *)
Lemma judge_locked q queue id now m :
  match judge q queue id now m with
  | VDupe => is_Some (m !! stateKey Locked queue id) /\ is_Some (m !! stateKey Pending queue id)
  | VRequeued | VFailed =>
      is_Some (m !! stateKey Locked queue id) /\ m !! stateKey Pending queue id = None
  | _ => True
  end.
Proof.
  unfold judge. destruct (m !! stateKey Locked queue id) as [h|]; [|done].
  destruct (decode h); [by destruct (Contains _ _)|]. destruct (lock_time _); [|done].
  destruct (expired _ _ _ _); [|done]. cbn [negb].
  destruct (m !! stateKey Pending queue id); [eauto|]. destruct (reaper_retries _ _); eauto.
Qed.

Lemma sentence_keeps q queue id now m m' :
  has_byte colon queue = false -> has_byte colon id = false ->
  sentence (judge q queue id now m) queue id m m' -> keeps m m'.
Proof.
  intros Hq Hi. pose proof (judge_locked q queue id now m) as H.
  destruct (judge q queue id now m); unfold sentence; cbv zeta; [by intros ->..| | |].
  - intros ->. destruct H. by apply (keeps_delete_lock _ _ _ Pending).
  - intros [h ->]. by apply keeps_move.
  - intros [h ->]. by apply keeps_move.
Qed.

Lemma judged_keeps q n m ks vs n' m' : judged q n m ks vs n' m' -> keeps m m'.
Proof.
  induction 1 as [|n m ks vs n1 m1 k queue id m2 _ IH Hk v Hs]; [done|]. etransitivity; [done|].
  apply key_job_pieces in Hk as [Hq Hi]. exact (sentence_keeps _ _ _ _ _ _ Hq Hi Hs).
Qed.

(** Counts of single verdicts and states are numbers. *)
Ltac counted := repeat match goal with
  | |- context [times ?a [?b]] => let x := eval vm_compute in (times a [b]) in change (times a [b]) with x
  | |- context [if decide (?a = ?b) then 1 else 0] =>
      let x := eval vm_compute in (if decide (a = b) then 1 else 0) in
      change (if decide (a = b) then 1 else 0) with x
  end.

Lemma sentence_counts q queue id now m m' :
  has_byte colon queue = false -> has_byte colon id = false ->
  let v := judge q queue id now m in
  sentence v queue id m m' ->
  in_state Pending m' = in_state Pending m + times VRequeued [v] /\
  in_state Locked m' = in_state Locked m -
    (times VRequeued [v] + times VFailed [v] + times VDupe [v]).
Proof.
  intros Hq Hi. cbv zeta. pose proof (judge_locked q queue id now m) as H.
  assert (Hd : forall st, is_Some (m !! stateKey Locked queue id) ->
    in_state st (delete (stateKey Locked queue id) m) =
      in_state st m - (if decide (Locked = st) then 1 else 0)).
  { intros st Hl. rewrite in_state_delete, key_state_stateKey by done.
    destruct st; done. }
  destruct (judge q queue id now m); unfold sentence; cbv zeta; [intros ->; counted; lia..| | |]; destruct H as [Hl Hp].
  - intros ->. rewrite !Hd by done. counted; lia.
  - intros [h ->]. rewrite !in_state_insert by (by rewrite lookup_delete_ne by key_ne).
    rewrite !Hd, !key_state_stateKey by done. counted; lia.
  - intros [h ->].
    destruct (delete (stateKey Locked queue id) m !! stateKey Failed queue id) as [hf|] eqn:Hf.
    + rewrite <- insert_delete_eq.
      rewrite !in_state_insert by apply lookup_delete_eq.
      rewrite !in_state_delete by eauto. rewrite !key_state_stateKey by done. counted; lia.
    + rewrite !in_state_insert by done. rewrite !Hd, !key_state_stateKey by done. counted; lia.
Qed.

Lemma judged_counts q n m ks vs n' m' : judged q n m ks vs n' m' ->
  in_state Pending m' = in_state Pending m + times VRequeued vs /\
  in_state Locked m' = in_state Locked m - (times VRequeued vs + times VFailed vs + times VDupe vs).
Proof.
  induction 1 as [|n m ks vs n1 m1 k queue id m2 _ IH Hk v Hs]; [unfold times; cbn -[in_state]; lia|].
  apply key_job_pieces in Hk as [Hq Hi]. apply sentence_counts in Hs; [|done..].
  rewrite !times_app. fold v in Hs. lia.
Qed.

(** ** The programs *)

(** A key is visited as the job it names. *)
Lemma reapKey_named q k queue id t :
  key_job k = Some (queue, id) ->
  reapKey q (RBulk k) t = reapKey q (RBulk (stateKey Locked queue id)) t.
Proof.
  intros Hk. destruct (key_job_pieces _ _ _ Hk) as [Hq Hi]. unfold key_job in Hk.
  unfold reapKey. cbn [bulk_bytes].
  destruct (from_end_stateKey Locked queue id Hq Hi) as [-> ->].
  rewrite Split_stateKey by done. cbn [length].
  destruct (_ <? 4)%nat; [done|].
  destruct (from_end _ 3); [|done]. destruct (from_end _ 1); [|done]. by injection Hk as -> ->.
Qed.

(** What a part of a tick does that scans the keys [ks], from tally [t]. *)
Definition ticked (q : Queue) (w : world) (t : tally) (ks : list string)
    (t' : tally) (w' : world) : Prop :=
  healthy (w_redis w') /\ w_stats w' = w_stats w /\
  exists vs, t' = plus_tally t (tally_of vs) /\
    judged q (w_clock w) (keyspace (w_redis w)) ks vs (w_clock w') (keyspace (w_redis w')).

Lemma ticked_refl q w t : healthy (w_redis w) -> ticked q w t [] t w.
Proof. intros H. split; [done|]. split; [done|]. exists []. rewrite plus_tally_nil. split; [done|constructor]. Qed.

Lemma ticked_trans q w t ks t1 w1 ks' t2 w2 :
  ticked q w t ks t1 w1 -> ticked q w1 t1 ks' t2 w2 -> ticked q w t (ks ++ ks') t2 w2.
Proof.
  intros (_ & E1 & vs1 & -> & J1) (Hh & E2 & vs2 & -> & J2).
  split; [done|]. split; [by rewrite E2|]. exists (vs1 ++ vs2). rewrite plus_tally_app.
  split; [done|]. by eapply judged_app.
Qed.

(** The first command of a visit: reading the lock. *)
Lemma wp_reap_read q queue id t Q w :
  healthy (w_redis w) -> has_byte colon queue = false -> has_byte colon id = false ->
  (forall s1, healthy s1 -> keyspace s1 = keyspace (w_redis w) ->
     let w1 := put_redis s1 w in
     match decode (default ∅ (keyspace (w_redis w) !! stateKey Locked queue id)) with
     | inl e =>
         Q (if Contains ("failed to scan value to struct " +:+ stateKey Locked queue id +:+ ": " +:+ e)
                 "no such key" then inc_scanned t else inc_errs (inc_scanned t)) w1
     | inr j => lock_time j = None /\ Q (inc_scanned t) w1
     end) ->
  wp (reapKey q (RBulk (stateKey Locked queue id)) t) Q w.
Proof.
  intros Hh Hq Hi H. unfold reapKey. cbn [bulk_bytes].
  destruct (from_end_stateKey Locked queue id Hq Hi) as [-> ->].
  rewrite Split_stateKey by done. cbn [length Nat.ltb Nat.leb]. wp_pure.
  apply (wp_getRedisValue queue id Locked); [done|]. intros s1 Hs1 Hk1.
  specialize (H s1 Hs1 Hk1). cbv zeta in H. destruct (decode _) as [e|j].
  - destruct (Contains _ _); by wp_pure.
  - destruct H as [-> H]. by wp_pure.
Qed.

Lemma reapKey_ticked q k queue id t w :
  healthy (w_redis w) -> key_job k = Some (queue, id) ->
  wp (reapKey q (RBulk k) t) (ticked q w t [k]) w.
Proof.
  intros Hh Hj. destruct (key_job_pieces _ _ _ Hj) as [Hq Hi]. rewrite (reapKey_named _ _ _ _ _ Hj).
  assert (Hdone : forall v t' w', judge q queue id (clock (w_clock w)) (keyspace (w_redis w)) = v ->
    t' = plus_tally t (tally_of [v]) ->
    healthy (w_redis w') -> w_stats w' = w_stats w -> w_clock w' = (w_clock w + readings v)%nat ->
    sentence v queue id (keyspace (w_redis w)) (keyspace (w_redis w')) -> ticked q w t [k] t' w').
  { intros v t' w' <- -> Hh' Hs Hc Hse. split; [done|]. split; [done|]. eexists. split; [done|].
    rewrite Hc. exact (judged_snoc _ _ _ [] [] _ _ _ _ _ _ (judged_nil _ _ _) Hj Hse). }
  unfold judge in Hdone.
  destruct (keyspace (w_redis w) !! stateKey Locked queue id) as [h|] eqn:Hk.
  2: { apply wp_reap_read; [done..|]. rewrite Hk. change (default ∅ None) with (∅ : hash).
       intros s1 Hs1 Hk1. rewrite decode_empty. split; [done|].
       by apply (Hdone VNothing); [|rewrite plus_tally_one| | |wsimpl; cbn; lia|]. }
  destruct (decode h) as [er|j] eqn:Hd.
  { apply wp_reap_read; [done..|]. rewrite Hk. simpl_default. intros s1 Hs1 Hk1. rewrite Hd.
    destruct (Contains _ _).
    - by apply (Hdone VNothing); [|rewrite plus_tally_one| | |wsimpl; cbn; lia|].
    - by apply (Hdone VError); [|rewrite plus_tally_one| | |wsimpl; cbn; lia|]. }
  destruct (lock_time j) as [l|] eqn:Hl.
  2: { apply wp_reap_read; [done..|]. rewrite Hk. simpl_default. intros s1 Hs1 Hk1. rewrite Hd.
       split; [done|]. by apply (Hdone VNothing); [|rewrite plus_tally_one| | |wsimpl; cbn; lia|]. }
  eapply (wp_inspect q queue id j l); [by split_and!; eauto|]. cbv zeta. intros s1 Hs1 Hk1.
  destruct (expired q j l (clock (w_clock w))); cbn [negb] in Hdone; [rewrite Hk1|].
  2: { by apply (Hdone VRecent); [|rewrite plus_tally_one| | |wsimpl; cbn; lia|]. }
  destruct (keyspace (w_redis w) !! stateKey Pending queue id) as [hp|].
  { intros s2 Hs2 Hk2. by apply (Hdone VDupe); [|rewrite plus_tally_one| | |wsimpl; cbn; lia|]. }
  eapply wp_requeueExpiredLock; [done|wsimpl; rewrite Hk1; exact Hk|]. wsimpl. cbv zeta.
  intros s2 h' Hs2. rewrite Hk1. destruct (reaper_retries q j); intros _ Hk2.
  - apply (Hdone VRequeued); [done|by rewrite plus_tally_one|done|done|wsimpl; cbn; lia|]. by exists h'.
  - apply (Hdone VFailed); [done|by rewrite plus_tally_one|done|done|wsimpl; cbn; lia|]. by exists h'.
Qed.

Definition named (ks : list string) : Prop := Forall (fun k => is_Some (key_job k)) ks.

Lemma pattern_locked_named k : star_match pattern_locked k = true -> is_Some (key_job k).
Proof.
  intros H. apply (star_match_count colon) in H; [|done]. cbn in H.
  pose proof (Split_length k colon) as Hl. unfold key_job.
  destruct (Nat.ltb_spec (length (Split k colon)) 4); [lia|].
  destruct (from_end_Some (Split k colon) 3) as (queue & -> & _); [lia|].
  destruct (from_end_Some (Split k colon) 1) as (id & -> & _); [lia|]. eauto.
Qed.

Lemma reapPage_ticked q ks t w :
  healthy (w_redis w) -> named ks -> wp (reapPage q (RBulk <$> ks) t) (ticked q w t ks) w.
Proof.
  intros Hh Hn. revert t w Hh. induction Hn as [|k ks [[queue id] Hk] _ IH]; intros t w Hh.
  { apply wp_ret. by apply ticked_refl. }
  cbn [fmap list_fmap reapPage]. wp_pure. eapply wp_mono; [|by eapply reapKey_ticked].
  intros t1 w1 H1. eapply wp_mono; [|apply IH, H1]. intros t2 w2 H2.
  by apply (ticked_trans _ _ _ [k] _ _ ks _ _ H1).
Qed.

(** Only the loop of a tick scans. *)
Lemma reapPage_no_scan q ks t :
  named ks ->
  allEff (fun e => match e with EDo c => not_scan c | _ => True end) (reapPage q (RBulk <$> ks) t).
Proof.
  intros Hn. revert t. induction Hn as [|k ks [[queue id] Hk] _ IH]; intros t; [done|].
  cbn [fmap list_fmap reapPage]. apply allEff_bind; [|intros t1; apply IH].
  destruct (key_job_pieces _ _ _ Hk) as [Hq Hi]. rewrite (reapKey_named _ _ _ _ _ Hk).
  unfold reapKey. cbn [bulk_bytes]. destruct (from_end_stateKey Locked queue id Hq Hi) as [-> ->].
  unfold getRedisValue, requeueExpiredLock, setRedisKey. cbv zeta. all_eff; done.
Qed.

Lemma scanned_keys_page cur c p n ks l :
  scanned_keys ((SCAN cur p n, scan_reply c ks) :: l) = ks ++ scanned_keys l.
Proof.
  unfold scanned_keys. cbn. f_equal. rewrite <- list_fmap_compose. apply list_fmap_id.
Qed.

(** ** Termination *)

(** A bound on the number of pages from a cursor to the end of a scan. *)
Definition cursor_bound (f : Z -> nat) : Prop :=
  forall s n p c s' m ks, healthy s -> 0 <= n ->
    redis_do (SCAN (Itoa n) p c) s = (scan_reply (Itoa m) ks, s') -> m = 0 \/ (f m < f n)%nat.

Lemma reapScan_ticked f fuel q cursor t w :
  cursor_bound f -> healthy (w_redis w) -> 0 <= cursor -> (f cursor < fuel)%nat ->
  wps (reapScan fuel q cursor t) (fun l r w' =>
    r.2 = Returned /\ ticked q w t (scanned_keys l) r.1 w') w.
Proof.
  intros Hf. revert cursor t w. induction fuel as [|fuel IH]; intros cursor t w Hh Hc Hfu; [lia|].
  cbn [reapScan]. apply wps_bind, wps_other; [done|]. cbn [handle]. apply wps_ret.
  destruct (w_shutdown w).
  { apply wps_ret. split; [done|]. by apply ticked_refl. }
  apply wps_bind, wps_do. intros r s1 Hdo.
  destruct (healthy_do _ _ _ _ Hh Hdo) as (Hs1 & Hk1 & (n & ks & -> & Hn & Hm)). apply wps_ret.
  unfold scan_reply at 1. rewrite Atoi_Itoa by (unfold in_int64, two63 in *; lia). cbn [negb].
  assert (Hnamed : named ks).
  { eapply Forall_impl; [apply Hm; done|]. apply pattern_locked_named. }
  assert (H0 : ticked q w t [] t (put_redis s1 w)).
  { split; [done|]. split; [done|]. exists []. rewrite plus_tally_nil. split; [done|].
    wsimpl. rewrite Hk1. constructor. }
  apply wps_bind. eapply wps_mono; [|apply (wps_all not_scan);
    [by apply reapPage_no_scan|by apply reapPage_ticked]].
  intros l t1 w1 [Hl H1]. apply scanned_keys_none in Hl.
  assert (H01 := ticked_trans _ _ _ _ _ _ _ _ _ H0 H1). cbn [app] in H01.
  destruct (Z.eqb_spec n 0) as [|Hne].
  - apply wps_ret. split; [done|]. cbn [app]. rewrite scanned_keys_page, scanned_keys_app, Hl.
    cbn. by rewrite app_nil_r.
  - eapply wps_mono; [|apply IH; [apply H1|lia|]].
    2: { destruct (Hf _ _ _ _ _ _ _ Hh Hc Hdo); [done|lia]. }
    intros l2 [t2 e] w2 [He H2]. split; [done|].
    cbn [app]. rewrite scanned_keys_page, scanned_keys_app, Hl.
    eapply ticked_trans; [exact H01|exact H2].
Qed.

(** C12: a tick of the reaper that runs without interference. When scans of
    the server end (from a cursor at most [f] more pages follow), a tick
    with more fuel than that returns. It loses no job: every job with a key
    in some state still has one afterwards, and every completed or failed
    job stays so. Every key that its SCANs returned is visited once, in
    order, with a verdict that its lock deserves in the keyspace and at the
    time of the visit (nothing, undecodable, recent, duplicate, requeued or
    permafailed) and that is carried out. The package's 64-bit counters grow
    by one tick, the number of keys scanned and the number of verdicts of
    each kind; as many jobs became pending as are counted requeued, and as
    many locks are gone as are counted requeued, permafailed or duplicate. *)
Theorem runReaperTick_spec f fuel q w :
  cursor_bound f -> healthy (w_redis w) -> r_Pool (q_Redis q) = true -> (f 0%Z < fuel)%nat ->
  wp (runReaperTick fuel q) (fun e w' =>
    let m := keyspace (w_redis w) in
    let m' := keyspace (w_redis w') in
    e = Returned /\ healthy (w_redis w') /\ keeps m m' /\
    exists vs,
      judged q (w_clock w) m (scanned_keys (sent (runReaperTick fuel q) w)) vs (w_clock w') m' /\
      getReaperStats w' = add_tally (tally_of vs) (getReaperStats w) /\
      in_state Pending m' = in_state Pending m + times VRequeued vs /\
      in_state Locked m' =
        in_state Locked m - (times VRequeued vs + times VFailed vs + times VDupe vs)) w.
Proof.
  intros Hf Hh Hp Hfu. cbv zeta.
  enough (wps (runReaperTick fuel q) (fun l e w' => e = Returned /\ healthy (w_redis w') /\
    exists vs, judged q (w_clock w) (keyspace (w_redis w)) (scanned_keys l) vs
                 (w_clock w') (keyspace (w_redis w')) /\
      getReaperStats w' = add_tally (tally_of vs) (getReaperStats w)) w) as H.
  { eapply wp_mono; [|exact H]. intros e w' (-> & Hh' & vs & J & Hs). split; [done|]. split; [done|].
    split; [by eapply judged_keeps|]. exists vs. split; [done|]. split; [done|]. by eapply judged_counts. }
  unfold runReaperTick. rewrite Hp. cbn [negb]. apply wps_bind.
  eapply wps_mono; [|apply (reapScan_ticked f); [done|done|lia|done]].
  intros l [t e] w1 [He (Hh1 & Hs1 & vs & Ht & J)]. cbn in He, Ht. subst e t.
  do 7 (apply wps_bind, wps_other; [done|]; cbn [handle]; apply wps_ret). apply wps_ret.
  cbn [app]. rewrite app_nil_r. split; [done|]. split; [done|]. exists vs.
  split; [done|]. unfold getReaperStats. wsimpl. rewrite Hs1. by destruct (w_stats w).
Qed.

(** ** Overflow of the timeout *)

(** An expired lock is gone after its visit, a young one is counted and
    left alone. *)
Lemma reapKey_leaves q queue id j l t w :
  inspected queue id j l w ->
  wp (reapKey q (RBulk (stateKey Locked queue id)) t) (fun t' w' =>
    if expired q j l (clock (w_clock w)) then
      keyspace (w_redis w') !! stateKey Locked queue id = None /\ ta_recent t' = ta_recent t
    else keyspace (w_redis w') = keyspace (w_redis w) /\ t' = inc_recent (inc_scanned t)) w.
Proof.
  intros Hin. eapply wp_inspect; [done|]. cbv zeta. intros s1 Hs1 Hk1.
  destruct (expired q j l (clock (w_clock w))); [rewrite Hk1|done].
  destruct (keyspace (w_redis w) !! stateKey Pending queue id).
  { intros s2 _ Hk2. wsimpl. rewrite Hk2. split; [apply lookup_delete_eq|done]. }
  destruct Hin as (_ & _ & _ & (h & Hk & _) & _).
  eapply wp_requeueExpiredLock; [done|wsimpl; rewrite Hk1; exact Hk|]. wsimpl. cbv zeta.
  intros s2 h' Hs2. destruct (reaper_retries q j); intros _ ->;
    (split; [rewrite lookup_insert_ne by key_ne; apply lookup_delete_eq|done]).
Qed.

Lemma expired_small q j l now :
  epoch_ok l -> epoch_ok now -> 0 <= effective_timeout q j <= 9223372036 ->
  expired q j l now = (effective_timeout q j * Second <=? t_ns now - t_ns l).
Proof.
  intros [Hl _] [Hn _] Ht. unfold expired, Sub. rewrite seconds_small by lia.
  unfold saturate, two63, Second in *.
  destruct (Z.leb_spec (effective_timeout q j * 1000000000) (t_ns now - t_ns l));
    destruct (Z.ltb_spec (Z.max (- 9223372036854775808)
      (Z.min (9223372036854775808 - 1) (t_ns now - t_ns l))) (effective_timeout q j * 1000000000));
    cbn; lia.
Qed.

Lemma expired_wrapped q j l now :
  t_ns l <= t_ns now -> 9223372037 <= effective_timeout q j <= 18446744073 ->
  expired q j l now = true.
Proof.
  intros Hle Ht. unfold expired. apply negb_true_iff, Z.ltb_ge.
  assert (seconds (effective_timeout q j) < 0).
  { unfold seconds, wrap64, two63, two64, Second. zlia. }
  unfold Sub, saturate, two63. lia.
Qed.

(** C36: the reaper compares the age of a lock with its timeout, the job's
    [LockFor] when positive and the queue's [LockTimeout] otherwise, as
    64-bit nanoseconds. Up to 9223372036 seconds a visit leaves the lock
    alone, and counts it recent, exactly when it is younger than the
    timeout. From 9223372037 to 18446744073 seconds the product wraps below
    zero: the lock is taken away and not counted recent however young it is,
    even when it was taken at this very moment. *)
Theorem lock_timeout_overflow q queue id j l t w :
  inspected queue id j l w -> epoch_ok l -> epoch_ok (clock (w_clock w)) ->
  wp (reapKey q (RBulk (stateKey Locked queue id)) t) (fun t' w' =>
    let timeout := if 0 <? j_LockFor j then j_LockFor j else q_LockTimeout q in
    let age := t_ns (clock (w_clock w)) - t_ns l in
    let left_alone := keyspace (w_redis w') = keyspace (w_redis w) /\ t' = inc_recent (inc_scanned t) in
    let reaped := keyspace (w_redis w') !! stateKey Locked queue id = None /\ ta_recent t' = ta_recent t in
    (0 <= timeout <= 9223372036 ->
       (age < timeout * Second -> left_alone) /\ (timeout * Second <= age -> reaped)) /\
    (9223372037 <= timeout <= 18446744073 -> 0 <= age -> reaped)) w.
Proof.
  intros Hin Hl Hn. eapply wp_mono; [|by eapply reapKey_leaves]. cbv zeta. intros t' w' H.
  change (if 0 <? j_LockFor j then j_LockFor j else q_LockTimeout q) with (effective_timeout q j).
  split.
  - intros Ht. rewrite (expired_small q j l _ Hl Hn Ht) in H.
    destruct (Z.leb_spec (effective_timeout q j * Second) (t_ns (clock (w_clock w)) - t_ns l));
      split; (done || lia).
  - intros Ht Ha. rewrite expired_wrapped in H by (done || lia). done.
Qed.

End Tick.

(** ** Witnesses *)

Lemma runReaperTick_spec_witness :
  wp (runReaperTick 1 refQueue) (fun e w' =>
    e = Returned /\ present (keyspace (w_redis w')) "job" "a1" /\ rs_Ticks (getReaperStats w') = 1) dupeWorld.
Proof.
  eapply wp_mono; [|apply (runReaperTick_spec (fun _ => O) 1 refQueue); [|reflexivity|reflexivity|lia]].
  - intros e w' (-> & _ & Hk & vs & _ & -> & _). split; [done|]. split; [|reflexivity].
    apply (Hk "job" "a1"); [done..|]. exists Locked. by eexists.
  - intros s n p c s' m ks Hs Hn E. left. cbn in E. unfold ref_do in E. cbn in Hs. rewrite Hs in E.
    injection E as E _. apply Itoa_inj. done.
Defined.

(** A lock taken when the clock starts, with a timeout of its own that wraps. *)
Definition longJob : Job := set_LockFor 9223372037 (set_LockedAt "2023-11-14T22:13:20Z" refJob).

Lemma inspected_long : inspected "job" "a1" (wire longJob) (mkTime (1700000000 * Second) 0)
  (lockedWorld longJob HOk).
Proof.
  split; [reflexivity|]. split; [reflexivity|]. split; [reflexivity|]. split; [|reflexivity].
  exists (refHash longJob). split; [reflexivity|apply decode_refHash].
Qed.

Lemma lock_timeout_overflow_witness :
  wp (reapKey refQueue (RBulk "queues:job:locked:a1") zeroTally) (fun t _ => ta_recent t = 1)
    (lockedWorld heldJob HOk) /\
  wp (reapKey refQueue (RBulk "queues:job:locked:a1") zeroTally) (fun t w' =>
    keyspace (w_redis w') !! "queues:job:locked:a1" = None /\ ta_recent t = 0)
    (lockedWorld longJob HOk).
Proof.
  split.
  - eapply wp_mono; [|apply (lock_timeout_overflow refQueue "job" "a1" _ _ zeroTally _ inspected_held);
      [vm_compute; done|apply clock_ok]].
    intros t w' [H _]. destruct H as [H _]; [cbn; lia|]. destruct H as [_ ->]; [reflexivity|done].
  - eapply wp_mono; [|apply (lock_timeout_overflow refQueue "job" "a1" _ _ zeroTally _ inspected_long);
      [vm_compute; done|apply clock_ok]].
    intros t w' [_ H]. apply H; [cbn; lia|vm_compute; done].
Defined.
