(* ===== verification/Config.v ===== *)
(** * Configuration and construction of a queue (api/queue.go)

    The defaults, the loading and seeding of [config/queue.yml], and
    [buildQueue] with its two entry points. The file system is the part of
    package os that [loadConfig] uses; the YAML parser and the application
    object of the framework are parameters. *)

From stdpp Require Import base gmap strings list.
From Stdlib Require Import ZArith Ascii Lia.
From S2P Require Import Prelude GoString GoTime Types Services Effects RefServices.

Open Scope Z_scope.

(** ** Defaults *)

(** [if c.f == 0 { c.f = d }] *)
Definition or_default (v d : Z) : Z := if v =? 0 then d else v.

(** [setConfigDefaults] *)
Definition setConfigDefaults (c : Configuration) : Configuration :=
  let backend :=
    if String.eqb (c_Backend c) EmptyString then "memory"
    else if negb (String.eqb (c_Backend c) "memory") && negb (String.eqb (c_Backend c) "redis")
    then "memory" else c_Backend c in
  let channel :=
    if String.eqb (c_QueueChannelDefault c) EmptyString then "job" else c_QueueChannelDefault c in
  let lock := if c_LockTimeout c <=? 0 then 300 else c_LockTimeout c in
  let reaper := if c_ReaperInterval c <=? 0 then 30 else c_ReaperInterval c in
  let reaper :=
    if lock <=? reaper then
      let half := Z.quot lock 2 in if half <? 1 then 1 else half
    else reaper in
  mkConfiguration backend (or_default (c_WorkerCount c) 1) (or_default (c_MaxAttempts c) 3)
    (or_default (c_HighWaterMark c) 10000) (c_QueueChannels c) channel (c_Debug c)
    (c_RedisPrefix c) (or_default (c_RedisScanInterval c) 1) lock reaper.

(** ** Construction *)

(** What [buildQueue] reads of the application: its cache, which may be a
    redis cache with or without a connection pool, and whether a database
    is configured and its session is non-nil. *)
Inductive cache :=
| CacheRedis (rc : option (bool * string)) (* Conn <> nil, Prefix; None is a nil pointer *)
| CacheOther.

Record adele := mkAdele {
  a_RootPath : string;
  a_Cache : option cache;
  a_DB : option bool;
}.

(** The largest allocation of the runtime on 64-bit Linux, in bytes; a
    string takes 16. *)
Definition maxAlloc : Z := 281474976710656.

(** [make([]string, 0, n)] *)
Definition make_strings (n : Z) : res (list string) :=
  if (n <? 0) || (maxAlloc <? n * 16) then Panicked "runtime error: makeslice: cap out of range"
  else Ok [].

Section Build.
Context {HS : HandlerSig} {RS : RedisServer} {DB : Database}.

(** The per-queue part of the world of a new queue: an open channel, an
    empty failure cache and registry, and a live lifecycle context. The
    package's variables [systemShutdown] and [wg] and the reaper's counters
    are shared by all queues of the process and stay as they are. *)
Definition fresh (failed : list string) (w : world) : world :=
  put_cancelled false (put_handlers (Some ∅) (put_failed failed (put_pending 0
    (put_closed false (put_inbox [] (put_sent [] w)))))).

Definition redis_pool (a : option adele) : option (bool * string) :=
  match a with
  | Some (mkAdele _ (Some (CacheRedis rc)) _) => rc
  | _ => None
  end.

(** [buildQueue] *)
Definition buildQueue (a : option adele) (cfg : Configuration) (w : world) : res Queue * world :=
  let cfg := setConfigDefaults cfg in
  let session := match a with Some (mkAdele _ _ (Some s)) => s | _ => false end in
  let redis :=
    if String.eqb (c_Backend cfg) "redis" then
      match redis_pool a with
      | Some (pool, prefix) =>
          mkRedis pool (if String.eqb (c_RedisPrefix cfg) EmptyString then prefix else c_RedisPrefix cfg)
            (c_RedisScanInterval cfg)
      | None => mkRedis false (c_RedisPrefix cfg) (c_RedisScanInterval cfg)
      end
    else mkRedis false (c_RedisPrefix cfg) (c_RedisScanInterval cfg) in
  match make_strings (c_HighWaterMark cfg) with
  | Panicked m => (Panicked m, w)
  | Ok data =>
      let channels :=
        if bool_decide (c_QueueChannelDefault cfg ∈ c_QueueChannels cfg) then c_QueueChannels cfg
        else c_QueueChannels cfg ++ [c_QueueChannelDefault cfg] in
      (Ok (mkQueue (c_Backend cfg) (c_Debug cfg) (c_WorkerCount cfg) (c_MaxAttempts cfg)
             (c_HighWaterMark cfg) channels (c_QueueChannelDefault cfg) (c_LockTimeout cfg)
             (c_ReaperInterval cfg) redis session),
       fresh data w)
  end.

(** [NewWithConfig]; its error is always nil. *)
Definition NewWithConfig (a : option adele) (cfg : Configuration) (w : world) : res Queue * world :=
  buildQueue a cfg w.

(** ** queue.yml *)

(** Files by path, and the failures of the next calls: an error of Stat that
    is not "does not exist", errors of MkdirAll and ReadFile, and an error of
    WriteFile with what it leaves of the file. *)
Record disk := mkDisk {
  d_files : gmap string string;
  d_stat : option string;
  d_mkdir : option string;
  d_write : option (string * option string);
  d_read : option string;
}.

Definition put_files (m : gmap string string) (d : disk) : disk :=
  mkDisk m (d_stat d) (d_mkdir d) (d_write d) (d_read d).

(** [os.IsNotExist] of the error of [os.Stat]. *)
Definition stat_missing (p : string) (d : disk) : bool :=
  match d_stat d with
  | Some _ => false
  | None => match d_files d !! p with Some _ => false | None => true end
  end.

Definition WriteFile (p data : string) (d : disk) : option string * disk :=
  match d_write d with
  | Some (e, Some rest) => (Some e, put_files (<[p := rest]> (d_files d)) d)
  | Some (e, None) => (Some e, d)
  | None => (None, put_files (<[p := data]> (d_files d)) d)
  end.

Definition ReadFile (p : string) (d : disk) : string + string :=
  match d_read d with
  | Some e => inl e
  | None => match d_files d !! p with
            | Some data => inr data
            | None => inl ("open " +:+ p +:+ ": no such file or directory")
            end
  end.

Definition nl : string := String (ascii_of_nat 10) EmptyString.
Definition dquote : string := String (ascii_of_nat 34) EmptyString.

(** templates/queue.yml, which is compiled into the package. *)
Definition queue_yml : string :=
  "Backend: memory" +:+ nl +:+ "WorkerCount: 1" +:+ nl +:+ "MaxAttempts: 3" +:+ nl +:+
  "HighWaterMark: 10000" +:+ nl +:+ "QueueChannels:" +:+ nl +:+ "  - job" +:+ nl +:+
  "QueueChannelDefault: job" +:+ nl +:+ "Debug: false" +:+ nl +:+
  "RedisPrefix: " +:+ dquote +:+ dquote +:+ nl +:+ "RedisScanInterval: 1" +:+ nl +:+
  "LockTimeout: 300" +:+ nl +:+ "ReaperInterval: 30" +:+ nl.

(** [templateFS.ReadFile]: the only file of the embedded file system. *)
Definition templateFS_ReadFile (p : string) : string + string :=
  if String.eqb p "templates/queue.yml" then inr queue_yml
  else inl ("open " +:+ p +:+ ": file does not exist").

Definition config_path (a : adele) : string := a_RootPath a +:+ "/config/queue.yml".

Section Yaml.
Context (yaml_Unmarshal : string -> string + Configuration).

(** [loadConfig] *)
Definition loadConfig (a : option adele) (d : disk) : (string + Configuration) * disk :=
  match a with
  | None =>
      match templateFS_ReadFile "templates/queue.yml" with
      | inl err => (inl ("failed to read embedded queue config: " +:+ err), d)
      | inr data =>
          match yaml_Unmarshal data with
          | inl err => (inl ("failed to parse embedded queue config: " +:+ err), d)
          | inr cfg => (inr cfg, d)
          end
      end
  | Some a =>
      let configPath := config_path a in
      let seeded : option string * disk :=
        if stat_missing configPath d then
          match templateFS_ReadFile "templates/queue.yml" with
          | inl err =>
              (Some ("failed to read package queue config from embedded file system: " +:+ err), d)
          | inr data =>
              match d_mkdir d with
              | Some err => (Some ("queue: create config dir: " +:+ err), d)
              | None =>
                  let '(err, d) := WriteFile configPath data d in
                  match err with
                  | Some err => (Some ("failed to write package queue config to disk: " +:+ err), d)
                  | None => (None, d)
                  end
              end
          end
        else (None, d) in
      let '(err, d) := seeded in
      match err with
      | Some err => (inl err, d)
      | None =>
          match ReadFile configPath d with
          | inl err => (inl ("failed to read queue config file: " +:+ err), d)
          | inr configFile =>
              match yaml_Unmarshal configFile with
              | inl err => (inl ("failed to parse queue config file: " +:+ err), d)
              | inr cfg => (inr cfg, d)
              end
          end
      end
  end.

(** [New] *)
Definition New (a : option adele) (d : disk) (w : world) : res (string + Queue) * disk * world :=
  let '(r, d) := loadConfig a d in
  match r with
  | inl err => (Ok (inl ("queue: load config: " +:+ err)), d, w)
  | inr cfg =>
      match buildQueue a cfg w with
      | (Panicked m, w) => (Panicked m, d, w)
      | (Ok q, w) => (Ok (inr q), d, w)
      end
  end.

End Yaml.
End Build.

(** ** Well-formed configurations *)

Definition config_wf (c : Configuration) : Prop :=
  (c_Backend c = "memory" \/ c_Backend c = "redis") /\ c_WorkerCount c <> 0 /\
  c_MaxAttempts c <> 0 /\ c_HighWaterMark c <> 0 /\ c_RedisScanInterval c <> 0 /\
  c_QueueChannelDefault c <> EmptyString /\ 1 <= c_ReaperInterval c /\
  (c_ReaperInterval c < c_LockTimeout c \/ c_ReaperInterval c = 1 /\ c_LockTimeout c = 1).

Lemma or_default_nz v d : d <> 0 -> or_default v d <> 0.
Proof. unfold or_default. intros H. destruct (Z.eqb_spec v 0); lia. Qed.

Lemma or_default_id v d : v <> 0 -> or_default v d = v.
Proof. unfold or_default. intros H. destruct (Z.eqb_spec v 0); lia. Qed.

Lemma setConfigDefaults_wf c : config_wf (setConfigDefaults c).
Proof.
  unfold config_wf, setConfigDefaults. cbn.
  split. { repeat case_match; bool_facts; auto. destruct (String.eqb_spec (c_Backend c) "memory"); [auto|].
           destruct (String.eqb_spec (c_Backend c) "redis"); [auto|done]. }
  do 4 (split; [by apply or_default_nz|]).
  split. { case_match; [done|]. bool_facts. done. }
  set (lock := if c_LockTimeout c <=? 0 then 300 else c_LockTimeout c).
  assert (1 <= lock) by (subst lock; case_match; bool_facts; lia).
  repeat case_match; bool_facts; zlia.
Qed.

Lemma setConfigDefaults_id c : config_wf c -> setConfigDefaults c = c.
Proof.
  intros (Hb & Hw & Hm & Hh & Hs & Hc & Hr & Hl). unfold setConfigDefaults. cbv zeta.
  rewrite !or_default_id by done. apply String.eqb_neq in Hc. rewrite Hc.
  assert ((if c_LockTimeout c <=? 0 then 300 else c_LockTimeout c) = c_LockTimeout c) as ->
    by (case_match; bool_facts; lia).
  assert ((if c_ReaperInterval c <=? 0 then 30 else c_ReaperInterval c) = c_ReaperInterval c) as ->
    by (case_match; bool_facts; lia).
  assert (Hri : (if c_LockTimeout c <=? c_ReaperInterval c then
     if c_LockTimeout c ÷ 2 <? 1 then 1 else c_LockTimeout c ÷ 2 else c_ReaperInterval c) =
     c_ReaperInterval c).
  { destruct Hl as [Hl|[-> ->]]; [|done]. case_match; bool_facts; [lia|done]. }
  rewrite Hri. destruct c as [b wc ma hw qc qd dbg rp rs lt ri]. cbn in *. f_equal.
  destruct Hb as [-> | ->]; reflexivity.
Qed.

(** Defaults make every configuration well formed (a known backend, no
    zero counts, a default channel, a reaper interval of at least a second
    and below the lock timeout unless that is a second), and the
    configurations they leave alone are exactly the well-formed ones. *)
Lemma setConfigDefaults_spec c :
  config_wf (setConfigDefaults c) /\ (setConfigDefaults c = c <-> config_wf c).
Proof.
  split; [apply setConfigDefaults_wf|]. split; [|apply setConfigDefaults_id].
  intros <-. apply setConfigDefaults_wf.
Qed.

Section Facts.
Context {HS : HandlerSig} {RS : RedisServer} {DB : Database}.

(** C31: the defaults make every configuration well formed (a known backend,
    no zero counts, a default channel, a reaper interval of at least a second
    and below the lock timeout unless that is a second), and leave exactly
    the well-formed ones alone. A queue is built from every configuration
    whose failure cache can be allocated. Its channels are the configured ones with the default
    channel added when missing, its numbers those of the defaulted
    configuration, and only the redis backend gets a pool, the cache's. A
    negative [HighWaterMark] makes the construction panic. *)
Theorem buildQueue_spec a cfg w :
  let c := setConfigDefaults cfg in
  config_wf c /\ (c = cfg <-> config_wf cfg) /\
  (0 <= c_HighWaterMark c <= 17592186044416 ->
     exists q, buildQueue a cfg w = (Ok q, fresh [] w) /\
       q_QueueChannelDefault q ∈ q_QueueChannels q /\
       cfg.(c_QueueChannels) `prefix_of` q_QueueChannels q /\
       (forall ch, ch ∈ q_QueueChannels q -> ch ∈ c_QueueChannels cfg \/ ch = q_QueueChannelDefault q) /\
       (r_Pool (q_Redis q) = true -> q_Backend q = "redis" /\ exists p, redis_pool a = Some (true, p)) /\
       [q_WorkerCount q; q_MaxAttempts q; q_HighWaterMark q; q_LockTimeout q; q_ReaperInterval q] =
         [c_WorkerCount c; c_MaxAttempts c; c_HighWaterMark c; c_LockTimeout c; c_ReaperInterval c] /\
       q_Backend q = c_Backend c) /\
  (c_HighWaterMark c < 0 -> exists m, buildQueue a cfg w = (Panicked m, w)).
Proof.
  destruct (setConfigDefaults_spec cfg) as [Hwf Hid].
  cbv zeta. split; [exact Hwf|]. split; [exact Hid|]. split; intros Hh; unfold buildQueue, make_strings.
  - destruct (Z.ltb_spec (c_HighWaterMark (setConfigDefaults cfg)) 0); [lia|].
    destruct (Z.ltb_spec maxAlloc (c_HighWaterMark (setConfigDefaults cfg) * 16));
      [unfold maxAlloc in *; lia|].
    cbn [orb]. eexists. split; [reflexivity|]. cbn [q_QueueChannelDefault q_QueueChannels q_Redis q_Backend].
    change (c_QueueChannels cfg) with (c_QueueChannels (setConfigDefaults cfg)).
    split. { case_bool_decide; [done|]. apply elem_of_app. right. by apply list_elem_of_singleton. }
    split. { case_bool_decide; [done|]. by apply prefix_app_r. }
    split. { intros ch. case_bool_decide; [by left|]. rewrite elem_of_app, list_elem_of_singleton. auto. }
    split; [|done]. destruct (String.eqb_spec (c_Backend (setConfigDefaults cfg)) "redis"); [|done].
    destruct (redis_pool a) as [[p pre]|]; [|done]. cbn. intros ->. eauto.
  - destruct (Z.ltb_spec (c_HighWaterMark (setConfigDefaults cfg)) 0); [|lia]. eauto.
Qed.

Context (yaml_Unmarshal : string -> string + Configuration).

(** C34: without failures of the file system, loading the configuration of
    an application that has no [config/queue.yml] writes the embedded
    template there and reads it back; a second load gives the same
    configuration and writes nothing, whatever the parser does. *)
Theorem loadConfig_seeds a d :
  d_stat d = None -> d_mkdir d = None -> d_write d = None -> d_read d = None ->
  d_files d !! config_path a = None ->
  let '(r, d') := loadConfig yaml_Unmarshal (Some a) d in
  d' = put_files (<[config_path a := queue_yml]> (d_files d)) d /\
  (forall cfg, r = inr cfg <-> yaml_Unmarshal queue_yml = inr cfg) /\
  loadConfig yaml_Unmarshal (Some a) d' = (r, d').
Proof.
  intros Hs Hm Hw Hr Hf.
  assert (E : loadConfig yaml_Unmarshal (Some a) d =
    (match yaml_Unmarshal queue_yml with
     | inl err => inl ("failed to parse queue config file: " +:+ err)
     | inr cfg => inr cfg
     end, put_files (<[config_path a := queue_yml]> (d_files d)) d)).
  { unfold loadConfig, stat_missing. rewrite Hs, Hf. cbn [templateFS_ReadFile].
    change (templateFS_ReadFile "templates/queue.yml") with (inr queue_yml : string + string).
    rewrite Hm. unfold WriteFile. rewrite Hw. unfold ReadFile. cbn [d_read d_files put_files].
    rewrite Hr, lookup_insert_eq. by destruct (yaml_Unmarshal queue_yml). }
  rewrite E. split; [done|]. split.
  - intros cfg. destruct (yaml_Unmarshal queue_yml); split; congruence.
  - unfold loadConfig, stat_missing. cbn [d_stat d_files put_files].
    rewrite Hs, lookup_insert_eq. unfold ReadFile. cbn [d_read d_files put_files].
    rewrite Hr, lookup_insert_eq. by destruct (yaml_Unmarshal queue_yml).
Qed.

(** An existing [config/queue.yml] is never written: whatever fails,
    the files are those from before, and the configuration is the parsed
    content of the file. *)
Lemma loadConfig_keeps_file a d data :
  d_files d !! config_path a = Some data ->
  (loadConfig yaml_Unmarshal (Some a) d).2 = d /\
  forall cfg, (loadConfig yaml_Unmarshal (Some a) d).1 = inr cfg -> yaml_Unmarshal data = inr cfg.
Proof.
  intros Hf. unfold loadConfig, stat_missing, ReadFile. cbv zeta. rewrite Hf.
  destruct (d_stat d), (d_read d); rewrite ?Hf; destruct (yaml_Unmarshal data);
    (split; [done|]); cbn; congruence.
Qed.

End Facts.

(** ** Witnesses *)

Definition emptyDisk : disk := mkDisk ∅ None None None None.
Definition refAdele : adele := mkAdele "/srv/app" None None.
Definition refYaml (data : string) : string + Configuration :=
  if String.eqb data queue_yml
  then inr (mkConfiguration "memory" 1 3 10000 ["job"] "job" false EmptyString 1 300 30)
  else inl "yaml: unknown document".

Lemma buildQueue_spec_witness :
  exists q, buildQueue None zeroConfiguration refWorld = (Ok q, fresh [] refWorld) /\
    q_QueueChannels q = ["job"].
Proof.
  destruct (buildQueue_spec None zeroConfiguration refWorld) as (_ & _ & H & _).
  destruct H as (q & Hq & _); [cbn; lia|].
  exists q. split; [exact Hq|]. cbn in Hq. by injection Hq as <-.
Defined.

Lemma loadConfig_seeds_witness :
  loadConfig refYaml (Some refAdele) (loadConfig refYaml (Some refAdele) emptyDisk).2 =
    loadConfig refYaml (Some refAdele) emptyDisk.
Proof.
  pose proof (loadConfig_seeds refYaml refAdele emptyDisk) as H.
  destruct (loadConfig refYaml (Some refAdele) emptyDisk) as [r d'] eqn:E.
  by destruct H as (_ & _ & H).
Defined.

