(* ===== verification/Registry.v ===== *)
(** * Handler registry (api/queue.go)

    [RegisterHandler], [RegisterHandlerCtx] and [hasRegisteredHandler]. Each
    runs under the registry's mutex, so it is one step on the world. *)

From stdpp Require Import base gmap strings list.
From Stdlib Require Import ZArith.
From S2P Require Import Prelude GoString GoTime Types Services Effects RefServices.

Open Scope Z_scope.

Section Registry.
Context {HS : HandlerSig} {RS : RedisServer} {DB : Database} {UT : UnicodeTables}.

(** [RegisterHandler]; a nil function is [None], and so is the nil error. *)
Definition RegisterHandler (name : string) (fn : option handler_t) (w : world) : option string * world :=
  if String.eqb name EmptyString then
    (Some "queue: RegisterHandler requires a non-empty name", w)
  else match fn with
  | None =>
      (Some ("queue: RegisterHandler requires a non-nil function for " +:+ uni_Quote name), w)
  | Some fn =>
      let m := default ∅ (w_handlers w) in
      let w := put_handlers (Some m) w in
      match m !! name with
      | Some _ => (Some ("queue: handler " +:+ uni_Quote name +:+ " already registered"), w)
      | None => (None, put_handlers (Some (<[name := mkRegistered (Some fn) None]> m)) w)
      end
  end.

(** [RegisterHandlerCtx] *)
Definition RegisterHandlerCtx (name : string) (fn : option ctxhandler_t) (w : world)
    : option string * world :=
  if String.eqb name EmptyString then
    (Some "queue: RegisterHandlerCtx requires a non-empty name", w)
  else match fn with
  | None =>
      (Some ("queue: RegisterHandlerCtx requires a non-nil function for " +:+ uni_Quote name), w)
  | Some fn =>
      let m := default ∅ (w_handlers w) in
      let w := put_handlers (Some m) w in
      match m !! name with
      | Some _ => (Some ("queue: handler " +:+ uni_Quote name +:+ " already registered"), w)
      | None => (None, put_handlers (Some (<[name := mkRegistered None (Some fn)]> m)) w)
      end
  end.

(** [hasRegisteredHandler] *)
Definition hasRegisteredHandler (name : string) : prog bool :=
  let* reg := perform (ELookup name) in
  match reg with
  | None => Ret false
  | Some reg => Ret (bool_decide (is_Some (rh_plain reg)) || bool_decide (is_Some (rh_ctx reg)))
  end.

(** ** Sequences of registrations *)

(** A call of one of the two functions, and its shape of entry. *)
Inductive registration :=
| RegPlain (name : string) (fn : option handler_t)
| RegCtx (name : string) (fn : option ctxhandler_t).

Definition register (r : registration) : world -> option string * world :=
  match r with
  | RegPlain name fn => RegisterHandler name fn
  | RegCtx name fn => RegisterHandlerCtx name fn
  end.

Definition register_all (rs : list registration) (w : world) : world :=
  foldl (fun w r => (register r w).2) w rs.

Definition reg_name (r : registration) : string :=
  match r with RegPlain name _ | RegCtx name _ => name end.

(** The entry a valid call asks for. *)
Definition reg_entry (r : registration) : option registeredHandler :=
  if String.eqb (reg_name r) EmptyString then None
  else match r with
       | RegPlain _ (Some fn) => Some (mkRegistered (Some fn) None)
       | RegCtx _ (Some fn) => Some (mkRegistered None (Some fn))
       | _ => None
       end.

(** The first valid call for a name. *)
Fixpoint first_entry (name : string) (rs : list registration) : option registeredHandler :=
  match rs with
  | [] => None
  | r :: rs' =>
      match (if String.eqb (reg_name r) name then reg_entry r else None) with
      | Some e => Some e
      | None => first_entry name rs'
      end
  end.

(** Exactly one of the two shapes is set. *)
Definition one_shape (e : registeredHandler) : Prop :=
  match e with
  | mkRegistered (Some _) None | mkRegistered None (Some _) => True
  | _ => False
  end.

Definition registry_wf (w : world) : Prop :=
  forall name e, lookup_handler name w = Some e -> name <> EmptyString /\ one_shape e.

(** What one call does, both functions at once. *)
Lemma register_step r w :
  match reg_entry r, lookup_handler (reg_name r) w with
  | Some e, None =>
      (register r w).1 = None /\
      forall name, lookup_handler name (register r w).2 =
        if String.eqb (reg_name r) name then Some e else lookup_handler name w
  | _, _ =>
      is_Some ((register r w).1) /\
      forall name, lookup_handler name (register r w).2 = lookup_handler name w
  end.
Proof.
  assert (Hm : lookup_handler (reg_name r) w = default ∅ (w_handlers w) !! reg_name r).
  { unfold lookup_handler. destruct (w_handlers w); [done|]. cbn. by rewrite lookup_empty. }
  assert (Hp : forall name, lookup_handler name (put_handlers (Some (default ∅ (w_handlers w))) w) =
    lookup_handler name w).
  { intros name. unfold lookup_handler. wsimpl. destruct (w_handlers w); [done|]. cbn. apply lookup_empty. }
  destruct r as [name fn|name fn]; cbn [reg_name register] in *; unfold reg_entry; cbn [reg_name];
    unfold RegisterHandler, RegisterHandlerCtx;
    destruct (String.eqb_spec name EmptyString); try (cbn; by eauto);
    (destruct fn as [fn|]; [|cbn; by eauto]); rewrite Hm;
    destruct (default ∅ (w_handlers w) !! name) as [e|] eqn:E; cbn [fst snd];
    try (split; [by eauto|exact Hp]);
    (split; [done|]; intros name'; unfold lookup_handler at 1; wsimpl; rewrite lookup_insert;
     destruct (String.eqb_spec name name') as [->|Hne];
     [by rewrite decide_True|rewrite decide_False by done; unfold lookup_handler;
      destruct (w_handlers w); [done|apply lookup_empty]]).
Qed.

(** A registration succeeds exactly when the name is non-empty, the
    function non-nil and the name not yet taken by either function. It then
    adds that one entry; when it fails no lookup changes. Either way every
    entry keeps exactly one shape. *)
Lemma register_spec r w :
  ((register r w).1 = None <-> is_Some (reg_entry r) /\ lookup_handler (reg_name r) w = None) /\
  (forall name, lookup_handler name (register r w).2 =
     if bool_decide ((register r w).1 = None /\ reg_name r = name)
     then reg_entry r else lookup_handler name w) /\
  (registry_wf w -> registry_wf (register r w).2).
Proof.
  pose proof (register_step r w) as H.
  assert (Hone : forall e, reg_entry r = Some e -> reg_name r <> EmptyString /\ one_shape e).
  { unfold reg_entry. destruct (String.eqb_spec (reg_name r) EmptyString); [done|].
    destruct r as [? [fn|]|? [fn|]]; try done; by intros ? [= <-]. }
  destruct (reg_entry r) as [e|] eqn:He; [destruct (lookup_handler (reg_name r) w) as [e'|] eqn:Hl|].
  1, 3: destruct H as [[m Hm] Hall]; rewrite Hm; (split; [split; [done|intros [[? ?] ?]; congruence]|]);
    split; [intros name; by rewrite bool_decide_false by (by intros [? _])|];
    intros Hw name e0; rewrite Hall; apply Hw.
  destruct H as [-> Hall]. split; [split; eauto|]. split.
  - intros name. rewrite Hall. destruct (String.eqb_spec (reg_name r) name);
      [by rewrite bool_decide_true|by rewrite bool_decide_false by (by intros [_ ?])].
  - intros Hw name e0. rewrite Hall. destruct (String.eqb_spec (reg_name r) name) as [<-|];
      [intros [= <-]; by apply Hone|apply Hw].
Qed.

(** After any sequence of registrations a name is bound to the entry
    it had before, and otherwise to that of the first valid call for it:
    later calls never replace a handler. *)
Lemma register_all_first rs w name :
  lookup_handler name (register_all rs w) =
    match lookup_handler name w with
    | Some e => Some e
    | None => first_entry name rs
    end.
Proof.
  revert w. induction rs as [|r rs IH]; intros w.
  { cbn. by destruct (lookup_handler name w). }
  cbn [register_all foldl first_entry]. change (foldl _ _ rs) with (register_all rs (register r w).2).
  rewrite IH. pose proof (register_step r w) as H.
  destruct (reg_entry r) as [e|] eqn:He.
  - destruct (lookup_handler (reg_name r) w) as [e'|] eqn:Hl; destruct H as [_ ->].
    + destruct (String.eqb_spec (reg_name r) name) as [<-|]; [by rewrite Hl|done].
    + destruct (String.eqb_spec (reg_name r) name) as [<-|]; [by rewrite Hl|done].
  - destruct H as [_ ->]. by destruct (String.eqb (reg_name r) name).
Qed.

(** C32: a registration succeeds exactly when the name is non-empty, the
    function non-nil and the name not yet taken by either function. It then
    adds that one entry; when it fails no lookup changes. Either way every
    entry keeps exactly one shape. After any sequence of registrations a
    name is bound to the entry it had before, and otherwise to that of the
    first valid call for it: later calls never replace a handler. *)
Theorem registrations r rs w name :
  ((register r w).1 = None <-> is_Some (reg_entry r) /\ lookup_handler (reg_name r) w = None) /\
  lookup_handler name (register r w).2 =
    (if bool_decide ((register r w).1 = None /\ reg_name r = name)
     then reg_entry r else lookup_handler name w) /\
  (registry_wf w -> registry_wf (register r w).2) /\
  lookup_handler name (register_all rs w) =
    match lookup_handler name w with
    | Some e => Some e
    | None => first_entry name rs
    end.
Proof.
  destruct (register_spec r w) as (Hok & Hl & Hwf). split; [exact Hok|]. split; [apply Hl|].
  split; [exact Hwf|apply register_all_first].
Qed.

End Registry.
