(* ===== verification/GoJson.v ===== *)
(** * JSON encoding of byte slices

    [json.Marshal] writes a [[]byte] as a string in standard base64 with
    padding. The encoder, the matching decoder and their round trip. *)

From stdpp Require Import base strings list.
From Stdlib Require Import ZArith Ascii Lia.
From S2P Require Import Prelude GoString.

Open Scope Z_scope.

(** ** Bytes as integers *)

Definition byte_val (c : ascii) : Z := Z.of_N (N_of_ascii c).
Definition val_byte (z : Z) : ascii := ascii_of_N (Z.to_N z).

Lemma byte_val_range c : 0 <= byte_val c < 256.
Proof. unfold byte_val. pose proof (N_ascii_bounded c). lia. Qed.

Lemma val_byte_val c : val_byte (byte_val c) = c.
Proof. unfold val_byte, byte_val. by rewrite N2Z.id, ascii_N_embedding. Qed.

Fixpoint byte_list (s : string) : list Z :=
  match s with
  | EmptyString => []
  | String c s' => byte_val c :: byte_list s'
  end.

Fixpoint of_byte_list (l : list Z) : string :=
  match l with
  | [] => EmptyString
  | z :: l' => String (val_byte z) (of_byte_list l')
  end.

Lemma of_byte_list_inv s : of_byte_list (byte_list s) = s.
Proof. induction s as [|c s IH]; cbn; [done|by rewrite val_byte_val, IH]. Qed.

Lemma byte_list_range s : Forall (fun z => 0 <= z < 256) (byte_list s).
Proof. induction s; constructor; [apply byte_val_range|done]. Qed.

(** ** The alphabet *)

Definition b64_char (n : Z) : ascii :=
  val_byte (if n <? 26 then n + 65 else if n <? 52 then n + 71
            else if n <? 62 then n - 4 else if n =? 62 then 43 else 47).

Definition b64_val (c : ascii) : option Z :=
  let v := byte_val c in
  if (65 <=? v) && (v <=? 90) then Some (v - 65)
  else if (97 <=? v) && (v <=? 122) then Some (v - 71)
  else if (48 <=? v) && (v <=? 57) then Some (v + 4)
  else if v =? 43 then Some 62
  else if v =? 47 then Some 63
  else None.

Definition pad : ascii := "="%char.

Lemma b64_val_char n : 0 <= n < 64 -> b64_val (b64_char n) = Some n.
Proof.
  intros H.
  assert (Hall : forallb (fun i => bool_decide (b64_val (b64_char (Z.of_nat i)) = Some (Z.of_nat i)))
    (seq 0 64) = true) by (vm_compute; reflexivity).
  rewrite forallb_forall in Hall. specialize (Hall (Z.to_nat n)).
  rewrite bool_decide_eq_true, Z2Nat.id in Hall by lia. apply Hall. apply in_seq. lia.
Qed.

Lemma b64_val_pad : b64_val pad = None.
Proof. reflexivity. Qed.

(** ** Encoding *)

Fixpoint b64 (l : list Z) : string :=
  match l with
  | [] => EmptyString
  | [a] => String (b64_char (a / 4)) (String (b64_char (a mod 4 * 16))
             (String pad (String pad EmptyString)))
  | [a; b] => String (b64_char (a / 4)) (String (b64_char (a mod 4 * 16 + b / 16))
                (String (b64_char (b mod 16 * 4)) (String pad EmptyString)))
  | a :: b :: c :: l' =>
      String (b64_char (a / 4)) (String (b64_char (a mod 4 * 16 + b / 16))
        (String (b64_char (b mod 16 * 4 + c / 64)) (String (b64_char (c mod 64)) (b64 l'))))
  end.

Fixpoint unb64 (s : string) : option (list Z) :=
  match s with
  | EmptyString => Some []
  | String c1 (String c2 (String c3 (String c4 s'))) =>
      match b64_val c1, b64_val c2, b64_val c3, b64_val c4 with
      | Some w, Some x, Some y, Some z =>
          (fun l => (w * 4 + x / 16) :: (x mod 16 * 16 + y / 4) :: (y mod 4 * 64 + z) :: l) <$> unb64 s'
      | Some w, Some x, Some y, None =>
          if bool_decide (c4 = pad /\ s' = EmptyString)
          then Some [w * 4 + x / 16; x mod 16 * 16 + y / 4] else None
      | Some w, Some x, None, None =>
          if bool_decide (c3 = pad /\ c4 = pad /\ s' = EmptyString)
          then Some [w * 4 + x / 16] else None
      | _, _, _, _ => None
      end
  | _ => None
  end.

Lemma unb64_b64 l : Forall (fun z => 0 <= z < 256) l -> unb64 (b64 l) = Some l.
Proof.
  revert l. fix IH 1. intros [|a [|b [|c l]]] H; [done|..].
  - inversion_clear H. cbn [b64 unb64]. rewrite !b64_val_char by zlia. rewrite b64_val_pad.
    rewrite bool_decide_true by done. do 2 f_equal. zlia.
  - inversion_clear H as [|? ? H1 H2]. inversion_clear H2. cbn [b64 unb64].
    rewrite !b64_val_char by zlia. rewrite b64_val_pad.
    rewrite bool_decide_true by done. do 2 f_equal; [zlia|f_equal; zlia].
  - inversion_clear H as [|? ? H1 H2]. inversion_clear H2 as [|? ? H3 H4].
    inversion_clear H4 as [|? ? H5 H6]. cbn [b64 unb64]. rewrite !b64_val_char by zlia.
    rewrite (IH l H6). cbn. do 2 f_equal; [zlia|]. do 2 f_equal; [zlia|]. f_equal. zlia.
Qed.

Definition base64 (s : string) : string := b64 (byte_list s).
Definition unbase64 (s : string) : option string := of_byte_list <$> unb64 s.

Lemma unbase64_base64 s : unbase64 (base64 s) = Some s.
Proof.
  unfold unbase64, base64. rewrite unb64_b64 by apply byte_list_range.
  cbn. by rewrite of_byte_list_inv.
Qed.

(** ** The JSON string *)

Definition quote_mark : ascii := ascii_of_nat 34.

(** [json.Marshal] of a non-nil [[]byte]. *)
Definition json_bytes (p : string) : string :=
  String quote_mark (base64 p +:+ String quote_mark EmptyString).

Fixpoint drop_last (s : string) : option string :=
  match s with
  | EmptyString => None
  | String c EmptyString => if Ascii.eqb c quote_mark then Some EmptyString else None
  | String c s' => String c <$> drop_last s'
  end.

(** [json.Unmarshal] of such a string into a [[]byte]. *)
Definition unjson_bytes (s : string) : option string :=
  match s with
  | String c s' => if Ascii.eqb c quote_mark then drop_last s' ≫= unbase64 else None
  | EmptyString => None
  end.

Lemma drop_last_quote s : drop_last (s +:+ String quote_mark EmptyString) = Some s.
Proof.
  induction s as [|c s IH]; [done|]. cbn [String.append].
  change (String c s +:+ String quote_mark EmptyString)
    with (String c (s +:+ String quote_mark EmptyString)).
  destruct s as [|d s]; [done|]. cbn [String.append] in *.
  change (drop_last (String c (String d (s +:+ String quote_mark EmptyString))))
    with (String c <$> drop_last (String d (s +:+ String quote_mark EmptyString))).
  by rewrite IH.
Qed.

Lemma unjson_json_bytes p : unjson_bytes (json_bytes p) = Some p.
Proof.
  unfold unjson_bytes, json_bytes. rewrite Ascii.eqb_refl, drop_last_quote. cbn.
  apply unbase64_base64.
Qed.
