(* ===== verification/GoUtf8.v ===== *)
(** * UTF-8 of the Go standard library

    [unicode/utf8] as encoding/json and the bench handlers use it: a string
    is cut into runes and bytes that belong to none ([DecodeRune] returns
    [RuneError] of width 1 on those); [EncodeRune] and
    [RuneCountInString]. *)

From stdpp Require Import base strings list.
From Stdlib Require Import ZArith Ascii Lia.
From S2P Require Import Prelude GoString GoJson.

Open Scope Z_scope.

(** ** Decoding *)

(** One step of [DecodeRune]: a rune with the bytes it was read from, or a
    byte that starts no rune. *)
Inductive chunk :=
| Rune (r : Z) (bytes : string)
| Bad (b : ascii).

Definition between (lo hi v : Z) : bool := (lo <=? v) && (v <=? hi).

(** The ranges of the table [acceptRanges]: the second byte depends on the
    first, the others are continuation bytes. *)
Definition rune2 (a b : ascii) : option Z :=
  let x := byte_val a in let y := byte_val b in
  if between 194 223 x && between 128 191 y then Some ((x - 192) * 64 + (y - 128)) else None.

Definition rune3 (a b c : ascii) : option Z :=
  let x := byte_val a in let y := byte_val b in let z := byte_val c in
  if between 224 239 x
     && between (if x =? 224 then 160 else 128) (if x =? 237 then 159 else 191) y
     && between 128 191 z
  then Some ((x - 224) * 4096 + (y - 128) * 64 + (z - 128)) else None.

Definition rune4 (a b c d : ascii) : option Z :=
  let x := byte_val a in let y := byte_val b in let z := byte_val c in let t := byte_val d in
  if between 240 244 x
     && between (if x =? 240 then 144 else 128) (if x =? 244 then 143 else 191) y
     && between 128 191 z && between 128 191 t
  then Some ((x - 240) * 262144 + (y - 128) * 4096 + (z - 128) * 64 + (t - 128)) else None.

Definition str1 (a : ascii) : string := String a EmptyString.
Definition str2 (a b : ascii) : string := String a (str1 b).
Definition str3 (a b c : ascii) : string := String a (str2 b c).
Definition str4 (a b c d : ascii) : string := String a (str3 b c d).

(** The runes of a string, in order. *)
Fixpoint runes (s : string) : list chunk :=
  match s with
  | EmptyString => []
  | String a s1 =>
      if byte_val a <? 128 then Rune (byte_val a) (str1 a) :: runes s1
      else match s1 with
      | EmptyString => Bad a :: runes s1
      | String b s2 =>
          match rune2 a b with
          | Some r => Rune r (str2 a b) :: runes s2
          | None =>
              match s2 with
              | EmptyString => Bad a :: runes s1
              | String c s3 =>
                  match rune3 a b c with
                  | Some r => Rune r (str3 a b c) :: runes s3
                  | None =>
                      match s3 with
                      | EmptyString => Bad a :: runes s1
                      | String d s4 =>
                          match rune4 a b c d with
                          | Some r => Rune r (str4 a b c d) :: runes s4
                          | None => Bad a :: runes s1
                          end
                      end
                  end
              end
          end
      end
  end.

Definition RuneCountInString (s : string) : Z := Z.of_nat (length (runes s)).

(** ** Encoding *)

Definition RuneError : Z := 65533.

(** [EncodeRune]: surrogates and values that are no code point are written
    as [RuneError]. *)
Definition EncodeRune (r : Z) : string :=
  let r := if between 0 55295 r || between 57344 1114111 r then r else RuneError in
  if r <? 128 then str1 (val_byte r)
  else if r <? 2048 then str2 (val_byte (192 + r / 64)) (val_byte (128 + r mod 64))
  else if r <? 65536 then
    str3 (val_byte (224 + r / 4096)) (val_byte (128 + r / 64 mod 64)) (val_byte (128 + r mod 64))
  else
    str4 (val_byte (240 + r / 262144)) (val_byte (128 + r / 4096 mod 64))
      (val_byte (128 + r / 64 mod 64)) (val_byte (128 + r mod 64)).

(** ** Valid strings *)

(** [utf8.ValidString]. *)
Definition is_rune (c : chunk) : bool := match c with Rune _ _ => true | Bad _ => false end.
Definition ValidString (s : string) : bool := forallb is_rune (runes s).

(** What [DecodeRune] reads as one rune. *)
Inductive reads_as : Z -> string -> Prop :=
| reads1 a : byte_val a < 128 -> reads_as (byte_val a) (str1 a)
| reads2 a b r : rune2 a b = Some r -> reads_as r (str2 a b)
| reads3 a b c r : rune3 a b c = Some r -> reads_as r (str3 a b c)
| reads4 a b c d r : rune4 a b c d = Some r -> reads_as r (str4 a b c d).

Definition chunk_ok (c : chunk) : Prop :=
  match c with Rune r bs => reads_as r bs | Bad a => 128 <= byte_val a end.

Definition chunk_bytes (c : chunk) : string :=
  match c with Rune _ bs => bs | Bad a => str1 a end.

Definition concat_str (l : list string) : string := foldr String.append EmptyString l.

Lemma concat_str_app l k : concat_str (l ++ k) = concat_str l +:+ concat_str k.
Proof. induction l as [|x l IH]; [done|]. cbn in *. rewrite append_assoc. by f_equal. Qed.

Lemma string_step_ind (P : string -> Prop) :
  P EmptyString ->
  (forall a s, (forall b t, s = b +:+ t -> P t) -> P (String a s)) ->
  forall s, P s.
Proof.
  intros H0 HS s. enough (forall b t, s = b +:+ t -> P t) by (by apply (H EmptyString s)).
  induction s as [|a s IH]; intros b t E.
  - destruct b; [|done]. cbn in E. by subst t.
  - destruct b as [|x b]; cbn in E; [subst t; by apply HS|].
    injection E as <- E. by apply (IH b).
Qed.

(** The chunks of a string spell it, and each is what it says. *)
Lemma runes_spec s : concat_str (chunk_bytes <$> runes s) = s /\ Forall chunk_ok (runes s).
Proof.
  induction s as [|a s IH] using string_step_ind; [by split|].
  pose proof (IH EmptyString s eq_refl) as IH1.
  assert (Hbad : 128 <= byte_val a ->
    concat_str (chunk_bytes <$> Bad a :: runes s) = String a s /\ Forall chunk_ok (Bad a :: runes s)).
  { intros Ha. destruct IH1 as [H1 H2]. split; [cbn; by f_equal|by constructor]. }
  cbn [runes]. destruct (Z.ltb_spec (byte_val a) 128) as [Ha|Ha].
  { destruct IH1 as [H1 H2]. split; [cbn; by f_equal|constructor; [by constructor|done]]. }
  destruct s as [|b s]; [by apply Hbad|].
  destruct (rune2 a b) as [r|] eqn:E2.
  { destruct (IH (str1 b) s eq_refl) as [H1 H2].
    split; [cbn; by do 2 f_equal|constructor; [by constructor|done]]. }
  destruct s as [|c s]; [by apply Hbad|].
  destruct (rune3 a b c) as [r|] eqn:E3.
  { destruct (IH (str2 b c) s eq_refl) as [H1 H2].
    split; [cbn; by do 3 f_equal|constructor; [by constructor|done]]. }
  destruct s as [|d s]; [by apply Hbad|].
  destruct (rune4 a b c d) as [r|] eqn:E4; [|by apply Hbad].
  destruct (IH (str3 b c d) s eq_refl) as [H1 H2].
  split; [cbn; by do 4 f_equal|constructor; [by constructor|done]].
Qed.

Lemma between_spec lo hi v : between lo hi v = true <-> lo <= v <= hi.
Proof. unfold between. rewrite andb_true_iff, !Z.leb_le. done. Qed.

(** A rune at the front of a string is read as such. *)
Lemma runes_reads r bs t : reads_as r bs -> runes (bs +:+ t) = Rune r bs :: runes t.
Proof.
  assert (Hge : forall a lo hi, between lo hi (byte_val a) = true -> 128 <= lo ->
    (byte_val a <? 128) = false).
  { intros a lo hi H Hlo. apply between_spec in H. apply Z.ltb_ge. lia. }
  assert (H32 : forall a b, between 224 244 (byte_val a) = true -> rune2 a b = None).
  { intros a b H. unfold rune2. apply between_spec in H.
    destruct (between 194 223 (byte_val a)) eqn:E; [|done]. apply between_spec in E. lia. }
  intros [a Ha|a b r' H|a b c r' H|a b c d r' H].
  - cbn. by rewrite (proj2 (Z.ltb_lt _ _) Ha).
  - assert (Hx : between 194 223 (byte_val a) = true).
    { unfold rune2 in H. by destruct (between 194 223 (byte_val a)). }
    cbn. rewrite (Hge _ _ _ Hx) by lia. by rewrite H.
  - assert (Hx : between 224 239 (byte_val a) = true).
    { unfold rune3 in H. by destruct (between 224 239 (byte_val a)). }
    cbn. rewrite (Hge _ _ _ Hx) by lia.
    rewrite H32 by (apply between_spec in Hx; apply between_spec; lia). by rewrite H.
  - assert (Hx : between 240 244 (byte_val a) = true).
    { unfold rune4 in H. by destruct (between 240 244 (byte_val a)). }
    assert (H3 : rune3 a b c = None).
    { unfold rune3. destruct (between 224 239 (byte_val a)) eqn:E; [|done].
      apply between_spec in E. apply between_spec in Hx. lia. }
    cbn. rewrite (Hge _ _ _ Hx) by lia.
    rewrite H32 by (apply between_spec in Hx; apply between_spec; lia). by rewrite H3, H.
Qed.

Lemma byte_eq z a : z = byte_val a -> val_byte z = a.
Proof. intros ->. apply val_byte_val. Qed.

(** Writing a rune that was read gives its bytes back. *)
Lemma EncodeRune_reads r bs : reads_as r bs -> EncodeRune r = bs.
Proof.
  intros [a Ha|a b r' H|a b c r' H|a b c d r' H]; unfold EncodeRune.
  - pose proof (byte_val_range a).
    rewrite (proj2 (between_spec 0 55295 (byte_val a))) by lia. cbn [orb].
    rewrite (proj2 (Z.ltb_lt _ _)) by lia. by rewrite val_byte_val.
  - unfold rune2 in H. destruct (between 194 223 (byte_val a) && _) eqn:E; [|done].
    rewrite andb_true_iff, !between_spec in E. injection H as <-.
    rewrite (proj2 (between_spec 0 55295 _)) by lia. cbn [orb].
    rewrite (proj2 (Z.ltb_ge _ 128)), (proj2 (Z.ltb_lt _ 2048)) by lia.
    f_equal; apply byte_eq; zlia.
  - unfold rune3 in H. destruct (between 224 239 (byte_val a) && _ && _) eqn:E; [|done].
    rewrite !andb_true_iff, !between_spec in E. injection H as <-.
    assert (2048 <= (byte_val a - 224) * 4096 + (byte_val b - 128) * 64 + (byte_val c - 128) < 65536 /\
      (between 0 55295 ((byte_val a - 224) * 4096 + (byte_val b - 128) * 64 + (byte_val c - 128)) ||
       between 57344 1114111 ((byte_val a - 224) * 4096 + (byte_val b - 128) * 64 + (byte_val c - 128)))
       = true) as [Hr ->].
    { rewrite orb_true_iff, !between_spec.
      destruct (Z.eqb_spec (byte_val a) 224), (Z.eqb_spec (byte_val a) 237); lia. }
    rewrite (proj2 (Z.ltb_ge _ 128)), (proj2 (Z.ltb_ge _ 2048)), (proj2 (Z.ltb_lt _ 65536)) by lia.
    assert (128 <= byte_val b <= 191)
      by (destruct (Z.eqb_spec (byte_val a) 224), (Z.eqb_spec (byte_val a) 237); lia).
    f_equal; apply byte_eq; zlia.
  - clear r. unfold rune4 in H. destruct (between 240 244 (byte_val a) && _ && _ && _) eqn:E; [|done].
    rewrite !andb_true_iff, !between_spec in E. injection H as <-.
    set (r := (byte_val a - 240) * 262144 + _ + _ + _).
    assert (65536 <= r <= 1114111 /\ between 57344 1114111 r = true) as [Hr Hb].
    { rewrite between_spec. subst r.
      destruct (Z.eqb_spec (byte_val a) 240), (Z.eqb_spec (byte_val a) 244); lia. }
    rewrite Hb, orb_true_r.
    rewrite (proj2 (Z.ltb_ge _ 128)), (proj2 (Z.ltb_ge _ 2048)), (proj2 (Z.ltb_ge _ 65536)) by lia.
    assert (128 <= byte_val b <= 191)
      by (destruct (Z.eqb_spec (byte_val a) 240), (Z.eqb_spec (byte_val a) 244); lia).
    subst r. f_equal; apply byte_eq; zlia.
Qed.

Lemma byte_val_val z : 0 <= z < 256 -> byte_val (val_byte z) = z.
Proof.
  intros H. unfold byte_val, val_byte. rewrite N_ascii_embedding by lia. lia.
Qed.

(** What is written is one rune. *)
Lemma EncodeRune_is_rune r : exists r', reads_as r' (EncodeRune r).
Proof.
  unfold EncodeRune.
  assert (Hr : exists x, (if between 0 55295 r || between 57344 1114111 r then r else RuneError) = x /\
    (0 <= x <= 55295 \/ 57344 <= x <= 1114111)).
  { eexists. split; [reflexivity|]. destruct (between 0 55295 r || between 57344 1114111 r) eqn:E;
      [rewrite orb_true_iff, !between_spec in E; lia|unfold RuneError; lia]. }
  destruct Hr as (x & -> & Hx).
  destruct (Z.ltb_spec x 128).
  { eexists. apply reads1. rewrite byte_val_val; lia. }
  destruct (Z.ltb_spec x 2048).
  { eexists. apply reads2. unfold rune2. rewrite !byte_val_val by zlia.
    rewrite (proj2 (between_spec 194 223 _)), (proj2 (between_spec 128 191 _)) by zlia. reflexivity. }
  destruct (Z.ltb_spec x 65536).
  { eexists. apply reads3. unfold rune3. rewrite !byte_val_val by zlia.
    rewrite (proj2 (between_spec 224 239 _)) by zlia. rewrite (proj2 (between_spec 128 191 (128 + x mod 64))) by zlia.
    assert (between (if 224 + x / 4096 =? 224 then 160 else 128) (if 224 + x / 4096 =? 237 then 159 else 191)
      (128 + x / 64 mod 64) = true) as ->.
    { apply between_spec. destruct (Z.eqb_spec (224 + x / 4096) 224), (Z.eqb_spec (224 + x / 4096) 237); zlia. }
    reflexivity. }
  eexists. apply reads4. unfold rune4. rewrite !byte_val_val by zlia.
  rewrite (proj2 (between_spec 240 244 _)) by zlia.
  rewrite (proj2 (between_spec 128 191 (128 + x mod 64))), (proj2 (between_spec 128 191 (128 + x / 64 mod 64))) by zlia.
  assert (between (if 240 + x / 262144 =? 240 then 144 else 128) (if 240 + x / 262144 =? 244 then 143 else 191)
    (128 + x / 4096 mod 64) = true) as ->.
  { apply between_spec. destruct (Z.eqb_spec (240 + x / 262144) 240), (Z.eqb_spec (240 + x / 262144) 244); zlia. }
  reflexivity.
Qed.

Lemma ValidString_reads r bs t : reads_as r bs -> ValidString (bs +:+ t) = ValidString t.
Proof. intros H. unfold ValidString. by rewrite (runes_reads _ _ _ H). Qed.

Lemma ValidString_Encode r t : ValidString (EncodeRune r +:+ t) = ValidString t.
Proof. destruct (EncodeRune_is_rune r) as [r' H]. by eapply ValidString_reads. Qed.
