(* ===== verification/GoJsonText.v ===== *)
(** * JSON texts (encoding/json)

    The value of a JSON text as the decoder sees it (numbers and strings are
    kept as they are written, and converted when they are stored), the
    scanner with its limit on nesting, string literals with Go's escapes,
    and the compact printer of [json.Marshal]. A text that the printer
    writes scans back to the value ([parse_print]), and a valid string that
    is quoted unquotes to itself ([unquote_quote]). *)

From stdpp Require Import base strings list.
From Stdlib Require Import ZArith Ascii Lia.
From S2P Require Import Prelude GoString GoJson GoUtf8.

Open Scope Z_scope.

(** Number literals and the bytes between the quotes of strings are kept. *)
Inductive json :=
| JNull
| JBool (b : bool)
| JNum (lit : string)
| JStr (raw : string)
| JArr (l : list json)
| JObj (l : list (string * json)).

Section Induction.
Context (P : json -> Prop) (Hnull : P JNull) (Hbool : forall b, P (JBool b))
  (Hnum : forall s, P (JNum s)) (Hstr : forall s, P (JStr s))
  (Harr : forall l, Forall P l -> P (JArr l))
  (Hobj : forall l, Forall (fun kv => P kv.2) l -> P (JObj l)).

(** Induction with hypotheses for the elements and members. *)
Fixpoint json_rect_deep (v : json) : P v :=
  match v with
  | JNull => Hnull
  | JBool b => Hbool b
  | JNum s => Hnum s
  | JStr s => Hstr s
  | JArr l => Harr l ((fix go l : Forall P l :=
      match l with [] => List.Forall_nil _ | x :: l' => List.Forall_cons _ _ _ (json_rect_deep x) (go l') end) l)
  | JObj l => Hobj l ((fix go l : Forall (fun kv => P kv.2) l :=
      match l with
      | [] => List.Forall_nil _
      | (k, x) :: l' => List.Forall_cons (fun kv => P kv.2) (k, x) _ (json_rect_deep x) (go l')
      end) l)
  end.
End Induction.

(** ** String literals *)

Definition hex_digit (n : Z) : ascii := val_byte (if n <? 10 then n + 48 else n + 87).

Definition hex_val (c : chunk) : option Z :=
  match c with
  | Bad _ => None
  | Rune v _ =>
      if between 48 57 v then Some (v - 48)
      else if between 97 102 v then Some (v - 87)
      else if between 65 70 v then Some (v - 55)
      else None
  end.

Definition backslash : ascii := ascii_of_nat 92.

(** The bytes below 0x80 that [htmlSafeSet] lets through. *)
Definition html_safe (v : Z) : bool :=
  (32 <=? v) && negb ((v =? 34) || (v =? 38) || (v =? 60) || (v =? 62) || (v =? 92)).

(** One turn of the loop of [appendString]. *)
Definition quote_chunk (c : chunk) : string :=
  match c with
  | Bad _ => "\ufffd"
  | Rune r bs =>
      if r <? 128 then
        if html_safe r then bs
        else String backslash
          (if (r =? 92) || (r =? 34) then bs
           else if r =? 8 then "b" else if r =? 12 then "f" else if r =? 10 then "n"
           else if r =? 13 then "r" else if r =? 9 then "t"
           else "u00" +:+ str2 (hex_digit (r / 16)) (hex_digit (r mod 16)))
      else if (r =? 8232) || (r =? 8233) then "\u202" +:+ str1 (hex_digit (r mod 16))
      else bs
  end.

(** What [appendString] writes between the quotes. *)
Definition quote (s : string) : string := concat_str (quote_chunk <$> runes s).

(** The escapes of one character. *)
Definition simple_escape (e : Z) : option ascii :=
  if (e =? 34) || (e =? 92) || (e =? 47) || (e =? 39) then Some (val_byte e)
  else if e =? 98 then Some (val_byte 8)
  else if e =? 102 then Some (val_byte 12)
  else if e =? 110 then Some (val_byte 10)
  else if e =? 114 then Some (val_byte 13)
  else if e =? 116 then Some (val_byte 9)
  else None.

Definition u4 (a b c d : chunk) : option Z :=
  match hex_val a, hex_val b, hex_val c, hex_val d with
  | Some a, Some b, Some c, Some d => Some (a * 4096 + b * 256 + c * 16 + d)
  | _, _, _, _ => None
  end.

(** [utf16.DecodeRune]; [None] stands for the replacement character. *)
Definition surrogate_pair (r1 r2 : Z) : option Z :=
  if between 55296 56319 r1 && between 56320 57343 r2
  then Some ((r1 - 55296) * 1024 + (r2 - 56320) + 65536) else None.

(** [getu4] of an escape at the front. *)
Definition escape_u (l : list chunk) : option (Z * list chunk) :=
  match l with
  | Rune b _ :: Rune u _ :: h1 :: h2 :: h3 :: h4 :: l' =>
      if (b =? 92) && (u =? 117) then (fun r => (r, l')) <$> u4 h1 h2 h3 h4 else None
  | _ => None
  end.

(** The loop of [unquoteBytes]. *)
Fixpoint unquote_chunks (l : list chunk) : option string :=
  match l with
  | [] => Some EmptyString
  | Bad _ :: l1 => String.append (EncodeRune RuneError) <$> unquote_chunks l1
  | Rune r _ :: l1 =>
      if r =? 92 then
        match l1 with
        | [] | Bad _ :: _ => None
        | Rune e _ :: l2 =>
            match simple_escape e with
            | Some c => String c <$> unquote_chunks l2
            | None =>
                if e =? 117 then
                  match l2 with
                  | h1 :: h2 :: h3 :: h4 :: l3 =>
                      match u4 h1 h2 h3 h4 with
                      | None => None
                      | Some rr =>
                          if between 55296 57343 rr then
                            let lone := String.append (EncodeRune RuneError) <$> unquote_chunks l3 in
                            match l3 with
                            | c1 :: c2 :: k1 :: k2 :: k3 :: k4 :: l4 =>
                                match escape_u l3 ≫= fun '(rr1, _) => surrogate_pair rr rr1 with
                                | Some dec => String.append (EncodeRune dec) <$> unquote_chunks l4
                                | None => lone
                                end
                            | _ => lone
                            end
                          else String.append (EncodeRune rr) <$> unquote_chunks l3
                      end
                  | _ => None
                  end
                else None
            end
        end
      else if (r =? 34) || (r <? 32) then None
      else String.append (EncodeRune r) <$> unquote_chunks l1
  end.

Definition unquote (raw : string) : option string := unquote_chunks (runes raw).

(** ** Printing *)

Fixpoint join_comma (l : list string) : string :=
  match l with
  | [] => EmptyString
  | [s] => s
  | s :: l' => s +:+ String "," (join_comma l')
  end.

Definition quoted (raw : string) : string :=
  String quote_mark (raw +:+ str1 quote_mark).

(** The compact form that [json.Marshal] writes. *)
Fixpoint print (v : json) : string :=
  match v with
  | JNull => "null"
  | JBool b => if b then "true" else "false"
  | JNum lit => lit
  | JStr raw => quoted raw
  | JArr l => String "[" (join_comma (print <$> l) +:+ "]")
  | JObj l => String "{" (join_comma ((fun '(k, x) => quoted k +:+ String ":" (print x)) <$> l) +:+ "}")
  end.

(** ** The scanner: tokens *)

Inductive token :=
| TLBrace | TRBrace | TLBrack | TRBrack | TColon | TComma
| TNum (lit : string)
| TStr (raw : string)
| TWord (v : json).

(** The states inside a token, named as in scanner.go: in a string, after a
    backslash, with [k] hex digits to come; after a minus, a leading zero,
    digits, a point, a fraction, an e, its sign, its digits; in a literal
    with [rest] to come. *)
Inductive lstate :=
| LBase
| LStr | LEsc | LU (k : nat)
| LNeg | LZero | LInt | LDot | LFrac | LExp | LExpSign | LExpDigits
| LWord (rest : string) (v : json).

Definition is_digit (c : ascii) : bool := between 48 57 (byte_val c).

Definition is_space (c : ascii) : bool :=
  let v := byte_val c in (v =? 32) || (v =? 9) || (v =? 13) || (v =? 10).

(** A character outside tokens. *)
Definition lstart (c : ascii) : option (list token * lstate * string) :=
  if is_space c then Some ([], LBase, EmptyString)
  else if Ascii.eqb c "{" then Some ([TLBrace], LBase, EmptyString)
  else if Ascii.eqb c "}" then Some ([TRBrace], LBase, EmptyString)
  else if Ascii.eqb c "[" then Some ([TLBrack], LBase, EmptyString)
  else if Ascii.eqb c "]" then Some ([TRBrack], LBase, EmptyString)
  else if Ascii.eqb c ":" then Some ([TColon], LBase, EmptyString)
  else if Ascii.eqb c "," then Some ([TComma], LBase, EmptyString)
  else if Ascii.eqb c quote_mark then Some ([], LStr, EmptyString)
  else if Ascii.eqb c "-" then Some ([], LNeg, str1 c)
  else if Ascii.eqb c "0" then Some ([], LZero, str1 c)
  else if is_digit c then Some ([], LInt, str1 c)
  else if Ascii.eqb c "t" then Some ([], LWord "rue" (JBool true), EmptyString)
  else if Ascii.eqb c "f" then Some ([], LWord "alse" (JBool false), EmptyString)
  else if Ascii.eqb c "n" then Some ([], LWord "ull" JNull, EmptyString)
  else None.

Definition snoc (s : string) (c : ascii) : string := s +:+ str1 c.

Definition is_exp (c : ascii) : bool := Ascii.eqb c "e" || Ascii.eqb c "E".

(** A character in a state, [acc] being the part of the token read. *)
Definition lstep (st : lstate) (acc : string) (c : ascii) : option (list token * lstate * string) :=
  let keep st' := Some ([], st', snoc acc c) in
  let number_end := (fun '(ts, st', acc') => (TNum acc :: ts, st', acc')) <$> lstart c in
  match st with
  | LBase => lstart c
  | LStr =>
      if Ascii.eqb c quote_mark then Some ([TStr acc], LBase, EmptyString)
      else if Ascii.eqb c backslash then keep LEsc
      else if byte_val c <? 32 then None
      else keep LStr
  | LEsc =>
      if Ascii.eqb c "u" then keep (LU 4)
      else if Ascii.eqb c "'" then None
      else match simple_escape (byte_val c) with Some _ => keep LStr | None => None end
  | LU k =>
      match hex_val (Rune (byte_val c) (str1 c)) with
      | Some _ => match k with S (S k') => keep (LU (S k')) | _ => keep LStr end
      | None => None
      end
  | LNeg => if Ascii.eqb c "0" then keep LZero else if is_digit c then keep LInt else None
  | LZero => if Ascii.eqb c "." then keep LDot else if is_exp c then keep LExp else number_end
  | LInt =>
      if is_digit c then keep LInt
      else if Ascii.eqb c "." then keep LDot else if is_exp c then keep LExp else number_end
  | LDot => if is_digit c then keep LFrac else None
  | LFrac => if is_digit c then keep LFrac else if is_exp c then keep LExp else number_end
  | LExp =>
      if Ascii.eqb c "+" || Ascii.eqb c "-" then keep LExpSign
      else if is_digit c then keep LExpDigits else None
  | LExpSign => if is_digit c then keep LExpDigits else None
  | LExpDigits => if is_digit c then keep LExpDigits else number_end
  | LWord rest v =>
      match rest with
      | String x EmptyString => if Ascii.eqb c x then Some ([TWord v], LBase, EmptyString) else None
      | String x rest' => if Ascii.eqb c x then Some ([], LWord rest' v, EmptyString) else None
      | EmptyString => None
      end
  end.

Fixpoint lexes (st : lstate) (acc : string) (s : string) : option (list token * lstate * string) :=
  match s with
  | EmptyString => Some ([], st, acc)
  | String c s' =>
      match lstep st acc c with
      | None => None
      | Some (ts, st', acc') =>
          match lexes st' acc' s' with
          | None => None
          | Some (ts', st'', acc'') => Some (ts ++ ts', st'', acc'')
          end
      end
  end.

(** The token that the end of the text completes. *)
Definition ends (st : lstate) (acc : string) : option (list token) :=
  match st with
  | LBase => Some []
  | LZero | LInt | LFrac | LExpDigits => Some [TNum acc]
  | _ => None
  end.

Definition lex (s : string) : option (list token) :=
  match lexes LBase EmptyString s with
  | None => None
  | Some (ts, st, acc) => app ts <$> ends st acc
  end.

(** ** The scanner: nesting *)

(** The containers that are open, innermost first, with what they hold so
    far in reverse. *)
Inductive frame :=
| FArr (l : list json)
| FObj (l : list (string * json))
| FKey (k : string) (l : list (string * json)).

Inductive pmode :=
| PValue (* a value is due *)
| PFirst (* a value or the end of the array *)
| PKey (* a key is due *)
| PFirstKey (* a key or the end of the object *)
| PColon (* the colon after a key *)
| PAfter (* a comma or the end of the container *)
| PEnd (v : json). (* the text is complete *)

Definition maxNestingDepth : nat := Z.to_nat 10000.

(** A value is complete. *)
Definition finish (v : json) (stack : list frame) : option (pmode * list frame) :=
  match stack with
  | [] => Some (PEnd v, [])
  | FArr l :: st => Some (PAfter, FArr (v :: l) :: st)
  | FKey k l :: st => Some (PAfter, FObj ((k, v) :: l) :: st)
  | FObj _ :: _ => None
  end.

(** [pushParseState] *)
Definition push (m : pmode) (f : frame) (stack : list frame) : option (pmode * list frame) :=
  if bool_decide (S (length stack) <= maxNestingDepth)%nat then Some (m, f :: stack) else None.

Definition pvalue (t : token) (stack : list frame) : option (pmode * list frame) :=
  match t with
  | TNum s => finish (JNum s) stack
  | TStr s => finish (JStr s) stack
  | TWord v => finish v stack
  | TLBrack => push PFirst (FArr []) stack
  | TLBrace => push PFirstKey (FObj []) stack
  | _ => None
  end.

Definition pkey (t : token) (stack : list frame) : option (pmode * list frame) :=
  match t, stack with
  | TStr k, FObj l :: st => Some (PColon, FKey k l :: st)
  | _, _ => None
  end.

Definition pstep (p : pmode * list frame) (t : token) : option (pmode * list frame) :=
  let '(m, stack) := p in
  match m with
  | PValue => pvalue t stack
  | PFirst =>
      match t, stack with
      | TRBrack, FArr l :: st => finish (JArr (reverse l)) st
      | _, _ => pvalue t stack
      end
  | PKey => pkey t stack
  | PFirstKey =>
      match t, stack with
      | TRBrace, FObj l :: st => finish (JObj (reverse l)) st
      | _, _ => pkey t stack
      end
  | PColon => match t with TColon => Some (PValue, stack) | _ => None end
  | PAfter =>
      match t, stack with
      | TComma, FArr _ :: _ => Some (PValue, stack)
      | TComma, FObj _ :: _ => Some (PKey, stack)
      | TRBrack, FArr l :: st => finish (JArr (reverse l)) st
      | TRBrace, FObj l :: st => finish (JObj (reverse l)) st
      | _, _ => None
      end
  | PEnd _ => None
  end.

Fixpoint psteps (p : pmode * list frame) (ts : list token) : option (pmode * list frame) :=
  match ts with
  | [] => Some p
  | t :: ts' => match pstep p t with Some p' => psteps p' ts' | None => None end
  end.

(** The value of a text; [None] when [checkValid] refuses it. *)
Definition parse (s : string) : option json :=
  match lex s with
  | None => None
  | Some ts =>
      match psteps (PValue, []) ts with
      | Some (PEnd v, _) => Some v
      | _ => None
      end
  end.

(** ** Quoting and unquoting *)

Lemma reads_multi r bs : reads_as r bs -> (exists a, byte_val a < 128 /\ r = byte_val a /\ bs = str1 a) \/ 128 <= r.
Proof.
  intros [a Ha|a b r' H|a b c r' H|a b c d r' H]; [left; eauto|right..].
  - unfold rune2 in H. destruct (_ && _) eqn:E; [|done].
    rewrite andb_true_iff, !between_spec in E. injection H as <-. lia.
  - unfold rune3 in H. destruct (_ && _) eqn:E; [|done].
    rewrite !andb_true_iff, !between_spec in E. injection H as <-.
    destruct (Z.eqb_spec (byte_val a) 224), (Z.eqb_spec (byte_val a) 237); lia.
  - unfold rune4 in H. destruct (_ && _) eqn:E; [|done].
    rewrite !andb_true_iff, !between_spec in E. injection H as <-.
    destruct (Z.eqb_spec (byte_val a) 240), (Z.eqb_spec (byte_val a) 244); lia.
Qed.

Lemma unquote_ascii a t : byte_val a < 128 ->
  unquote_chunks (runes (quote_chunk (Rune (byte_val a) (str1 a)) +:+ t)) =
  String a <$> unquote_chunks (runes t).
Proof.
  intros H. destruct a as [[] [] [] [] [] [] [] []]; try (vm_compute in H; discriminate H); reflexivity.
Qed.

Lemma unquote_chunk r bs t : reads_as r bs ->
  unquote_chunks (runes (quote_chunk (Rune r bs) +:+ t)) = String.append bs <$> unquote_chunks (runes t).
Proof.
  intros H. destruct (reads_multi r bs H) as [(a & Ha & -> & ->)|Hr]; [by rewrite unquote_ascii|].
  cbn [quote_chunk]. rewrite (proj2 (Z.ltb_ge _ _)) by done.
  destruct (Z.eqb_spec r 8232) as [->|H1]; [rewrite <- (EncodeRune_reads _ _ H); reflexivity|].
  destruct (Z.eqb_spec r 8233) as [->|H2]; [rewrite <- (EncodeRune_reads _ _ H); reflexivity|].
  cbn [orb]. rewrite (runes_reads _ _ _ H). cbn [unquote_chunks].
  rewrite (proj2 (Z.eqb_neq r 92)), (proj2 (Z.eqb_neq r 34)), (proj2 (Z.ltb_ge r 32)) by lia.
  cbn [orb]. by rewrite (EncodeRune_reads _ _ H).
Qed.

(** A valid string reads back from its literal. *)
Lemma unquote_quote s : ValidString s = true -> unquote (quote s) = Some s.
Proof.
  unfold unquote, quote, ValidString. intros Hv.
  destruct (runes_spec s) as [Hs Hok]. rewrite <- Hs at 2. clear Hs.
  induction (runes s) as [|c l IH]; [done|].
  cbn [forallb] in Hv. apply andb_true_iff in Hv as [Hc Hv]. inversion_clear Hok as [|? ? Hc' Hok'].
  destruct c as [r bs|b]; [|done]. cbn [fmap list_fmap concat_str foldr].
  change (foldr String.append EmptyString) with concat_str.
  rewrite unquote_chunk by done. by rewrite IH.
Qed.

(** ** Literals scan as one token *)

Lemma lexes_app st acc a b :
  lexes st acc (a +:+ b) =
    match lexes st acc a with
    | None => None
    | Some (ts, st', acc') =>
        match lexes st' acc' b with
        | None => None
        | Some (ts', st'', acc'') => Some (ts ++ ts', st'', acc'')
        end
    end.
Proof.
  revert st acc. induction a as [|c a IH]; intros st acc; cbn.
  { by destruct (lexes st acc b) as [[[? ?] ?]|]. }
  destruct (lstep st acc c) as [[[ts st'] acc']|]; [|done]. rewrite IH.
  destruct (lexes st' acc' a) as [[[ts1 st1] acc1]|]; [|done].
  destruct (lexes st1 acc1 b) as [[[ts2 st2] acc2]|]; [|done]. by rewrite (assoc_L (++)).
Qed.

(** Bytes that may stand between the quotes of a string. *)
Definition raw_ok (raw : string) : Prop :=
  forall acc, lexes LStr acc raw = Some ([], LStr, acc +:+ raw).

Lemma raw_ok_nil : raw_ok EmptyString.
Proof. intros acc. cbn. by rewrite append_nil_r. Qed.

Lemma raw_ok_app a b : raw_ok a -> raw_ok b -> raw_ok (a +:+ b).
Proof. intros Ha Hb acc. rewrite lexes_app, Ha, Hb. by rewrite append_assoc. Qed.

Lemma snoc_app a c s : snoc a c +:+ s = a +:+ String c s.
Proof. unfold snoc. by rewrite append_assoc. Qed.

Lemma raw_ok_high a : 32 <= byte_val a -> byte_val a <> 34 -> byte_val a <> 92 -> raw_ok (str1 a).
Proof.
  intros H1 H2 H3 acc. cbn. destruct (Ascii.eqb_spec a quote_mark) as [->|]; [by destruct H2|].
  destruct (Ascii.eqb_spec a backslash) as [->|]; [by destruct H3|].
  by rewrite (proj2 (Z.ltb_ge _ _)) by lia.
Qed.

Lemma raw_ok_str (s : string) : Forall (fun v => 128 <= v) (byte_list s) -> raw_ok s.
Proof.
  induction s as [|a s IH]; intros H; [apply raw_ok_nil|]. inversion_clear H.
  apply (raw_ok_app (str1 a) s); [apply raw_ok_high; lia|auto].
Qed.

(** Runs the scanner on a known text, with any text before it. *)
Ltac lex_lit :=
  match goal with |- lexes _ _ ?s = _ => let v := eval vm_compute in s in change s with v end;
  lazy -[String.append]; rewrite ?append_assoc; reflexivity.

Lemma raw_ok_chunk c : chunk_ok c -> raw_ok (quote_chunk c).
Proof.
  destruct c as [r bs|b]; intros H; [|by intros acc; lex_lit].
  assert (Hb : 128 <= r -> Forall (fun v => 128 <= v) (byte_list bs)).
  { destruct H as [a Ha|a b r' H|a b c r' H|a b c d r' H]; [lia|intros _..].
    - unfold rune2 in H. destruct (_ && _) eqn:E; [|done].
      rewrite andb_true_iff, !between_spec in E. repeat constructor; lia.
    - unfold rune3 in H. destruct (_ && _) eqn:E; [|done]. rewrite !andb_true_iff, !between_spec in E.
      repeat constructor; try lia. destruct (byte_val a =? 224); lia.
    - unfold rune4 in H. destruct (_ && _) eqn:E; [|done]. rewrite !andb_true_iff, !between_spec in E.
      repeat constructor; try lia. destruct (byte_val a =? 240); lia. }
  destruct (reads_multi r bs H) as [(a & Ha & -> & ->)|Hr].
  { clear H Hb. intros acc. destruct a as [[] [] [] [] [] [] [] []]; try (vm_compute in Ha; discriminate Ha);
      lex_lit. }
  cbn [quote_chunk]. rewrite (proj2 (Z.ltb_ge _ _)) by done.
  destruct (Z.eqb_spec r 8232) as [->|]; [intros acc; lex_lit|].
  destruct (Z.eqb_spec r 8233) as [->|]; [intros acc; lex_lit|].
  by apply raw_ok_str, Hb.
Qed.

Lemma raw_ok_quote s : raw_ok (quote s).
Proof.
  unfold quote. destruct (runes_spec s) as [_ H].
  induction H as [|c l Hc _ IH]; [apply raw_ok_nil|]. apply raw_ok_app; [by apply raw_ok_chunk|done].
Qed.

(** ** What is printed scans back *)

(** Literals that the number grammar accepts. *)
Definition num_ok (lit : string) : Prop :=
  exists st, lexes LBase EmptyString lit = Some ([], st, lit) /\ ends st lit = Some [TNum lit].

Fixpoint json_ok (v : json) : Prop :=
  match v with
  | JNull | JBool _ => True
  | JNum lit => num_ok lit
  | JStr raw => raw_ok raw
  | JArr l => foldr (fun x P => json_ok x /\ P) True l
  | JObj l => foldr (fun kv P => (raw_ok kv.1 /\ json_ok kv.2) /\ P) True l
  end.

(** Containers around the innermost value. *)
Fixpoint depth (v : json) : nat :=
  match v with
  | JArr l => S (foldr (fun x n => Nat.max (depth x) n) O l)
  | JObj l => S (foldr (fun kv n => Nat.max (depth kv.2) n) O l)
  | _ => O
  end.

Fixpoint join_tokens (l : list (list token)) : list token :=
  match l with
  | [] => []
  | [ts] => ts
  | ts :: l' => ts ++ TComma :: join_tokens l'
  end.

Fixpoint tokens (v : json) : list token :=
  match v with
  | JNull | JBool _ => [TWord v]
  | JNum lit => [TNum lit]
  | JStr raw => [TStr raw]
  | JArr l => TLBrack :: join_tokens (tokens <$> l) ++ [TRBrack]
  | JObj l => TLBrace :: join_tokens ((fun '(k, x) => TStr k :: TColon :: tokens x) <$> l) ++ [TRBrace]
  end.

(** A text that scans to tokens, wherever it starts outside a token. *)
Definition spells (s : string) (ts : list token) : Prop :=
  exists ts' st acc tail, lexes LBase EmptyString s = Some (ts', st, acc) /\
    ends st acc = Some tail /\ ts = ts' ++ tail.

(** The characters that end any token before them. *)
Definition punct (c : ascii) (t : token) : Prop :=
  lstart c = Some ([t], LBase, EmptyString) /\ is_digit c = false /\ is_exp c = false /\
  Ascii.eqb c "." = false.

Lemma lstep_punct st acc tail c t : ends st acc = Some tail -> punct c t ->
  lstep st acc c = Some (tail ++ [t], LBase, EmptyString).
Proof.
  intros He (Hc & H1 & H2 & H3).
  destruct st; try discriminate; injection He as <-; cbn [lstep]; rewrite ?H1, ?H2, ?H3, Hc; done.
Qed.

Lemma spells_nil : spells EmptyString [].
Proof. by exists [], LBase, EmptyString, []. Qed.

Lemma spells_punct a ta c t b tb :
  spells a ta -> punct c t -> spells b tb -> spells (a +:+ String c b) (ta ++ t :: tb).
Proof.
  intros (ts & st & acc & tail & Hl & He & ->) Hc (ts2 & st2 & acc2 & tail2 & Hl2 & He2 & ->).
  exists (ts ++ (tail ++ [t]) ++ ts2), st2, acc2, tail2.
  rewrite lexes_app, Hl. cbn [lexes]. rewrite (lstep_punct _ _ _ _ _ He Hc), Hl2.
  split; [done|]. split; [done|]. by rewrite <- !(assoc_L (++)).
Qed.

Lemma spells_start c t b tb : punct c t -> spells b tb -> spells (String c b) (t :: tb).
Proof. intros Hc Hb. by apply (spells_punct EmptyString [] c t b tb spells_nil). Qed.

Lemma spells_quoted raw : raw_ok raw -> spells (quoted raw) [TStr raw].
Proof.
  intros H. exists [TStr raw], LBase, EmptyString, []. split; [|done]. unfold quoted. cbn [lexes].
  change (lstep LBase EmptyString quote_mark) with (Some (@nil token, LStr, EmptyString)).
  cbv iota. by rewrite lexes_app, H.
Qed.

Lemma spells_join l k : Forall2 spells l k -> spells (join_comma l) (join_tokens k).
Proof.
  induction 1 as [|s ts l k Hs Hl IH]; [apply spells_nil|].
  destruct Hl as [|s' ts' l k Hs' Hl]; [done|]. apply spells_punct; done.
Qed.

Lemma spells_print v : json_ok v -> spells (print v) (tokens v).
Proof.
  induction v as [|[]|lit|raw|l IH|l IH] using json_rect_deep; cbn [json_ok]; intros Hok.
  1, 2, 3: by eexists _, LBase, _, []; vm_compute.
  - destruct Hok as (st & Hl & He). exists [], st, lit, [TNum lit]. done.
  - by apply spells_quoted.
  - cbn [print tokens]. apply spells_start; [done|].
    apply (spells_punct _ _ "]" TRBrack EmptyString []); [|done|apply spells_nil]. apply spells_join.
    induction IH as [|x l Hx _ IH']; [constructor|]. cbn in Hok. destruct Hok. cbn. constructor; auto.
  - cbn [print tokens]. apply spells_start; [done|].
    apply (spells_punct _ _ "}" TRBrace EmptyString []); [|done|apply spells_nil]. apply spells_join.
    induction IH as [|[k x] l Hx _ IH']; [constructor|]. cbn in Hok. destruct Hok as [[Hk Hx'] Hok].
    cbn. constructor; [|by apply IH'].
    apply (spells_punct (quoted k) [TStr k]); [by apply spells_quoted|done|auto].
Qed.

Lemma psteps_app p a b :
  psteps p (a ++ b) = match psteps p a with Some p' => psteps p' b | None => None end.
Proof.
  revert p. induction a as [|t a IH]; intros p; [done|]. cbn. destruct (pstep p t); [apply IH|done].
Qed.

(** The tokens of a value complete it, whatever is open around it. *)
Definition completes (v : json) : Prop := forall stack, (length stack + depth v <= maxNestingDepth)%nat ->
  psteps (PValue, stack) (tokens v) = finish v stack.

Lemma psteps_first v rest stack :
  psteps (PFirst, stack) (tokens v ++ rest) = psteps (PValue, stack) (tokens v ++ rest).
Proof. by destruct v. Qed.

(** The elements of an array after the first, and its end. *)
Lemma psteps_elems l acc st :
  Forall completes l -> Forall (fun x => (S (length st) + depth x <= maxNestingDepth)%nat) l -> l <> [] ->
  psteps (PValue, FArr acc :: st) (join_tokens (tokens <$> l)) = Some (PAfter, FArr (reverse l ++ acc) :: st).
Proof.
  intros Hc Hd Hne. revert acc. induction Hc as [|x l Hx Hl IH]; intros acc; [done|].
  inversion_clear Hd as [|? ? Hdx Hdl]. destruct l as [|y l].
  - cbn [fmap list_fmap join_tokens]. by rewrite Hx by done.
  - change (join_tokens (tokens <$> x :: y :: l)) with (tokens x ++ TComma :: join_tokens (tokens <$> y :: l)).
    rewrite psteps_app, Hx by done. cbn [finish psteps pstep].
    rewrite IH by done. by rewrite (reverse_cons (y :: l) x), <- (assoc_L (++)).
Qed.

Definition member_tokens (kv : string * json) : list token :=
  let '(k, x) := kv in TStr k :: TColon :: tokens x.

Lemma psteps_members l acc st :
  Forall (fun kv => completes kv.2) l ->
  Forall (fun kv : string * json => (S (length st) + depth kv.2 <= maxNestingDepth)%nat) l -> l <> [] ->
  psteps (PKey, FObj acc :: st) (join_tokens (member_tokens <$> l)) = Some (PAfter, FObj (reverse l ++ acc) :: st).
Proof.
  intros Hc Hd Hne. revert acc. induction Hc as [|[k x] l Hx Hl IH]; intros acc; [done|].
  inversion_clear Hd as [|? ? Hdx Hdl]. cbn in Hx, Hdx. destruct l as [|y l].
  - cbn [fmap list_fmap join_tokens member_tokens fst snd psteps pstep pkey].
    by rewrite Hx by done.
  - change (join_tokens (member_tokens <$> (k, x) :: y :: l))
      with ((TStr k :: TColon :: tokens x) ++ TComma :: join_tokens (member_tokens <$> y :: l)).
    rewrite psteps_app. cbn [psteps pstep pkey]. rewrite Hx by done. cbn [finish psteps pstep].
    rewrite IH by done. by rewrite (reverse_cons (y :: l) (k, x)), <- (assoc_L (++)).
Qed.

Lemma depth_elems (A : Type) (f : A -> nat) l n m :
  (n + S (foldr (fun x k => Nat.max (f x) k) 0 l) <= m)%nat -> Forall (fun x => (S n + f x <= m)%nat) l.
Proof. induction l as [|x l IH]; cbn; [constructor|]. intros H. constructor; [lia|apply IH; lia]. Qed.

Lemma completes_all v : completes v.
Proof.
  induction v as [|b|lit|raw|l IH|l IH] using json_rect_deep; intros stack Hd;
    try (cbn; by destruct (finish _ stack));
    cbn [depth] in Hd; pose proof (depth_elems _ _ _ _ _ Hd) as Hf; cbn [tokens psteps pstep pvalue];
    unfold push; rewrite bool_decide_true by lia.
  - destruct l as [|x l]; [cbn; by destruct (finish _ stack)|].
    assert (E : forall k, psteps (PFirst, FArr [] :: stack) (join_tokens (tokens <$> x :: l) ++ k) =
      psteps (PValue, FArr [] :: stack) (join_tokens (tokens <$> x :: l) ++ k)).
    { intros k. destruct l as [|y l]; [apply psteps_first|].
      change (join_tokens (tokens <$> x :: y :: l)) with (tokens x ++ TComma :: join_tokens (tokens <$> y :: l)).
      rewrite <- !(assoc_L (++)). apply psteps_first. }
    rewrite E, psteps_app, psteps_elems by done. cbn [psteps pstep].
    rewrite app_nil_r, reverse_involutive. by destruct (finish _ _).
  - change (fun '(k, x) => TStr k :: TColon :: tokens x) with member_tokens.
    destruct l as [|x l]; [cbn; by destruct (finish _ stack)|].
    assert (E : forall k, psteps (PFirstKey, FObj [] :: stack) (join_tokens (member_tokens <$> x :: l) ++ k) =
      psteps (PKey, FObj [] :: stack) (join_tokens (member_tokens <$> x :: l) ++ k)) by (by destruct x, l).
    rewrite E, psteps_app, psteps_members by done. cbn [psteps pstep].
    rewrite app_nil_r, reverse_involutive. by destruct (finish _ _).
Qed.

(** The scanner reads back what the printer writes. *)
Lemma parse_print v : json_ok v -> (depth v <= maxNestingDepth)%nat -> parse (print v) = Some v.
Proof.
  intros Hok Hd. destruct (spells_print v Hok) as (ts & st & acc & tail & Hl & He & E).
  unfold parse, lex. rewrite Hl, He. cbn [fmap option_fmap option_map]. rewrite <- E.
  by rewrite completes_all by (cbn; lia).
Qed.

(** ** Unquoted strings are valid *)

Lemma simple_escape_ascii e c : simple_escape e = Some c -> byte_val c < 128.
Proof.
  unfold simple_escape.
  destruct ((e =? 34) || (e =? 92) || (e =? 47) || (e =? 39)) eqn:E.
  - rewrite !orb_true_iff, !Z.eqb_eq in E. intros [= <-]. rewrite byte_val_val; lia.
  - intros H. repeat case_match; simplify_eq; vm_compute; reflexivity.
Qed.

Lemma fmap_valid (f : string -> string) (o : option string) s :
  (forall t, ValidString (f t) = ValidString t) -> f <$> o = Some s ->
  (forall t, o = Some t -> ValidString t = true) -> ValidString s = true.
Proof. intros Hf Ho Ht. destruct o as [t|]; [|done]. injection Ho as <-. rewrite Hf. by apply Ht. Qed.

Lemma unquote_chunks_valid l s : unquote_chunks l = Some s -> ValidString s = true.
Proof.
  remember (length l) as n eqn:Hn. revert l s Hn.
  induction n as [n IH] using lt_wf_ind. intros l s ->.
  assert (Hrec : forall k t, (length k < length l)%nat -> unquote_chunks k = Some t -> ValidString t = true)
    by (intros k t Hk; by apply (IH (length k))).
  assert (Henc : forall r k, (length k < length l)%nat ->
    String.append (EncodeRune r) <$> unquote_chunks k = Some s -> ValidString s = true).
  { intros r k Hk H. eapply fmap_valid; [|exact H|intros t; by apply Hrec]. intros t. apply ValidString_Encode. }
  destruct l as [|[r bs|b] l]; cbn [unquote_chunks]; [by intros [= <-]| |by apply Henc; cbn; lia].
  destruct (r =? 92); [|destruct (_ || _); [done|by apply Henc; cbn; lia]].
  destruct l as [|[e be|b] l]; [done| |done].
  destruct (simple_escape e) as [c|] eqn:Ee.
  { intros H. eapply fmap_valid; [|exact H|intros t; apply Hrec; cbn; lia].
    intros t. apply (ValidString_reads (byte_val c) (str1 c)). constructor. by eapply simple_escape_ascii. }
  destruct (e =? 117); [|done]. destruct l as [|h1 [|h2 [|h3 [|h4 l]]]]; try done.
  destruct (u4 h1 h2 h3 h4) as [rr|]; [|done].
  destruct (between 55296 57343 rr); [|by apply Henc; cbn; lia].
  destruct l as [|c1 [|c2 [|k1 [|k2 [|k3 [|k4 l]]]]]]; try (by apply Henc; cbn; lia).
  destruct (escape_u _ ≫= _); apply Henc; cbn; lia.
Qed.

Lemma unquote_valid raw s : unquote raw = Some s -> ValidString s = true.
Proof. apply unquote_chunks_valid. Qed.
