(* ===== verification/GoJsonCodec.v ===== *)
(** * Marshal and Unmarshal (encoding/json)

    A [codec] is what encoding/json does by reflection with the values of
    one Go type: its zero value, the test of omitempty, the JSON value that
    [Marshal] writes and how [Unmarshal] stores a JSON value into a
    variable. There is one for each kind of type the repository marshals,
    and combinators for pointers, slices, maps and structs. [Unmarshal]
    returns an error as soon as any part of the value has the wrong type, so
    storing is a partial function; the texts of its errors are a parameter. *)

From stdpp Require Import base gmap strings list.
From Stdlib Require Import ZArith Ascii Lia.
From S2P Require Import Prelude GoString GoTime GoJson GoUtf8 GoJsonText.

Open Scope Z_scope.

Record codec (A : Type) := mkCodec {
  zero : A;
  is_empty : A -> bool;
  encode : A -> option json;
  store : json -> A -> option A;
}.
#[global] Arguments mkCodec {A}.
#[global] Arguments zero {A}.
#[global] Arguments is_empty {A}.
#[global] Arguments encode {A}.
#[global] Arguments store {A}.

(** The texts of the errors of [Marshal] and [Unmarshal], by the name of the
    type and the input; float64 values with their order and their literals
    ([float_print] is the encoder's format, which has none for infinities and
    NaN, and [float_parse] is [strconv.ParseFloat], which may be out of
    range). *)
Class JsonLib := {
  unmarshal_error : string -> string -> string;
  marshal_error : string -> string;
  float64 : Type;
  float_zero : float64;
  float_half : float64;
  float_one : float64;
  float_nan : float64 -> bool;
  float_ltb : float64 -> float64 -> bool;
  float_leb : float64 -> float64 -> bool;
  float_print : float64 -> option string;
  float_parse : string -> option float64;
}.

(** What is relied on: a number that prints is a JSON number and reads back
    ([strconv.FormatFloat] with precision -1); NaN does not print, and the
    numbers from 0 to 1 do. *)
Class JsonLibLaws (JL : JsonLib) := {
  float_print_ok x lit : float_print x = Some lit -> num_ok lit /\ float_parse lit = Some x;
  float_print_nan x : float_nan x = true -> float_print x = None;
  float_print_unit x : float_nan x = false -> float_ltb x float_zero = false ->
    float_ltb float_one x = false -> is_Some (float_print x);
  float_in_unit : float_nan float_zero = false /\ float_nan float_half = false /\
    float_nan float_one = false /\
    float_ltb float_zero float_zero = false /\ float_ltb float_one float_zero = false /\
    float_ltb float_one float_one = false /\ float_ltb float_half float_zero = false /\
    float_ltb float_one float_half = false;
}.

Section Unmarshal.
Context {JL : JsonLib}.

(** [json.Marshal] and [json.Unmarshal] into a new variable, for a type with
    its name. A nil slice of bytes is an empty text. *)
Definition Marshal {A} (c : codec A) (T : string) (v : A) : string + string :=
  match encode c v with
  | Some j => inr (print j)
  | None => inl (marshal_error T)
  end.

Definition Unmarshal {A} (c : codec A) (T : string) (raw : option string) : string + A :=
  let text := default EmptyString raw in
  match parse text ≫= fun j => store c j (zero c) with
  | Some v => inr v
  | None => inl (unmarshal_error T text)
  end.

End Unmarshal.

(** ** Scalars *)

(** A JSON null leaves a variable of these types as it is. *)
Definition c_string : codec string := {|
  zero := EmptyString;
  is_empty s := String.eqb s EmptyString;
  encode s := Some (JStr (quote s));
  store j old := match j with
    | JNull => Some old
    | JStr raw => unquote raw
    | _ => None
    end;
|}.

(** [int] and [int64]: the literal must be an integer in range. *)
Definition c_int : codec Z := {|
  zero := 0;
  is_empty z := z =? 0;
  encode z := Some (JNum (Itoa z));
  store j old := match j with
    | JNull => Some old
    | JNum lit => match Atoi lit with (z, true) => Some z | _ => None end
    | _ => None
    end;
|}.

(** [uint8], an element of a byte slice written as an array. *)
Definition c_uint8 : codec Z := {|
  zero := 0;
  is_empty z := z =? 0;
  encode z := Some (JNum (Itoa z));
  store j old := match j with
    | JNull => Some old
    | JNum lit =>
        if HasPrefix lit "-" then None
        else match Atoi lit with (z, true) => if z <? 256 then Some z else None | _ => None end
    | _ => None
    end;
|}.

Definition c_float `{JsonLib} : codec float64 := {|
  zero := float_zero;
  is_empty x := negb (float_ltb x float_zero || float_ltb float_zero x);
  encode x := JNum <$> float_print x;
  store j old := match j with
    | JNull => Some old
    | JNum lit => float_parse lit
    | _ => None
    end;
|}.

(** [time.Time] has its own methods: they see the text as it is written, and
    the year and the hours of the zone must be in range. *)
Definition c_time : codec gotime := {|
  zero := zeroTime;
  is_empty _ := false;
  encode t :=
    if between 0 9999 (Year t) && (Z.abs (Z.quot (t_off t) 60) / 60 <? 24)
    then Some (JStr (FormatNano t)) else None;
  store j old := match j with
    | JNull => Some old
    | JStr raw => Parse raw
    | _ => None
    end;
|}.

(** ** Pointers, slices, maps *)

Definition c_ptr {A} (c : codec A) : codec (option A) := {|
  zero := None;
  is_empty p := match p with None => true | Some _ => false end;
  encode p := match p with None => Some JNull | Some v => encode c v end;
  store j old := match j with
    | JNull => Some None
    | _ => Some <$> store c j (default (zero c) old)
    end;
|}.

(** A slice: its elements ([None] for nil), and those of the array behind it
    past its length, into which a longer array would be decoded. *)
Record slice (A : Type) := mkSlice { sl_elems : option (list A); sl_rest : list A }.
#[global] Arguments mkSlice {A}.
#[global] Arguments sl_elems {A}.
#[global] Arguments sl_rest {A}.

Definition nil_slice {A} : slice A := mkSlice None [].
Definition slice_of {A} (l : list A) : slice A := mkSlice (Some l) [].
Definition slice_len {A} (s : slice A) : Z := Z.of_nat (length (default [] (sl_elems s))).

(** The elements of an array stored over what is there. *)
Fixpoint store_elems {A} (c : codec A) (js : list json) (olds : list A) : option (list A) :=
  match js with
  | [] => Some []
  | j :: js' =>
      match store c j (hd (zero c) olds) with
      | None => None
      | Some v => cons v <$> store_elems c js' (tl olds)
      end
  end.

Definition store_slice {A} (c : codec A) (js : list json) (old : slice A) : option (slice A) :=
  let olds := default [] (sl_elems old) ++ sl_rest old in
  (fun l => mkSlice (Some l) (match js with [] => [] | _ => drop (length js) olds end))
    <$> store_elems c js olds.

Fixpoint encode_all {A} (c : codec A) (l : list A) : option (list json) :=
  match l with
  | [] => Some []
  | x :: l' => match encode c x with Some j => cons j <$> encode_all c l' | None => None end
  end.

Definition c_slice {A} (c : codec A) : codec (slice A) := {|
  zero := nil_slice;
  is_empty s := slice_len s =? 0;
  encode s := match sl_elems s with
    | None => Some JNull
    | Some l => JArr <$> encode_all c l
    end;
  store j old := match j with
    | JNull => Some nil_slice
    | JArr js => store_slice c js old
    | _ => None
    end;
|}.

(** [[]byte]: base64, in which line breaks are skipped, or an array. *)
Definition strip_breaks (s : string) : string :=
  Replace [(ascii_of_nat 10, EmptyString); (ascii_of_nat 13, EmptyString)] s.

Definition c_bytes : codec (slice Z) := {|
  zero := nil_slice;
  is_empty s := slice_len s =? 0;
  encode s := match sl_elems s with
    | None => Some JNull
    | Some l => Some (JStr (b64 l))
    end;
  store j old := match j with
    | JNull => Some nil_slice
    | JStr raw => match unquote raw with
        | Some s => slice_of <$> unb64 (strip_breaks s)
        | None => None
        end
    | JArr js => store_slice c_uint8 js old
    | _ => None
    end;
|}.

(** Maps with string keys: written in the order of the keys, and added to
    when they are read. *)
Fixpoint insert_key {A} (k : string) (v : A) (l : list (string * A)) : list (string * A) :=
  match l with
  | [] => [(k, v)]
  | (k', v') :: l' => if String.leb k k' then (k, v) :: l else (k', v') :: insert_key k v l'
  end.

Definition sort_keys {A} (l : list (string * A)) : list (string * A) :=
  foldr (fun '(k, v) => insert_key k v) [] l.

Fixpoint encode_members {A} (c : codec A) (l : list (string * A)) : option (list (string * json)) :=
  match l with
  | [] => Some []
  | (k, x) :: l' =>
      match encode c x with Some j => cons (quote k, j) <$> encode_members c l' | None => None end
  end.

Fixpoint store_members {A} (c : codec A) (js : list (string * json)) (m : gmap string A)
    : option (gmap string A) :=
  match js with
  | [] => Some m
  | (raw, j) :: js' =>
      match unquote raw, store c j (zero c) with
      | Some k, Some v => store_members c js' (<[k := v]> m)
      | _, _ => None
      end
  end.

Definition c_map {A} (c : codec A) : codec (option (gmap string A)) := {|
  zero := None;
  is_empty m := Nat.eqb (size (default ∅ m)) 0;
  encode m := match m with
    | None => Some JNull
    | Some m => JObj <$> encode_members c (sort_keys (map_to_list m))
    end;
  store j old := match j with
    | JNull => Some None
    | JObj js => Some <$> store_members c js (default ∅ old)
    | _ => None
    end;
|}.

(** ** Structs *)

(** A field: its name in the tag, and access to it in the struct. *)
Record field (S : Type) := mkField {
  f_name : string;
  f_encode : S -> option (option json); (* [Some None] when it is left out *)
  f_store : json -> S -> option S;
}.
#[global] Arguments mkField {S}.
#[global] Arguments f_name {S}.
#[global] Arguments f_encode {S}.
#[global] Arguments f_store {S}.

Definition fld {S A} (c : codec A) (name : string) (omitempty : bool) (get : S -> A) (set : A -> S -> S)
    : field S := {|
  f_name := name;
  f_encode s := if omitempty && is_empty c (get s) then Some None else Some <$> encode c (get s);
  f_store j s := (fun v => set v s) <$> store c j (get s);
|}.

(** [foldName] on the keys that can match an ASCII name: letters in upper
    case, and the Kelvin sign and the long s as the letters they fold to. *)
Fixpoint fold_name (s : string) : string :=
  match s with
  | EmptyString => EmptyString
  | String a s1 =>
      match s1 with
      | String b s2 =>
          if (byte_val a =? 197) && (byte_val b =? 191) then String "S" (fold_name s2)
          else match s2 with
          | String c s3 =>
              if (byte_val a =? 226) && (byte_val b =? 132) && (byte_val c =? 170)
              then String "K" (fold_name s3)
              else String (if between 97 122 (byte_val a) then val_byte (byte_val a - 32) else a) (fold_name s1)
          | EmptyString =>
              String (if between 97 122 (byte_val a) then val_byte (byte_val a - 32) else a) (fold_name s1)
          end
      | EmptyString =>
          String (if between 97 122 (byte_val a) then val_byte (byte_val a - 32) else a) (fold_name s1)
      end
  end.

Fixpoint find_field {S} (p : string -> bool) (fs : list (field S)) : option (field S) :=
  match fs with
  | [] => None
  | f :: fs' => if p (f_name f) then Some f else find_field p fs'
  end.

(** The exact name first, then the folded one. *)
Definition field_for {S} (fs : list (field S)) (key : string) : option (field S) :=
  match find_field (String.eqb key) fs with
  | Some f => Some f
  | None => find_field (fun name => String.eqb (fold_name key) (fold_name name)) fs
  end.

(** Members in the order of the text: unknown keys are skipped, and a key
    that comes again is stored over. *)
Fixpoint store_fields {S} (fs : list (field S)) (js : list (string * json)) (s : S) : option S :=
  match js with
  | [] => Some s
  | (raw, j) :: js' =>
      match unquote raw with
      | None => None
      | Some key =>
          match field_for fs key with
          | None => store_fields fs js' s
          | Some f => match f_store f j s with
                      | Some s' => store_fields fs js' s'
                      | None => None
                      end
          end
      end
  end.

Fixpoint encode_fields {S} (fs : list (field S)) (s : S) : option (list (string * json)) :=
  match fs with
  | [] => Some []
  | f :: fs' =>
      match f_encode f s with
      | None => None
      | Some None => encode_fields fs' s
      | Some (Some j) => cons (quote (f_name f), j) <$> encode_fields fs' s
      end
  end.

Definition c_struct {S} (z : S) (fs : list (field S)) : codec S := {|
  zero := z;
  is_empty _ := false;
  encode s := JObj <$> encode_fields fs s;
  store j old := match j with
    | JNull => Some old
    | JObj js => store_fields fs js old
    | _ => None
    end;
|}.

(** ** Round trips *)

(** Integers are written as JSON numbers. *)
Lemma lexes_digits u acc : lexes LInt acc (DecimalString.NilEmpty.string_of_uint u) =
  Some ([], LInt, acc +:+ DecimalString.NilEmpty.string_of_uint u).
Proof.
  revert acc. induction u as [|u IH|u IH|u IH|u IH|u IH|u IH|u IH|u IH|u IH|u IH]; intros acc;
    [cbn; by rewrite append_nil_r|..]; cbn [DecimalString.NilEmpty.string_of_uint lexes];
    match goal with |- context [lstep LInt acc ?c] =>
      change (lstep LInt acc c) with (Some (@nil token, LInt, snoc acc c)) end;
    cbv iota; rewrite IH, snoc_app; done.
Qed.

Lemma to_uint_lead p u : Pos.to_uint p <> Decimal.D0 u.
Proof.
  intros E. pose proof (DecimalZ.of_to (Zpos p)) as H. apply (f_equal Z.to_int) in H.
  rewrite DecimalZ.to_of in H. cbn [Z.to_int Decimal.norm] in H. rewrite E in H. injection H as H.
  unfold Decimal.unorm in H.
  destruct (Decimal.nzhead (Decimal.D0 u)) eqn:En; try discriminate.
  - apply (DecimalPos.Unsigned.to_uint_nonzero p). rewrite E, <- H. done.
  - by apply DecimalFacts.nzhead_nonzero in En.
Qed.

Lemma num_ok_Itoa z : num_ok (Itoa z).
Proof.
  unfold Itoa, num_ok. destruct z as [|p|p]; [by exists LZero| |]; cbn [Z.to_int];
    pose proof (to_uint_lead p) as H0; pose proof (DecimalPos.Unsigned.to_uint_nonnil p) as Hn;
    exists LInt; (split; [|done]); unfold DecimalString.NilZero.string_of_int;
    destruct (Pos.to_uint p) as [|u|u|u|u|u|u|u|u|u|u]; try done; try (by destruct (H0 u)).
  all: cbn [DecimalString.NilZero.string_of_uint DecimalString.NilEmpty.string_of_uint lexes].
  all: repeat match goal with |- context [lstep ?st ?acc ?c] =>
      let r := eval vm_compute in (lstep st acc c) in change (lstep st acc c) with r; cbv iota end.
  all: by rewrite lexes_digits.
Qed.

(** A value that [Marshal] writes so that [Unmarshal] reads it back. *)
Definition roundtrips {A} (c : codec A) (v : A) : Prop :=
  exists j, encode c v = Some j /\ json_ok j /\ (depth j <= 100)%nat /\ store c j (zero c) = Some v.

Lemma Unmarshal_Marshal `{JsonLib} {A} (c : codec A) T v : roundtrips c v ->
  exists raw, Marshal c T v = inr raw /\ Unmarshal c T (Some raw) = inr v.
Proof.
  intros (j & He & Hok & Hd & Hs). exists (print j). unfold Marshal, Unmarshal. rewrite He.
  split; [done|]. change (default EmptyString (Some (print j))) with (print j). rewrite parse_print; [|done|unfold maxNestingDepth; lia].
  cbn. by rewrite Hs.
Qed.

Lemma store_string s old : ValidString s = true -> store c_string (JStr (quote s)) old = Some s.
Proof. apply unquote_quote. Qed.

Lemma store_int z old : in_int64 z -> store c_int (JNum (Itoa z)) old = Some z.
Proof. intros H. cbn. by rewrite Atoi_Itoa. Qed.

Lemma store_time t old : rfc3339_ok t ->
  exists j, encode c_time t = Some j /\ store c_time j old = Some t.
Proof.
  intros H. exists (JStr (FormatNano t)). cbn [encode store c_time]. split; [|by apply Parse_FormatNano].
  destruct H as [Hy Hz]. rewrite (proj2 (between_spec _ _ _)) by lia.
  destruct (quot_minutes _ Hz) as (z & _ & -> & Hzr).
  rewrite (proj2 (Z.ltb_lt _ _)) by zlia. done.
Qed.

(** Storing a member that has a field. *)
Lemma store_fields_cons {S} (fs : list (field S)) name f j js s s' :
  ValidString name = true -> field_for fs name = Some f -> f_store f j s = Some s' ->
  store_fields fs ((quote name, j) :: js) s = store_fields fs js s'.
Proof. intros Hv Hf Hs. cbn [store_fields]. by rewrite unquote_quote, Hf, Hs by done. Qed.

#[export] Hint Resolve raw_ok_quote num_ok_Itoa : adele.
#[export] Hint Rewrite store_string store_int using done : adele.

(** ** What is encoded is well formed *)

Definition plain_byte (v : Z) : Prop := 32 <= v < 128 /\ v <> 34 /\ v <> 92.

(** ASCII text without quotes, backslashes and control characters. *)
Definition plain (s : string) : Prop := Forall plain_byte (byte_list s).

Lemma byte_list_app a b : byte_list (a +:+ b) = byte_list a ++ byte_list b.
Proof. induction a as [|c a IH]; [done|]. cbn. by rewrite IH. Qed.

Lemma plain_app a b : plain a -> plain b -> plain (a +:+ b).
Proof. unfold plain. rewrite byte_list_app. apply Forall_app_2. Qed.

Lemma plain_raw_ok s : plain s -> raw_ok s.
Proof.
  induction s as [|a s IH]; intros H; [apply raw_ok_nil|]. inversion_clear H as [|? ? (H1 & H2 & H3) Hs].
  apply (raw_ok_app (str1 a) s); [apply raw_ok_high; lia|auto].
Qed.

Lemma plain_valid s : plain s -> ValidString s = true.
Proof.
  induction s as [|a s IH]; intros H; [done|]. inversion_clear H as [|? ? (H1 & H2 & H3) Hs].
  change (String a s) with (str1 a +:+ s). unfold ValidString.
  rewrite (runes_reads (byte_val a)) by (constructor; lia). cbn. by apply IH.
Qed.

Lemma plain_digit d : 0 <= d < 10 -> plain (String (digit d) EmptyString).
Proof.
  intros H. constructor; [|constructor]. unfold plain_byte.
  change (byte_val (digit d)) with (Z.of_N (N_of_ascii (digit d))).
  pose proof (dval_digit d H) as E. unfold dval in E. lia.
Qed.

Lemma plain_uint u : plain (DecimalString.NilEmpty.string_of_uint u).
Proof.
  induction u as [|u IH|u IH|u IH|u IH|u IH|u IH|u IH|u IH|u IH|u IH]; [constructor|..];
    (constructor; [unfold plain_byte; vm_compute; repeat split; discriminate|exact IH]).
Qed.

Lemma plain_Itoa z : plain (Itoa z).
Proof.
  assert (H : forall u, plain (DecimalString.NilZero.string_of_uint u)).
  { intros u. destruct u; try apply plain_uint.
    constructor; [unfold plain_byte; vm_compute; repeat split; discriminate|constructor]. }
  unfold Itoa, DecimalString.NilZero.string_of_int. destruct (Z.to_int z) as [u|u]; [apply H|].
  constructor; [unfold plain_byte; vm_compute; repeat split; discriminate|apply H].
Qed.

Lemma plain_fixed w x : plain (fixed_digits w x).
Proof.
  revert x. induction w as [|w IH]; intros x; [constructor|]. cbn [fixed_digits].
  apply plain_app; [apply IH|apply plain_digit; zlia].
Qed.

Lemma plain_trimmed w x : plain (trimmed_digits w x).
Proof.
  revert x. induction w as [|w IH]; intros x; [constructor|]. cbn [trimmed_digits].
  destruct (x mod 10 =? 0); [apply IH|apply plain_fixed].
Qed.

Lemma plain_appendInt x w : plain (appendInt x w).
Proof.
  unfold appendInt. apply plain_app.
  - destruct (x <? 0); [|constructor].
    constructor; [unfold plain_byte; vm_compute; repeat split; discriminate|constructor].
  - destruct (Z.abs x <? 10 ^ Z.of_nat w); [apply plain_fixed|apply plain_Itoa].
Qed.

(** Proofs of [plain] by the shape of the text. *)
Ltac plain_text := repeat lazymatch goal with
  | |- plain (_ +:+ _) => apply plain_app
  | |- plain (appendInt _ _) => apply plain_appendInt
  | |- plain (trimmed_digits _ _) => apply plain_trimmed
  | |- plain (if ?b then _ else _) => destruct b
  | |- plain (String _ _) => constructor; [unfold plain_byte; vm_compute; repeat split; discriminate|]
  | |- plain EmptyString => apply Forall_nil_2
  | |- Forall _ _ => first [apply Forall_nil_2
      | constructor; [unfold plain_byte; vm_compute; repeat split; discriminate|]]
  end.

Lemma plain_format_zone off : plain (format_zone off).
Proof. unfold format_zone. plain_text. Qed.

Lemma plain_FormatNano t : plain (FormatNano t).
Proof.
  unfold FormatNano, format_frac. destruct (civil_of_days _) as [[y m] d].
  repeat (lazymatch goal with |- plain (_ +:+ _) => apply plain_app end);
    try apply plain_format_zone; plain_text.
Qed.

Definition codec_ok {A} (c : codec A) : Prop := forall v j, encode c v = Some j -> json_ok j.

Lemma codec_ok_string : codec_ok c_string.
Proof. intros v j [= <-]. apply raw_ok_quote. Qed.

Lemma codec_ok_int : codec_ok c_int.
Proof. intros v j [= <-]. apply num_ok_Itoa. Qed.

Lemma codec_ok_float `{JsonLibLaws} : codec_ok c_float.
Proof.
  intros v j. cbn. destruct (float_print v) as [lit|] eqn:E; [|done]. intros [= <-].
  by apply float_print_ok in E as [? _].
Qed.

Lemma codec_ok_time : codec_ok c_time.
Proof. intros v j. cbn [encode c_time]. case_match; [|done]. intros [= <-]. apply plain_raw_ok, plain_FormatNano. Qed.

Lemma codec_ok_ptr {A} (c : codec A) : codec_ok c -> codec_ok (c_ptr c).
Proof. intros H [v|] j; cbn; [apply H|by intros [= <-]]. Qed.

Lemma codec_ok_slice {A} (c : codec A) : codec_ok c -> codec_ok (c_slice c).
Proof.
  intros H [[l|] rest] j; cbn; [|by intros [= <-]].
  assert (Hl : forall js, encode_all c l = Some js -> json_ok (JArr js)).
  { induction l as [|x l IH]; intros js; cbn; [by intros [= <-]|].
    destruct (encode c x) as [j'|] eqn:E; [|done]. destruct (encode_all c l) as [js'|]; [|done].
    intros [= <-]. split; [by eapply H|by apply IH]. }
  destruct (encode_all c l) as [js|]; [|done]. intros [= <-]. by apply Hl.
Qed.

Lemma codec_ok_map {A} (c : codec A) : codec_ok c -> codec_ok (c_map c).
Proof.
  intros H [m|] j; cbn; [|by intros [= <-]]. generalize (sort_keys (map_to_list m)). intros l.
  assert (Hl : forall js, encode_members c l = Some js -> json_ok (JObj js)).
  { induction l as [|[k x] l IH]; intros js; cbn; [by intros [= <-]|].
    destruct (encode c x) as [j'|] eqn:E; [|done]. destruct (encode_members c l) as [js'|]; [|done].
    intros [= <-]. split; [split; [apply raw_ok_quote|by eapply H]|by apply IH]. }
  destruct (encode_members c l) as [js|]; [|done]. intros [= <-]. by apply Hl.
Qed.

Definition field_ok {S} (f : field S) : Prop := forall s j, f_encode f s = Some (Some j) -> json_ok j.

Lemma field_ok_fld {S A} (c : codec A) name omit (get : S -> A) set : codec_ok c -> field_ok (fld c name omit get set).
Proof.
  intros H s j. cbn. destruct (omit && _); [done|]. destruct (encode c (get s)) eqn:E; [|done].
  intros [= <-]. by eapply H.
Qed.

Lemma codec_ok_struct {S} (z : S) fs : Forall field_ok fs -> codec_ok (c_struct z fs).
Proof.
  intros H s j. cbn. destruct (encode_fields fs s) as [js|] eqn:E; [|done]. intros [= <-].
  revert js E. induction H as [|f fs Hf _ IH]; intros js; cbn; [by intros [= <-]|].
  destruct (f_encode f s) as [[j|]|] eqn:E; [| |done].
  - destruct (encode_fields fs s) as [js'|]; [|done]. intros [= <-].
    split; [split; [apply raw_ok_quote|by eapply Hf]|by apply IH].
  - apply IH.
Qed.

#[export] Hint Resolve codec_ok_string codec_ok_int codec_ok_float codec_ok_time codec_ok_ptr
  codec_ok_slice codec_ok_map field_ok_fld codec_ok_struct : adele.

(** ** Invariants of what is stored *)

Lemma Atoi_range s z : Atoi s = (z, true) -> in_int64 z.
Proof. unfold Atoi. intros H. repeat case_match; simplify_eq; unfold in_int64; lia. Qed.

(** An int that is stored has 64 bits, and a string is valid. *)
Lemma store_int_range j old z : in_int64 old -> store c_int j old = Some z -> in_int64 z.
Proof.
  intros Ho. cbn. destruct j as [|b|lit|raw|l|l]; try done; [by intros [= <-]|].
  destruct (Atoi lit) as [v []] eqn:E; [|done]. intros [= <-]. by eapply Atoi_range.
Qed.

Lemma store_string_valid j old s : ValidString old = true -> store c_string j old = Some s -> ValidString s = true.
Proof. intros Ho. destruct j; try done; [by intros [= <-]|]. apply unquote_valid. Qed.

(** Fields whose stores keep a property of the struct. *)
Definition keeps {S} (P : S -> Prop) (f : field S) : Prop :=
  forall j s s', P s -> f_store f j s = Some s' -> P s'.

Lemma find_field_in {S} p (fs : list (field S)) f : find_field p fs = Some f -> f ∈ fs.
Proof.
  induction fs as [|g fs IH]; cbn [find_field]; [done|].
  destruct (p (f_name g)); [intros [= <-]; by left|]. intros H. right. by apply IH.
Qed.

Lemma store_fields_keeps {S} (P : S -> Prop) fs js s s' :
  Forall (keeps P) fs -> P s -> store_fields fs js s = Some s' -> P s'.
Proof.
  intros Hfs. revert s. induction js as [|[k j] js IH]; intros s Hs; cbn [store_fields]; [by intros [= <-]|].
  destruct (unquote k) as [key|]; [|done]. destruct (field_for fs key) as [f|] eqn:Ef; [|by apply IH].
  assert (Hf : keeps P f).
  { rewrite Forall_forall in Hfs. apply Hfs. unfold field_for in Ef.
    destruct (find_field (String.eqb key) fs) eqn:E; [|by eapply find_field_in].
    injection Ef as <-. by eapply find_field_in. }
  destruct (f_store f j s) as [s1|] eqn:Es; [|done]. apply IH. by eapply Hf.
Qed.

(** A struct that is unmarshalled has every property that its zero value has
    and its fields keep. *)
Lemma Unmarshal_keeps `{JsonLib} {S} (P : S -> Prop) z fs T raw s :
  P z -> Forall (keeps P) fs -> Unmarshal (c_struct z fs) T raw = inr s -> P s.
Proof.
  intros Hz Hfs. unfold Unmarshal. destruct (parse _) as [j|]; [|done]. cbn [mbind option_bind].
  destruct (store (c_struct z fs) j _) as [v|] eqn:E; [|done]. intros [= <-].
  destruct j; cbn [store c_struct zero] in E; try done; [by injection E as <-|].
  by eapply store_fields_keeps.
Qed.

(** Plain text between quotes is itself. *)
Lemma unquote_plain s : plain s -> unquote s = Some s.
Proof.
  unfold unquote. induction s as [|a s IH]; intros H; [done|].
  inversion_clear H as [|? ? (H1 & H2 & H3) Hs].
  change (String a s) with (str1 a +:+ s). rewrite (runes_reads (byte_val a)) by (constructor; lia).
  cbn [unquote_chunks]. rewrite (proj2 (Z.eqb_neq (byte_val a) 92)), (proj2 (Z.eqb_neq (byte_val a) 34)),
    (proj2 (Z.ltb_ge (byte_val a) 32)) by lia. cbn [orb].
  rewrite IH by done. rewrite (EncodeRune_reads _ (str1 a)) by (constructor; lia). done.
Qed.

Lemma plain_b64_char n : 0 <= n < 64 -> plain_byte (byte_val (b64_char n)).
Proof.
  intros H. unfold b64_char. rewrite byte_val_val; unfold plain_byte;
    repeat case_match; zlia.
Qed.

(** Base64 is plain text without line breaks. *)
Lemma plain_b64 l : Forall (fun z => 0 <= z < 256) l -> plain (b64 l) /\ strip_breaks (b64 l) = b64 l.
Proof.
  assert (Hp : plain_byte (byte_val pad)) by (unfold plain_byte; vm_compute; repeat split; discriminate).
  assert (Hs : forall c s, plain_byte (byte_val c) -> strip_breaks s = s -> strip_breaks (String c s) = String c s).
  { intros c s (Hc & _) E. unfold strip_breaks in *. cbn [Replace replace_byte].
    destruct (Ascii.eqb_spec c (ascii_of_nat 10)) as [->|];
      [change (byte_val (ascii_of_nat 10)) with 10 in Hc; lia|].
    destruct (Ascii.eqb_spec c (ascii_of_nat 13)) as [->|];
      [change (byte_val (ascii_of_nat 13)) with 13 in Hc; lia|].
    by rewrite E. }
  revert l. fix IH 1. intros [|a [|b [|c l]]] H; [by split; [constructor|]|..];
    repeat match goal with H : Forall _ (_ :: _) |- _ => inversion_clear H end.
  3: destruct (IH l) as [IH1 IH2]; [done|].
  all: cbn [b64]; split; [repeat (constructor; [first [exact Hp|apply plain_b64_char; zlia]|]); (exact IH1 || constructor)|].
  all: repeat (apply Hs; [first [exact Hp|apply plain_b64_char; zlia]|]); (exact IH2 || reflexivity).
Qed.
