(* ===== verification/Memory.v ===== *)
(** * Memory backend (api/memory.go, api/queue.go)

    The run of a job by a memory worker, the failure cache, the retries by
    detached sends and the rows written to the database. *)

From stdpp Require Import base gmap strings list.
From Stdlib Require Import ZArith Lia.
From S2P Require Import Prelude GoString GoTime GoJson Types Services Effects RefServices Registry.

Open Scope Z_scope.

Section Memory.
Context {HS : HandlerSig} {RS : RedisServer} {DB : Database} {EV : Env}.

(** [GetFailedJobsFromMemory] *)
Definition GetFailedJobsFromMemory (w : world) : list string := w_failed w.

(** [GetCompletedJobs] and [GetFailedJobs] *)
Definition GetCompletedJobs (q : Queue) (w : world) : string + list Job :=
  if negb (q_DB q) then inr [] else db_all "jobs" (w_db w).
Definition GetFailedJobs (q : Queue) (w : world) : string + list Job :=
  if negb (q_DB q) then inr [] else db_all "failed_jobs" (w_db w).

(** The failure cache after one more failed attempt: it is emptied first
    when it has reached the high water mark. *)
Definition record_failure (q : Queue) (id : string) (data : list string) : list string :=
  (if q_HighWaterMark q <=? Z.of_nat (length data) then [] else data) ++ [id].

(** How long a retry waits. *)
Definition retry_delay (job : Job) : Duration :=
  if negb (j_RetryInSeconds job =? 0) then
    let backoff := wrap64 (j_RetryInSeconds job * j_RetryCounter job) in
    let backoff := if backoff =? 0 then j_RetryInSeconds job else backoff in
    seconds backoff
  else seconds (j_RetryCounter job).

(** [json.Marshal(job.Payload)] when the payload is not nil. *)
Definition marshal_payload (p : option string) : option string := json_bytes <$> p.

(** [addFailedJob] *)
Definition addFailedJob (q : Queue) (job : Job) : prog unit :=
  let* _ := perform (EFailed (record_failure q (j_ID job))) in
  if j_Retry job && (j_RetryCounter job <? q_MaxAttempts q) then
    let delay := retry_delay job in
    let retryJob := set_RetryCounter (wrap64 (j_RetryCounter job + 1)) job in
    perform (EGo (GSend delay retryJob))
  else
    let failedJob :=
      mkJob (j_ID job) None (j_Name job) (marshal_payload (j_Payload job)) false 0 0 EmptyString
        EmptyString EmptyString EmptyString EmptyString EmptyString 0 EmptyString zeroTime zeroTime
        EmptyString EmptyString in
    if q_DB q then
      let* _ := perform (EInsert "failed_jobs" failedJob) in Ret tt
    else Ret tt.

(** [addCompletedJob] *)
Definition addCompletedJob (q : Queue) (job : Job) : prog unit :=
  let job := set_Payload (marshal_payload (j_Payload job)) job in
  if q_DB q then
    let* _ := perform (EInsert "jobs" job) in Ret tt
  else Ret tt.

(** The call of the handler in [runHandler]: a nil function value panics. *)
Definition call_handler (job : Job) (reg : option registeredHandler) : prog outcome :=
  match reg with
  | Some (mkRegistered _ (Some h)) => perform (EInvokeCtx h (j_Payload job))
  | Some (mkRegistered (Some h) None) => perform (EInvoke h (j_Payload job))
  | Some (mkRegistered None None) | None =>
      match j_Handler job with
      | Some h => perform (EInvoke h (j_Payload job))
      | None => Ret (HPanic "runtime error: invalid memory address or nil pointer dereference")
      end
  end.

(** [runHandler] *)
Definition runHandler (q : Queue) (job : Job) : prog unit :=
  let* reg := perform (ELookup (j_Name job)) in
  let* o := call_handler job reg in
  match o with
  | HPanic r => addFailedJob q (set_Exception ("panic: " +:+ r) job)
  | HErr e => addFailedJob q (set_Exception e job)
  | HOk => addCompletedJob q job
  end.

(** The body of the memory worker's loop for a received job. *)
Definition memoryStep (q : Queue) (job : Job) : prog unit :=
  let* runnable :=
    (match j_Handler job with
     | Some _ => Ret true
     | None => hasRegisteredHandler (j_Name job)
     end) in
  let* _ := (if runnable : bool then runHandler q job else Ret tt) in
  perform (EPending (-1)).

(** The loop over the channel, one unit of fuel per receive. *)
Fixpoint memoryLoop (fuel : nat) (q : Queue) : prog bool :=
  match fuel with
  | O => Ret false
  | S n =>
      let* r := perform ERecv in
      match r with
      | None => Ret true
      | Some job => let* _ := memoryStep q job in memoryLoop n q
      end
  end.

(** The detached goroutine of a retry or a delayed dispatch. *)
Definition detachedSend (d : Duration) (j : Job) : prog unit :=
  let* _ := perform (ESleep d) in
  let* _ := perform (EPending 1) in
  perform (ESend j).

(** ** Running a job *)

(** What calling the job's handler does: the registry entry when there is
    one, the inline handler otherwise. *)
Definition call_memory (j : Job) (w : world) : outcome * app_t :=
  match lookup_handler (j_Name j) w with
  | Some (mkRegistered _ (Some h)) => invoke_ctx h (w_cancelled w) (j_Payload j) (w_app w)
  | Some (mkRegistered (Some h) None) => invoke h (j_Payload j) (w_app w)
  | Some (mkRegistered None None) | None =>
      match j_Handler j with
      | Some h => invoke h (j_Payload j) (w_app w)
      | None => (HPanic "runtime error: invalid memory address or nil pointer dereference", w_app w)
      end
  end.

Definition memory_retries (q : Queue) (j : Job) : bool :=
  j_Retry j && (j_RetryCounter j <? q_MaxAttempts q).

(** The rows of the two tables. *)
Definition completed_row (j : Job) : Job := set_Payload (marshal_payload (j_Payload j)) j.
Definition failed_row (j : Job) : Job :=
  mkJob (j_ID j) None (j_Name j) (marshal_payload (j_Payload j)) false 0 0 EmptyString
    EmptyString EmptyString EmptyString EmptyString EmptyString 0 EmptyString zeroTime zeroTime
    EmptyString EmptyString.

(** The job a retry sends: the attempt counted, the error recorded. *)
Definition retried (e : string) (j : Job) : Job :=
  set_RetryCounter (wrap64 (j_RetryCounter j + 1)) (set_Exception e j).

Definition insert_row (q : Queue) (t : string) (j : Job) (w : world) : world :=
  if q_DB q then put_db (db_insert t j (w_db w)).2 w else w.

(** What [runHandler] leaves, as a function of the handler's outcome. *)
Definition ran (q : Queue) (j : Job) (w : world) : world :=
  let '(o, a) := call_memory j w in
  let w := put_app a w in
  let failed (e : string) :=
    let w := put_failed (record_failure q (j_ID j) (w_failed w)) w in
    if memory_retries q j
    then put_go (w_go w ++ [GSend (retry_delay j) (retried e j)]) w
    else insert_row q "failed_jobs" (failed_row j) w in
  match o with
  | HOk => insert_row q "jobs" (completed_row j) w
  | HErr e => failed e
  | HPanic r => failed ("panic: " +:+ r)
  end.

Lemma put_app_id (w : world) : put_app (w_app w) w = w.
Proof. by destruct w. Qed.

Lemma run_addFailedJob q j e w :
  run (addFailedJob q (set_Exception e j)) w =
    (Ok tt, let w := put_failed (record_failure q (j_ID j) (w_failed w)) w in
            if memory_retries q j
            then put_go (w_go w ++ [GSend (retry_delay j) (retried e j)]) w
            else insert_row q "failed_jobs" (failed_row j) w).
Proof.
  unfold addFailedJob, memory_retries, insert_row. cbn -[retry_delay record_failure].
  destruct (j_Retry j && (j_RetryCounter j <? q_MaxAttempts q)); [reflexivity|].
  destruct (q_DB q); cbn -[record_failure]; [|reflexivity]. by destruct (db_insert _ _ _).
Qed.

Lemma run_runHandler q j w : run (runHandler q j) w = (Ok tt, ran q j w).
Proof.
  unfold runHandler. cbn [run pbind perform handle]. rewrite run_bind.
  assert (Hc : run (call_handler j (lookup_handler (j_Name j) w)) w =
    (Ok (call_memory j w).1, put_app (call_memory j w).2 w)).
  { unfold call_handler, call_memory.
    destruct (lookup_handler (j_Name j) w) as [[[hp|] [hc|]]|]; try (destruct (j_Handler j) as [h|]);
      cbn [run perform handle fst snd]; try (by rewrite put_app_id);
      match goal with |- context [let '(_, _) := ?x in _] => by destruct x end. }
  rewrite Hc. unfold ran. destruct (call_memory j w) as [[|e|e] a]; cbn [fst snd].
  - unfold addCompletedJob, insert_row. destruct (q_DB q); [|done]. cbn. by destruct (db_insert _ _ _).
  - apply run_addFailedJob.
  - apply run_addFailedJob.
Qed.

End Memory.

(** ** One job *)

Section OneJob.
Context {HS : HandlerSig} {RS : RedisServer} {DB : Database} {EV : Env}.

(** Whether the worker has a handler for a job. *)
Definition runnable (j : Job) (w : world) : bool :=
  match j_Handler j, lookup_handler (j_Name j) w with
  | None, None | None, Some (mkRegistered None None) => false
  | _, _ => true
  end.

Lemma run_memoryStep q j w :
  run (memoryStep q j) w =
    let w1 := if runnable j w then ran q j w else w in
    (Ok tt, put_pending (wrap64 (w_pending w1 - 1)) w1).
Proof.
  unfold memoryStep. rewrite run_bind.
  assert (Hr : run (match j_Handler j with
     | Some _ => Ret true | None => hasRegisteredHandler (j_Name j) end) w = (Ok (runnable j w), w)).
  { unfold runnable. destruct (j_Handler j); [reflexivity|]. unfold hasRegisteredHandler. cbn.
    by destruct (lookup_handler (j_Name j) w) as [[[?|] [?|]]|]. }
  rewrite Hr. cbv zeta. clear Hr. destruct (runnable j w);
    rewrite run_bind; [rewrite run_runHandler|]; reflexivity.
Qed.

(** The part of the world that a job's handler and rows do not touch. *)
Lemma ran_frame q j w :
  w_pending (ran q j w) = w_pending w /\ w_closed (ran q j w) = w_closed w /\
  w_inbox (ran q j w) = w_inbox w /\ w_sent (ran q j w) = w_sent w /\
  w_handlers (ran q j w) = w_handlers w /\ w_cancelled (ran q j w) = w_cancelled w /\
  w_app (ran q j w) = (call_memory j w).2.
Proof.
  unfold ran, insert_row. destruct (call_memory j w) as [[|e|e] a]; destruct (q_DB q), (memory_retries q j);
    cbn; by split_and!.
Qed.

Lemma retry_delay_eq j :
  in_int64 (j_RetryInSeconds j * j_RetryCounter j) ->
  retry_delay j = seconds (if j_RetryInSeconds j =? 0 then j_RetryCounter j
                           else if j_RetryCounter j =? 0 then j_RetryInSeconds j
                           else j_RetryInSeconds j * j_RetryCounter j).
Proof.
  intros Hr. unfold retry_delay. destruct (Z.eqb_spec (j_RetryInSeconds j) 0); [done|]. cbn [negb].
  rewrite wrap64_id by done. destruct (Z.eqb_spec (j_RetryCounter j) 0) as [->|]; [by rewrite Z.mul_0_r|].
  destruct (Z.eqb_spec (j_RetryInSeconds j * j_RetryCounter j) 0); [nia|done].
Qed.

(** What a failed attempt records as the job's exception. *)
Definition memory_error (o : outcome) : string :=
  match o with HOk => EmptyString | HErr e => e | HPanic r => "panic: " +:+ r end.

(** A job whose handler returns an error or panics is retried by one detached send of the
    same job with its counter raised, or written to [failed_jobs] once when
    no attempt is left. The retry waits [RetryInSeconds] times the attempts
    so far, at least once that; without it, the attempts so far in seconds. *)
Lemma runHandler_fails q j w o a :
  call_memory j w = (o, a) -> o <> HOk -> in_int64 (j_RetryInSeconds j * j_RetryCounter j) ->
  exists w', run (runHandler q j) w = (Ok tt, w') /\ w_app w' = a /\
    w_failed w' = record_failure q (j_ID j) (w_failed w) /\
    if memory_retries q j then
      w_db w' = w_db w /\
      exists d j', w_go w' = w_go w ++ [GSend d j'] /\ j_ID j' = j_ID j /\ j_Exception j' = memory_error o /\
        j_RetryCounter j' = wrap64 (j_RetryCounter j + 1) /\ j_Payload j' = j_Payload j /\
        d = seconds (if j_RetryInSeconds j =? 0 then j_RetryCounter j
                     else if j_RetryCounter j =? 0 then j_RetryInSeconds j
                     else j_RetryInSeconds j * j_RetryCounter j)
    else w_go w' = w_go w /\
      w_db w' = if q_DB q then (db_insert "failed_jobs" (failed_row j) (w_db w)).2 else w_db w.
Proof.
  intros Hc Ho Hr. eexists. split; [apply run_runHandler|]. unfold ran. rewrite Hc.
  destruct o as [|e|e]; [done|..]; destruct (memory_retries q j) eqn:Hm; cbn [w_app w_failed w_go w_db put_go put_failed put_app].
  1, 3: split; [done|]; split; [done|]; split; [done|]; eexists _, _; split; [done|];
    split; [done|]; split; [done|]; split; [done|]; split; [done|]; by apply retry_delay_eq.
  all: unfold insert_row; wsimpl; by destruct (q_DB q).
Qed.

Context {DL : DatabaseLaws DB}.

(** A job whose handler succeeds is offered to table [jobs] once, as it is
    but for its payload, which becomes the JSON string of its base64 form.
    When the insert succeeds, [GetCompletedJobs] returns the rows so far and
    one with the job's id, name and attempts and a payload that decodes to
    the original. No other table, goroutine or failure is recorded. *)
Lemma runHandler_completes q j w a :
  call_memory j w = (HOk, a) ->
  exists w', run (runHandler q j) w = (Ok tt, w') /\ w_app w' = a /\
    w_failed w' = w_failed w /\ w_go w' = w_go w /\
    w_db w' = (if q_DB q then (db_insert "jobs" (completed_row j) (w_db w)).2 else w_db w) /\
    forall d, q_DB q = true -> db_insert "jobs" (completed_row j) (w_db w) = (None, d) ->
      exists row, j_ID row = j_ID j /\ j_Name row = j_Name j /\
        j_RetryCounter row = j_RetryCounter j /\ (j_Payload row ≫= unjson_bytes) = j_Payload j /\
        (forall l, GetCompletedJobs q w' = inr l -> l = db_rows (w_db w) "jobs" ++ [row]) /\
        (forall l, GetFailedJobs q w' = inr l -> l = db_rows (w_db w) "failed_jobs").
Proof.
  intros Hc. exists (ran q j w). split; [apply run_runHandler|].
  unfold ran, insert_row. rewrite Hc. split; [by destruct (q_DB q)|]. split; [by destruct (q_DB q)|].
  split; [by destruct (q_DB q)|]. split; [by destruct (q_DB q)|]. intros d Hq Hd. rewrite Hq.
  unfold GetCompletedJobs, GetFailedJobs. rewrite Hq. cbn [negb]. wsimpl. rewrite Hd. cbn [snd].
  destruct (db_insert_ok _ _ _ _ Hd) as [(row & (Hid & Hn & Hp & Hr) & _ & Hrow) Hother].
  exists row. split; [done|]. split; [done|]. split; [done|]. split.
  { rewrite Hp. cbn. destruct (j_Payload j) as [p|]; cbn; [apply unjson_json_bytes|done]. }
  split.
  - intros l Hl%db_all_ok. by rewrite Hl.
  - intros l Hl%db_all_ok. rewrite Hl. by apply Hother.
Qed.

(** C21: one delivery on the memory backend. A job whose handler returns an
    error or panics is retried by one detached send of the same job with its
    counter raised, after [RetryInSeconds] times the attempts so far, at
    least once that (without it, the attempts so far in seconds; the product
    is taken to fit 64 bits), or offered
    to [failed_jobs] once when no attempt is left. A job whose handler
    succeeds is offered to [jobs] once, as it is but for its payload, which
    becomes the JSON string of its base64 form; no goroutine, failure or
    other row is recorded. When that insert succeeds, [GetCompletedJobs]
    returns the rows so far and one with the job's id, name and attempts and
    a payload that decodes to the original, and [GetFailedJobs] what it
    returned before. *)
Theorem runHandler_spec q j w o a :
  call_memory j w = (o, a) ->
  (o <> HOk -> in_int64 (j_RetryInSeconds j * j_RetryCounter j) ->
   exists w', run (runHandler q j) w = (Ok tt, w') /\ w_app w' = a /\
     w_failed w' = record_failure q (j_ID j) (w_failed w) /\
     if memory_retries q j then
       w_db w' = w_db w /\
       exists d j', w_go w' = w_go w ++ [GSend d j'] /\ j_ID j' = j_ID j /\ j_Exception j' = memory_error o /\
         j_RetryCounter j' = wrap64 (j_RetryCounter j + 1) /\ j_Payload j' = j_Payload j /\
         d = seconds (if j_RetryInSeconds j =? 0 then j_RetryCounter j
                      else if j_RetryCounter j =? 0 then j_RetryInSeconds j
                      else j_RetryInSeconds j * j_RetryCounter j)
     else w_go w' = w_go w /\
       w_db w' = if q_DB q then (db_insert "failed_jobs" (failed_row j) (w_db w)).2 else w_db w) /\
  (o = HOk ->
   exists w', run (runHandler q j) w = (Ok tt, w') /\ w_app w' = a /\
     w_failed w' = w_failed w /\ w_go w' = w_go w /\
     w_db w' = (if q_DB q then (db_insert "jobs" (completed_row j) (w_db w)).2 else w_db w) /\
     forall d, q_DB q = true -> db_insert "jobs" (completed_row j) (w_db w) = (None, d) ->
       exists row, j_ID row = j_ID j /\ j_Name row = j_Name j /\
         j_RetryCounter row = j_RetryCounter j /\ (j_Payload row ≫= unjson_bytes) = j_Payload j /\
         (forall l, GetCompletedJobs q w' = inr l -> l = db_rows (w_db w) "jobs" ++ [row]) /\
         (forall l, GetFailedJobs q w' = inr l -> l = db_rows (w_db w) "failed_jobs")).
Proof.
  intros Hc. split; [by apply runHandler_fails|]. intros ->. by apply runHandler_completes.
Qed.

(** The row a permanently failed job leaves in [failed_jobs] has its
    id, name and payload; the error and the number of attempts are not in
    it. *)
Lemma failed_jobs_row q j w o a d :
  call_memory j w = (o, a) -> o <> HOk -> q_DB q = true -> memory_retries q j = false ->
  db_insert "failed_jobs" (failed_row j) (w_db w) = (None, d) ->
  exists w' row, run (runHandler q j) w = (Ok tt, w') /\
    (forall l, GetFailedJobs q w' = inr l -> l = db_rows (w_db w) "failed_jobs" ++ [row]) /\
    j_ID row = j_ID j /\ j_Name row = j_Name j /\ (j_Payload row ≫= unjson_bytes) = j_Payload j /\
    j_Exception row = EmptyString /\ j_RetryCounter row = 0.
Proof.
  intros Hc Ho Hq Hm Hd.
  destruct (db_insert_ok _ _ _ _ Hd) as [(row & (Hid & Hn & Hp & Hr) & Hex & Hrow) _].
  exists (ran q j w), row. split; [apply run_runHandler|].
  unfold ran, insert_row. rewrite Hc, Hq, Hm. unfold GetFailedJobs. rewrite Hq. cbn [negb].
  split.
  { destruct o; [done|..]; wsimpl; rewrite Hd; wsimpl; intros l Hl%db_all_ok; by rewrite Hl. }
  split; [done|]. split; [done|]. split; [|split; [by rewrite Hex|done]].
  rewrite Hp. cbn. destruct (j_Payload j) as [p|]; cbn; [apply unjson_json_bytes|done].
Qed.

End OneJob.

(** ** All attempts of a job *)

Section Attempts.
Context {HS : HandlerSig} {RS : RedisServer} {DB : Database} {EV : Env}.

(** A delivery of a job to a worker and, as long as the worker starts a
    retry, the detached send and the delivery of what it sends. *)
Fixpoint deliver (fuel : nat) (q : Queue) (j : Job) (w : world) : option world :=
  match fuel with
  | O => None
  | S n =>
      match run (memoryStep q j) w with
      | (Panicked _, _) => None
      | (Ok _, w1) =>
          match drop (length (w_go w)) (w_go w1) with
          | GSend d j' :: _ =>
              match run (detachedSend d j') w1 with
              | (Panicked _, _) => None
              | (Ok _, w2) => deliver n q j' w2
              end
          | _ => Some w1
          end
      end
  end.

Context (q : Queue) (calls : app_t -> Z).

(** The handler of the job always fails, in an application that counts its
    calls. *)
Definition job_fails (j : Job) (w : world) : Prop :=
  (is_Some (j_Handler j) \/ exists e, lookup_handler (j_Name j) w = Some e /\ one_shape e) /\
  forall a c j', j_Name j' = j_Name j -> j_Handler j' = j_Handler j ->
    let w' := put_cancelled c (put_app a w) in
    (call_memory j' w').1 <> HOk /\ calls (call_memory j' w').2 = calls a + 1.

Lemma job_runnable j w : job_fails j w -> runnable j w = true.
Proof.
  unfold runnable. intros [[[h ->]|(e & -> & He)] _]; [done|].
  destruct (j_Handler j); [done|]. by destruct e as [[?|] [?|]].
Qed.

(** Everything a delivery keeps of the world. *)
Lemma job_fails_ext j j' w w' :
  job_fails j w -> j_Name j' = j_Name j -> j_Handler j' = j_Handler j ->
  w_handlers w' = w_handlers w -> job_fails j' w'.
Proof.
  intros [Hr Hf] Hn Hh Hw. unfold job_fails. rewrite Hn, Hh.
  assert (Hl : forall name, lookup_handler name w' = lookup_handler name w)
    by (intros name; unfold lookup_handler; by rewrite Hw).
  rewrite Hl. split; [done|]. intros a c j0 Hn0 Hh0. cbv zeta.
  specialize (Hf a c j0 Hn0 Hh0). cbv zeta in Hf. unfold call_memory in *.
  change (lookup_handler (j_Name j0) (put_cancelled c (put_app a w')))
    with (lookup_handler (j_Name j0) w').
  rewrite Hl. exact Hf.
Qed.

Lemma ran_failing j w : job_fails j w ->
  let w1 := put_pending (wrap64 (w_pending w - 1)) (ran q j w) in
  run (memoryStep q j) w = (Ok tt, w1) /\ calls (w_app w1) = calls (w_app w) + 1 /\
  w_failed w1 = record_failure q (j_ID j) (w_failed w) /\
  if memory_retries q j then
    w_db w1 = w_db w /\ exists e, w_go w1 = w_go w ++ [GSend (retry_delay j) (retried e j)]
  else w_go w1 = w_go w /\ w_db w1 = w_db (insert_row q "failed_jobs" (failed_row j) w).
Proof.
  intros Hf. cbv zeta. rewrite run_memoryStep, (job_runnable j w Hf). cbv zeta iota.
  destruct (ran_frame q j w) as (-> & _ & _ & _ & _ & _ & Ha). wsimpl. split; [done|].
  rewrite Ha. destruct Hf as [_ Hf]. specialize (Hf (w_app w) (w_cancelled w) j eq_refl eq_refl).
  assert (Hw : put_cancelled (w_cancelled w) (put_app (w_app w) w) = w) by (by destruct w).
  rewrite Hw in Hf. cbv zeta in Hf. destruct Hf as [Ho Hc]. split; [exact Hc|].
  unfold ran, insert_row. destruct (call_memory j w) as [[|e|e] a]; [done|..];
    destruct (memory_retries q j), (q_DB q); wsimpl; eauto.
Qed.

Lemma run_detachedSend d j w : w_closed w = false ->
  run (detachedSend d j) w =
    (Ok tt, put_sent (w_sent w ++ [j]) (put_pending (wrap64 (w_pending w + 1)) w)).
Proof. intros H. unfold detachedSend. cbn. by rewrite H. Qed.

(** C19: on the memory backend too a job that may be retried and whose
    handler always fails is run [MaxAttempts + 1] times: the chain of
    retries ends, after as many handler calls and one row in [failed_jobs];
    the pending count goes down by the one of the first dispatch and every
    attempt's id goes through the failure cache. *)
Theorem memory_attempts fuel j w :
  job_fails j w -> w_closed w = false -> j_Retry j = true -> 0 <= j_RetryCounter j ->
  j_RetryCounter j <= q_MaxAttempts q < two63 -> in_int64 (w_pending w) ->
  q_MaxAttempts q - j_RetryCounter j < Z.of_nat fuel ->
  let more := Z.to_nat (q_MaxAttempts q - j_RetryCounter j) in
  exists w' jn, deliver fuel q j w = Some w' /\
    calls (w_app w') = calls (w_app w) + Z.of_nat more + 1 /\
    w_pending w' = wrap64 (w_pending w - 1) /\
    w_failed w' = Nat.iter (S more) (record_failure q (j_ID j)) (w_failed w) /\
    j_ID jn = j_ID j /\ j_Payload jn = j_Payload j /\
    w_db w' = w_db (insert_row q "failed_jobs" (failed_row jn) w).
Proof.
  cbv zeta. revert j w. induction fuel as [|fuel IH]; intros j w Hf Hcl Hr H0 Hm Hp Hfu; [lia|].
  cbn [deliver]. destruct (ran_failing j w Hf) as (-> & Hca & Hfa & Hgo).
  unfold memory_retries in Hgo. rewrite Hr in Hgo. cbn [andb] in Hgo.
  set (w1 := put_pending (wrap64 (w_pending w - 1)) (ran q j w)) in *.
  destruct (ran_frame q j w) as (_ & Hcl1 & _ & _ & Hh1 & _).
  destruct (Z.ltb_spec (j_RetryCounter j) (q_MaxAttempts q)) as [Hlt|Hge].
  - destruct Hgo as [Hdb [e Hgo]]. rewrite Hgo, drop_app_length. cbn [length].
    rewrite run_detachedSend by (unfold w1; wsimpl; by rewrite Hcl1).
    set (w2 := put_sent _ _). set (j' := retried e j).
    assert (Hrc : j_RetryCounter j' = j_RetryCounter j + 1)
      by (apply wrap64_id; unfold in_int64, two63 in *; lia).
    assert (Hp2 : w_pending w2 = w_pending w).
    { unfold w2, w1. wsimpl. rewrite wrap64_add_l. rewrite wrap64_id; [lia|].
      unfold in_int64, two63 in *. lia. }
    destruct (IH j' w2) as (w' & jn & -> & Hc' & Hp' & Hf' & Hid & Hpay & Hd');
      [by eapply job_fails_ext|unfold w2, w1; wsimpl; by rewrite Hcl1|done|lia|lia|by rewrite Hp2|lia|].
    replace (Z.to_nat (q_MaxAttempts q - j_RetryCounter j))
      with (S (Z.to_nat (q_MaxAttempts q - j_RetryCounter j'))) by lia.
    exists w', jn. split; [done|]. split; [rewrite Hc'; change (w_app w2) with (w_app w1); lia|].
    split; [by rewrite Hp', Hp2|]. split; [rewrite Hf'; change (w_failed w2) with (w_failed w1); rewrite Hfa;
      change (j_ID j') with (j_ID j); symmetry; apply Nat.iter_succ_r|].
    split; [by rewrite Hid|]. split; [by rewrite Hpay|]. rewrite Hd'. unfold insert_row.
    destruct (q_DB q); wsimpl; change (w_db w2) with (w_db w1); by rewrite Hdb.
  - destruct Hgo as [Hgo Hdb]. rewrite Hgo, drop_all.
    exists w1, j. replace (Z.to_nat (q_MaxAttempts q - j_RetryCounter j)) with O by lia.
    split; [done|]. split; [lia|]. split; [done|]. split; [done|]. done.
Qed.

End Attempts.

(** ** The worker's loop *)

Section Loop.
Context {HS : HandlerSig} {RS : RedisServer} {DB : Database} {EV : Env}.

(** The failure cache holds at most as many ids as the high water mark. *)
Definition cache_bounded (q : Queue) (w : world) : Prop :=
  Z.of_nat (length (GetFailedJobsFromMemory w)) <= q_HighWaterMark q.

Lemma record_failure_bounded q id data :
  1 <= q_HighWaterMark q -> Z.of_nat (length data) <= q_HighWaterMark q ->
  Z.of_nat (length (record_failure q id data)) <= q_HighWaterMark q.
Proof.
  intros Hq Hd. unfold record_failure. rewrite length_app. cbn [length].
  destruct (Z.leb_spec (q_HighWaterMark q) (Z.of_nat (length data))); cbn [length]; lia.
Qed.

Lemma ran_bounded q j w : 1 <= q_HighWaterMark q -> cache_bounded q w -> cache_bounded q (ran q j w).
Proof.
  unfold cache_bounded, GetFailedJobsFromMemory. intros Hq Hc. unfold ran, insert_row.
  destruct (call_memory j w) as [[|e|e] a]; destruct (q_DB q), (memory_retries q j); wsimpl;
    by try apply record_failure_bounded.
Qed.

(** The worlds a worker goes through as it takes jobs from the channel. *)
Definition served (q : Queue) (js : list Job) (w : world) : world :=
  foldl (fun w j => (run (memoryStep q j) w).2) w js.

Definition stepped (q : Queue) (j : Job) (w : world) : world :=
  let w1 := if runnable j w then ran q j w else w in put_pending (wrap64 (w_pending w1 - 1)) w1.

Lemma stepped_frame q j w :
  1 <= q_HighWaterMark q -> cache_bounded q w ->
  cache_bounded q (stepped q j w) /\ w_inbox (stepped q j w) = w_inbox w /\
  w_closed (stepped q j w) = w_closed w /\ w_pending (stepped q j w) = wrap64 (w_pending w - 1).
Proof.
  intros Hq Hc. unfold stepped. cbv zeta. pose proof (ran_bounded q j w Hq Hc).
  destruct (runnable j w); [|by split_and!]. destruct (ran_frame q j w) as (E1 & E2 & E3 & _).
  wsimpl. rewrite E1, E2, E3. by split_and!.
Qed.

(** Running a job does not look at who else waits on the channel. *)
Lemma stepped_inbox q j l w : stepped q j (put_inbox l w) = put_inbox l (stepped q j w).
Proof.
  assert (Hr : ran q j (put_inbox l w) = put_inbox l (ran q j w)).
  { unfold ran. change (call_memory j (put_inbox l w)) with (call_memory j w).
    unfold insert_row.
    destruct (call_memory j w) as [[|e|e] a]; destruct (q_DB q), (memory_retries q j); reflexivity. }
  unfold stepped. change (runnable j (put_inbox l w)) with (runnable j w). rewrite Hr.
  by destruct (runnable j w).
Qed.

Lemma served_inbox q js l w : served q js (put_inbox l w) = put_inbox l (served q js w).
Proof.
  revert w. induction js as [|j js IH]; intros w; [done|]. unfold served in *. cbn [foldl].
  rewrite !run_memoryStep. cbn [snd]. fold (stepped q j (put_inbox l w)). fold (stepped q j w).
  by rewrite stepped_inbox, IH.
Qed.

Lemma memoryLoop_takes n q w :
  w_closed w = false -> (n <= length (w_inbox w))%nat -> in_int64 (w_pending w) ->
  1 <= q_HighWaterMark q -> cache_bounded q w ->
  wp (memoryLoop n q) (fun finished w' =>
    finished = false /\ cache_bounded q w' /\
    w' = put_inbox (drop n (w_inbox w)) (served q (take n (w_inbox w)) w) /\
    w_pending w' = wrap64 (w_pending w - Z.of_nat n)) w.
Proof.
  intros Hcl Hn Hp Hq. revert w Hcl Hn Hp.
  induction n as [|n IH]; intros w Hcl Hn Hp Hc; cbn [memoryLoop].
  { wp_pure. split; [done|]. split; [done|]. split; [by destruct w|].
    by rewrite Z.sub_0_r, wrap64_id. }
  destruct (w_inbox w) as [|j js] eqn:Hin; [cbn in Hn; lia|].
  repeat wp_pure. rewrite Hcl, Hin. apply wp_bind. unfold wp at 1. rewrite run_memoryStep.
  change (wp (memoryLoop n q) (fun finished w' =>
    finished = false /\ cache_bounded q w' /\
    w' = put_inbox (drop (S n) (j :: js)) (served q (take (S n) (j :: js)) w) /\
    w_pending w' = wrap64 (w_pending w - Z.of_nat (S n))) (stepped q j (put_inbox js w))).
  rewrite stepped_inbox. destruct (stepped_frame q j w Hq Hc) as (E1 & E2 & E3 & E4).
  eapply wp_mono; [|apply IH; wsimpl; [by rewrite E3|cbn in Hn; lia|rewrite E4; apply wrap64_range|exact E1]].
  intros r w' (-> & Hc' & -> & Hp'). split; [done|]. split; [done|]. split.
  - wsimpl. rewrite served_inbox. cbn [drop take].
    change (served q (j :: ?l) w) with (served q l (run (memoryStep q j) w).2).
    rewrite run_memoryStep. done.
  - rewrite Hp'. wsimpl. rewrite E4. change (?a - ?b) with (a + - b). rewrite wrap64_add_l. f_equal. lia.
Qed.

(** C20: the loop of a memory worker. While the channel is open and senders
    are blocked on it, [n] receives take the first [n] jobs, in order, and
    run each exactly once: whatever the handlers do (panics included) the
    loop neither panics nor stops early, the world is that of the runs one
    after the other with the other senders still waiting, each job takes one
    off the pending count, and the failure cache stays within the high water
    mark. On the closed channel the loop returns at once and runs nothing. *)
Theorem memoryLoop_serves n q w :
  in_int64 (w_pending w) -> 1 <= q_HighWaterMark q -> cache_bounded q w ->
  (w_closed w = false -> (n <= length (w_inbox w))%nat ->
   wp (memoryLoop n q) (fun finished w' =>
     finished = false /\ cache_bounded q w' /\
     w' = put_inbox (drop n (w_inbox w)) (served q (take n (w_inbox w)) w) /\
     w_pending w' = wrap64 (w_pending w - Z.of_nat n)) w) /\
  (w_closed w = true -> run (memoryLoop (S n) q) w = (Ok true, w)).
Proof.
  intros Hp Hq Hc. split; [intros; by apply memoryLoop_takes|].
  intros Hcl. cbn. by rewrite Hcl.
Qed.

End Loop.

(** ** Witnesses *)

Definition memQueue : Queue :=
  mkQueue "memory" false 1 2 2 ["job"] "job" 300 30 (mkRedis false EmptyString 1) true.

Definition memWorld (o : outcome) : world := workWorld [] [("mail", plainHandler o)].

Lemma runHandler_spec_witness :
  (exists w', run (runHandler memQueue refJob) (memWorld (HPanic "boom")) = (Ok tt, w') /\
     w_failed w' = ["a1"] /\ w_app w' = 1%nat) /\
  (exists w', run (runHandler memQueue refJob) (memWorld HOk) = (Ok tt, w') /\ w_failed w' = []).
Proof.
  split.
  - destruct (proj1 (runHandler_spec memQueue refJob (memWorld (HPanic "boom")) (HPanic "boom") 1%nat eq_refl))
      as (w' & Hw & Ha & Hf & _); [discriminate|by vm_compute|].
    exists w'. split; [exact Hw|]. split; [exact Hf|exact Ha].
  - destruct (proj2 (runHandler_spec memQueue refJob (memWorld HOk) HOk 1%nat eq_refl)
      eq_refl) as (w' & Hw & _ & Hf & _).
    exists w'. split; [exact Hw|exact Hf].
Defined.

Lemma memory_attempts_witness :
  exists w', deliver 10 memQueue refJob (put_pending 1 (memWorld (HErr "down"))) = Some w' /\
    w_app w' = 3%nat /\ w_pending w' = 0.
Proof.
  destruct (memory_attempts (HS := refHandlers) memQueue Z.of_nat 10 refJob
    (put_pending 1 (memWorld (HErr "down"))))
    as (w' & jn & Hd & Hc & Hp & _).
  - split; [right; exists (plainHandler (HErr "down")); by split|].
    intros a c j' Hn Hh. unfold call_memory. rewrite Hn.
    split; [done|]. exact (Nat2Z.inj_succ a).
  - reflexivity.
  - reflexivity.
  - done.
  - done.
  - by vm_compute.
  - cbn. lia.
  - exists w'. split; [exact Hd|]. split; [cbn in Hc; lia|exact Hp].
Defined.

Lemma memoryLoop_serves_witness :
  wp (memoryLoop 2 memQueue) (fun finished w' =>
    finished = false /\ w_pending w' = 1 /\ w_inbox w' = [refJob])
    (put_pending 3 (put_inbox [refJob; refJob; refJob] (memWorld (HErr "down")))).
Proof.
  eapply wp_mono; [|apply (memoryLoop_serves 2 memQueue); [by vm_compute|done|done|done|cbn; lia]].
  intros r w' (-> & _ & -> & ->). by vm_compute.
Defined.
