(* ===== verification/Queue.v ===== *)
(** * Dispatch, depth and lifecycle (api/queue.go)

    [Dispatch], [DispatchIn], [Depth], [Listen], [worker] and [Close] over
    both backends. *)

From stdpp Require Import base gmap strings list.
From Stdlib Require Import ZArith Ascii Lia.
From S2P Require Import Prelude GoString GoTime Types Services Effects RefServices Redis RedisScan Reaper Config Registry Memory.

Open Scope Z_scope.

Section Queue.
Context {HS : HandlerSig} {RS : RedisServer} {RG : Redigo} {DB : Database} {EV : Env}.
Context {UT : UnicodeTables}.

Definition nil_deref : string := "runtime error: invalid memory address or nil pointer dereference".

(** The job as [Dispatch] prepares it before the switch on the backend. *)
Definition prepared (id now : string) (job : Job) : Job :=
  let job := set_ID id job in
  let job := set_ReservedAt now job in
  let job := set_RetryAfter
    (if negb (String.eqb (j_DispatchAt job) EmptyString) then j_DispatchAt job else now) job in
  set_Status "pending" job.

(** The channel a job is stored under on the redis backend. *)
Definition redis_channel (q : Queue) (queue : string) : string :=
  if String.eqb queue EmptyString then q_QueueChannelDefault q
  else
    let channel := RedisKeyspaceFormater queue in
    if bool_decide (channel ∈ q_QueueChannels q) then channel else q_QueueChannelDefault q.

(** The case of the memory backend. *)
Definition dispatchMemory (q : Queue) (job : Job) : prog (string * option string) :=
  let job := if String.eqb (j_Queue job) EmptyString then set_Queue (q_QueueChannelDefault q) job else job in
  let send :=
    let* _ := perform (EPending 1) in
    let* _ := perform (ESend job) in
    Ret (j_ID job, None) in
  if negb (String.eqb (j_DispatchAt job) EmptyString) then
    match Parse (j_DispatchAt job) with
    | None =>
        Ret (EmptyString, Some ("queue: invalid DispatchAt " +:+ uni_Quote (j_DispatchAt job) +:+ ": "
               +:+ time_ParseError (j_DispatchAt job)))
    | Some when =>
        let* now := perform ENow in
        let delay := Sub when now in
        if 0 <? delay then
          let* _ := perform (EGo (GSend delay job)) in Ret (j_ID job, None)
        else send
    end
  else send.

(** The case of the redis backend. *)
Definition dispatchRedis (q : Queue) (job : Job) : prog (string * option string) :=
  if negb (r_Pool (q_Redis q)) then Panic nil_deref
  else
    let job := set_Queue (redis_channel q (j_Queue job)) job in
    let* r := perform (EDo (HSET (Sprintf formatPending [j_Queue job; j_ID job]) (AddFlat job))) in
    match r with
    | RErr err => Ret (j_ID job, Some err)
    | Reply _ => Ret (j_ID job, None)
    end.

(** [Dispatch]: the id and the error. *)
Definition Dispatch (q : Queue) (job : Job) : prog (string * option string) :=
  let* id := perform EUuid in
  match id with
  | None => Panic "uuid.Must"
  | Some id =>
      let* t := perform ENow in
      let job := prepared id (Format (UTC t)) job in
      if String.eqb (q_Backend q) "memory" then dispatchMemory q job
      else if String.eqb (q_Backend q) "redis" then dispatchRedis q job
      else Ret (EmptyString, Some "unknown queue backend configuration")
  end.

(** [DispatchIn] *)
Definition DispatchIn (q : Queue) (job : Job) (delay : Duration) : prog (string * option string) :=
  if 0 <? delay then
    let* now := perform ENow in
    Dispatch q (set_DispatchAt (Format (Add (UTC now) delay)) job)
  else Dispatch q job.

(** The scan of one channel in [Depth], one unit of fuel per page; [None]
    when the fuel runs out. The total counts keys held in memory, far below
    the width of an int. *)
Fixpoint depthScan (fuel : nat) (channel cursor : string) (total : Z) : prog (option (string + Z)) :=
  match fuel with
  | O => Ret None
  | S n =>
      let match_ := Sprintf "queues:%s:pending:*" [channel] in
      let* r := perform (EDo (SCAN cursor match_ 100)) in
      match Values r with
      | inl err => Ret (Some (inl ("queue: redis SCAN failed for channel " +:+ uni_Quote channel
                                   +:+ ": " +:+ err)))
      | inr [c; ks] =>
          match redis_String c with
          | inl err => Ret (Some (inl ("queue: parse SCAN cursor for channel " +:+ uni_Quote channel
                                       +:+ ": " +:+ err)))
          | inr nextCursor =>
              match Strings ks with
              | inl err => Ret (Some (inl ("queue: parse SCAN keys for channel " +:+ uni_Quote channel
                                           +:+ ": " +:+ err)))
              | inr keys =>
                  let total := total + Z.of_nat (length keys) in
                  if String.eqb nextCursor "0" then Ret (Some (inr total))
                  else depthScan n channel nextCursor total
              end
          end
      | inr _ => Ret (Some (inl ("queue: unexpected SCAN reply shape for channel " +:+ uni_Quote channel)))
      end
  end.

(** The loop over the channels. *)
Fixpoint depthChannels (fuel : nat) (channels : list string) (total : Z) : prog (option (string + Z)) :=
  match channels with
  | [] => Ret (Some (inr total))
  | channel :: rest =>
      let* r := depthScan fuel channel "0" total in
      match r with
      | Some (inr total) => depthChannels fuel rest total
      | r => Ret r
      end
  end.

(** [Depth] *)
Definition Depth (fuel : nat) (q : Queue) : prog (option (string + Z)) :=
  if String.eqb (q_Backend q) "memory" then
    let* n := perform ELoadPending in Ret (Some (inr n))
  else if String.eqb (q_Backend q) "redis" then
    if negb (r_Pool (q_Redis q)) then Ret (Some (inl "queue: redis pool is unavailable"))
    else
      let* err := perform EConnErr in
      match err with
      | Some err => Ret (Some (inl ("queue: redis connection unavailable: " +:+ err)))
      | None => depthChannels fuel (q_QueueChannels q) 0
      end
  else Ret (Some (inl "queue: unknown backend")).

(** [worker]; the WaitGroup is told at the end. *)
Definition worker (fuel : nat) (q : Queue) (id : Z) : prog loop_exit :=
  let* e :=
    (if String.eqb (q_Backend q) "memory" then
       let* finished := memoryLoop fuel q in Ret (if finished : bool then Returned else OutOfFuel)
     else if String.eqb (q_Backend q) "redis" then
       if negb (r_Pool (q_Redis q)) then Panic nil_deref else cursorScanRedisDb fuel q
     else Ret Returned) in
  match e with
  | OutOfFuel => Ret OutOfFuel
  | Returned => let* _ := perform (EWg (-1)) in Ret Returned
  end.

(** The loop of [Listen] that starts the workers [i], [i+1], ... *)
Fixpoint startWorkers (n : nat) (i : Z) : prog unit :=
  match n with
  | O => Ret tt
  | S n' =>
      let* _ := perform (EWg 1) in
      let* _ := perform (EGo (GWorker i)) in
      startWorkers n' (i + 1)
  end.

(** [Listen] *)
Definition Listen (q : Queue) : prog unit :=
  let* _ := startWorkers (Z.to_nat (q_WorkerCount q)) 1 in
  if String.eqb (q_Backend q) "redis" then
    let* _ := perform (EWg 1) in perform (EGo GReaper)
  else Ret tt.

(** [Close]; [mWG] says whether the caller passed a WaitGroup. *)
Definition Close (q : Queue) (mWG : bool) : prog unit :=
  let* _ := perform ECancel in
  if String.eqb (q_Backend q) "redis" then
    let* _ := perform ESetShutdown in
    let* _ := perform (EWaitTimeout (seconds (wrap64 (q_ReaperInterval q + 5)))) in
    if mWG then perform EMDone else Ret tt
  else if String.eqb (q_Backend q) "memory" then
    let* _ := perform ECloseChan in
    perform EWait
  else Ret tt.

End Queue.

(** ** Dispatch to redis *)

Section DispatchRedis.
Context {HS : HandlerSig} {RS : RedisServer} {RG : Redigo} {DB : Database} {EV : Env}.
Context {UT : UnicodeTables} {RL : RedisLaws RS} {GL : RedigoLaws RG}.

(** The job a dispatch at time [t] stores. *)
Definition stored (q : Queue) (id : string) (t : gotime) (job : Job) : Job :=
  let j := prepared id (Format (UTC t)) job in set_Queue (redis_channel q (j_Queue job)) j.

Lemma redis_channel_elem q queue :
  q_QueueChannelDefault q ∈ q_QueueChannels q -> redis_channel q queue ∈ q_QueueChannels q.
Proof.
  intros H. unfold redis_channel. destruct (String.eqb queue EmptyString); [done|].
  cbv zeta. by case_bool_decide.
Qed.

Lemma wp_Dispatch_redis q job id Q w :
  q_Backend q = "redis" -> r_Pool (q_Redis q) = true -> healthy (w_redis w) ->
  uuids (w_uuid w) = Some id ->
  (forall s h,
     let row := stored q id (clock (w_clock w)) job in
     healthy s -> decode h = inr (wire row) ->
     keyspace s = <[stateKey Pending (j_Queue row) id := h]> (keyspace (w_redis w)) ->
     Q (id, None) (put_redis s (put_clock (S (w_clock w)) (put_uuid (S (w_uuid w)) w)))) ->
  wp (Dispatch q job) Q w.
Proof.
  intros Hb Hp Hh Hu H. unfold Dispatch. repeat wp_pure. rewrite Hu. repeat wp_pure. rewrite Hb.
  change (String.eqb "redis" "memory") with false. change (String.eqb "redis" "redis") with true.
  cbv iota. unfold dispatchRedis. rewrite Hp. cbn [negb]. cbv zeta. wp_pure.
  apply wp_hset; [done|]. intros n s Hs Hk. wsimpl in Hk. repeat wp_pure.
  eapply H; [done|apply decode_AddFlat|exact Hk].
Qed.

(** C9: a job dispatched to a reachable redis is stored under a pending key
    of one of the queue's channels and the new id, which is returned. What
    a worker will read is the job with the new id, that channel, the present
    second as its reservation time and status pending, gated on [DispatchAt]
    when given and on the present second otherwise; its name, payload, retry
    settings, counter, lock time, [LockFor] and dates are the caller's. No
    other key, job or goroutine is affected. *)
Theorem Dispatch_redis q job id w :
  q_Backend q = "redis" -> r_Pool (q_Redis q) = true -> healthy (w_redis w) ->
  uuids (w_uuid w) = Some id -> q_QueueChannelDefault q ∈ q_QueueChannels q ->
  wp (Dispatch q job) (fun r w' => exists channel h j,
    r = (id, None) /\ channel ∈ q_QueueChannels q /\
    keyspace (w_redis w') = <[stateKey Pending channel id := h]> (keyspace (w_redis w)) /\
    decode h = inr j /\ j_ID j = id /\ j_Name j = j_Name job /\ j_Queue j = channel /\
    j_ReservedAt j = Format (UTC (clock (w_clock w))) /\ j_Status j = statusPending /\
    j_Retry j = j_Retry job /\ j_RetryCounter j = j_RetryCounter job /\
    j_RetryInSeconds j = j_RetryInSeconds job /\ j_LockFor j = j_LockFor job /\
    j_LockedAt j = j_LockedAt job /\ j_DispatchAt j = j_DispatchAt job /\
    j_CompletedAt j = j_CompletedAt job /\ j_FailedAt j = j_FailedAt job /\
    j_Exception j = j_Exception job /\
    (forall p, j_Payload job = Some p -> j_Payload j = Some p) /\
    j_RetryAfter j = (if String.eqb (j_DispatchAt job) EmptyString
                      then Format (UTC (clock (w_clock w))) else j_DispatchAt job) /\
    w_go w' = w_go w /\ w_pending w' = w_pending w /\ w_sent w' = w_sent w) w.
Proof.
  intros Hb Hp Hh Hu Hd. eapply wp_Dispatch_redis; [done..|]. cbv zeta. intros s h Hs Hdec Hk.
  exists (redis_channel q (j_Queue job)), h, (wire (stored q id (clock (w_clock w)) job)).
  split; [done|]. split; [by apply redis_channel_elem|]. split; [exact Hk|]. split; [exact Hdec|].
  do 14 (split; [done|]). split. { intros p Hpay. cbn. rewrite Hpay. apply wire_payload_Some. }
  split; [|done]. cbn. by destruct (String.eqb (j_DispatchAt job) EmptyString).
Qed.

(** C8: from dispatch to completion, for a handler that succeeds. A job is
    dispatched without a date on a channel without separators, a handler is
    registered under its name that returns nil on its payload, and the clock
    has moved on (strictly) from the reading of the dispatch to the one that
    the visit tests the gate with. Then the next visit of its key completes
    it: the handler is called once, in the worker's process, on the payload
    as it comes out of redis, and the job leaves [pending:] and [locked:] for
    [completed:]. *)
Theorem dispatch_then_visit q job id reg a w :
  q_Backend q = "redis" -> r_Pool (q_Redis q) = true -> healthy (w_redis w) ->
  uuids (w_uuid w) = Some id -> j_DispatchAt job = EmptyString ->
  (forall ch, ch ∈ q_QueueChannels q -> has_byte colon ch = false) ->
  q_QueueChannelDefault q ∈ q_QueueChannels q -> has_byte colon id = false ->
  epoch_ok (clock (w_clock w)) ->
  t_ns (clock (w_clock w)) < t_ns (clock (S (S (w_clock w)))) ->
  lookup_handler (j_Name job) w = Some reg ->
  call_entry (Some reg) (wire_payload (j_Payload job)) w = Some (HOk, a) ->
  let key := stateKey Pending (redis_channel q (j_Queue job)) id in
  wp (let* _ := Dispatch q job in processKey q (RBulk key)) (fun e w' =>
    e = PageDone /\ w_app w' = a /\
    keyspace (w_redis w') !! key = None /\
    keyspace (w_redis w') !! stateKey Locked (redis_channel q (j_Queue job)) id = None /\
    exists h j, keyspace (w_redis w') !! stateKey Completed (redis_channel q (j_Queue job)) id = Some h /\
      decode h = inr j /\ j_ID j = id /\ j_Status j = statusComplete) w.
Proof.
  intros Hb Hp Hh Hu Hdat Hch Hdef Hi Hep Hlt Hl Hcall. cbv zeta.
  set (ch := redis_channel q (j_Queue job)) in *.
  assert (Hcol : has_byte colon ch = false) by (apply Hch, redis_channel_elem, Hdef).
  wp_pure. eapply wp_Dispatch_redis; [done..|]. cbv zeta. intros s h Hs Hdec Hk.
  change (j_Queue (stored q id (clock (w_clock w)) job)) with ch in Hk.
  eapply wp_claim; [exact Hs|done|done|wsimpl; rewrite Hk; apply lookup_insert_eq|exact Hdec|].
  wsimpl. cbv zeta. intros s1 Hs1 Hk1.
  assert (Hra : j_RetryAfter (wire (stored q id (clock (w_clock w)) job)) =
    Format (UTC (clock (w_clock w)))) by (cbn; by rewrite Hdat).
  rewrite Hra, Parse_Format by (by apply epoch_ok_rfc, epoch_ok_UTC). unfold After. cbn [t_ns].
  destruct (Z.ltb_spec (t_ns (UTC (clock (w_clock w))) / Second * Second)
    (t_ns (clock (S (S (w_clock w)))))) as [_|Hge]; [|exfalso; cbn in Hge; unfold Second in *; zlia].
  eapply wp_handle_start; [done|wsimpl; rewrite Hk1; apply lookup_insert_eq|done|].
  wsimpl. intros s2 Hs2 Hk2. unfold call_job.
  set (j1 := claimed_job _ _). change (j_Name j1) with (j_Name job).
  change (j_Payload j1) with (wire_payload (j_Payload job)).
  match goal with |- context [lookup_handler (j_Name job) ?w1] =>
    change (lookup_handler (j_Name job) w1) with (lookup_handler (j_Name job) w) end.
  rewrite Hl. change (call_entry (Some reg) (wire_payload (j_Payload job)) _)
    with (call_entry (Some reg) (wire_payload (j_Payload job)) w). rewrite Hcall.
  eapply wp_completeRedisJob; [done|wsimpl; rewrite Hk2; apply lookup_insert_eq|].
  wsimpl. intros s3 h3 Hs3 Hd3 Hk3. split; [done|]. split; [done|]. wsimpl. rewrite Hk3, Hk2, Hk1, Hk.
  unfold claimed_keys. rewrite delete_insert_eq. split; [|split].
  - by do 4 (first [rewrite lookup_insert_ne by key_ne | rewrite lookup_delete_ne by key_ne
                   | rewrite lookup_delete_eq]).
  - by rewrite lookup_insert_ne, lookup_delete_eq by key_ne.
  - exists h3. eexists. split; [apply lookup_insert_eq|]. split; [exact Hd3|done].
Qed.

End DispatchRedis.

(** ** Dispatch to memory *)

Section DispatchMemory.
Context {HS : HandlerSig} {RS : RedisServer} {RG : Redigo} {DB : Database} {EV : Env}.
Context {UT : UnicodeTables}.

(** The job a memory dispatch at time [t] hands over. *)
Definition offered (q : Queue) (id : string) (t : gotime) (job : Job) : Job :=
  let j := prepared id (Format (UTC t)) job in
  if String.eqb (j_Queue job) EmptyString then set_Queue (q_QueueChannelDefault q) j else j.

Lemma run_dispatchMemory q id t job w :
  run (dispatchMemory q (prepared id (Format (UTC t)) job)) w =
    run (let j := offered q id t job in
         let send :=
           let* _ := perform (EPending 1) in let* _ := perform (ESend j) in Ret (id, None) in
         if negb (String.eqb (j_DispatchAt job) EmptyString) then
           match Parse (j_DispatchAt job) with
           | None => Ret (EmptyString, Some ("queue: invalid DispatchAt " +:+ uni_Quote (j_DispatchAt job)
                       +:+ ": " +:+ time_ParseError (j_DispatchAt job)))
           | Some when =>
               let* now := perform ENow in
               if 0 <? Sub when now then
                 let* _ := perform (EGo (GSend (Sub when now) j)) in Ret (id, None)
               else send
           end
         else send) w.
Proof.
  unfold dispatchMemory, offered. cbv zeta.
  change (j_Queue (prepared id (Format (UTC t)) job)) with (j_Queue job).
  by destruct (String.eqb (j_Queue job) EmptyString).
Qed.

(** C22: a memory dispatch on an open channel has one of three outcomes. A
    date that does not parse is an error and nothing is sent; a date in the
    future starts one goroutine that sleeps for the time left and then
    sends; otherwise the job is counted as pending and handed over at once.
    Only the last changes the pending count. *)
Theorem Dispatch_memory q job id w :
  q_Backend q = "memory" -> uuids (w_uuid w) = Some id -> w_closed w = false ->
  wp (Dispatch q job) (fun r w' =>
    let j := offered q id (clock (w_clock w)) job in
    w_redis w' = w_redis w /\
    match Parse (j_DispatchAt job) with
    | None =>
        if String.eqb (j_DispatchAt job) EmptyString
        then r = (id, None) /\ w_sent w' = w_sent w ++ [j] /\ w_go w' = w_go w /\
             w_pending w' = wrap64 (w_pending w + 1)
        else r.1 = EmptyString /\ is_Some r.2 /\ w_sent w' = w_sent w /\ w_go w' = w_go w /\
             w_pending w' = w_pending w
    | Some when =>
        r = (id, None) /\
        let left := Sub when (clock (S (w_clock w))) in
        if 0 <? left
        then w_go w' = w_go w ++ [GSend left j] /\ w_sent w' = w_sent w /\ w_pending w' = w_pending w
        else w_sent w' = w_sent w ++ [j] /\ w_go w' = w_go w /\ w_pending w' = wrap64 (w_pending w + 1)
    end) w.
Proof.
  intros Hb Hu Hc. unfold Dispatch. repeat wp_pure. rewrite Hu. repeat wp_pure. rewrite Hb.
  change (String.eqb "memory" "memory") with true. cbv iota.
  unfold wp. rewrite run_dispatchMemory. cbv zeta.
  destruct (Parse (j_DispatchAt job)) as [when|] eqn:Hp.
  - destruct (String.eqb_spec (j_DispatchAt job) EmptyString) as [E|]; [by rewrite E in Hp|].
    cbn [negb]. cbn [run pbind perform handle]. wsimpl.
    destruct (0 <? Sub when (clock (S (w_clock w)))); cbn -[wrap64 offered]; [done|]. by rewrite Hc.
  - destruct (String.eqb (j_DispatchAt job) EmptyString); cbn -[wrap64 offered String.append]; [by rewrite Hc|]. eauto 10.
Qed.

(** [DispatchIn] truncates to seconds. The date it stores parses, and
    lies less than a second before the asked moment and never after it; so
    a worker's gate may open up to a second early, and a delay below a
    second asked at a whole second is no delay at all. *)
Lemma DispatchIn_date q job delay id w :
  q_Backend q = "memory" -> uuids (w_uuid w) = Some id -> w_closed w = false ->
  epoch_ok (clock (w_clock w)) -> 0 < delay < two63 ->
  let asked := t_ns (clock (w_clock w)) + delay in
  wp (DispatchIn q job delay) (fun r w' => exists when j,
    r = (id, None) /\ Parse (j_DispatchAt j) = Some when /\ j_RetryAfter j = j_DispatchAt j /\
    asked - Second < t_ns when <= asked /\
    (w_sent w' = w_sent w ++ [j] \/ exists d, w_go w' = w_go w ++ [GSend d j] /\
       d = Sub when (clock (S (S (w_clock w)))))) w.
Proof.
  intros Hb Hu Hc He Hd. cbv zeta. unfold DispatchIn.
  destruct (Z.ltb_spec 0 delay) as [_|]; [|lia]. wp_pure. wp_pure. unfold Dispatch.
  repeat wp_pure. rewrite Hu. repeat wp_pure. rewrite Hb.
  change (String.eqb "memory" "memory") with true. cbv iota.
  set (job' := set_DispatchAt _ job). unfold wp. rewrite run_dispatchMemory. cbv zeta.
  assert (Hp : Parse (j_DispatchAt job') =
    Some (mkTime ((t_ns (clock (w_clock w)) + delay) / Second * Second) 0)).
  { change (j_DispatchAt job') with (Format (Add (UTC (clock (w_clock w))) delay)).
    rewrite Parse_Format; [done|]. apply epoch_ok_Add; [by apply epoch_ok_UTC|].
    unfold in_int64. unfold two63 in *. lia. }
  rewrite Hp. destruct (String.eqb_spec (j_DispatchAt job') EmptyString) as [E|Hne]; [by rewrite E in Hp|].
  cbn [negb]. cbn [run pbind perform handle]. wsimpl.
  assert (Hra : forall t, j_RetryAfter (offered q id t job') = j_DispatchAt job' /\
    j_DispatchAt (offered q id t job') = j_DispatchAt job').
  { intros t. unfold offered, prepared. cbv zeta. apply String.eqb_neq in Hne.
    destruct (String.eqb (j_Queue job') EmptyString); cbn [set_Queue j_RetryAfter j_DispatchAt set_Status
      set_RetryAfter set_ReservedAt set_ID]; rewrite Hne; done. }
  destruct (Hra (clock (S (w_clock w)))) as [Hra1 Hra2].
  set (j := offered _ _ _ _) in *. set (when := mkTime _ _) in *.
  assert (Hw : t_ns (clock (w_clock w)) + delay - Second < t_ns when <= t_ns (clock (w_clock w)) + delay)
    by (cbn; unfold Second; zlia).
  destruct (0 <? Sub when (clock (S (S (w_clock w))))); cbn [run pbind perform handle]; wsimpl;
    [|rewrite Hc; wsimpl]; exists when, j; rewrite Hra1, Hra2; split_and!; try done; try lia; [right|left]; eauto.
Qed.

End DispatchMemory.

(** ** Depth *)

Section DepthFacts.
Context {HS : HandlerSig} {RS : RedisServer} {RG : Redigo} {DB : Database} {EV : Env}.
Context {UT : UnicodeTables} {RL : RedisLaws RS} {GL : RedigoLaws RG}.

Definition depth_pattern (ch : string) : string := Sprintf "queues:%s:pending:*" [ch].

(** The pending keys of a channel. *)
Definition pending_keys (ch : string) (m : keys) : gset string :=
  filter (fun k => HasPrefix k ("queues:" +:+ ch +:+ ":pending:") = true) (dom m).

Lemma star_match_any s : star_match "*" s = true.
Proof. induction s as [|c s IH]; [done|exact IH]. Qed.

Lemma star_match_prefix p s :
  has_byte "*" p = false -> star_match (p +:+ "*") s = HasPrefix s p.
Proof.
  revert s. induction p as [|c p IH]; intros s Hp.
  { rewrite star_match_any. by destruct s. }
  cbn in Hp. apply orb_false_iff in Hp as [Hc Hp].
  change (star_match (String c p +:+ "*")) with (star_match (String c (p +:+ "*"))).
  cbn [star_match]. rewrite Hc. destruct s as [|x s]; [done|]. cbn. by rewrite IH, Ascii.eqb_sym.
Qed.

Lemma depth_pattern_match ch k : has_byte "*" ch = false ->
  star_match (depth_pattern ch) k = HasPrefix k ("queues:" +:+ ch +:+ ":pending:").
Proof.
  intros H. rewrite <- star_match_prefix.
  - unfold depth_pattern. f_equal. cbn. by rewrite append_assoc.
  - by rewrite !has_byte_app, H.
Qed.

(** The loop over the pages of a channel adds up their lengths. *)
Lemma run_depthScan ch fuel s cur pages s' total w :
  scan_pages (depth_pattern ch) 100 s cur pages s' -> w_redis w = s -> (length pages <= fuel)%nat ->
  run (depthScan fuel ch cur total) w =
    (Ok (Some (inr (total + Z.of_nat (length (concat pages))))), put_redis s' w).
Proof.
  intros H. revert fuel total w.
  induction H as [s cur ks s' Hdo|s cur next ks s' rest s'' Hne Hdo _ IH];
    intros fuel total w Hw Hf; (destruct fuel as [|fuel]; [cbn in Hf; lia|]);
    unfold depth_pattern in Hdo; cbn [depthScan run pbind perform handle]; rewrite Hw, Hdo;
    unfold scan_reply; rewrite Values_array, redis_String_bulk, Strings_bulks.
  - cbn [String.eqb]. change (String.eqb "0" "0") with true. cbn. by rewrite app_nil_r.
  - destruct (String.eqb_spec next "0"); [done|]. rewrite IH; [|done|cbn in Hf; lia].
    cbn [concat]. rewrite length_app. do 4 f_equal. lia.
Qed.

Lemma scan_pages_healthy p n s cur pages s' :
  scan_pages p n s cur pages s' -> healthy s -> healthy s' /\ keyspace s' = keyspace s.
Proof.
  induction 1 as [s cur ks s' Hdo|s cur next ks s' rest s'' _ Hdo _ IH]; intros Hh;
    destruct (healthy_do _ _ _ _ Hh Hdo) as (? & Hk & _); cbn in Hk; [done|].
  destruct IH as [? Hk']; [done|]. by rewrite Hk', Hk.
Qed.

Lemma pending_keys_counted ch m l :
  has_byte "*" ch = false ->
  (forall k, k ∈ l <-> is_Some (m !! k) /\ star_match (depth_pattern ch) k = true) ->
  Z.of_nat (size (pending_keys ch m)) <= Z.of_nat (length l).
Proof.
  intros Hs Hl. apply Nat2Z.inj_le. unfold size, set_size. cbn.
  apply submseteq_length. apply NoDup_submseteq; [apply NoDup_elements|].
  intros k. rewrite elem_of_elements. unfold pending_keys. rewrite elem_of_filter, elem_of_dom.
  intros [? ?]. apply Hl. by rewrite depth_pattern_match.
Qed.

Lemma depthChannels_counts chs total w :
  healthy (w_redis w) -> Forall (fun ch => plain_pattern ch = true /\ has_byte "*" ch = false) chs ->
  exists n fuel0, sumZ ((fun ch => Z.of_nat (size (pending_keys ch (keyspace (w_redis w))))) <$> chs) <= n /\
    forall fuel, (fuel0 <= fuel)%nat ->
    wp (depthChannels fuel chs total) (fun r w' => r = Some (inr (total + n)) /\
      healthy (w_redis w') /\ keyspace (w_redis w') = keyspace (w_redis w)) w.
Proof.
  intros Hh Hch. revert total w Hh. induction Hch as [|ch chs [Hpl Hst] _ IH]; intros total w Hh.
  { exists 0, O. split; [done|]. intros fuel _. cbn [depthChannels]. wp_pure. by rewrite Z.add_0_r. }
  destruct (healthy_scan (w_redis w) (depth_pattern ch) 100 Hh) as (pages & s1 & Hsc & Hh1 & Hin).
  { unfold plain_pattern, depth_pattern in *. cbn. rewrite !has_byte_app.
    apply negb_true_iff in Hpl. apply orb_false_iff in Hpl as [Hpl H3].
    apply orb_false_iff in Hpl as [H1 H2]. rewrite H1, H2, H3. done. }
  destruct (scan_pages_healthy _ _ _ _ _ _ Hsc Hh) as [_ Hk1].
  set (n1 := Z.of_nat (length (concat pages))).
  destruct (IH (total + n1) (put_redis s1 w) Hh1) as (n & fuel0 & Hn & Hwp). wsimpl in Hn.
  rewrite Hk1 in Hn. exists (n1 + n), (length pages `max` fuel0)%nat. split.
  { cbn. pose proof (pending_keys_counted ch (keyspace (w_redis w)) (concat pages) Hst Hin).
    unfold n1, sumZ in *. lia. }
  intros fuel Hf. cbn [depthChannels]. apply wp_bind. unfold wp at 1.
  rewrite (run_depthScan ch fuel (w_redis w) "0" pages s1) by (done || lia).
  eapply wp_mono; [|apply Hwp; lia]. wsimpl. intros r w' (-> & ? & ->). rewrite Hk1.
  split; [|done]. do 2 f_equal. lia.
Qed.

(** C23: on a reachable redis, when no configured channel has a character in
    its name that is special in a glob pattern (star, question mark, opening
    bracket, backslash; the name goes into the pattern as it is), [Depth]
    returns a count, without changing any key, that is at least the number
    of pending jobs of the configured channels together: no pending job of
    such channels is missed. (SCAN may report a key twice, so the count may
    be larger.) *)
Theorem Depth_redis q w :
  q_Backend q = "redis" -> r_Pool (q_Redis q) = true -> healthy (w_redis w) ->
  Forall (fun ch => plain_pattern ch = true /\ has_byte "*" ch = false) (q_QueueChannels q) ->
  exists n fuel0,
    sumZ ((fun ch => Z.of_nat (size (pending_keys ch (keyspace (w_redis w))))) <$> q_QueueChannels q) <= n /\
    forall fuel, (fuel0 <= fuel)%nat ->
    wp (Depth fuel q) (fun r w' => r = Some (inr n) /\ keyspace (w_redis w') = keyspace (w_redis w)) w.
Proof.
  intros Hb Hp Hh Hch.
  destruct (depthChannels_counts (q_QueueChannels q) 0 w Hh Hch) as (n & fuel0 & Hn & Hwp).
  exists n, fuel0. split; [done|]. intros fuel Hf. unfold Depth. rewrite Hb, Hp.
  change (String.eqb "redis" "memory") with false. change (String.eqb "redis" "redis") with true.
  cbv iota. cbn [negb]. repeat wp_pure. rewrite healthy_conn by done.
  eapply wp_mono; [|by apply Hwp]. intros r w' (-> & _ & ->). done.
Qed.

End DepthFacts.

(** ** Lifecycle *)

Section Lifecycle.
Context {HS : HandlerSig} {RS : RedisServer} {RG : Redigo} {DB : Database} {EV : Env}.
Context {UT : UnicodeTables}.

Lemma wp_startWorkers n i (Q : unit -> world -> Prop) w :
  0 <= w_wg w ->
  Q tt (put_wg (w_wg w + Z.of_nat n) (put_go (w_go w ++ (GWorker <$> seqZ i (Z.of_nat n))) w)) ->
  wp (startWorkers n i) Q w.
Proof.
  revert i w. induction n as [|n IH]; intros i w Hw HQ; cbn [startWorkers].
  { wp_pure. cbn in HQ. rewrite app_nil_r, Z.add_0_r in HQ. by destruct w. }
  repeat wp_pure. destruct (Z.ltb_spec (w_wg w + 1) 0); [lia|]. repeat wp_pure.
  apply IH; [wsimpl; lia|]. wsimpl.
  replace (w_wg w + 1 + Z.of_nat n) with (w_wg w + Z.of_nat (S n)) by lia.
  rewrite <- app_assoc. cbn [app].
  rewrite (seqZ_cons i (Z.of_nat (S n))) in HQ by lia.
  replace (Z.pred (Z.of_nat (S n))) with (Z.of_nat n) in HQ by lia.
  exact HQ.
Qed.

(** [Listen] starts the workers 1 to [WorkerCount] in this order (none
    when that is negative) and, on the redis backend only, the reaper after
    them; the WaitGroup counts exactly the goroutines started. *)
Lemma Listen_starts q w :
  0 <= w_wg w ->
  wp (Listen q) (fun _ w' =>
    let started := (GWorker <$> seqZ 1 (Z.max 0 (q_WorkerCount q))) ++
                   (if String.eqb (q_Backend q) "redis" then [GReaper] else []) in
    w' = put_wg (w_wg w + Z.of_nat (length started)) (put_go (w_go w ++ started) w)) w.
Proof.
  intros Hw. unfold Listen. wp_pure. apply wp_startWorkers; [done|].
  replace (Z.of_nat (Z.to_nat (q_WorkerCount q))) with (Z.max 0 (q_WorkerCount q)) by lia.
  assert (Hlen : Z.of_nat (length (GWorker <$> seqZ 1 (Z.max 0 (q_WorkerCount q)))) =
    Z.max 0 (q_WorkerCount q)) by (rewrite length_fmap, length_seqZ; lia).
  cbv zeta. rewrite length_app. destruct (String.eqb (q_Backend q) "redis"); repeat wp_pure.
  - destruct (Z.ltb_spec (w_wg w + Z.max 0 (q_WorkerCount q) + 1) 0); [lia|]. repeat wp_pure.
    rewrite Nat2Z.inj_add, Hlen, app_assoc, Z.add_assoc. done.
  - rewrite Nat2Z.inj_add, Hlen, app_nil_r, Z.add_0_r. done.
Qed.

(** Once [systemShutdown] is set a worker of the redis backend and the
    reaper return before their first command. *)
Lemma worker_after_shutdown fuel q id w :
  w_shutdown w = true -> q_Backend q = "redis" -> r_Pool (q_Redis q) = true -> 1 <= w_wg w ->
  run (worker (S fuel) q id) w = (Ok Returned, put_wg (w_wg w - 1) w).
Proof.
  intros Hs Hb Hp Hw. unfold worker. rewrite Hb, Hp. cbn. rewrite Hs. cbn.
  by destruct (Z.ltb_spec (w_wg w + -1) 0); [lia|].
Qed.

(** C38: shutting down one queue shuts down the process. After [Close] on a
    redis queue (which cancels the lifecycle context and tells the caller's
    WaitGroup), every redis queue built later has workers that return
    without sending a command or running a job, although its own lifecycle
    context is live. *)
Theorem Close_stops_later_queues q mWG a cfg q' fuel id w w2 :
  q_Backend q = "redis" -> 1 <= w_wg w ->
  buildQueue a cfg (run (Close q mWG) w).2 = (Ok q', w2) ->
  q_Backend q' = "redis" -> r_Pool (q_Redis q') = true ->
  w_mwg w2 = w_mwg w + (if mWG then 1 else 0) /\ w_cancelled w2 = false /\
  wp (worker (S fuel) q' id) (fun e w' =>
    e = Returned /\ w_redis w' = w_redis w /\ w_app w' = w_app w /\ w_cancelled w' = false) w2.
Proof.
  intros Hb Hw Hbuild Hb' Hp'.
  assert (Hc : exists m, (run (Close q mWG) w).2 = put_mwg m (put_shutdown true (put_cancelled true w)) /\
    m = w_mwg w + (if mWG then 1 else 0)).
  { unfold Close. rewrite Hb. destruct mWG; cbn; eexists; (split; [reflexivity|cbn; lia]). }
  destruct Hc as (m & Hc & Hm). rewrite Hc in Hbuild. unfold buildQueue in Hbuild.
  destruct (make_strings _) as [data|]; [|done]. injection Hbuild as Hq' <-.
  split; [exact Hm|]. split; [done|]. unfold wp.
  rewrite worker_after_shutdown by done. done.
Qed.

(** On the memory backend [Close] does not call [Done] on the caller's
    WaitGroup; when no sender is blocked (they would panic) and the workers
    have returned, it returns, and a retry or delayed dispatch that wakes up afterwards
    panics on the closed channel, as does a dispatch: both have counted the
    job as pending by then. *)
Lemma Close_then_send q mWG d j job id w :
  q_Backend q = "memory" -> w_closed w = false -> w_inbox w = [] -> w_wg w = 0 ->
  uuids (w_uuid w) = Some id -> j_DispatchAt job = EmptyString ->
  wp (Close q mWG) (fun _ w' =>
    w_cancelled w' = true /\ w_mwg w' = w_mwg w /\
    run (detachedSend d j) w' =
      (Panicked "send on closed channel", put_pending (wrap64 (w_pending w' + 1)) w') /\
    (run (Dispatch q job) w').1 = Panicked "send on closed channel" /\
    w_pending (run (Dispatch q job) w').2 = wrap64 (w_pending w + 1)) w.
Proof.
  intros Hb Hc Hin Hw Hu Hd. unfold Close. wp_pure. wp_pure. rewrite Hb.
  change (String.eqb "memory" "redis") with false. change (String.eqb "memory" "memory") with true.
  cbv iota. repeat wp_pure. rewrite Hc, Hin. repeat wp_pure. rewrite Hw. cbn [Z.ltb Z.compare]. wsimpl.
  do 3 (split; [done|]). unfold Dispatch. rewrite !run_bind. cbn [run perform handle]. wsimpl.
  rewrite Hu. cbn [run pbind perform handle]. rewrite Hb.
  change (String.eqb "memory" "memory") with true. cbv iota. rewrite run_dispatchMemory, Hd.
  cbn -[wrap64 offered]. done.
Qed.

End Lifecycle.

(** ** Witnesses *)

Lemma Dispatch_redis_witness :
  wp (Dispatch refQueue refJob) (fun r w' => r = ("id0", None) /\
    is_Some (keyspace (w_redis w') !! "queues:job:pending:id0")) refWorld.
Proof.
  eapply wp_mono; [|apply (Dispatch_redis refQueue refJob "id0"); [reflexivity..|by apply list_elem_of_here]].
  intros r w' (ch & h & j & -> & Hch & -> & _). split; [done|].
  apply list_elem_of_singleton in Hch. subst ch. eexists. apply lookup_insert_eq.
Defined.

Lemma dispatch_then_visit_witness :
  wp (let* _ := Dispatch refQueue refJob in processKey refQueue (RBulk "queues:job:pending:id0"))
    (fun e w' => w_app w' = 1%nat /\ is_Some (keyspace (w_redis w') !! "queues:job:completed:id0"))
    (workWorld [] [("mail", plainHandler HOk)]).
Proof.
  eapply wp_mono; [|apply (dispatch_then_visit refQueue refJob "id0" (plainHandler HOk) 1%nat);
    try reflexivity; [|by apply list_elem_of_here|apply clock_ok]].
  - intros e w' (_ & Ha & _ & _ & h & j & Hk & _). split; [exact Ha|]. by exists h.
  - intros ch Hch. apply list_elem_of_singleton in Hch. by subst ch.
Defined.

Lemma Dispatch_memory_witness :
  wp (Dispatch memQueue refJob) (fun r w' => r = ("id0", None) /\ w_pending w' = 1) (memWorld HOk).
Proof.
  eapply wp_mono; [|apply (Dispatch_memory memQueue refJob "id0"); reflexivity].
  intros r w' (_ & H). cbn in H. destruct H as (-> & _ & _ & Hp). split; [done|exact Hp].
Defined.

Lemma DispatchIn_date_witness :
  wp (DispatchIn memQueue refJob 500000000) (fun r w' => r = ("id0", None)) (memWorld HOk).
Proof.
  eapply wp_mono; [|apply (DispatchIn_date memQueue refJob 500000000 "id0");
    [reflexivity..|apply clock_ok|by vm_compute]].
  intros r w' (when & j & -> & _). done.
Defined.

Lemma Depth_redis_witness :
  exists n fuel, 1 <= n /\ wp (Depth fuel refQueue) (fun r _ => r = Some (inr n)) (pendingWorld refJob HOk).
Proof.
  destruct (Depth_redis refQueue (pendingWorld refJob HOk)) as (n & fuel0 & Hn & H);
    [reflexivity..|by repeat constructor|].
  exists n, fuel0. split; [exact Hn|]. eapply wp_mono; [|apply (H fuel0); done]. by intros r w' [-> _].
Defined.

Definition redisApp : adele := mkAdele "/srv/app" (Some (CacheRedis (Some (true, "app")))) None.
Definition redisConfig : Configuration :=
  mkConfiguration "redis" 1 3 100 ["job"] "job" false EmptyString 1 300 30.

Lemma Close_stops_later_queues_witness :
  exists q' w2, buildQueue (Some redisApp) redisConfig
      (run (Close refQueue true) (put_wg 2 (pendingWorld refJob HOk))).2 = (Ok q', w2) /\
    wp (worker 5 q' 1) (fun e w' => e = Returned /\ w_app w' = 0%nat) w2.
Proof.
  eexists _, _. split; [reflexivity|].
  eapply wp_mono; [|eapply (Close_stops_later_queues refQueue true (Some redisApp) redisConfig _ 4 1
    (put_wg 2 (pendingWorld refJob HOk))); [reflexivity|done|reflexivity..]].
  intros e w' (-> & _ & -> & _). done.
Defined.

Lemma Close_then_send_witness :
  wp (Close memQueue true) (fun _ w' => (run (detachedSend Second refJob) w').1 =
    Panicked "send on closed channel" /\ w_mwg w' = 0) (memWorld HOk).
Proof.
  eapply wp_mono; [|apply (Close_then_send memQueue true Second refJob refJob "id0"); reflexivity].
  intros [] w' (_ & -> & -> & _). done.
Defined.
