(* ===== verification/Provider.v ===== *)
(** * Service provider (provider.go)

    The framework's entry points: configuration from a map of dynamic
    values, registration (construction of the queue) and boot (start of the
    workers). *)

From stdpp Require Import base gmap strings list list_numbers.
From Stdlib Require Import ZArith Lia.
From S2P Require Import Prelude GoString GoTime Types Services Effects RefServices Config Registry Memory Queue.

Open Scope Z_scope.

(** The values of a [map[string]interface{}] that the provider tells apart. *)
Inductive gval :=
| GString (s : string)
| GInt (z : Z)
| GBool (b : bool)
| GStrings (l : list string)
| GOther.

Record ServiceProvider := mkProvider {
  sp_service : option Queue;
  sp_config : Configuration;
  sp_hasConfig : bool;
}.

(** The provider that [init] registers. *)
Definition zeroProvider : ServiceProvider := mkProvider None zeroConfiguration false.

Definition Name : string := "queue".
Definition Priority : Z := 30.
Definition Service (p : ServiceProvider) : option Queue := sp_service p.

(** [if v, ok := config[key].(T); ok { field = v }] for each type. *)
Definition str_or (config : gmap string gval) (key : string) (old : string) : string :=
  match config !! key with Some (GString v) => v | _ => old end.
Definition int_or (config : gmap string gval) (key : string) (old : Z) : Z :=
  match config !! key with Some (GInt v) => v | _ => old end.
Definition bool_or (config : gmap string gval) (key : string) (old : bool) : bool :=
  match config !! key with Some (GBool v) => v | _ => old end.
Definition strs_or (config : gmap string gval) (key : string) (old : list string) : list string :=
  match config !! key with Some (GStrings v) => v | _ => old end.

(** [Configure]; its error is always nil. *)
Definition Configure (config : gmap string gval) (p : ServiceProvider) : ServiceProvider :=
  let c := sp_config p in
  mkProvider (sp_service p)
    (mkConfiguration
       (str_or config "backend" (c_Backend c))
       (int_or config "worker_count" (c_WorkerCount c))
       (int_or config "max_attempts" (c_MaxAttempts c))
       (int_or config "high_water_mark" (c_HighWaterMark c))
       (strs_or config "queue_channels" (c_QueueChannels c))
       (str_or config "queue_channel_default" (c_QueueChannelDefault c))
       (bool_or config "debug" (c_Debug c))
       (str_or config "redis_prefix" (c_RedisPrefix c))
       (int_or config "redis_scan_interval" (c_RedisScanInterval c))
       (int_or config "lock_timeout" (c_LockTimeout c))
       (int_or config "reaper_interval" (c_ReaperInterval c)))
    true.

(** The argument of [Register] and [Boot]: an application (possibly a nil
    pointer) or a value of another type. *)
Inductive app_arg :=
| AppAdele (a : option adele)
| AppOther.

Section Provider.
Context {HS : HandlerSig} {RS : RedisServer} {DB : Database} {EV : Env}.
Context (yaml_Unmarshal : string -> string + Configuration).

(** [New] and [NewWithConfig] of the root package (queue.go). *)
Definition root_New (a : option adele) (d : disk) (w : world) : res (string + Queue) * disk * world :=
  New yaml_Unmarshal a d w.
Definition root_NewWithConfig (a : option adele) (cfg : Configuration) (w : world) : res Queue * world :=
  NewWithConfig a cfg w.

(** [Register]: the error, the provider, the disk and the world. *)
Definition Register (app : app_arg) (p : ServiceProvider) (d : disk) (w : world)
    : res (option string) * ServiceProvider * disk * world :=
  match app with
  | AppOther => (Panicked "interface conversion: interface is not *adele.Adele", p, d, w)
  | AppAdele a =>
      let '(r, d, w) :=
        if sp_hasConfig p then
          match NewWithConfig a (sp_config p) w with
          | (Ok q, w) => (Ok (inr q), d, w)
          | (Panicked m, w) => (Panicked m, d, w)
          end
        else New yaml_Unmarshal a d w in
      match r with
      | Panicked m => (Panicked m, p, d, w)
      | Ok (inl err) => (Ok (Some ("queue: register provider: " +:+ err)), p, d, w)
      | Ok (inr svc) => (Ok None, mkProvider (Some svc) (sp_config p) (sp_hasConfig p), d, w)
      end
  end.

(** [Boot]; its error is always nil. *)
Definition Boot (p : ServiceProvider) : prog unit :=
  match sp_service p with
  | None => Ret tt
  | Some q => Listen q
  end.

(** The goroutines that a queue listens with. *)
Definition listeners (q : Queue) : list goroutine :=
  (GWorker <$> seqZ 1 (Z.max 0 (q_WorkerCount q))) ++
  (if String.eqb (q_Backend q) "redis" then [GReaper] else []).

(** C33: the provider's life. Configured with a map whose high water mark
    (or its default) is not negative and at most 2 to the power of 44 (a
    negative one panics in make), it registers a queue without touching the disk and boots exactly its workers (and reaper):
    the count is the map's, when that has one of the right type, and one
    otherwise. Boot before registration starts nothing. *)
Theorem provider_lifecycle config a d w :
  let p := Configure config zeroProvider in
  let c := setConfigDefaults (sp_config p) in
  0 <= c_HighWaterMark c <= 17592186044416 -> 0 <= w_wg w ->
  run (Boot p) w = (Ok tt, w) /\
  exists q w1, Register (AppAdele a) p d w = (Ok None, mkProvider (Some q) (sp_config p) true, d, w1) /\
    q_WorkerCount q = or_default (int_or config "worker_count" 0) 1 /\
    wp (Boot (mkProvider (Some q) (sp_config p) true)) (fun _ w2 =>
      w_go w2 = w_go w ++ listeners q) w1.
Proof.
  cbv zeta. intros Hh Hw. split; [done|].
  assert (Hb : exists q, NewWithConfig a (sp_config (Configure config zeroProvider)) w = (Ok q, fresh [] w) /\
    q_WorkerCount q = or_default (int_or config "worker_count" 0) 1).
  { unfold NewWithConfig, buildQueue, make_strings.
    destruct (Z.ltb_spec (c_HighWaterMark (setConfigDefaults (sp_config (Configure config zeroProvider)))) 0);
      [lia|].
    destruct (Z.ltb_spec maxAlloc
      (c_HighWaterMark (setConfigDefaults (sp_config (Configure config zeroProvider))) * 16));
      [unfold maxAlloc in *; lia|].
    cbn [orb]. eexists. split; reflexivity. }
  destruct Hb as (q & Hq & Hwc). exists q, (fresh [] w). unfold Register.
  change (sp_hasConfig (Configure config zeroProvider)) with true. rewrite Hq.
  split; [done|]. split; [done|]. unfold Boot. cbn [sp_service].
  eapply wp_mono; [|by apply Listen_starts]. intros [] w2 ->. done.
Qed.

End Provider.

(** ** Witness *)

Lemma provider_lifecycle_witness :
  exists q w1, Register refYaml (AppAdele None) (Configure {["worker_count" := GInt 3]} zeroProvider)
      emptyDisk refWorld =
      (Ok None, mkProvider (Some q) (sp_config (Configure {["worker_count" := GInt 3]} zeroProvider)) true,
       emptyDisk, w1) /\ q_WorkerCount q = 3.
Proof.
  destruct (provider_lifecycle refYaml {["worker_count" := GInt 3]} None emptyDisk refWorld)
    as (_ & q & w1 & Hr & Hq & _); [vm_compute; split; discriminate|done|].
  exists q, w1. split; [exact Hr|exact Hq].
Defined.
