(* ===== verification/Concurrency.v ===== *)
(** * Interleavings

    Goroutines run effect by effect in any order: a pool is a list of
    programs over one shared world. A send and a receive on the unbuffered
    channel meet in one step; a wait blocks until its WaitGroup is at zero;
    a panic ends the process, so it has no successor. *)

From stdpp Require Import base gmap strings list relations.
From Stdlib Require Import ZArith Lia.
From S2P Require Import Prelude GoString GoTime Types Services Effects RefServices Redis RedisScan Reaper ReaperTick Registry Memory Queue.

Open Scope Z_scope.

Section Pool.
Context {HS : HandlerSig} {RS : RedisServer} {DB : Database} {EV : Env}.

Definition pool : Type := list (prog unit) * world.

(** The effects a goroutine performs without the help of another one. *)
Definition solo (e : eff) : bool :=
  match e with ESend _ | ERecv | EGo _ => false | _ => true end.

Inductive step (spawn : goroutine -> prog unit) : pool -> pool -> Prop :=
| step_eff ts w i e k r w' :
    ts !! i = Some (Op e k) -> solo e = true -> handle e w = (Ok r, w') ->
    step spawn (ts, w) (<[i := k r]> ts, w')
| step_go ts w i g k :
    ts !! i = Some (Op (EGo g) k) ->
    step spawn (ts, w) (<[i := k tt]> ts ++ [spawn g], w)
| step_comm ts w i j x k k' :
    i <> j -> w_closed w = false ->
    ts !! i = Some (Op (ESend x) k) -> ts !! j = Some (Op ERecv k') ->
    step spawn (ts, w) (<[j := k' (Some x)]> (<[i := k tt]> ts), w)
| step_closed ts w i k :
    w_closed w = true -> ts !! i = Some (Op ERecv k) ->
    step spawn (ts, w) (<[i := k None]> ts, w).

(** Every effect of a program satisfies [P], whatever the answers. *)
Fixpoint emits {A} (P : eff -> Prop) (p : prog A) : Prop :=
  match p with
  | Ret _ | Panic _ => True
  | Op e k => P e /\ forall r, emits P (k r)
  end.

Lemma emits_bind {A B} P (p : prog A) (f : A -> prog B) :
  emits P p -> (forall a, emits P (f a)) -> emits P (pbind p f).
Proof.
  intros Hp Hf. induction p as [a|m|e k IH]; cbn in *; [done|done|].
  destruct Hp as [He Hk]. split; [done|]. intros r. by apply IH.
Qed.

End Pool.

(** Proofs of [emits] by the shape of the program. *)
Ltac emit := repeat first
  [ progress (intros; cbv beta zeta)
  | lazymatch goal with
    | |- emits _ (Ret _) => exact I
    | |- emits _ (Panic _) => exact I
    | |- emits _ (perform _) => split; [|intros ?; exact I]
    | |- emits _ (pbind _ _) => apply emits_bind
    | |- emits _ (match ?x with _ => _ end) => destruct x eqn:?
    end ].

(** ** The pending count of the memory backend *)

Section Pending.
Context {HS : HandlerSig} {RS : RedisServer} {RG : Redigo} {DB : Database} {EV : Env}.
Context {UT : UnicodeTables}.

(** [held Q h p]: a goroutine that accounts for [h] (zero or one) pending
    jobs can run [p] and account for a number that satisfies [Q] when it
    returns. Adding to the count takes a job on, a send passes it to the
    receiver, a receive takes it over. *)
Fixpoint held {A} (Q : A -> Z -> Prop) (h : Z) (p : prog A) : Prop :=
  0 <= h <= 1 /\
  match p with
  | Ret a => Q a h
  | Panic _ => True
  | Op e k =>
      match e as e return (resp e -> prog A) -> Prop with
      | EPending d => fun k => held Q (h + d) (k tt)
      | ESend _ => fun k => h = 1 /\ held Q 0 (k tt)
      | ERecv => fun k => h = 0 /\ held Q 0 (k None) /\ forall j, held Q 1 (k (Some j))
      | _ => fun k => forall r, held Q h (k r)
      end k
  end.

Lemma held_range {A} Q h (p : prog A) : held Q h p -> 0 <= h <= 1.
Proof. destruct p; cbn; tauto. Qed.

Lemma held_bind {A B} Q h (p : prog A) (f : A -> prog B) :
  held (fun a h' => held Q h' (f a)) h p -> held Q h (pbind p f).
Proof.
  revert h. induction p as [a|m|e k IH]; intros h; cbn [held pbind]; [tauto|done|].
  intros [Hh H]. split; [done|]. destruct e; try (intros r; by apply IH).
  - by apply IH.
  - destruct H. split; [done|]. by apply IH.
  - destruct H as (? & ? & ?). split; [done|]. split; [by apply IH|]. intros j. by apply IH.
Qed.

Lemma held_mono {A} (Q R : A -> Z -> Prop) h (p : prog A) :
  (forall a h', Q a h' -> R a h') -> held Q h p -> held R h p.
Proof.
  intros HQ. revert h. induction p as [a|m|e k IH]; intros h; cbn [held].
  { intros [Hh H]. split; [done|by apply HQ]. }
  { done. }
  intros [Hh H]. split; [done|]. destruct e; try (intros r; by apply IH).
  - by apply IH.
  - destruct H. split; [done|]. by apply IH.
  - destruct H as (? & ? & ?). split; [done|]. split; [by apply IH|]. intros j. by apply IH.
Qed.

(** Effects that have no part in the count. *)
Definition quiet (e : eff) : Prop :=
  match e with EPending _ | ESend _ | ERecv => False | _ => True end.

Lemma held_quiet {A} h (p : prog A) :
  0 <= h <= 1 -> emits quiet p -> held (fun _ h' => h' = h) h p.
Proof.
  intros Hh. induction p as [a|m|e k IH]; cbn [held emits]; [done|done|].
  intros [He Hk]. split; [done|]. destruct e; try done; intros r; by apply IH.
Qed.

Lemma held_quiet_bind {A B} Q h (p : prog A) (f : A -> prog B) :
  0 <= h <= 1 -> emits quiet p -> (forall a, held Q h (f a)) -> held Q h (pbind p f).
Proof.
  intros Hh Hp Hf. apply held_bind. eapply held_mono; [|by apply held_quiet].
  intros a h' ->. apply Hf.
Qed.

(** A finished goroutine accounts for nothing. *)
Definition settled {A} (_ : A) (h : Z) : Prop := h = 0.

Lemma runHandler_quiet q j : emits quiet (runHandler q j).
Proof.
  unfold runHandler, call_handler, addFailedJob, addCompletedJob. emit; done.
Qed.

Lemma memoryStep_held q j : held settled 1 (memoryStep q j).
Proof.
  unfold memoryStep. apply held_quiet_bind; [lia| |intros r].
  { destruct (j_Handler j); [done|]. unfold hasRegisteredHandler. emit; done. }
  apply held_quiet_bind; [lia|destruct r; [apply runHandler_quiet|done]|].
  intros _. cbn. split; [lia|]. by split; [lia|].
Qed.

Lemma memoryLoop_held fuel q : held settled 0 (memoryLoop fuel q).
Proof.
  induction fuel as [|fuel IH]; cbn [memoryLoop]; [by split; [lia|]|].
  cbn [pbind perform held]. split; [lia|]. split; [done|]. split; [by split; [lia|]|].
  intros j. apply held_bind. eapply held_mono; [|apply memoryStep_held].
  by intros [] h' ->.
Qed.

Lemma detachedSend_held d j : held settled 0 (detachedSend d j).
Proof.
  unfold detachedSend. cbn. split; [lia|]. intros _. split; [lia|]. split; [lia|]. split; [lia|].
  by split; [lia|].
Qed.

Lemma Dispatch_held q job : q_Backend q = "memory" -> held settled 0 (Dispatch q job).
Proof.
  intros Hb. unfold Dispatch. apply held_quiet_bind; [lia|by split|]. intros [id|]; [|by split; [lia|]].
  apply held_quiet_bind; [lia|by split|]. intros t. cbv zeta. rewrite Hb.
  change (String.eqb "memory" "memory") with true. cbv iota. unfold dispatchMemory. cbv zeta.
  set (j := if String.eqb _ _ then _ else _).
  assert (Hsend : held settled 0 (let* _ := perform (EPending 1) in
    let* _ := perform (ESend j) in Ret (j_ID j, @None string))).
  { cbn. split; [lia|]. split; [lia|]. split; [lia|]. by split; [lia|]. }
  destruct (negb (String.eqb (j_DispatchAt j) EmptyString)); [|exact Hsend].
  destruct (Parse (j_DispatchAt j)); [|by split; [lia|]].
  apply held_quiet_bind; [lia|by split|]. intros now.
  destruct (0 <? Sub _ now); [|exact Hsend].
  apply held_quiet_bind; [lia|by split|]. intros _. by split; [lia|].
Qed.

Lemma Depth_quiet fuel q : emits quiet (Depth fuel q).
Proof.
  assert (Hs : forall n ch cur total, emits quiet (depthScan n ch cur total)).
  { induction n as [|n IH]; intros ch cur total; cbn [depthScan]; emit; done || apply IH. }
  assert (Hc : forall chs total, emits quiet (depthChannels fuel chs total)).
  { induction chs as [|ch chs IH]; intros total; cbn [depthChannels]; emit; done || apply Hs || apply IH. }
  unfold Depth. emit; done || apply Hc.
Qed.

Lemma Listen_quiet q : emits quiet (Listen q).
Proof.
  assert (Hs : forall n i, emits quiet (startWorkers n i)).
  { induction n as [|n IH]; intros i; cbn [startWorkers]; emit; done || apply IH. }
  unfold Listen. emit; done || apply Hs.
Qed.

Lemma Close_quiet q b : emits quiet (Close q b).
Proof. unfold Close. emit; done. Qed.

Lemma setRedisKey_quiet c queue id a b : emits quiet (setRedisKey c queue id a b).
Proof. unfold setRedisKey. emit; done. Qed.

Lemma reapKey_quiet q v t : emits quiet (reapKey q v t).
Proof.
  unfold reapKey, requeueExpiredLock, getRedisValue. emit; done || apply setRedisKey_quiet.
Qed.

Lemma reapStaleLocks_quiet fuel n q : emits quiet (reapStaleLocks fuel n q).
Proof.
  assert (Hp : forall data t, emits quiet (reapPage q data t)).
  { induction data as [|v data IH]; intros t; cbn [reapPage]; emit; done || apply reapKey_quiet || apply IH. }
  assert (Hs : forall m c t, emits quiet (reapScan m q c t)).
  { induction m as [|m IH]; intros c t; cbn [reapScan]; emit; done || apply Hp || apply IH. }
  assert (Hl : forall m, emits quiet (reaperLoop m n q)).
  { induction m as [|m IH]; cbn [reaperLoop]; unfold runReaperTick; emit; done || apply Hs || apply IH. }
  unfold reapStaleLocks. emit; done || apply Hl.
Qed.

(** ** Pools of a queue *)

(** The program of a goroutine that the package starts. *)
Definition goroutine_prog (fuel : nat) (q : Queue) (g : goroutine) : prog unit :=
  match g with
  | GSend d j => detachedSend d j
  | GWorker id => let* _ := worker fuel q id in Ret tt
  | GReaper =>
      let* e := reapStaleLocks fuel fuel q in
      match e with Returned => perform (EWg (-1)) | OutOfFuel => Ret tt end
  end.

(** The calls of an application's goroutine on a queue. *)
Inductive call :=
| CListen
| CDispatch (j : Job)
| CDispatchIn (j : Job) (d : Duration)
| CDepth
| CClose (mWG : bool).

Definition call_prog (fuel : nat) (q : Queue) (c : call) : prog unit :=
  match c with
  | CListen => Listen q
  | CDispatch j => let* _ := Dispatch q j in Ret tt
  | CDispatchIn j d => let* _ := DispatchIn q j d in Ret tt
  | CDepth => let* _ := Depth fuel q in Ret tt
  | CClose b => Close q b
  end.

Fixpoint client (fuel : nat) (q : Queue) (cs : list call) : prog unit :=
  match cs with
  | [] => Ret tt
  | c :: cs' => let* _ := call_prog fuel q c in client fuel q cs'
  end.

Lemma held_settle {A} (p : prog A) : held settled 0 p -> held settled 0 (let* _ := p in Ret tt).
Proof.
  intros H. apply held_bind. eapply held_mono; [|exact H]. intros a h' ->. by split; [lia|].
Qed.

Lemma goroutine_held fuel q g : q_Backend q = "memory" -> held settled 0 (goroutine_prog fuel q g).
Proof.
  intros Hb. destruct g as [d j|id|]; cbn [goroutine_prog].
  - apply detachedSend_held.
  - apply held_settle. unfold worker. rewrite Hb.
    change (String.eqb "memory" "memory") with true. cbv iota.
    apply held_bind, held_bind. eapply held_mono; [|apply memoryLoop_held].
    intros [] h' ->; (split; [lia|]); [|done]. cbn. split; [lia|]. intros _. by split; [lia|].
  - apply held_quiet_bind; [lia|apply reapStaleLocks_quiet|]. intros []; by split; [lia|].
Qed.

Lemma client_held fuel q cs : q_Backend q = "memory" -> held settled 0 (client fuel q cs).
Proof.
  intros Hb. induction cs as [|c cs IH]; cbn [client]; [by split; [lia|]|].
  apply held_bind. eapply held_mono with (Q := settled); [by intros [] h' ->|].
  destruct c as [|j|j d| |b]; cbn [call_prog].
  - apply held_quiet; [lia|apply Listen_quiet].
  - apply held_settle. by apply Dispatch_held.
  - apply held_settle. unfold DispatchIn. destruct (0 <? d); [|by apply Dispatch_held].
    apply held_quiet_bind; [lia|by split|]. intros now. by apply Dispatch_held.
  - apply held_settle. apply held_quiet; [lia|apply Depth_quiet].
  - apply held_quiet; [lia|apply Close_quiet].
Qed.

(** ** The invariant *)

Definition counted (P : pool) : Prop :=
  exists hs, Forall2 (held settled) hs P.1 /\ w_pending P.2 = wrap64 (sumZ hs).

Lemma handle_quiet e w r w' :
  quiet e -> handle e w = (Ok r, w') -> w_pending w' = w_pending w.
Proof.
  destruct e; cbn; intros Hq H; try done; repeat case_match; simplify_eq/=; done.
Qed.

Lemma counted_update hs (ts : list (prog unit)) i t h t' h' :
  Forall2 (held settled) hs ts -> hs !! i = Some h -> ts !! i = Some t -> held settled h' t' ->
  Forall2 (held settled) (<[i := h']> hs) (<[i := t']> ts) /\
  sumZ (<[i := h']> hs) = sumZ hs - h + h'.
Proof. intros H Hh Ht Ht'. split; [by apply Forall2_insert|by apply sumZ_insert]. Qed.

Lemma step_counted spawn P P' :
  (forall g, held settled 0 (spawn g)) -> step spawn P P' -> counted P -> counted P'.
Proof.
  intros Hsp Hs (hs & Hall & Hp). destruct Hs as [ts w i e k r w' Hi Hso Hh|ts w i g k Hi
    |ts w i j x k k' Hij Hc Hi Hj|ts w i k Hc Hi]; cbn [fst snd] in *;
    (destruct (Forall2_lookup_r _ _ _ _ _ Hall Hi) as (h & Hhi & Hheld); cbn [held] in Hheld;
     destruct Hheld as [Hr Hheld]).
  - assert (Hc : quiet e /\ held settled h (k r) \/ exists d, e = EPending d)
      by (destruct e; try discriminate Hso; 
        first [left; split; [exact I|apply Hheld]|right; eauto]).
    destruct Hc as [[Hq Hk]|[d ->]].
    + destruct (counted_update _ _ _ _ _ _ _ Hall Hhi Hi Hk) as [H1 H2].
      exists (<[i := h]> hs). split; [exact H1|]. cbn. rewrite (handle_quiet _ _ _ _ Hq Hh), Hp. f_equal. lia.
    + cbn in Hh. injection Hh as <- <-.
      destruct (counted_update _ _ _ _ _ _ _ Hall Hhi Hi Hheld) as [H1 H2].
      exists (<[i := h + d]> hs). split; [exact H1|]. cbn. rewrite Hp, wrap64_add_l. f_equal. lia.
  - destruct (counted_update _ _ _ _ _ _ _ Hall Hhi Hi (Hheld tt)) as [H1 H2].
    exists (<[i := h]> hs ++ [0]). split; [apply Forall2_app; [exact H1|by constructor]|].
    cbn. rewrite Hp, sumZ_app. cbn. f_equal. lia.
  - destruct Hheld as [-> Hk].
    destruct (counted_update _ _ _ _ _ _ _ Hall Hhi Hi Hk) as [H1 H2].
    destruct (Forall2_lookup_r _ _ _ _ _ Hall Hj) as (h & Hhj & [_ (-> & _ & Hk')]).
    assert (Hhj' : <[i := 0]> hs !! j = Some 0) by (by rewrite list_lookup_insert_ne).
    assert (Hj' : <[i := k tt]> ts !! j = Some (Op ERecv k')) by (by rewrite list_lookup_insert_ne).
    destruct (counted_update _ _ _ _ _ _ _ H1 Hhj' Hj' (Hk' x)) as [H3 H4].
    exists (<[j := 1]> (<[i := 0]> hs)). split; [exact H3|]. cbn. rewrite Hp. f_equal. lia.
  - destruct Hheld as (-> & Hk & _).
    destruct (counted_update _ _ _ _ _ _ _ Hall Hhi Hi Hk) as [H1 H2].
    exists (<[i := 0]> hs). split; [exact H1|]. cbn. rewrite Hp. f_equal. lia.
Qed.

Lemma steps_counted spawn P P' :
  (forall g, held settled 0 (spawn g)) -> rtc (step spawn) P P' -> counted P -> counted P'.
Proof. intros Hsp. induction 1; [done|]. intros Hc. by eauto using step_counted. Qed.

Lemma held_sum hs (ts : list (prog unit)) :
  Forall2 (held settled) hs ts -> 0 <= sumZ hs <= Z.of_nat (length ts).
Proof.
  induction 1 as [|h t hs ts H _ IH]; [done|]. apply held_range in H.
  change (sumZ (h :: hs)) with (h + sumZ hs). cbn [length]. lia.
Qed.

(** C7: the pending count of a memory queue is exact under concurrency. Let
    any number of application goroutines listen, dispatch at once or later,
    read the depth and close, and let workers, retries and delayed sends
    interleave with them in any way. At every moment the count is the number
    of goroutines that are about to hand over or are working on a job: it is
    never negative, and zero when all goroutines are done. *)
Theorem pending_count_exact fuel q apps w ts w' :
  q_Backend q = "memory" -> w_pending w = 0 ->
  rtc (step (goroutine_prog fuel q)) (client fuel q <$> apps, w) (ts, w') ->
  Z.of_nat (length ts) < two63 ->
  exists hs, Forall2 (held settled) hs ts /\ w_pending w' = sumZ hs /\
    0 <= w_pending w' <= Z.of_nat (length ts) /\
    (Forall (fun t => t = Ret tt) ts -> w_pending w' = 0).
Proof.
  intros Hb Hw Hs Hlen.
  assert (H0 : counted (client fuel q <$> apps, w)).
  { exists (replicate (length apps) 0). split.
    - cbn. apply Forall2_same_length_lookup. split; [by rewrite length_replicate, length_fmap|].
      intros i h t [-> _]%lookup_replicate Ht. apply list_lookup_fmap_Some in Ht as (cs & -> & _).
      by apply client_held.
    - cbn. rewrite Hw. replace (sumZ (replicate (length apps) 0)) with 0; [done|].
      induction (length apps); [done|]. done. }
  destruct (steps_counted _ _ _ (fun g => goroutine_held fuel q g Hb) Hs H0) as (hs & Hall & Hp).
  cbn [fst snd] in *. pose proof (held_sum hs ts Hall) as Hsum.
  rewrite wrap64_id in Hp by (unfold in_int64, two63 in *; lia).
  exists hs. split; [done|]. split; [done|]. split; [lia|]. intros Hdone. rewrite Hp.
  clear -Hall Hdone. induction Hall as [|h t hs ts Hh _ IH]; [done|]. apply Forall_cons in Hdone as [-> Hts].
  cbn [held] in Hh.
  destruct Hh as [_ Hh]. unfold settled in Hh. subst h. cbn. by apply IH.
Qed.

End Pending.

(** ** Workers and dispatchers on redis *)

(** Commands that keep every job of the keyspace and every completed or
    failed one: all but a DEL, and renames of a pending or locked key to
    another state of the same job. *)
Definition safe_cmd (c : cmd) : Prop :=
  match c with
  | DEL _ => False
  | RENAME a b => exists st st' queue id,
      has_byte colon queue = false /\ has_byte colon id = false /\ terminal st = false /\
      a = stateKey st queue id /\ b = stateKey st' queue id
  | _ => True
  end.

Lemma keeps_rename (m : keys) queue id st st' h :
  has_byte colon queue = false -> has_byte colon id = false -> terminal st = false ->
  keeps m (<[stateKey st' queue id := h]> (delete (stateKey st queue id) m)).
Proof.
  intros Hq Hi Ht queue' id' Hq' Hi'.
  assert (Hother : forall st0, (st0, queue', id') <> (st, queue, id) ->
    is_Some (m !! stateKey st0 queue' id') ->
    is_Some (<[stateKey st' queue id := h]> (delete (stateKey st queue id) m) !! stateKey st0 queue' id')).
  { intros st0 Hne Hs. rewrite lookup_insert. case_decide; [by eexists|].
    rewrite lookup_delete_ne; [done|]. intros E. apply stateKey_inj in E as (-> & -> & ->); done. }
  split.
  - intros [st0 Hs]. destruct (decide ((st0, queue', id') = (st, queue, id))) as [[= -> -> ->]|Hne].
    + exists st'. rewrite lookup_insert_eq. by eexists.
    + exists st0. by apply Hother.
  - intros st0 Ht0. apply Hother. intros [= -> _ _]. congruence.
Qed.

Lemma safe_keeps c m : safe_cmd c -> keeps m (exec_keys c m).
Proof.
  destruct c as [| | |a b| |]; cbn; intros H; try done; [apply keeps_insert|].
  destruct H as (st & st' & queue & id & Hq & Hi & Ht & -> & ->).
  destruct (m !! stateKey st queue id); [by apply keeps_rename|done].
Qed.

(** ** What the redis programs send

    The predicates on effects below hold of every effect other than a
    command or a go statement, of commands that only read, of HSET on a
    pending or locked key and of the renames of the life of a job. They then
    hold of everything that workers and dispatchers do. *)
Definition moves (st st' : jstate) : bool :=
  match st, st' with
  | Pending, Locked | Locked, Pending | Locked, Completed | Locked, Failed => true
  | _, _ => false
  end.

Definition reads (c : cmd) : bool :=
  match c with SCAN _ _ _ | HGETALL _ | EXISTS _ => true | _ => false end.

Section Sent.
Context {HS : HandlerSig} {RS : RedisServer} {RG : Redigo} {DB : Database} {EV : Env}.
Context {UT : UnicodeTables}.

Definition plain_eff (e : eff) : Prop :=
  match e with EDo _ | EGo _ => False | _ => True end.

Record allows (P : eff -> Prop) : Prop := {
  allows_plain e : plain_eff e -> P e;
  allows_read c : reads c = true -> P (EDo c);
  allows_put st queue id fs :
    st = Pending \/ st = Locked -> P (EDo (HSET (stateKey st queue id) fs));
  allows_move st st' queue id :
    has_byte colon queue = false -> has_byte colon id = false -> moves st st' = true ->
    P (EDo (RENAME (stateKey st queue id) (stateKey st' queue id)));
}.

Context (P : eff -> Prop) (HP : allows P).

(** Effects that [allows] decides by their shape. *)
Ltac allowed_eff := first
  [ done
  | by apply (allows_plain P HP)
  | by apply (allows_read P HP)
  | by apply (allows_put P HP Pending); left
  | by apply (allows_put P HP Locked); right ].

Lemma setRedisKey_sent conn queue id st st' :
  has_byte colon queue = false -> has_byte colon id = false -> moves st st' = true ->
  emits P (setRedisKey conn queue id (stateFormat st) (stateFormat st')).
Proof.
  intros Hq Hi Ht. unfold setRedisKey. emit; try done. by apply (allows_move P HP).
Qed.

Lemma handleRedisJob_sent q queue j id :
  has_byte colon queue = false -> has_byte colon id = false ->
  emits P (handleRedisJob q queue j id).
Proof.
  intros Hq Hi. unfold handleRedisJob, run_registered, completeRedisJob, requeueRedisJob,
    failRedisJob, retry_gate. emit; try allowed_eff.
  - by apply (setRedisKey_sent true queue id Locked Completed).
  - by apply (setRedisKey_sent true queue id Locked Failed).
Qed.

Lemma processKey_sent q v : emits P (processKey q v).
Proof.
  unfold processKey, getRedisValue. cbv zeta.
  destruct (from_end (Split (bulk_bytes v) colon) 1) as [id|] eqn:Hi; [|done].
  destruct (from_end (Split (bulk_bytes v) colon) 3) as [queue|] eqn:Hq; [|done].
  apply from_end_piece in Hi, Hq. emit; try allowed_eff.
  - by apply (setRedisKey_sent true queue id Pending Locked).
  - by apply (setRedisKey_sent true queue id Locked Pending).
  - by apply handleRedisJob_sent.
Qed.

Lemma worker_sent fuel q id : q_Backend q = "redis" -> emits P (worker fuel q id).
Proof.
  intros Hb. unfold worker. rewrite Hb. change (String.eqb "redis" "memory") with false.
  change (String.eqb "redis" "redis") with true. cbv iota.
  assert (Hp : forall data, emits P (processPage q data)).
  { induction data as [|v data IH]; cbn [processPage]; emit; done || apply processKey_sent || apply IH. }
  assert (Hs : forall n c, emits P (scanLoop n q c)).
  { induction n as [|n IH]; intros c; cbn [scanLoop]; emit; allowed_eff || apply Hp || apply IH. }
  emit; allowed_eff || apply Hs.
Qed.

(** Application calls other than [Listen]. *)
Definition no_listen (c : call) : Prop := match c with CListen => False | _ => True end.

Lemma Dispatch_sent q j : q_Backend q = "redis" -> emits P (Dispatch q j).
Proof.
  intros Hb. unfold Dispatch, dispatchRedis. rewrite Hb.
  change (String.eqb "redis" "memory") with false. change (String.eqb "redis" "redis") with true.
  cbv iota. emit; allowed_eff.
Qed.

Lemma Depth_sent fuel q : emits P (Depth fuel q).
Proof.
  assert (Hs : forall n ch cur total, emits P (depthScan n ch cur total)).
  { induction n as [|n IH]; intros ch cur total; cbn [depthScan]; emit; allowed_eff || apply IH. }
  assert (Hc : forall chs total, emits P (depthChannels fuel chs total)).
  { induction chs as [|ch chs IH]; intros total; cbn [depthChannels]; emit; done || apply Hs || apply IH. }
  unfold Depth. emit; allowed_eff || apply Hc.
Qed.

Lemma call_sent fuel q c : q_Backend q = "redis" -> no_listen c -> emits P (call_prog fuel q c).
Proof.
  intros Hb Hc. destruct c as [|j|j d| |b]; [done|..]; cbn [call_prog].
  - apply emits_bind; [by apply Dispatch_sent|done].
  - apply emits_bind; [|done]. unfold DispatchIn. destruct (0 <? d); [|by apply Dispatch_sent].
    apply emits_bind; [split; [allowed_eff|done]|]. intros. by apply Dispatch_sent.
  - apply emits_bind; [apply Depth_sent|done].
  - unfold Close. emit; allowed_eff.
Qed.

End Sent.

Section Redis.
Context {HS : HandlerSig} {RS : RedisServer} {RG : Redigo} {DB : Database} {EV : Env}.
Context {UT : UnicodeTables} {RL : RedisLaws RS}.

Definition safe_eff (e : eff) : Prop :=
  match e with EDo c => safe_cmd c | EGo _ => False | _ => True end.

Lemma allows_safe : allows safe_eff.
Proof.
  split.
  - by intros [].
  - by intros [].
  - done.
  - intros st st' queue id Hq Hi Hm. exists st, st', queue, id. split_and!; try done. by destruct st, st'.
Qed.

Lemma client_safe fuel q cs :
  q_Backend q = "redis" -> Forall no_listen cs -> emits safe_eff (client fuel q cs).
Proof.
  intros Hb Hcs. induction Hcs as [|c cs Hc _ IH]; cbn [client]; [done|].
  apply emits_bind; [|done]. apply call_sent; [apply allows_safe|done..].
Qed.

(** A step of a pool of safe programs keeps every job. *)
Lemma step_safe spawn P P' :
  step spawn P P' -> Forall (emits safe_eff) P.1 ->
  Forall (emits safe_eff) P'.1 /\ keeps (keyspace (w_redis P.2)) (keyspace (w_redis P'.2)).
Proof.
  intros Hs Hall. assert (Hget : forall i t, P.1 !! i = Some t -> emits safe_eff t)
    by (intros i t Hi; rewrite Forall_lookup in Hall; eauto).
  destruct Hs as [ts w i e k r w' Hi Hso Hh|ts w i g k Hi|ts w i j x k k' Hij Hc Hi Hj|ts w i k Hc Hi];
    cbn [fst snd] in *; pose proof (Hget _ _ Hi) as [He Hk].
  - split; [by apply Forall_insert|].
    destruct e; try (cbn in Hh; repeat case_match; simplify_eq/=; done).
    cbn in Hh. destruct (redis_do c (w_redis w)) as [rep s'] eqn:Hdo. injection Hh as _ <-. wsimpl.
    destruct (do_effect _ _ _ _ Hdo) as [->| ->]; [done|by apply safe_keeps].
  - done.
  - pose proof (Hget _ _ Hj) as [_ Hk']. split; [by repeat apply Forall_insert|done].
  - split; [by apply Forall_insert|done].
Qed.

Lemma steps_safe spawn P P' :
  rtc (step spawn) P P' -> Forall (emits safe_eff) P.1 ->
  keeps (keyspace (w_redis P.2)) (keyspace (w_redis P'.2)).
Proof.
  induction 1 as [P|P1 P2 P3 Hs _ IH]; [done|]. intros Hall.
  destruct (step_safe _ _ _ Hs Hall) as [Hall2 Hk]. etransitivity; [exact Hk|by apply IH].
Qed.

(** C6: no interleaving of redis workers, dispatchers and depth readers
    loses a job, whatever commands fail and whether or not a failed command
    took effect: a job that has a key in some state always has one, and what
    is completed or failed stays so. *)
Theorem workers_keep_jobs fuel q ids apps spawn w ts w' :
  q_Backend q = "redis" -> Forall (Forall no_listen) apps ->
  rtc (step spawn)
    (((fun id => let* _ := worker fuel q id in Ret tt) <$> ids) ++ (client fuel q <$> apps), w) (ts, w') ->
  keeps (keyspace (w_redis w)) (keyspace (w_redis w')).
Proof.
  intros Hb Happs Hs. apply (steps_safe _ _ _ Hs). cbn [fst]. apply Forall_app. split.
  - apply Forall_fmap, Forall_forall. intros id _. apply emits_bind; [|done].
    apply worker_sent; [apply allows_safe|done].
  - apply Forall_fmap. eapply Forall_impl; [exact Happs|]. intros cs Hcs. by apply client_safe.
Qed.

End Redis.

(** ** A schedule, executed *)

Section Schedule.
Context {HS : HandlerSig} {RS : RedisServer} {DB : Database} {EV : Env}.

(** Runs one effect of each listed goroutine in turn. *)
Fixpoint schedule (order : list nat) (P : pool) : option pool :=
  match order with
  | [] => Some P
  | i :: order' =>
      match P.1 !! i with
      | Some (Op e k) =>
          if solo e then
            match handle e P.2 with
            | (Ok r, w') => schedule order' (<[i := k r]> P.1, w')
            | (Panicked _, _) => None
            end
          else None
      | _ => None
      end
  end.

Lemma schedule_steps spawn order P P' : schedule order P = Some P' -> rtc (step spawn) P P'.
Proof.
  revert P. induction order as [|i order IH]; intros [ts w]; cbn [schedule fst snd]; [by intros [= <-]|].
  destruct (ts !! i) as [[|m|e k]|] eqn:Hi; try done. destruct (solo e) eqn:Hso; [|done].
  destruct (handle e w) as [[r|m] w'] eqn:Hh; [|done]. intros H%IH.
  eapply rtc_l; [|exact H]. by eapply step_eff.
Qed.

End Schedule.

(** A queue with a stale lock and a due pending copy of one job, its reaper
    in a tick and one worker. *)
Definition racePool : pool :=
  ([let* _ := runReaperTick 3 refQueue in Ret tt; let* _ := worker 3 refQueue 1 in Ret tt],
   put_handlers (Some {["mail" := plainHandler HOk]}) dupeWorld).

(** The reaper looks at the lock and finds the pending copy; the worker
    claims that copy, renaming it over the stale lock; the reaper deletes
    the lock. *)
Definition raceSchedule : list nat := [0; 0; 0; 0; 0; 1; 1; 1; 1; 0]%nat.

(** With the reaper the keys of a job can vanish. Between the reaper's
    test for a pending copy and its DEL of the lock a worker can claim that
    copy, which puts it under the very key the reaper then deletes: the job
    is in no state of a healthy redis, and exists only in the memory of the
    worker that runs it. *)
Lemma reaper_race :
  present (keyspace (w_redis racePool.2)) "job" "a1" /\ healthy (w_redis racePool.2) /\
  exists ts w', rtc (step (goroutine_prog 3 refQueue)) racePool (ts, w') /\
    healthy (w_redis w') /\ forall st, keyspace (w_redis w') !! stateKey st "job" "a1" = None.
Proof.
  split; [exists Pending; by eexists|]. split; [reflexivity|].
  assert (Hrun : match schedule raceSchedule racePool with
    | Some P => bool_decide (rf_keys (w_redis P.2) = ∅) && bool_decide (rf_faults (w_redis P.2) = [])
    | None => false
    end = true) by (vm_compute; reflexivity).
  destruct (schedule raceSchedule racePool) as [[ts w']|] eqn:E; [|done].
  exists ts, w'. split; [by apply (schedule_steps _ raceSchedule)|].
  apply andb_true_iff in Hrun as [Hk%bool_decide_eq_true Hf%bool_decide_eq_true].
  split; [exact Hf|]. intros st. change (rf_keys (w_redis w') !! stateKey st "job" "a1" = None).
  cbn [snd] in Hk. rewrite Hk. apply lookup_empty.
Qed.

(** A worker in the middle of a job whose lock has expired, and the reaper. *)
Definition slowPool : pool :=
  ([let* _ := runReaperTick 3 refQueue in Ret tt; handleRedisJob refQueue "job" staleJob "a1"],
   lockedWorld staleJob HOk).

(** The worker calls the handler; the reaper finds the lock expired and no
    pending copy; the worker completes the job; the reaper writes the lock
    again and renames it to pending. *)
Definition slowSchedule : list nat := [1; 1; 1; 0; 0; 0; 0; 0; 1; 1; 1; 0; 0; 0]%nat.

(** The reaper can bring a completed job back. Its HSET on the lock
    recreates the key that a worker has just renamed to [completed:], so the
    RENAME that follows finds it and the job is completed and pending at
    once, to be run again. *)
Lemma reaper_resurrects :
  healthy (w_redis slowPool.2) /\
  exists ts w', rtc (step (goroutine_prog 3 refQueue)) slowPool (ts, w') /\
    healthy (w_redis w') /\ w_app w' = 1%nat /\
    is_Some (keyspace (w_redis w') !! stateKey Completed "job" "a1") /\
    is_Some (keyspace (w_redis w') !! stateKey Pending "job" "a1").
Proof.
  split; [reflexivity|].
  assert (Hrun : match schedule slowSchedule slowPool with
    | Some P => bool_decide (is_Some (rf_keys (w_redis P.2) !! stateKey Completed "job" "a1")) &&
                bool_decide (is_Some (rf_keys (w_redis P.2) !! stateKey Pending "job" "a1")) &&
                bool_decide (rf_faults (w_redis P.2) = []) && (w_app P.2 =? 1)%nat
    | None => false
    end = true) by (vm_compute; reflexivity).
  destruct (schedule slowSchedule slowPool) as [[ts w']|] eqn:E; [|done].
  exists ts, w'. split; [by apply (schedule_steps _ slowSchedule)|].
  repeat rewrite andb_true_iff in Hrun. destruct Hrun as [[[Hc Hp] Hf] Ha].
  apply bool_decide_eq_true in Hc, Hp, Hf. apply Nat.eqb_eq in Ha. by split_and!.
Qed.

(** C37: two interleavings of the reaper and a worker that break the life of
    a job on a healthy redis. Between the reaper's test for a pending copy
    and its DEL of the lock a worker can claim that copy, which puts it under
    the very key the reaper then deletes: the job is in no state, and exists
    only in the memory of the worker that runs it. And the reaper's HSET on
    a lock recreates the key that a worker has just renamed to [completed:],
    so that the job is completed and pending at once, to be run again. *)
Theorem reaper_races :
  (present (keyspace (w_redis racePool.2)) "job" "a1" /\ healthy (w_redis racePool.2) /\
   exists ts w', rtc (step (goroutine_prog 3 refQueue)) racePool (ts, w') /\
     healthy (w_redis w') /\ forall st, keyspace (w_redis w') !! stateKey st "job" "a1" = None) /\
  (healthy (w_redis slowPool.2) /\
   exists ts w', rtc (step (goroutine_prog 3 refQueue)) slowPool (ts, w') /\
     healthy (w_redis w') /\ w_app w' = 1%nat /\
     is_Some (keyspace (w_redis w') !! stateKey Completed "job" "a1") /\
     is_Some (keyspace (w_redis w') !! stateKey Pending "job" "a1")).
Proof. exact (conj reaper_race reaper_resurrects). Qed.

(** ** Witnesses *)

Definition clientPool : pool := (client 3 memQueue <$> [[CDispatch refJob]; [CDepth]], memWorld HOk).

Lemma pending_count_exact_witness :
  exists ts w', rtc (step (goroutine_prog 3 memQueue)) clientPool (ts, w') /\
    0 <= w_pending w' <= 2 /\ w_pending w' = 1.
Proof.
  assert (Hrun : match schedule [0; 0; 0; 1]%nat clientPool with
    | Some P => (w_pending P.2 =? 1) && (length P.1 =? 2)%nat
    | None => false
    end = true) by (vm_compute; reflexivity).
  destruct (schedule [0; 0; 0; 1]%nat clientPool) as [[ts w']|] eqn:E; [|done].
  apply (schedule_steps (goroutine_prog 3 memQueue)) in E.
  apply andb_true_iff in Hrun as [Hp%Z.eqb_eq Hl%Nat.eqb_eq]. cbn [fst snd] in *.
  destruct (pending_count_exact 3 memQueue [[CDispatch refJob]; [CDepth]] (memWorld HOk) ts w')
    as (hs & _ & _ & Hb & _); [reflexivity|reflexivity|exact E|rewrite Hl; reflexivity|].
  exists ts, w'. rewrite Hl in Hb. split; [exact E|]. split; [exact Hb|exact Hp].
Defined.

Lemma workers_keep_jobs_witness :
  exists ts w', rtc (step (goroutine_prog 3 refQueue))
      (((fun id => let* _ := worker 3 refQueue id in Ret tt) <$> [1; 2]) ++
       (client 3 refQueue <$> [[CDispatch refJob]]), pendingWorld refJob HOk) (ts, w') /\
    keeps (keyspace (w_redis (pendingWorld refJob HOk))) (keyspace (w_redis w')).
Proof.
  set (P := (_, pendingWorld refJob HOk)).
  assert (Hrun : match schedule [0; 1; 0; 1; 0; 1; 0; 1; 0; 2; 2; 2; 0; 0; 0; 0; 0; 0; 0]%nat P with
    | Some _ => true | None => false end = true) by (vm_compute; reflexivity).
  destruct (schedule _ P) as [[ts w']|] eqn:E; [|done].
  apply (schedule_steps (goroutine_prog 3 refQueue)) in E.
  exists ts, w'. split; [exact E|].
  eapply (workers_keep_jobs 3 refQueue [1; 2] [[CDispatch refJob]]);
    [reflexivity|by repeat constructor|exact E].
Defined.
