(* ===== verification/Lifecycle.v ===== *)
(** * The life of a job on redis

    An abstract specification of the redis backend: a store of keys and a
    set of actors (applications, workers, reapers), each with a protocol
    that says which command it may send next, and the refinement: every
    trace of the program's goroutines, command by command and goroutine by
    goroutine, is a trace of the specification, whatever commands fail. *)

From stdpp Require Import base gmap strings list relations.
From Stdlib Require Import ZArith Ascii Lia.
From S2P Require Import Prelude GoString GoTime Types Services Effects RefServices Redis RedisScan Reaper ReaperTick Memory Queue Concurrency.

Open Scope Z_scope.

(** ** The specification *)

Inductive role := App | Worker | Reaper.

(** What an actor may rely on: nothing; it holds a lock (a worker claimed
    it, a reaper stamped it); a reaper saw that a job has a pending copy, or
    that it has none. *)
Inductive phase :=
| Free
| Holding (queue id : string)
| Dupe (queue id : string)
| Single (queue id : string).

(** The protocol of one actor: the command it may send in a phase, and the
    phase after the reply.

    Everybody may read. An application stores pending jobs. A worker claims
    a pending job; holding it, it writes to locks of that channel and either
    stores the job as pending again or renames its lock, once. A reaper
    looks for a pending copy; it deletes a lock only after it saw a copy,
    and stamps a lock and renames it to pending or failed only after it saw
    none. *)
Inductive proto : role -> phase -> cmd -> reply -> phase -> Prop :=
| p_read r ph c rep :
    reads c = true -> proto r ph c rep ph
| p_dispatch ph queue id fs rep :
    proto App ph (HSET (stateKey Pending queue id) fs) rep ph
| p_claim ph queue id v :
    proto Worker ph (RENAME (stateKey Pending queue id) (stateKey Locked queue id)) (Reply v)
      (Holding queue id)
| p_lost_claim ph queue id m :
    proto Worker ph (RENAME (stateKey Pending queue id) (stateKey Locked queue id)) (RErr m) ph
| p_write queue id id' fs rep :
    proto Worker (Holding queue id) (HSET (stateKey Locked queue id') fs) rep (Holding queue id)
| p_retry queue id fs rep :
    proto Worker (Holding queue id) (HSET (stateKey Pending queue id) fs) rep Free
| p_finish queue id st rep :
    moves Locked st = true ->
    proto Worker (Holding queue id) (RENAME (stateKey Locked queue id) (stateKey st queue id)) rep Free
| p_look ph queue id z :
    proto Reaper ph (EXISTS (stateKey Pending queue id)) (Reply (RInt z))
      (if z =? 1 then Dupe queue id else Single queue id)
| p_drop queue id rep :
    proto Reaper (Dupe queue id) (DEL (stateKey Locked queue id)) rep Free
| p_stamp queue id fs rep :
    proto Reaper (Single queue id) (HSET (stateKey Locked queue id) fs) rep (Holding queue id)
| p_reap queue id st rep :
    st = Pending \/ st = Failed ->
    proto Reaper (Holding queue id) (RENAME (stateKey Locked queue id) (stateKey st queue id)) rep Free.

(** What a command does to the set of keys, and what its reply says. *)
Definition exec_set (c : cmd) (X : gset string) : gset string :=
  match c with
  | HSET k _ => {[k]} ∪ X
  | RENAME a b => if decide (a ∈ X) then {[b]} ∪ X ∖ {[a]} else X
  | DEL k => X ∖ {[k]}
  | SCAN _ _ _ | HGETALL _ | EXISTS _ => X
  end.

Definition serves (c : cmd) (rep : reply) (X X' : gset string) : Prop :=
  match rep with
  | RErr _ => X' = X \/ X' = exec_set c X
  | Reply v =>
      X' = exec_set c X /\
      match c with
      | RENAME a _ => a ∈ X
      | EXISTS k => v = RInt (if decide (k ∈ X) then 1 else 0)
      | _ => True
      end
  end.

(** Labels of the steps of goroutines: a command with its reply, a go
    statement, or anything else; by the position of the goroutine. *)
Inductive label {HS : HandlerSig} :=
| LDo (i : nat) (c : cmd) (rep : reply)
| LGo (i : nat) (g : goroutine)
| LTau.

Section Spec.
Context {HS : HandlerSig}.

Definition role_of (g : goroutine) : role :=
  match g with GSend _ _ => App | GWorker _ => Worker | GReaper => Reaper end.

Definition astate : Type := list (role * phase) * gset string.

Inductive astep : astate -> label -> astate -> Prop :=
| a_do acts X i r ph ph' c rep X' :
    acts !! i = Some (r, ph) -> proto r ph c rep ph' -> serves c rep X X' ->
    astep (acts, X) (LDo i c rep) (<[i := (r, ph')]> acts, X')
| a_go acts X i ph g :
    acts !! i = Some (App, ph) -> astep (acts, X) (LGo i g) (acts ++ [(role_of g, Free)], X)
| a_tau A : astep A LTau A.

Inductive atrace (A : astate) : list label -> astate -> Prop :=
| atrace_nil : atrace A [] A
| atrace_snoc ls A1 l A2 : atrace A ls A1 -> astep A1 l A2 -> atrace A (ls ++ [l]) A2.

(** ** What the specification promises *)

(** Command [c1] with reply [r1] and later [c2] of one actor. *)
Definition first_then (ls : list label) (c1 : cmd) (r1 : reply -> Prop) (c2 : cmd) : Prop :=
  exists i rep1 rep2 l1 l2 l3,
    ls = l1 ++ LDo i c1 rep1 :: l2 ++ LDo i c2 rep2 :: l3 /\ r1 rep1.

Definition answered (rep : reply) : Prop := exists v, rep = Reply v.

(** What is completed or failed stays so; a job becomes completed only by a
    worker that claimed it before; a job that has no key any more was
    dropped by a reaper that had seen a pending copy of it. *)
Definition promises (X : gset string) (ls : list label) (X' : gset string) (queue id : string) : Prop :=
  (forall st, terminal st = true -> stateKey st queue id ∈ X -> stateKey st queue id ∈ X') /\
  (stateKey Completed queue id ∈ X' -> stateKey Completed queue id ∉ X ->
     first_then ls (RENAME (stateKey Pending queue id) (stateKey Locked queue id)) answered
       (RENAME (stateKey Locked queue id) (stateKey Completed queue id))) /\
  ((exists st, stateKey st queue id ∈ X) -> (forall st, stateKey st queue id ∉ X') ->
     first_then ls (EXISTS (stateKey Pending queue id)) (fun rep => rep = Reply (RInt 1))
       (DEL (stateKey Locked queue id))).

Lemma first_then_snoc ls l c1 r1 c2 : first_then ls c1 r1 c2 -> first_then (ls ++ [l]) c1 r1 c2.
Proof.
  intros (i & rep1 & rep2 & l1 & l2 & l3 & -> & Hr). exists i, rep1, rep2, l1, l2, (l3 ++ [l]).
  split; [|done]. by simplify_list_eq.
Qed.

Lemma first_then_last ls i c1 rep1 (r1 : reply -> Prop) c2 rep2 :
  LDo i c1 rep1 ∈ ls -> r1 rep1 -> first_then (ls ++ [LDo i c2 rep2]) c1 r1 c2.
Proof.
  intros (l1 & l2 & ->)%list_elem_of_split Hr. exists i, rep1, rep2, l1, l2, []. split; [|done].
  by simplify_list_eq.
Qed.

(** The phases remember commands of the trace. *)
Definition remembers (ls : list label) (i : nat) (a : role * phase) : Prop :=
  match a with
  | (Worker, Holding queue id) => exists v,
      LDo i (RENAME (stateKey Pending queue id) (stateKey Locked queue id)) (Reply v) ∈ ls
  | (_, Dupe queue id) => LDo i (EXISTS (stateKey Pending queue id)) (Reply (RInt 1)) ∈ ls
  | _ => True
  end.

Lemma remembers_snoc ls l i a : remembers ls i a -> remembers (ls ++ [l]) i a.
Proof.
  assert (Hin : forall l', l' ∈ ls -> l' ∈ ls ++ [l]) by (intros l' ?; apply elem_of_app; by left).
  destruct a as [[] []]; cbn [remembers]; auto. intros [v Hv]. eauto.
Qed.

Lemma proto_remembers ls i r ph c rep ph' :
  remembers ls i (r, ph) -> proto r ph c rep ph' -> remembers (ls ++ [LDo i c rep]) i (r, ph').
Proof.
  intros H Hp. pose proof (remembers_snoc ls (LDo i c rep) i (r, ph) H) as H'.
  assert (Hin : LDo i c rep ∈ ls ++ [LDo i c rep]) by (apply elem_of_app; right; by constructor).
  destruct Hp; try done; cbn [remembers]; [eauto|].
  destruct (Z.eqb_spec z 1) as [->|]; done.
Qed.

Lemma atrace_remembers A ls A' i a :
  (forall i a, A.1 !! i = Some a -> a.2 = Free) -> atrace A ls A' ->
  A'.1 !! i = Some a -> remembers ls i a.
Proof.
  intros H0 Ht. revert i a. induction Ht as [|ls A1 l A2 Ht IH Hs]; intros i a Ha.
  { apply H0 in Ha. destruct a as [[] ph]; cbn in Ha; by subst ph. }
  destruct Hs as [acts X i' r ph ph' c rep X' Hi Hp Hsv|acts X i' ph g Hi|A1]; cbn [fst] in *.
  - destruct (decide (i = i')) as [->|Hne].
    + rewrite list_lookup_insert_eq in Ha by (by eapply lookup_lt_Some). injection Ha as <-.
      eapply proto_remembers; [by apply IH|done].
    + rewrite list_lookup_insert_ne in Ha by done. by apply remembers_snoc, IH.
  - apply lookup_app_Some in Ha as [Ha|[_ Ha]]; [by apply remembers_snoc, IH|].
    apply list_lookup_singleton_Some in Ha as [_ <-]. by destruct g.
  - by apply remembers_snoc, IH.
Qed.

Section OneJob.
Context (queue id : string) (Hq : has_byte colon queue = false) (Hi : has_byte colon id = false).

Lemma same_job st st' queue' id' :
  stateKey st queue id = stateKey st' queue' id' -> st = st' /\ queue = queue' /\ id = id'.
Proof. intros E. symmetry in E. apply stateKey_other in E as (-> & -> & ->); done. Qed.

(** The commands of the protocol that write. *)
Lemma proto_writes r ph c rep ph' : proto r ph c rep ph' ->
  match c with
  | HSET k _ => exists st queue' id', k = stateKey st queue' id' /\ terminal st = false
  | RENAME a b => exists st st' queue' id',
      a = stateKey st queue' id' /\ b = stateKey st' queue' id' /\ terminal st = false /\
      (st' = Completed -> r = Worker /\ ph = Holding queue' id' /\ st = Locked)
  | DEL k => exists queue' id', k = stateKey Locked queue' id' /\ ph = Dupe queue' id'
  | SCAN _ _ _ | HGETALL _ | EXISTS _ => True
  end.
Proof.
  destruct 1 as [r ph c rep Hr|ph queue' id' fs rep|ph queue' id' v|ph queue' id' m
    |queue' id' id'' fs rep|queue' id' fs rep|queue' id' st rep Hm|ph queue' id' z
    |queue' id' rep|queue' id' fs rep|queue' id' st rep Hst].
  - by destruct c.
  - by exists Pending, queue', id'.
  - by exists Pending, Locked, queue', id'.
  - by exists Pending, Locked, queue', id'.
  - by exists Locked, queue', id''.
  - by exists Pending, queue', id'.
  - by exists Locked, st, queue', id'.
  - done.
  - by exists queue', id'.
  - by exists Locked, queue', id'.
  - exists Locked, st, queue', id'. split_and!; try done. by destruct Hst as [-> | ->].
Qed.

(** Which commands of the protocol take a key of the job away, and which
    complete it. *)
Lemma proto_removes r ph c rep ph' X st :
  proto r ph c rep ph' -> stateKey st queue id ∈ X -> stateKey st queue id ∉ exec_set c X ->
  terminal st = false /\
  ((exists st', stateKey st' queue id ∈ exec_set c X) \/
   ph = Dupe queue id /\ c = DEL (stateKey Locked queue id)).
Proof.
  intros Hp%proto_writes Hin Hout. destruct c as [|k fs| |a b| |k]; cbn [exec_set] in *; try done.
  - destruct Hout. apply elem_of_union. by right.
  - destruct Hp as (st1 & st2 & queue' & id' & -> & -> & Ht & _). case_decide; [|done].
    destruct (decide (stateKey st queue id = stateKey st1 queue' id')) as [E|Hne].
    + apply same_job in E as (-> & <- & <-). split; [done|]. left. exists st2.
      apply elem_of_union. left. by apply elem_of_singleton.
    + destruct Hout. apply elem_of_union. right. apply elem_of_difference. split; [done|].
      by intros ?%elem_of_singleton.
  - destruct Hp as (queue' & id' & -> & ->).
    destruct (decide (stateKey st queue id = stateKey Locked queue' id')) as [E|Hne].
    + apply same_job in E as (-> & <- & <-). auto.
    + destruct Hout. apply elem_of_difference. split; [done|]. by intros ?%elem_of_singleton.
Qed.

Lemma proto_completes r ph c rep ph' X :
  proto r ph c rep ph' -> stateKey Completed queue id ∉ X ->
  stateKey Completed queue id ∈ exec_set c X ->
  r = Worker /\ ph = Holding queue id /\
  c = RENAME (stateKey Locked queue id) (stateKey Completed queue id).
Proof.
  intros Hp%proto_writes Hout Hin. destruct c as [|k fs| |a b| |k]; cbn [exec_set] in *; try done.
  - destruct Hp as (st & queue' & id' & -> & Ht).
    apply elem_of_union in Hin as [E%elem_of_singleton|?]; [|done].
    by apply same_job in E as (<- & _).
  - destruct Hp as (st1 & st2 & queue' & id' & -> & -> & Ht & Hc). case_decide; [|done].
    apply elem_of_union in Hin as [E%elem_of_singleton|[? _]%elem_of_difference]; [|done].
    apply same_job in E as (<- & <- & <-). by destruct Hc as (-> & -> & ->).
  - by apply elem_of_difference in Hin as [? _].
Qed.

Lemma serves_cases c rep X X' : serves c rep X X' -> X' = X \/ X' = exec_set c X.
Proof. destruct rep; cbn; [by intros [-> _]; right|done]. Qed.

(** Every trace of the specification keeps the promises. *)
Lemma atrace_promises A ls A' :
  (forall i a, A.1 !! i = Some a -> a.2 = Free) -> atrace A ls A' -> promises A.2 ls A'.2 queue id.
Proof.
  intros H0 Ht. induction Ht as [|ls A1 l A2 Ht IH Hs].
  { split; [done|]. split; [done|]. intros [st Hst] Hn. by destruct (Hn st). }
  pose proof (fun i a => atrace_remembers _ _ _ i a H0 Ht) as Hrem.
  destruct IH as (IH1 & IH2 & IH3).
  assert (Hsame : A2.2 = A1.2 -> promises A.2 (ls ++ [l]) A2.2 queue id).
  { intros ->. split; [done|]. split; [intros; by apply first_then_snoc, IH2|].
    intros; by apply first_then_snoc, IH3. }
  destruct Hs as [acts X i r ph ph' c rep X' Hact Hp Hsv|acts X i ph g Hact|A1]; cbn [fst snd] in *;
    [|by apply Hsame..].
  destruct (serves_cases _ _ _ _ Hsv) as [->|Hex]; [by apply Hsame|]. clear Hsame.
  specialize (Hrem i _ Hact). split; [|split].
  - intros st Hst Hin. specialize (IH1 st Hst Hin). destruct (decide (stateKey st queue id ∈ X')); [done|].
    subst X'. destruct (proto_removes _ _ _ _ _ _ _ Hp IH1 n). congruence.
  - intros Hin Hnot. destruct (decide (stateKey Completed queue id ∈ X)) as [HX|HX].
    { by apply first_then_snoc, IH2. }
    subst X'. destruct (proto_completes _ _ _ _ _ _ Hp HX Hin) as (-> & -> & ->).
    destruct Hrem as [v Hv]. eapply first_then_last; [exact Hv|by eexists].
  - intros Hsome Hnone. subst X'.
    destruct (decide (Exists (fun st => stateKey st queue id ∈ X) [Pending; Locked; Completed; Failed]))
      as [(st & _ & Hst)%Exists_exists|Hno].
    + destruct (proto_removes _ _ _ _ _ _ _ Hp Hst (Hnone st)) as [_ [[st' H]|[-> ->]]];
        [by destruct (Hnone st')|].
      eapply first_then_last; [|done]. by destruct r.
    + apply first_then_snoc, IH3; [done|]. intros st Hst. apply Hno, Exists_exists.
      exists st. split; [|done]. destruct st; repeat constructor.
Qed.

End OneJob.
End Spec.

(** ** Labelled steps of the program *)

Section Labels.
Context {HS : HandlerSig} {RS : RedisServer} {DB : Database} {EV : Env}.

(** The steps of Concurrency.v with their labels. *)
Inductive lstep (spawn : goroutine -> prog unit) : pool -> label -> pool -> Prop :=
| l_do ts w i c k rep s' :
    ts !! i = Some (Op (EDo c) k) -> redis_do c (w_redis w) = (rep, s') ->
    lstep spawn (ts, w) (LDo i c rep) (<[i := k rep]> ts, put_redis s' w)
| l_go ts w i g k :
    ts !! i = Some (Op (EGo g) k) ->
    lstep spawn (ts, w) (LGo i g) (<[i := k tt]> ts ++ [spawn g], w)
| l_eff ts w i e k r w' :
    ts !! i = Some (Op e k) -> solo e = true -> no_command e -> handle e w = (Ok r, w') ->
    lstep spawn (ts, w) LTau (<[i := k r]> ts, w')
| l_comm ts w i j x k k' :
    i <> j -> w_closed w = false ->
    ts !! i = Some (Op (ESend x) k) -> ts !! j = Some (Op ERecv k') ->
    lstep spawn (ts, w) LTau (<[j := k' (Some x)]> (<[i := k tt]> ts), w)
| l_closed ts w i k :
    w_closed w = true -> ts !! i = Some (Op ERecv k) ->
    lstep spawn (ts, w) LTau (<[i := k None]> ts, w).

Lemma step_label spawn P P' : step spawn P P' <-> exists l, lstep spawn P l P'.
Proof.
  split.
  - destruct 1 as [ts w i e k r w' Hi Hso Hh| | |]; try (eexists; by econstructor).
    destruct e; try (eexists; by eapply l_eff). cbn in Hh.
    destruct (redis_do c (w_redis w)) as [rep s'] eqn:Hdo. injection Hh as <- <-.
    eexists. by eapply l_do.
  - intros [l Hl]. destruct Hl as [ts w i c k rep s' Hi Hdo| | | |]; try (by econstructor).
    eapply (step_eff _ _ _ i (EDo c)); [done|done|]. cbn. by rewrite Hdo.
Qed.

Inductive ltrace (spawn : goroutine -> prog unit) (P : pool) : list label -> pool -> Prop :=
| ltrace_nil : ltrace spawn P [] P
| ltrace_snoc ls P1 l P2 : ltrace spawn P ls P1 -> lstep spawn P1 l P2 -> ltrace spawn P (ls ++ [l]) P2.

(** The traces are those of the interleavings. *)
Lemma steps_trace spawn P P' : rtc (step spawn) P P' <-> exists ls, ltrace spawn P ls P'.
Proof.
  split.
  - apply (rtc_ind_r (fun P' => exists ls, ltrace spawn P ls P') P); [by exists []; constructor|].
    intros P1 P2 _ [l Hl]%step_label [ls Ht]. exists (ls ++ [l]). by econstructor.
  - intros [ls Ht]. induction Ht as [|ls P1 l P2 _ IH Hl]; [done|].
    eapply rtc_r; [exact IH|]. apply step_label. by exists l.
Qed.

(** ** Programs that follow the protocol *)

(** The replies that the server can give to a command. *)
Definition plausible (c : cmd) (rep : reply) : Prop :=
  match c, rep with EXISTS _, Reply v => v = RInt 0 \/ v = RInt 1 | _, _ => True end.

(** [follows r Q ph p]: an actor of role [r] in phase [ph] that runs [p]
    stays within its protocol, and is in a phase that satisfies [Q] when it
    returns. *)
Fixpoint follows {A} (r : role) (Q : A -> phase -> Prop) (ph : phase) (p : prog A) : Prop :=
  match p with
  | Ret a => Q a ph
  | Panic _ => True
  | Op e k =>
      match e as e return (resp e -> prog A) -> Prop with
      | EDo c => fun k => forall rep, plausible c rep ->
          exists ph', proto r ph c rep ph' /\ follows r Q ph' (k rep)
      | EGo g => fun k => r = App /\ follows r Q ph (k tt)
      | _ => fun k => forall x, follows r Q ph (k x)
      end k
  end.

Lemma follows_bind {A B} r Q ph (p : prog A) (f : A -> prog B) :
  follows r (fun a ph' => follows r Q ph' (f a)) ph p -> follows r Q ph (pbind p f).
Proof.
  revert ph. induction p as [a|m|e k IH]; intros ph; cbn [follows pbind]; [done|done|].
  destruct e; try (intros H x; by apply IH).
  - intros H rep Hrep. destruct (H rep Hrep) as (ph' & Hp & Hf). exists ph'. split; [done|]. by apply IH.
  - intros [Hr H]. split; [done|]. by apply IH.
Qed.

Lemma follows_mono {A} r (Q R : A -> phase -> Prop) ph (p : prog A) :
  (forall a ph', Q a ph' -> R a ph') -> follows r Q ph p -> follows r R ph p.
Proof.
  intros HQ. revert ph. induction p as [a|m|e k IH]; intros ph; cbn [follows]; [by apply HQ|done|].
  destruct e; try (intros H x; by apply IH).
  - intros H rep Hrep. destruct (H rep Hrep) as (ph' & Hp & Hf). exists ph'. split; [done|]. by apply IH.
  - intros [Hr H]. split; [done|]. by apply IH.
Qed.

(** Effects that are nobody's business, and reads. *)
Definition harmless (e : eff) : Prop :=
  match e with EDo c => reads c = true | EGo _ => False | _ => True end.

Lemma follows_harmless {A} r ph (p : prog A) :
  emits harmless p -> follows r (fun _ ph' => ph' = ph) ph p.
Proof.
  induction p as [a|m|e k IH]; cbn [follows emits]; [done|done|]. intros [He Hk].
  destruct e; try done; try (intros x; by apply IH).
  intros rep _. exists ph. split; [by apply p_read|]. by apply IH.
Qed.

(** A step with an effect that is no command, and one with a command whose
    next phase is known. *)
Lemma follows_skip {A} r Q ph e (f : resp e -> prog A) :
  harmless e -> (forall x, follows r Q ph (f x)) -> follows r Q ph (pbind (perform e) f).
Proof.
  intros He Hf. cbn [pbind perform follows]. destruct e; try done.
  intros rep _. exists ph. split; [by apply p_read|done].
Qed.

Lemma follows_do {A} r Q ph ph' c (f : reply -> prog A) :
  (forall rep, proto r ph c rep ph') -> (forall rep, follows r Q ph' (f rep)) ->
  follows r Q ph (pbind (perform (EDo c)) f).
Proof. intros Hp Hf. cbn [pbind perform follows]. intros rep _. eauto. Qed.

Definition anything {A} (_ : A) (_ : phase) : Prop := True.

Lemma follows_any {A} r ph (p : prog A) : emits harmless p -> follows r anything ph p.
Proof. intros H. eapply follows_mono; [|by apply follows_harmless]. done. Qed.

End Labels.

(** Symbolic execution of programs under the protocol, up to the commands
    that change the phase. *)
Ltac follow := repeat first
  [ progress (intros; cbv beta zeta)
  | lazymatch goal with
    | |- follows _ _ _ (Ret _) => exact I
    | |- follows _ _ _ (Panic _) => exact I
    | |- follows _ _ _ (pbind (perform ENow) _) => apply follows_skip; [exact I|]
    | |- follows _ _ _ (pbind (perform EShutdown) _) => apply follows_skip; [exact I|]
    | |- follows _ _ _ (pbind (perform (ESleep _)) _) => apply follows_skip; [exact I|]
    | |- follows _ _ _ (pbind (perform (ELookup _)) _) => apply follows_skip; [exact I|]
    | |- follows _ _ _ (pbind (perform (EInsert _ _)) _) => apply follows_skip; [exact I|]
    | |- follows _ _ _ (pbind (perform (EStat _ _)) _) => apply follows_skip; [exact I|]
    | |- follows _ _ _ (pbind (perform (EWg _)) _) => apply follows_skip; [exact I|]
    | |- follows _ _ _ (pbind (perform (EDo (SCAN _ _ _))) _) => apply follows_skip; [reflexivity|]
    | |- follows _ _ _ (match ?x with _ => _ end) => destruct x eqn:?
    end ].

Section Refinement.
Context {HS : HandlerSig} {RS : RedisServer} {RG : Redigo} {DB : Database} {EV : Env}.
Context {UT : UnicodeTables} {RL : RedisLaws RS} {GL : RedigoLaws RG}.

Lemma follows_quiet_bind {A B} r Q ph (p : prog A) (f : A -> prog B) :
  emits harmless p -> (forall a, follows r Q ph (f a)) -> follows r Q ph (pbind p f).
Proof.
  intros Hp Hf. apply follows_bind. eapply follows_mono; [|by apply follows_harmless].
  intros a ph' ->. apply Hf.
Qed.

Lemma follows_any_bind {A B} r Q ph (p : prog A) (f : A -> prog B) :
  follows r anything ph p -> (forall a ph', follows r Q ph' (f a)) -> follows r Q ph (pbind p f).
Proof. intros Hp Hf. apply follows_bind. eapply follows_mono; [|exact Hp]. intros a ph' _. apply Hf. Qed.

Lemma getRedisValue_harmless queue id f : emits harmless (getRedisValue true queue id f).
Proof. unfold getRedisValue. emit; done. Qed.

Lemma setRedisKey_rename queue id st st' :
  setRedisKey true queue id (stateFormat st) (stateFormat st') =
    let* r := perform (EDo (RENAME (stateKey st queue id) (stateKey st' queue id))) in
    match r with
    | RErr err => Ret (Some ("failed to rename key in redis from " +:+ stateFormat st +:+ " to "
                             +:+ stateFormat st' +:+ ": " +:+ err))
    | Reply _ => Ret None
    end.
Proof.
  unfold setRedisKey. destruct (String.eqb_spec (stateFormat st) EmptyString); [by destruct st|].
  destruct (String.eqb_spec (stateFormat st') EmptyString); [by destruct st'|]. done.
Qed.

Lemma setRedisKey_follows r ph ph' queue id st st' :
  (forall rep, proto r ph (RENAME (stateKey st queue id) (stateKey st' queue id)) rep ph') ->
  follows r anything ph (setRedisKey true queue id (stateFormat st) (stateFormat st')).
Proof.
  intros Hp. rewrite setRedisKey_rename. eapply follows_do; [exact Hp|]. by intros [].
Qed.

Lemma setRedisKey_claims ph queue id :
  follows Worker (fun e ph' => e = None -> ph' = Holding queue id) ph
    (setRedisKey true queue id formatPending formatLocked).
Proof.
  change formatPending with (stateFormat Pending). change formatLocked with (stateFormat Locked).
  rewrite setRedisKey_rename. cbn [pbind perform follows]. intros [v|m] _.
  - exists (Holding queue id). split; [apply p_claim|done].
  - exists ph. split; [apply p_lost_claim|done].
Qed.

Lemma finish_follows queue id st : moves Locked st = true ->
  follows Worker anything (Holding queue id) (setRedisKey true queue id formatLocked (stateFormat st)).
Proof. intros Hm. eapply (setRedisKey_follows _ _ _ queue id Locked st). intros rep. by apply p_finish. Qed.

(** ** Workers *)

Lemma handleRedisJob_follows q queue j id :
  follows Worker anything (Holding queue id) (handleRedisJob q queue j id).
Proof.
  unfold handleRedisJob. eapply follows_do; [intros rep; apply (p_write queue id (j_ID j))|].
  follow. apply follows_quiet_bind. { unfold run_registered. emit; done. }
  follow.
  - unfold completeRedisJob. follow.
    eapply follows_do; [intros rep'; apply (p_write queue id id)|]. follow.
    apply follows_any_bind; [by apply (finish_follows queue id Completed)|done].
  - unfold requeueRedisJob. apply follows_quiet_bind. { unfold retry_gate. emit; done. }
    follow. eapply follows_do; [intros rep'; apply (p_retry queue id)|done].
  - unfold failRedisJob. follow.
    eapply follows_do; [intros rep'; apply (p_write queue id id)|]. follow.
    apply follows_any_bind; [by apply (finish_follows queue id Failed)|]. by follow.
Qed.

Lemma processKey_follows q v ph : follows Worker anything ph (processKey q v).
Proof.
  unfold processKey. follow. apply follows_bind. eapply follows_mono; [|apply setRedisKey_claims].
  intros [e|] ph' Hph; [done|]. rewrite Hph by done. follow.
  eapply follows_do; [intros rep'; apply p_write|]. intros rep.
  apply follows_quiet_bind; [apply getRedisValue_harmless|]. follow.
  - apply follows_any_bind; [by eapply (finish_follows _ _ Pending)|]. by follow.
  - apply follows_any_bind; [apply handleRedisJob_follows|]. by follow.
Qed.

Lemma scanLoop_follows fuel q cursor ph : follows Worker anything ph (scanLoop fuel q cursor).
Proof.
  assert (Hp : forall data ph, follows Worker anything ph (processPage q data)).
  { induction data as [|v data IH]; intros ph'; cbn [processPage]; [done|].
    apply follows_any_bind; [apply processKey_follows|]. intros [] ?; [apply IH|done]. }
  revert cursor ph. induction fuel as [|fuel IH]; intros cursor ph; cbn [scanLoop]; [done|].
  follow. apply follows_any_bind; [apply Hp|]. follow.
  - apply follows_any_bind; [apply IH|]. intros [] ?; [apply IH|done].
  - apply IH.
Qed.

Lemma worker_follows fuel q id ph :
  q_Backend q = "redis" -> follows Worker anything ph (worker fuel q id).
Proof.
  intros Hb. unfold worker. rewrite Hb. change (String.eqb "redis" "memory") with false.
  change (String.eqb "redis" "redis") with true. cbv iota.
  apply follows_any_bind; [|by follow]. destruct (negb _); [done|]. apply scanLoop_follows.
Qed.

(** ** The reaper *)

Lemma requeueExpiredLock_follows q queue id j timeout :
  follows Reaper anything (Single queue id) (requeueExpiredLock q queue id j timeout).
Proof.
  assert (Hset : forall st, st = Pending \/ st = Failed -> follows Reaper anything (Holding queue id)
    (setRedisKey true queue id formatLocked (stateFormat st))).
  { intros st Hst. eapply (setRedisKey_follows _ _ _ queue id Locked st). intros rep. by apply p_reap. }
  unfold requeueExpiredLock. follow; (eapply follows_do; [intros rep; apply (p_stamp queue id)|]; follow).
  - apply follows_any_bind; [apply (Hset Pending); by left|]. by follow.
  - apply follows_any_bind; [apply (Hset Failed); by right|]. follow; try done.
    apply follows_any_bind; [|done]. by follow.
Qed.

Lemma reapKey_follows q v t ph : follows Reaper anything ph (reapKey q v t).
Proof.
  unfold reapKey. follow. apply follows_quiet_bind; [apply getRedisValue_harmless|]. follow; try done.
  cbn [pbind perform follows]. intros [v'|m] Hrep.
  - assert (exists z, v' = RInt z) as [z ->] by (cbn in Hrep; naive_solver).
    eexists. split; [apply p_look|]. rewrite Int_int. destruct (z =? 1).
    + eapply follows_do; [intros rep; apply p_drop|]. by follow.
    + apply follows_any_bind; [apply requeueExpiredLock_follows|]. by follow.
  - exists ph. split; [by apply p_read|]. by rewrite Int_error.
Qed.

Lemma reapStaleLocks_follows fuel n q ph : follows Reaper anything ph (reapStaleLocks fuel n q).
Proof.
  assert (Hp : forall data t ph, follows Reaper anything ph (reapPage q data t)).
  { induction data as [|v data IH]; intros t ph'; cbn [reapPage]; [done|].
    apply follows_any_bind; [apply reapKey_follows|]. intros; apply IH. }
  assert (Hs : forall m c t ph, follows Reaper anything ph (reapScan m q c t)).
  { induction m as [|m IH]; intros c t ph'; cbn [reapScan]; [done|]. follow; try done.
    apply follows_any_bind; [apply Hp|]. follow. apply IH. }
  assert (Hl : forall m ph, follows Reaper anything ph (reaperLoop m n q)).
  { induction m as [|m IH]; intros ph'; cbn [reaperLoop]; [done|]. follow; try done.
    apply follows_any_bind; [|by intros [] ?; [apply IH|]].
    unfold runReaperTick. follow; try done. apply follows_any_bind; [apply Hs|]. by follow. }
  unfold reapStaleLocks. follow. apply Hl.
Qed.

Lemma goroutine_follows fuel q g :
  q_Backend q = "redis" -> follows (role_of g) anything Free (goroutine_prog fuel q g).
Proof.
  intros Hb. destruct g as [d j|id|]; cbn [goroutine_prog role_of].
  - apply follows_any. unfold detachedSend. emit; done.
  - apply follows_any_bind; [by apply worker_follows|done].
  - apply follows_any_bind; [apply reapStaleLocks_follows|]. by intros [].
Qed.

(** ** Applications *)

Lemma client_follows fuel q cs ph : q_Backend q = "redis" -> follows App anything ph (client fuel q cs).
Proof.
  intros Hb. revert ph. induction cs as [|c cs IH]; intros ph; cbn [client]; [done|].
  apply follows_any_bind; [|intros; apply IH].
  assert (Hd : forall j ph, follows App anything ph (Dispatch q j)).
  { intros j ph'. unfold Dispatch, dispatchRedis. rewrite Hb.
    change (String.eqb "redis" "memory") with false. change (String.eqb "redis" "redis") with true.
    cbv iota. apply follows_skip; [done|]. follow; try done.
    eapply follows_do; [intros rep; eapply p_dispatch|]. by follow. }
  destruct c as [|j|j d| |b]; cbn [call_prog].
  - assert (Hs : forall n i ph, follows App anything ph (startWorkers n i)).
    { induction n as [|n IHn]; intros i ph'; cbn [startWorkers]; [done|]. follow.
      cbn [pbind perform follows]. split; [done|apply IHn]. }
    unfold Listen. apply follows_any_bind; [apply Hs|]. follow; done.
  - apply follows_any_bind; [apply Hd|done].
  - apply follows_any_bind; [|done]. unfold DispatchIn. follow; apply Hd.
  - apply follows_any_bind; [|done]. apply follows_any.
    assert (Hs : forall n ch cur total, emits harmless (depthScan n ch cur total)).
    { induction n as [|n IHn]; intros ch cur total; cbn [depthScan]; emit; done || apply IHn. }
    assert (Hc : forall chs total, emits harmless (depthChannels fuel chs total)).
    { induction chs as [|ch chs IHc]; intros total; cbn [depthChannels]; emit; done || apply Hs || apply IHc. }
    unfold Depth. emit; done || apply Hc.
  - apply follows_any. unfold Close. emit; done.
Qed.

(** ** The refinement *)

Lemma dom_exec c (m : keys) : dom (exec_keys c m) = exec_set c (dom m).
Proof.
  destruct c as [|k fs| |a b| |k]; cbn [exec_keys exec_set]; try done.
  - apply dom_insert_L.
  - destruct (m !! a) as [h|] eqn:E.
    + rewrite decide_True by (by eapply elem_of_dom_2). by rewrite dom_insert_L, dom_delete_L.
    + by rewrite decide_False by (by apply not_elem_of_dom).
  - apply dom_delete_L.
Qed.

Lemma redis_serves c s rep s' : redis_do c s = (rep, s') ->
  serves c rep (dom (keyspace s)) (dom (keyspace s')) /\ plausible c rep.
Proof.
  intros Hdo. destruct rep as [v|m]; cbn [serves plausible].
  - pose proof (do_reply _ _ _ _ Hdo) as Hk. rewrite Hk, dom_exec.
    destruct c as [| | |a b|k|]; try (split; [by split|done]).
    + split; [split; [done|]|done]. apply elem_of_dom. by eapply do_rename_present.
    + pose proof (do_exists _ _ _ _ Hdo) as ->. destruct (keyspace s !! k) as [h|] eqn:E.
      * rewrite decide_True by (by eapply elem_of_dom_2). split; [by split|by right].
      * rewrite decide_False by (by apply not_elem_of_dom). split; [by split|by left].
  - split; [|by destruct c]. destruct (do_effect _ _ _ _ Hdo) as [-> | ->]; [by left|right].
    apply dom_exec.
Qed.

Definition in_step (a : role * phase) (t : prog unit) : Prop := follows a.1 anything a.2 t.

Lemma lstep_refines spawn P l P' acts :
  (forall g, follows (role_of g) anything Free (spawn g)) -> lstep spawn P l P' ->
  Forall2 in_step acts P.1 ->
  exists acts', astep (acts, dom (keyspace (w_redis P.2))) l (acts', dom (keyspace (w_redis P'.2))) /\
    Forall2 in_step acts' P'.1.
Proof.
  intros Hsp Hs Hall.
  assert (Hget : forall i t, P.1 !! i = Some t -> exists a, acts !! i = Some a /\ in_step a t)
    by (intros i t Hi; destruct (Forall2_lookup_r _ _ _ _ _ Hall Hi) as (a & ? & ?); eauto).
  assert (Hset : forall i a (t : prog unit), acts !! i = Some a -> in_step a t ->
    Forall2 in_step acts (<[i := t]> P.1)).
  { intros i a t Ha Ht. rewrite <- (list_insert_id acts i a) by done. by apply Forall2_insert. }
  destruct Hs as [ts w i c k rep s' Hi Hdo|ts w i g k Hi|ts w i e k r w' Hi Hso He Hh
    |ts w i j x k k' Hij Hc Hi Hj|ts w i k Hc Hi]; cbn [fst snd] in *;
    destruct (Hget _ _ Hi) as ([r0 ph] & Hact & Hf); cbn [in_step follows fst snd] in Hf.
  - destruct (redis_serves _ _ _ _ Hdo) as [Hsv Hpl]. destruct (Hf rep Hpl) as (ph' & Hp & Hf').
    eexists. split; [by econstructor|]. by apply Forall2_insert.
  - destruct Hf as [-> Hf]. eexists. split; [by econstructor|].
    apply Forall2_app; [by eapply Hset|]. constructor; [apply Hsp|constructor].
  - exists acts. split.
    + assert (w_redis w' = w_redis w) as -> by (destruct e; try done; cbn in Hh; repeat case_match; simplify_eq/=; done).
      constructor.
    + apply (Hset _ _ _ Hact). destruct e; try done; apply Hf.
  - destruct (Hget _ _ Hj) as ([r1 ph1] & Hact1 & Hf1). cbn [in_step follows fst snd] in Hf1.
    exists acts. split; [constructor|].
    rewrite <- (list_insert_id acts j _ Hact1). apply Forall2_insert; [apply (Hset _ _ _ Hact), Hf|apply Hf1].
  - exists acts. split; [constructor|]. apply (Hset _ _ _ Hact), Hf.
Qed.

(** C5: refinement. Let the goroutines of a redis queue (application code
    that listens, dispatches, reads the depth and closes, the workers and
    the reaper it starts) interleave in any way, with any command failing,
    and record every command with its reply and the goroutine that sent it.
    Every such trace is a trace of the abstract life of jobs: goroutine by
    goroutine the commands follow the protocol of an application, a worker
    or a reaper, and command by command the keys of redis are the keys of
    the abstract store. (For instance no goroutine but a reaper deletes a
    key, only the lock of a job, and only after it saw a pending copy; a
    dispatch writes nothing but pending keys.) So for every job whose channel
    and id have no separator: what is completed or failed stays so, it
    becomes completed only through a worker that claimed it before, and it
    loses its last key only to a reaper that had seen a pending copy. *)
Theorem redis_refines_life fuel q apps w ls ts w' :
  q_Backend q = "redis" ->
  ltrace (goroutine_prog fuel q) (client fuel q <$> apps, w) ls (ts, w') ->
  let X := dom (keyspace (w_redis w)) in
  let X' := dom (keyspace (w_redis w')) in
  (exists acts, atrace (replicate (length apps) (App, Free), X) ls (acts, X') /\
     Forall2 in_step acts ts) /\
  forall queue id, has_byte colon queue = false -> has_byte colon id = false ->
    promises X ls X' queue id.
Proof.
  intros Hb Ht. cbv zeta.
  assert (Hsim : forall P', ltrace (goroutine_prog fuel q) (client fuel q <$> apps, w) ls P' ->
    exists acts, atrace (replicate (length apps) (App, Free), dom (keyspace (w_redis w))) ls
      (acts, dom (keyspace (w_redis P'.2))) /\ Forall2 in_step acts P'.1).
  { clear Ht. intros P' Ht. induction Ht as [|ls P1 l P2 _ (acts & Ha & Hall) Hl].
    - eexists. split; [constructor|]. cbn [fst].
      apply Forall2_same_length_lookup. split; [by rewrite length_replicate, length_fmap|].
      intros i a t [-> _]%lookup_replicate (cs & -> & _)%list_lookup_fmap_Some. by apply client_follows.
    - destruct (lstep_refines _ _ _ _ acts (fun g => goroutine_follows fuel q g Hb) Hl Hall)
        as (acts' & Hs & Hall'). exists acts'. split; [by econstructor|done]. }
  destruct (Hsim _ Ht) as (acts & Ha & Hall). split; [by exists acts|]. intros queue id Hq Hi.
  eapply (atrace_promises queue id Hq Hi) in Ha; [exact Ha|].
  intros i a [-> _]%lookup_replicate. done.
Qed.

End Refinement.

(** ** Witness *)

Definition doneWorld : world :=
  workWorld [("queues:job:completed:b2", refJob); ("queues:job:pending:a1", refJob)]
    [("mail", plainHandler HOk)].

Lemma redis_refines_life_witness :
  exists ls ts w', ltrace (goroutine_prog 3 refQueue)
      (client 3 refQueue <$> [[CDispatch refJob; CDepth]; [CClose false]], doneWorld) ls (ts, w') /\
    stateKey Completed "job" "b2" ∈ dom (keyspace (w_redis w')).
Proof.
  set (P := (_, doneWorld)).
  assert (Hrun : match schedule [0; 1; 0; 0; 1; 0; 0; 1]%nat P with
    | Some _ => true | None => false end = true) by (vm_compute; reflexivity).
  destruct (schedule _ P) as [[ts w']|] eqn:E; [|done].
  apply (schedule_steps (goroutine_prog 3 refQueue)), steps_trace in E as [ls E].
  exists ls, ts, w'. split; [exact E|].
  eapply (redis_refines_life 3 refQueue [[CDispatch refJob; CDepth]; [CClose false]] doneWorld ls ts w');
    [reflexivity|exact E|reflexivity..|]. apply elem_of_dom. by eexists.
Defined.
