(* ===== verification/Interference.v ===== *)
(** * A goroutine among others

    What a program does for sure when the other goroutines of a redis queue
    (workers and the reaper) step between its effects: its commands are
    answered as a reachable server answers, in whatever keyspace the others
    have left, its clock readings are any, and nobody else draws ids. *)

From stdpp Require Import base gmap strings list relations.
From Stdlib Require Import ZArith Lia.
From S2P Require Import Prelude GoString GoTime Types Services Effects Redis Reaper Memory Queue Concurrency.

Open Scope Z_scope.

Section Interference.
Context {HS : HandlerSig} {RS : RedisServer} {RG : Redigo} {DB : Database} {EV : Env}.
Context {UT : UnicodeTables} {RL : RedisLaws RS}.

(** [sure Q n p]: when the next id is the [n]-th, [p] returns, and the
    commands it sends (with their replies), the next id and the value it
    returns satisfy [Q]. Programs with other effects than commands, clock
    readings, ids and sleeps are not spoken of. *)
Fixpoint sure {A} (Q : list (cmd * reply) -> nat -> A -> Prop) (n : nat) (p : prog A) : Prop :=
  match p with
  | Ret a => Q [] n a
  | Panic _ => False
  | Op e k =>
      match e as e return (resp e -> prog A) -> Prop with
      | EDo c => fun k => forall m r, answers c m r -> sure (fun l => Q ((c, r) :: l)) n (k r)
      | ENow => fun k => forall i, sure Q n (k (clock i))
      | EUuid => fun k => sure Q (S n) (k (uuids n))
      | ESleep _ => fun k => sure Q n (k tt)
      | _ => fun _ => False
      end k
  end.

Lemma sure_mono {A} (Q R : list (cmd * reply) -> nat -> A -> Prop) n (p : prog A) :
  (forall l n' a, Q l n' a -> R l n' a) -> sure Q n p -> sure R n p.
Proof.
  revert Q R n. induction p as [a|m|e k IH]; intros Q R n H; cbn [sure]; [apply H|done|].
  destruct e; try done.
  - intros Hs i. by eapply IH.
  - by apply IH.
  - by apply IH.
  - intros Hs m r Hr. eapply (IH r (fun l => Q ((c, r) :: l))); [|by eapply Hs]. intros l. apply H.
Qed.

Lemma sure_bind {A B} Q n (p : prog A) (f : A -> prog B) :
  sure (fun l n' a => sure (fun l' => Q (l ++ l')) n' (f a)) n p -> sure Q n (pbind p f).
Proof.
  revert Q n. induction p as [a|m|e k IH]; intros Q n; cbn [sure pbind]; [done|done|].
  destruct e; try done.
  - intros Hs i. by apply IH.
  - by apply IH.
  - by apply IH.
  - intros Hs m r Hr. apply IH. by eapply Hs.
Qed.

(** ** The program's own steps *)

Lemma sure_eff {A} Q e (k : resp e -> prog A) r w w' :
  no_command e -> handle e w = (Ok r, w') -> healthy (w_redis w) -> sure Q (w_uuid w) (Op e k) ->
  healthy (w_redis w') /\ w_handlers w' = w_handlers w /\ sure Q (w_uuid w') (k r).
Proof.
  intros He Hh Hw Hs. destruct e; try done; cbn in Hh, Hs; injection Hh as <- <-; by split_and!.
Qed.

Lemma sure_do {A} Q c (k : reply -> prog A) r s' w :
  redis_do c (w_redis w) = (r, s') -> healthy (w_redis w) -> sure Q (w_uuid w) (Op (EDo c) k) ->
  healthy s' /\ sure (fun l => Q ((c, r) :: l)) (w_uuid w) (k r).
Proof.
  intros Hdo Hw Hs. destruct (healthy_do _ _ _ _ Hw Hdo) as (Hh & _ & Ha). split; [done|]. by eapply Hs.
Qed.

(** It is never stuck and does not panic. *)
Lemma sure_enabled {A} Q e (k : resp e -> prog A) w :
  sure Q (w_uuid w) (Op e k) -> solo e = true /\ exists r w', handle e w = (Ok r, w').
Proof.
  intros Hs. destruct e; try done; cbn; try by eauto.
  destruct (redis_do c (w_redis w)); eauto.
Qed.

(** ** The steps of the others *)

(** Effects that draw no id, start nothing and use no channel. *)
Definition bystander (e : eff) : Prop :=
  match e with EUuid | EGo _ | ESend _ | ERecv => False | _ => True end.

Lemma worker_bystander fuel q id : q_Backend q = "redis" -> emits bystander (worker fuel q id).
Proof.
  intros Hb. unfold worker. rewrite Hb. change (String.eqb "redis" "memory") with false.
  change (String.eqb "redis" "redis") with true. cbv iota.
  assert (Hk : forall v, emits bystander (processKey q v)).
  { intros v. unfold processKey, getRedisValue, handleRedisJob, run_registered, completeRedisJob,
      requeueRedisJob, failRedisJob, retry_gate, setRedisKey. emit; done. }
  assert (Hp : forall data, emits bystander (processPage q data)).
  { induction data as [|v data IH]; cbn [processPage]; emit; done || apply Hk || apply IH. }
  assert (Hs : forall n c, emits bystander (scanLoop n q c)).
  { induction n as [|n IH]; intros c; cbn [scanLoop]; emit; done || apply Hp || apply IH. }
  emit; done || apply Hs.
Qed.

Lemma reaper_bystander fuel n q : emits bystander (reapStaleLocks fuel n q).
Proof.
  assert (Hk : forall v t, emits bystander (reapKey q v t)).
  { intros v t. unfold reapKey, requeueExpiredLock, getRedisValue, setRedisKey. emit; done. }
  assert (Hp : forall data t, emits bystander (reapPage q data t)).
  { induction data as [|v data IH]; intros t; cbn [reapPage]; emit; done || apply Hk || apply IH. }
  assert (Hs : forall m c t, emits bystander (reapScan m q c t)).
  { induction m as [|m IH]; intros c t; cbn [reapScan]; emit; done || apply Hp || apply IH. }
  assert (Hl : forall m, emits bystander (reaperLoop m n q)).
  { induction m as [|m IH]; cbn [reaperLoop]; unfold runReaperTick; emit; done || apply Hs || apply IH. }
  unfold reapStaleLocks. emit; done || apply Hl.
Qed.

Definition no_send (g : goroutine) : Prop := match g with GSend _ _ => False | _ => True end.

Lemma goroutine_bystander fuel q g :
  q_Backend q = "redis" -> no_send g -> emits bystander (goroutine_prog fuel q g).
Proof.
  intros Hb Hg. destruct g as [d j|id|]; [done|..]; cbn [goroutine_prog].
  - apply emits_bind; [by apply worker_bystander|done].
  - apply emits_bind; [apply reaper_bystander|]. by intros [].
Qed.

Lemma handle_bystander e w r w' :
  bystander e -> handle e w = (Ok r, w') -> healthy (w_redis w) ->
  healthy (w_redis w') /\ w_uuid w' = w_uuid w /\ w_handlers w' = w_handlers w.
Proof.
  intros He Hh Hw. destruct e; try done; cbn in Hh; repeat case_match; simplify_eq/=; try done.
  match goal with H : redis_do _ _ = _ |- _ => by destruct (healthy_do _ _ _ _ Hw H) end.
Qed.

Lemma step_bystander spawn ts w ts' w' :
  step spawn (ts, w) (ts', w') -> Forall (emits bystander) ts -> healthy (w_redis w) ->
  Forall (emits bystander) ts' /\ healthy (w_redis w') /\ w_uuid w' = w_uuid w /\
  w_handlers w' = w_handlers w.
Proof.
  intros Hs Hall Hw.
  assert (Hget : forall i t, ts !! i = Some t -> emits bystander t)
    by (intros i t Hi; rewrite Forall_lookup in Hall; eauto).
  inversion Hs as [? ? i e k r ? Hi Hso Hh|? ? i g k Hi|? ? i j x k k' Hij Hc Hi Hj|? ? i k Hc Hi]; subst;
    destruct (Hget _ _ Hi) as [He Hk]; try done.
  split; [apply Forall_insert; [exact Hall|exact (Hk r)]|]. exact (handle_bystander e w r w' He Hh Hw).
Qed.

End Interference.
