(* ===== verification/BenchJobs.v ===== *)
(** * Bench jobs (internal/bench/benchjobs)

    The fifteen handlers of the bench harness and the constructors of their
    jobs. The handlers share the package's counters: [AlwaysErrorAttempts]
    and [flakyAttempts], a map from job ids to cells that count attempts.
    What a handler prints and how long it sleeps is recorded in the order it
    does so; readings of the clock and of the random generator are numbered.

    The handlers are the instance [benchSig] of the interface that the queue
    calls (Types.v), so the theorems on the queue apply to them. *)

From stdpp Require Import base gmap strings list.
From Stdlib Require Import ZArith Ascii Lia.
From S2P Require Import Prelude GoString GoTime Types Services Effects RefServices GoJson GoUtf8 GoJsonText GoJsonCodec.

Open Scope Z_scope.

(** ** State *)

Section Bench.
Context {JL : JsonLib} {EV : Env}.

(** The generator of math/rand/v2: the n-th value it draws. *)
Class Rand := {
  rand_Float64 : nat -> float64;
  rand_IntN : nat -> Z -> Z; (* with the bound *)
}.

(** An argument of Printf. *)
Inductive arg :=
| AStr (s : string)
| AInt (z : Z)
| ADur (d : Duration)
| AFloat (x : float64)
| AStrs (l : list string).

(** What a handler does that others see. *)
Inductive act :=
| Printf (format : string) (args : list arg)
| Slept (d : Duration).

Record bench := mkBench {
  b_AlwaysErrorAttempts : Z;
  b_flakyAttempts : gmap string nat; (* ids to the addresses of counters *)
  b_cells : list Z; (* the counters, by address *)
  b_clock : nat; (* readings of the clock so far *)
  b_rand : nat; (* random values drawn so far *)
  b_acts : list act;
}.

Definition put_attempts (v : Z) (b : bench) : bench :=
  mkBench v (b_flakyAttempts b) (b_cells b) (b_clock b) (b_rand b) (b_acts b).
Definition put_flaky (v : gmap string nat) (b : bench) : bench :=
  mkBench (b_AlwaysErrorAttempts b) v (b_cells b) (b_clock b) (b_rand b) (b_acts b).
Definition put_cells (v : list Z) (b : bench) : bench :=
  mkBench (b_AlwaysErrorAttempts b) (b_flakyAttempts b) v (b_clock b) (b_rand b) (b_acts b).
Definition act_on (a : act) (b : bench) : bench :=
  mkBench (b_AlwaysErrorAttempts b) (b_flakyAttempts b) (b_cells b) (b_clock b) (b_rand b) (b_acts b ++ [a]).
Definition tick (b : bench) : bench :=
  mkBench (b_AlwaysErrorAttempts b) (b_flakyAttempts b) (b_cells b) (S (b_clock b)) (b_rand b) (b_acts b).
Definition draw (b : bench) : bench :=
  mkBench (b_AlwaysErrorAttempts b) (b_flakyAttempts b) (b_cells b) (b_clock b) (S (b_rand b)) (b_acts b).

(** A format that ends its line. *)
Definition ln (f : string) : string := f +:+ str1 (ascii_of_nat 10).
Definition printf (f : string) (args : list arg) (b : bench) : bench := act_on (Printf f args) b.

(** [time.Now()] and [time.Since(start)]: the reading and the state. *)
Definition now (b : bench) : gotime * bench := (clock (b_clock b), tick b).
Definition since (start : gotime) (b : bench) : Duration * bench :=
  (Sub (clock (b_clock b)) start, tick b).

(** [time.Duration(n) * time.Millisecond] *)
Definition Millisecond : Duration := 1000000.
Definition millis (n : Z) : Duration := wrap64 (n * Millisecond).

(** The argument of a handler: a byte slice, or a value of another type
    (with what [%T] prints). *)
Inductive iface :=
| IBytes (b : option string)
| IOther (T : string).

(** How a call of a handler ends: it returns (or panics, which the queue
    recovers from), a goroutine of its own panics and takes the process
    down, or it does not return. *)
Inductive hres :=
| Returns (o : outcome) (b : bench)
| Crashes (msg : string)
| Stuck.

(** The first lines of every handler but one: the assertion on the type of
    the payload, and [json.Unmarshal]. *)
Definition with_payload {A} (c : codec A) (T tag : string) (payload : iface) (b : bench)
    (body : A -> hres) : hres :=
  match payload with
  | IOther ty => Returns (HErr (tag +:+ ": payload not []byte, got " +:+ ty)) b
  | IBytes raw =>
      match Unmarshal c T raw with
      | inl err => Returns (HErr (tag +:+ ": unmarshal: " +:+ err)) b
      | inr p => body p
      end
  end.

(** ** Simple handlers *)

(** Structs with one string or one int. *)
Definition c_one_string (name : string) : codec string :=
  c_struct EmptyString [fld c_string name false (fun s => s) (fun v _ => v)].
Definition c_one_int (name : string) : codec Z :=
  c_struct 0 [fld c_int name false (fun s => s) (fun v _ => v)].

(** Structs with one field are that field. *)
Definition HelloPayload : codec string := c_one_string "name".

Definition HelloHandler (payload : iface) (b : bench) : hres :=
  with_payload HelloPayload "HelloPayload" "hello" payload b (fun name =>
    Returns HOk (printf (ln "hello, %s") [AStr name] b)).

Record SumPayload := mkSum { sum_A : Z; sum_B : Z }.
Definition c_SumPayload : codec SumPayload :=
  c_struct (mkSum 0 0)
    [fld c_int "a" false sum_A (fun v s => mkSum v (sum_B s));
     fld c_int "b" false sum_B (fun v s => mkSum (sum_A s) v)].

Definition SumHandler (payload : iface) (b : bench) : hres :=
  with_payload c_SumPayload "SumPayload" "sum" payload b (fun p =>
    Returns HOk (printf (ln "sum: %d + %d = %d")
      [AInt (sum_A p); AInt (sum_B p); AInt (wrap64 (sum_A p + sum_B p))] b)).

Definition CounterPayload : codec Z := c_one_int "n".

(** [for i := 0; i <= p.N; i++], one unit of fuel per test; [None] when the
    fuel runs out. *)
Fixpoint counter_loop (fuel : nat) (i n : Z) (b : bench) : option bench :=
  match fuel with
  | O => None
  | S fuel' =>
      if i <=? n then counter_loop fuel' (wrap64 (i + 1)) n (printf (ln "counter: %d") [AInt i] b)
      else Some b
  end.

Definition CounterHandler (fuel : nat) (payload : iface) (b : bench) : hres :=
  with_payload CounterPayload "CounterPayload" "counter" payload b (fun n =>
    match counter_loop fuel 0 n b with
    | Some b' => Returns HOk b'
    | None => Stuck
    end).

(** ** Slow handlers *)

Definition SleepPayload : codec Z := c_one_int "millis".

Definition SleepHandler (payload : iface) (b : bench) : hres :=
  with_payload SleepPayload "SleepPayload" "sleep" payload b (fun ms =>
    let '(start, b) := now b in
    let b := act_on (Slept (millis ms)) b in
    let '(d, b) := since start b in
    Returns HOk (printf (ln "slept %dms (actual %s)") [AInt ms; ADur d] b)).

Definition BusyLoopPayload : codec Z := c_one_int "iterations".

(** [n] turns of the loop, the first with index [i]. *)
Fixpoint busy_loop (n : nat) (i sink : Z) : Z :=
  match n with
  | O => sink
  | S n' => busy_loop n' (i + 1) (wrapU64 (wrapU64 (wrapU64 (sink * 1664525) + wrapU64 i) + 1013904223))
  end.

Definition BusyLoopHandler (payload : iface) (b : bench) : hres :=
  with_payload BusyLoopPayload "BusyLoopPayload" "busyLoop" payload b (fun iterations =>
    let '(start, b) := now b in
    let sink := busy_loop (Z.to_nat iterations) 0 0 in
    let '(d, b) := since start b in
    Returns HOk (printf (ln "busyLoop: %d iters, sink=%d, elapsed=%s")
      [AInt iterations; AInt sink; ADur d] b)).

Record FanoutPayload := mkFanout { fan_Workers : Z; fan_DelayMs : Z }.
Definition c_FanoutPayload : codec FanoutPayload :=
  c_struct (mkFanout 0 0)
    [fld c_int "workers" false fan_Workers (fun v s => mkFanout v (fan_DelayMs s));
     fld c_int "delay_ms" false fan_DelayMs (fun v s => mkFanout (fan_Workers s) v)].

(** The counter of a [sync.WaitGroup] has 32 bits. *)
Definition wrap32 (z : Z) : Z := (z + 2147483648) mod 4294967296 - 2147483648.

(** The goroutines sleep and call Done. The counter starts at [v]; with more
    goroutines than that one of them makes it negative and panics, with
    fewer the wait does not end. *)
Definition FanoutHandler (payload : iface) (b : bench) : hres :=
  with_payload c_FanoutPayload "FanoutPayload" "fanout" payload b (fun p =>
    let '(start, b) := now b in
    let v := wrap32 (fan_Workers p) in
    let workers := Z.max 0 (fan_Workers p) in
    if v <? 0 then Returns (HPanic "sync: negative WaitGroup counter") b
    else if v <? workers then Crashes "sync: negative WaitGroup counter"
    else if workers <? v then Stuck
    else
      let b := foldr act_on b (replicate (Z.to_nat workers) (Slept (millis (fan_DelayMs p)))) in
      let '(d, b) := since start b in
      Returns HOk (printf (ln "fanout: %d workers, %dms delay, elapsed=%s")
        [AInt (fan_Workers p); AInt (fan_DelayMs p); ADur d] b)).

(** ** Failing handlers *)

Definition AlwaysErrorPayload : codec string := c_one_string "msg".

Definition AlwaysErrorHandler (payload : iface) (b : bench) : hres :=
  with_payload AlwaysErrorPayload "AlwaysErrorPayload" "alwaysError" payload b (fun msg =>
    let n := wrap64 (b_AlwaysErrorAttempts b + 1) in
    let b := put_attempts n b in
    let b := if Z.rem n 100 =? 0
             then printf (ln "alwaysError: %d total handler invocations so far") [AInt n] b else b in
    Returns (HErr msg) b).

Definition PanicPayload : codec string := c_one_string "msg".

Definition PanicHandler (payload : iface) (b : bench) : hres :=
  with_payload PanicPayload "PanicPayload" "panic" payload b (fun msg => Returns (HPanic msg) b).

Definition NilDerefHandler (payload : iface) (b : bench) : hres :=
  Returns (HPanic "runtime error: invalid memory address or nil pointer dereference") b.

(** ** Flaky handlers *)

(** [flakyAttempts.LoadOrStore(id, addr)] *)
Definition LoadOrStore (id : string) (addr : nat) (b : bench) : nat * bench :=
  match b_flakyAttempts b !! id with
  | Some actual => (actual, b)
  | None => (addr, put_flaky (<[id := addr]> (b_flakyAttempts b)) b)
  end.

(** A new variable that holds zero. *)
Definition new_zero (b : bench) : nat * bench := (length (b_cells b), put_cells (b_cells b ++ [0]) b).

Definition loadOrCreateCounter (id : string) (b : bench) : nat * bench :=
  match b_flakyAttempts b !! id with
  | Some v => (v, b)
  | None => let '(zero, b) := new_zero b in LoadOrStore id zero b
  end.

(** [atomic.AddInt64(addr, 1)] *)
Definition AddInt64 (addr : nat) (b : bench) : Z * bench :=
  let n := wrap64 (default 0 (b_cells b !! addr) + 1) in
  (n, put_cells (<[addr := n]> (b_cells b)) b).

Record FailThenSucceedPayload := mkFTS { fts_ID : string; fts_FailTimes : Z }.
Definition c_FailThenSucceedPayload : codec FailThenSucceedPayload :=
  c_struct (mkFTS EmptyString 0)
    [fld c_string "id" false fts_ID (fun v s => mkFTS v (fts_FailTimes s));
     fld c_int "fail_times" false fts_FailTimes (fun v s => mkFTS (fts_ID s) v)].

Definition FailThenSucceedHandler (payload : iface) (b : bench) : hres :=
  with_payload c_FailThenSucceedPayload "FailThenSucceedPayload" "failThenSucceed" payload b (fun p =>
    if String.eqb (fts_ID p) EmptyString then Returns (HErr "failThenSucceed: empty ID") b
    else
      let '(addr, b) := loadOrCreateCounter (fts_ID p) b in
      let '(attempt, b) := AddInt64 addr b in
      if attempt <=? fts_FailTimes p then
        Returns (HErr ("planned failure on attempt " +:+ Itoa attempt))
          (printf (ln "failThenSucceed[%s]: attempt %d — forcing failure") [AStr (fts_ID p); AInt attempt] b)
      else
        Returns HOk (printf (ln "failThenSucceed[%s]: attempt %d — success") [AStr (fts_ID p); AInt attempt] b)).

Record IntermittentPayload := mkInter { int_ID : string; int_P : float64 }.
Definition c_IntermittentPayload : codec IntermittentPayload :=
  c_struct (mkInter EmptyString float_zero)
    [fld c_string "id" false int_ID (fun v s => mkInter v (int_P s));
     fld c_float "p" false int_P (fun v s => mkInter (int_ID s) v)].

Definition IntermittentHandler {RN : Rand} (payload : iface) (b : bench) : hres :=
  with_payload c_IntermittentPayload "IntermittentPayload" "intermittent" payload b (fun p =>
    if String.eqb (int_ID p) EmptyString then Returns (HErr "intermittent: empty ID") b
    else
      let '(addr, b) := loadOrCreateCounter (int_ID p) b in
      let '(attempt, b) := AddInt64 addr b in
      let roll := rand_Float64 (b_rand b) in
      let b := draw b in
      if float_leb (int_P p) roll then
        Returns (HErr ("RNG failure on attempt " +:+ Itoa attempt))
          (printf (ln "intermittent[%s]: attempt %d, roll=%.3f >= p=%.3f — fail")
             [AStr (int_ID p); AInt attempt; AFloat roll; AFloat (int_P p)] b)
      else
        Returns HOk (printf (ln "intermittent[%s]: attempt %d, roll=%.3f < p=%.3f — success")
          [AStr (int_ID p); AInt attempt; AFloat roll; AFloat (int_P p)] b)).

Definition maxAttemptsForExhaust : Z := 3.

Definition ExhaustRetriesPayload : codec string := c_one_string "id".

Definition ExhaustRetriesHandler (payload : iface) (b : bench) : hres :=
  with_payload ExhaustRetriesPayload "ExhaustRetriesPayload" "exhaustRetries" payload b (fun id =>
    if String.eqb id EmptyString then Returns (HErr "exhaustRetries: empty ID") b
    else
      let '(addr, b) := loadOrCreateCounter id b in
      let '(attempt, b) := AddInt64 addr b in
      let b :=
        if maxAttemptsForExhaust <? attempt then
          printf (ln "exhaustRetries[%s]: attempt %d — giving up (exceeded MaxAttempts=%d)")
            [AStr id; AInt attempt; AInt maxAttemptsForExhaust] b
        else printf (ln "exhaustRetries[%s]: attempt %d/%d")
            [AStr id; AInt attempt; AInt maxAttemptsForExhaust] b in
      Returns (HErr ("exhaustRetries: permanent failure on attempt " +:+ Itoa attempt)) b).

(** ** Payload handlers *)

Definition LargePayload : codec string := c_one_string "data".

Definition LargePayloadHandler (payload : iface) (b : bench) : hres :=
  with_payload LargePayload "LargePayload" "large" payload b (fun data =>
    Returns HOk (printf (ln "large: received %d bytes of data") [AInt (Z.of_nat (String.length data))] b)).

Record UnicodePayload := mkUnicode { uni_Text : string; uni_Emoji : string; uni_Lang : string }.
Definition c_UnicodePayload : codec UnicodePayload :=
  c_struct (mkUnicode EmptyString EmptyString EmptyString)
    [fld c_string "text" false uni_Text (fun v s => mkUnicode v (uni_Emoji s) (uni_Lang s));
     fld c_string "emoji" false uni_Emoji (fun v s => mkUnicode (uni_Text s) v (uni_Lang s));
     fld c_string "lang" false uni_Lang (fun v s => mkUnicode (uni_Text s) (uni_Emoji s) v)].

Definition text_args (s : string) : list arg :=
  [AStr s; AInt (Z.of_nat (String.length s)); AInt (RuneCountInString s)].

Definition UnicodeHandler (payload : iface) (b : bench) : hres :=
  with_payload c_UnicodePayload "UnicodePayload" "unicode" payload b (fun p =>
    let b := printf (ln "unicode.text  : %q bytes=%d runes=%d") (text_args (uni_Text p)) b in
    let b := printf (ln "unicode.emoji : %q bytes=%d runes=%d") (text_args (uni_Emoji p)) b in
    let b := printf (ln "unicode.lang  : %q bytes=%d runes=%d") (text_args (uni_Lang p)) b in
    Returns HOk b).

Record NestedLevel5 := mkLevel5 { l5_Leaf : string }.
Record NestedLevel4 := mkLevel4 { l4_Level5 : option NestedLevel5 }.
Record NestedLevel3 := mkLevel3 {
  l3_Level4 : NestedLevel4;
  l3_Tags : slice string;
  l3_Metric : option (gmap string Z);
}.
Record NestedLevel2 := mkLevel2 {
  l2_Level3 : NestedLevel3;
  l2_Rows : slice (option (gmap string Z));
  l2_IntMap : option (gmap string string);
}.
Record NestedLevel1 := mkLevel1 {
  l1_Level2 : NestedLevel2;
  l1_Timestamp : gotime;
  l1_NullPtr : option Z;
}.
Record NestedPayload := mkNested { np_Level1 : NestedLevel1 }.

Definition c_Level5 : codec NestedLevel5 :=
  c_struct (mkLevel5 EmptyString) [fld c_string "leaf" true l5_Leaf (fun v _ => mkLevel5 v)].
Definition c_Level4 : codec NestedLevel4 :=
  c_struct (mkLevel4 None) [fld (c_ptr c_Level5) "level5" true l4_Level5 (fun v _ => mkLevel4 v)].
Definition c_Level3 : codec NestedLevel3 :=
  c_struct (mkLevel3 (zero c_Level4) nil_slice None)
    [fld c_Level4 "level4" false l3_Level4 (fun v s => mkLevel3 v (l3_Tags s) (l3_Metric s));
     fld (c_slice c_string) "tags" true l3_Tags (fun v s => mkLevel3 (l3_Level4 s) v (l3_Metric s));
     fld (c_map c_int) "metric" true l3_Metric (fun v s => mkLevel3 (l3_Level4 s) (l3_Tags s) v)].
Definition c_Level2 : codec NestedLevel2 :=
  c_struct (mkLevel2 (zero c_Level3) nil_slice None)
    [fld c_Level3 "level3" false l2_Level3 (fun v s => mkLevel2 v (l2_Rows s) (l2_IntMap s));
     fld (c_slice (c_map c_int)) "rows" true l2_Rows (fun v s => mkLevel2 (l2_Level3 s) v (l2_IntMap s));
     fld (c_map c_string) "int_map" true l2_IntMap (fun v s => mkLevel2 (l2_Level3 s) (l2_Rows s) v)].
Definition c_Level1 : codec NestedLevel1 :=
  c_struct (mkLevel1 (zero c_Level2) zeroTime None)
    [fld c_Level2 "level2" false l1_Level2 (fun v s => mkLevel1 v (l1_Timestamp s) (l1_NullPtr s));
     fld c_time "timestamp" false l1_Timestamp (fun v s => mkLevel1 (l1_Level2 s) v (l1_NullPtr s));
     fld (c_ptr c_int) "null_ptr" true l1_NullPtr (fun v s => mkLevel1 (l1_Level2 s) (l1_Timestamp s) v)].
Definition c_NestedPayload : codec NestedPayload :=
  c_struct (mkNested (zero c_Level1)) [fld c_Level1 "level1" false np_Level1 (fun v _ => mkNested v)].

Definition NestedHandler (payload : iface) (b : bench) : hres :=
  with_payload c_NestedPayload "NestedPayload" "nested" payload b (fun p =>
    let l1 := np_Level1 p in
    let l2 := l1_Level2 l1 in
    let leaf := match l4_Level5 (l3_Level4 (l2_Level3 l2)) with
                | Some l5 => l5_Leaf l5
                | None => EmptyString
                end in
    Returns HOk (printf (ln "nested: ts=%s leaf=%q rows=%d intMapLen=%d tags=%v")
      [AStr (Format (l1_Timestamp l1)); AStr leaf; AInt (slice_len (l2_Rows l2));
       AInt (Z.of_nat (size (default ∅ (l2_IntMap l2)))); AStrs (default [] (sl_elems (l3_Tags (l2_Level3 l2))))] b)).

(** ** The handlers as the queue sees them *)

Inductive benchHandler :=
| hHello | hSum | hCounter | hSleep | hBusyLoop | hFanout | hAlwaysError | hPanic | hNilDeref
| hFailThenSucceed | hIntermittent | hExhaustRetries | hLargePayload | hUnicode | hNested.

Definition run_handler {RN : Rand} (fuel : nat) (h : benchHandler) : iface -> bench -> hres :=
  match h with
  | hHello => HelloHandler
  | hSum => SumHandler
  | hCounter => CounterHandler fuel
  | hSleep => SleepHandler
  | hBusyLoop => BusyLoopHandler
  | hFanout => FanoutHandler
  | hAlwaysError => AlwaysErrorHandler
  | hPanic => PanicHandler
  | hNilDeref => NilDerefHandler
  | hFailThenSucceed => FailThenSucceedHandler
  | hIntermittent => IntermittentHandler
  | hExhaustRetries => ExhaustRetriesHandler
  | hLargePayload => LargePayloadHandler
  | hUnicode => UnicodeHandler
  | hNested => NestedHandler
  end.

End Bench.

#[export] Instance benchHandler_eq_dec : EqDecision benchHandler.
Proof. solve_decision. Defined.

(** The fuel of the loops in handlers. *)
Class Fuel := fuel : nat.

(** The handlers as an instance of the queue's interface. A call that has no
    outcome the queue could see (the process is gone, or it goes on for
    ever) is given a panic here, so that the function is total; the theorems
    say which calls return. *)
#[export] Instance benchSig {JL : JsonLib} {EV : Env} {RN : Rand} {FU : Fuel} : HandlerSig | 0 := {|
  handler_t := benchHandler;
  ctxhandler_t := Empty_set;
  app_t := bench;
  invoke h p b :=
    match run_handler fuel h (IBytes p) b with
    | Returns o b' => (o, b')
    | Crashes msg => (HPanic msg, b)
    | Stuck => (HPanic EmptyString, b)
    end;
  invoke_ctx h _ _ b := match h with end;
|}.

(** ** Constructors of jobs *)

Section Constructors.
Context {JL : JsonLib} {EV : Env} {RN : Rand} {FU : Fuel}.

(** The literal [&api.Job{Name, Payload, Handler, Queue, Retry, RetryInSeconds}]
    with the fields the constructors set. *)
Definition job_of (name : string) (raw : string) (h : benchHandler) (retry : bool) (seconds : Z) : Job :=
  set_Queue "job" (mkJob EmptyString (Some h) name (Some raw) retry seconds 0 EmptyString EmptyString
    EmptyString EmptyString EmptyString EmptyString 0 EmptyString zeroTime zeroTime EmptyString EmptyString).

(** The job once the payload is marshalled, or the error of that. *)
Definition marshalled {A} (c : codec A) (T : string) (v : A) (mk : string -> Job) : string + Job :=
  match Marshal c T v with
  | inl err => inl err
  | inr raw => inr (mk raw)
  end.

Definition NewHelloJob (name : string) : string + Job :=
  marshalled HelloPayload "HelloPayload" name (fun raw => job_of "hello-world" raw hHello false 0).

Definition NewSumJob (a b : Z) : string + Job :=
  marshalled c_SumPayload "SumPayload" (mkSum a b) (fun raw => job_of "simple-sum" raw hSum false 0).

Definition NewCounterJob (n : Z) : string + Job :=
  marshalled CounterPayload "CounterPayload" n (fun raw => job_of "simple-counter" raw hCounter false 0).

(** [d.Milliseconds()] *)
Definition Milliseconds (d : Duration) : Z := Z.quot d Millisecond.

Definition NewSleepJob (d : Duration) : string + Job :=
  marshalled SleepPayload "SleepPayload" (Milliseconds d) (fun raw => job_of "slow-sleep" raw hSleep false 0).

Definition NewBusyLoopJob (iterations : Z) : string + Job :=
  marshalled BusyLoopPayload "BusyLoopPayload" iterations
    (fun raw => job_of "slow-busy-loop" raw hBusyLoop false 0).

Definition NewFanoutJob (workers delayMs : Z) : string + Job :=
  marshalled c_FanoutPayload "FanoutPayload" (mkFanout workers delayMs)
    (fun raw => job_of "slow-fanout" raw hFanout false 0).

Definition NewAlwaysErrorJob (msg : string) : string + Job :=
  marshalled AlwaysErrorPayload "AlwaysErrorPayload" msg (fun raw => job_of "fail-error" raw hAlwaysError true 1).

Definition NewPanicJob (msg : string) : string + Job :=
  marshalled PanicPayload "PanicPayload" msg (fun raw => job_of "fail-panic" raw hPanic false 0).

Definition NewNilDerefJob : string + Job := inr (job_of "fail-nil-deref" "{}" hNilDeref false 0).

Definition NewFailThenSucceedJob (id : string) (failTimes : Z) : string + Job :=
  if String.eqb id EmptyString then inl "id is required"
  else marshalled c_FailThenSucceedPayload "FailThenSucceedPayload" (mkFTS id failTimes)
    (fun raw => job_of "flaky-fail-then-succeed" raw hFailThenSucceed true 1).

Definition NewIntermittentJob (id : string) (successProbability : float64) : string + Job :=
  if String.eqb id EmptyString then inl "id is required"
  else
    let p := successProbability in
    let p := if float_ltb p float_zero then float_zero
             else if float_ltb float_one p then float_one else p in
    marshalled c_IntermittentPayload "IntermittentPayload" (mkInter id p)
      (fun raw => job_of "flaky-intermittent" raw hIntermittent true 1).

Definition NewExhaustRetriesJob (id : string) : string + Job :=
  if String.eqb id EmptyString then inl "id is required"
  else marshalled ExhaustRetriesPayload "ExhaustRetriesPayload" id
    (fun raw => job_of "flaky-exhaust-retries" raw hExhaustRetries true 1).

(** [strings.Repeat(s, count)]; a length that memory cannot hold is not
    modelled. *)
Definition Repeat (s : string) (count : Z) : res string :=
  if count <? 0 then Panicked "strings: negative Repeat count"
  else Ok (concat_str (replicate (Z.to_nat count) s)).

Definition NewLargePayloadJob (sizeBytes : Z) : res (string + Job) :=
  match Repeat "A" sizeBytes with
  | Panicked m => Panicked m
  | Ok data => Ok (marshalled LargePayload "LargePayload" data
                     (fun raw => job_of "payload-large" raw hLargePayload false 0))
  end.

(** The zero-width joiner that the literals escape. *)
Definition zwj : string := EncodeRune 8205.

Definition unicodePayload : UnicodePayload :=
  mkUnicode
    ("hello مرحبا 你好 Здравствуйте café" +:+ zwj)
    ("👨" +:+ zwj +:+ "👩" +:+ zwj +:+ "👧 🏳️" +:+ zwj +:+ "🌈 🇺🇸")
    ("ASCII-1byte/rune; 漢=3bytes/1rune; 🇺🇸=8bytes/2runes").

Definition NewUnicodeJob : string + Job :=
  marshalled c_UnicodePayload "UnicodePayload" unicodePayload
    (fun raw => job_of "payload-unicode" raw hUnicode false 0).

(** The payload of [NewNestedPayloadJob] at a time. *)
Definition nestedPayload (t : gotime) : NestedPayload :=
  let intMap : gmap string string :=
    foldl (fun m i => <[Itoa i := "val-" +:+ Itoa i]> m) ∅ [1; 2; 3] in
  mkNested (mkLevel1
    (mkLevel2
       (mkLevel3
          (mkLevel4 (Some (mkLevel5 "bottom")))
          (slice_of ["alpha"; "beta"; "gamma"])
          (Some {["hits" := 42; "misses" := 7]}))
       (slice_of [Some {["a" := 1; "b" := 2]}; Some {["c" := 3; "d" := 4]}])
       (Some intMap))
    (UTC t) None).

(** [t] is the reading of the clock. *)
Definition NewNestedPayloadJob (t : gotime) : string + Job :=
  marshalled c_NestedPayload "NestedPayload" (nestedPayload t)
    (fun raw => job_of "payload-nested" raw hNested false 0).

End Constructors.
