(* ===== verification/RefBench.v ===== *)
(** * Reference instances for the bench jobs

    Executable instances of the float64 and error-text interface of
    GoJsonCodec.v and of the random generator, on which the witnesses of the
    bench jobs run. *)

From stdpp Require Import base gmap strings list.
From Stdlib Require Import ZArith Ascii Lia.
From S2P Require Import Prelude GoString GoTime Types Services Effects RefServices GoJson GoUtf8 GoJsonText GoJsonCodec BenchJobs.

Open Scope Z_scope.

(** Multiples of one half, and NaN as [None]; 0, 0.5 and 1 have literals. *)
Definition half_print (x : option Z) : option string :=
  match x with
  | Some 0 => Some "0"
  | Some 1 => Some "0.5"
  | Some 2 => Some "1"
  | _ => None
  end.

Definition half_parse (lit : string) : option (option Z) :=
  if String.eqb lit "0" then Some (Some 0)
  else if String.eqb lit "0.5" then Some (Some 1)
  else if String.eqb lit "1" then Some (Some 2)
  else None.

Definition half_cmp (f : Z -> Z -> bool) (x y : option Z) : bool :=
  match x, y with Some a, Some b => f a b | _, _ => false end.

#[export] Instance refJsonLib : JsonLib := {|
  unmarshal_error T raw := "json: cannot unmarshal into " +:+ T;
  marshal_error T := "json: unsupported value in " +:+ T;
  float64 := option Z;
  float_zero := Some 0;
  float_half := Some 1;
  float_one := Some 2;
  float_nan x := match x with None => true | Some _ => false end;
  float_ltb := half_cmp Z.ltb;
  float_leb := half_cmp Z.leb;
  float_print := half_print;
  float_parse := half_parse;
|}.

#[export] Instance refJsonLibLaws : JsonLibLaws refJsonLib.
Proof.
  split.
  - intros [[|[[]|[]|]|]|] lit [= <-]; (split; [|done]);
      [exists LZero|exists LInt|exists LFrac]; done.
  - by intros [].
  - intros [z|] H0 H1 H2; [|done]. cbn in H1, H2.
    apply Z.ltb_ge in H1, H2. assert (z = 0 \/ z = 1 \/ z = 2) as [->|[->| ->]] by lia; by eexists.
  - done.
Qed.

(** A generator that always draws one half, and a third of the bound. *)
#[export] Instance refRand : Rand := {|
  rand_Float64 _ := Some 1;
  rand_IntN _ n := n / 3;
|}.

#[export] Instance refFuel : Fuel := 100%nat.

(** The package's variables when the program starts. *)
Definition freshBench : bench := mkBench 0 ∅ [] 0 0 [].

(** An empty world for the bench handlers. *)
Definition benchWorld : world :=
  mkWorld (HS := benchSig) (mkRef ∅ []) (false, ∅) freshBench 0%nat 0%nat false false None zeroStats 0 []
    false [] [] [] 0 0.
