(* ===== verification/BenchRoundtrip.v ===== *)
(** * Payloads of the bench jobs read back

    For every constructor of benchjobs: the payload that it marshals is the
    one its handler unmarshals. *)

From stdpp Require Import base gmap strings list.
From Stdlib Require Import ZArith Ascii Lia.
From S2P Require Import Prelude GoString GoTime Types Services Effects RefServices GoJson GoUtf8 GoJsonText GoJsonCodec BenchJobs.

Open Scope Z_scope.

(** ** Structs of strings and integers *)

(** Stores the members of an object one after the other. *)
Ltac store_members := repeat (
  eapply eq_trans; [eapply store_fields_cons;
    [vm_compute; reflexivity|reflexivity|unfold fld; cbn [f_store]; autorewrite with adele; reflexivity]|]);
  try reflexivity.

(** A literal reads back: the shape of the proof for the flat structs. *)
Ltac flat_struct :=
  eexists; split; [reflexivity|]; split;
  [cbn [json_ok foldr fst snd]; repeat split; auto with adele|];
  split; [by apply Nat.leb_le|]; cbn [store c_struct]; store_members.

Lemma rt_one_string name s :
  ValidString name = true -> ValidString s = true ->
  field_for [fld c_string name false (fun s => s) (fun v (_ : string) => v)] name =
    Some (fld c_string name false (fun s => s) (fun v _ => v)) ->
  roundtrips (c_one_string name) s.
Proof.
  intros Hn Hs Hf. eexists. split; [reflexivity|]. split; [cbn [json_ok foldr fst snd]; repeat split; auto with adele|].
  split; [by apply Nat.leb_le|]. cbn [store c_one_string c_struct].
  erewrite store_fields_cons; [reflexivity|done|exact Hf|]. cbn [fld f_store]. by rewrite store_string.
Qed.

Lemma rt_one_int name z :
  ValidString name = true -> in_int64 z ->
  field_for [fld c_int name false (fun s => s) (fun v (_ : Z) => v)] name =
    Some (fld c_int name false (fun s => s) (fun v _ => v)) ->
  roundtrips (c_one_int name) z.
Proof.
  intros Hn Hs Hf. eexists. split; [reflexivity|]. split; [cbn [json_ok foldr fst snd]; repeat split; auto with adele|].
  split; [by apply Nat.leb_le|]. cbn [store c_one_int c_struct].
  erewrite store_fields_cons; [reflexivity|done|exact Hf|]. cbn [fld f_store]. by rewrite store_int.
Qed.

Lemma rt_Sum a b : in_int64 a -> in_int64 b -> roundtrips c_SumPayload (mkSum a b).
Proof. intros Ha Hb. flat_struct. Qed.

Lemma rt_Fanout w d : in_int64 w -> in_int64 d -> roundtrips c_FanoutPayload (mkFanout w d).
Proof. intros Hw Hd. flat_struct. Qed.

Lemma rt_FailThenSucceed id n : ValidString id = true -> in_int64 n ->
  roundtrips c_FailThenSucceedPayload (mkFTS id n).
Proof. intros Hi Hn. flat_struct. Qed.

Lemma rt_Unicode p : ValidString (uni_Text p) = true -> ValidString (uni_Emoji p) = true ->
  ValidString (uni_Lang p) = true -> roundtrips c_UnicodePayload p.
Proof. destruct p as [t e l]. cbn [uni_Text uni_Emoji uni_Lang]. intros H1 H2 H3. flat_struct. Qed.

Section Roundtrip.
Context {JL : JsonLib} {JW : JsonLibLaws JL} {EV : Env} {RN : Rand} {FU : Fuel}.

Lemma rt_Intermittent id p : ValidString id = true -> is_Some (float_print p) ->
  roundtrips c_IntermittentPayload (mkInter id p).
Proof.
  intros Hi [lit Hp]. destruct (float_print_ok _ _ Hp) as [Hok Hparse].
  assert (He : encode c_float p = Some (JNum lit)) by (cbn; by rewrite Hp).
  exists (JObj [(quote "id", JStr (quote id)); (quote "p", JNum lit)]). split.
  { unfold c_IntermittentPayload, fld.
    cbn [encode c_struct encode_fields f_encode f_name andb fmap option_fmap option_map int_P int_ID].
    by rewrite He. }
  split; [cbn [json_ok foldr fst snd]; repeat split; auto with adele|].
  split; [by apply Nat.leb_le|]. cbn [store c_IntermittentPayload c_struct zero].
  erewrite store_fields_cons; [|vm_compute; reflexivity|reflexivity|
    unfold fld; cbn [f_store]; by rewrite store_string].
  erewrite store_fields_cons; [reflexivity|vm_compute; reflexivity|reflexivity|].
  unfold fld. cbn [f_store store c_float]. by rewrite Hparse.
Qed.

(** ** The nested payload *)

Lemma codec_ok_Level2 : codec_ok c_Level2.
Proof.
  assert (H5 : codec_ok c_Level5) by (apply codec_ok_struct; repeat constructor; auto with adele).
  assert (H4 : codec_ok c_Level4) by (apply codec_ok_struct; repeat constructor; auto with adele).
  assert (H3 : codec_ok c_Level3) by (apply codec_ok_struct; repeat constructor; auto with adele).
  apply codec_ok_struct; repeat constructor; auto with adele.
Qed.

Lemma rt_Level2 t :
  exists j, encode c_Level2 (l1_Level2 (np_Level1 (nestedPayload t))) = Some j /\ (depth j <= 50)%nat /\
    store c_Level2 j (zero c_Level2) = Some (l1_Level2 (np_Level1 (nestedPayload t))).
Proof.
  cbn [nestedPayload np_Level1 l1_Level2]. set (l2 := mkLevel2 _ _ _).
  eexists. split; [vm_compute; reflexivity|]. split; [by apply Nat.leb_le|]. vm_compute. reflexivity.
Qed.

Lemma rt_Nested t : rfc3339_ok (UTC t) -> roundtrips c_NestedPayload (nestedPayload t).
Proof.
  intros Ht. destruct (rt_Level2 t) as (j2 & He2 & Hd2 & Hs2).
  destruct (store_time (UTC t) zeroTime Ht) as (jt & Het & Hst).
  set (l2 := l1_Level2 (np_Level1 (nestedPayload t))) in *.
  assert (E : nestedPayload t = mkNested (mkLevel1 l2 (UTC t) None)) by done. rewrite E. clearbody l2. clear E.
  set (j1 := JObj [(quote "level2", j2); (quote "timestamp", jt)]).
  assert (He1 : encode c_Level1 (mkLevel1 l2 (UTC t) None) = Some j1).
  { unfold c_Level1, fld.
    cbn [encode c_struct encode_fields f_encode f_name andb fmap option_fmap option_map l1_Level2
         l1_Timestamp l1_NullPtr is_empty c_ptr].
    rewrite He2, Het. reflexivity. }
  assert (Hs1 : store c_Level1 j1 (zero c_Level1) = Some (mkLevel1 l2 (UTC t) None)).
  { cbn [store c_Level1 c_struct j1].
    erewrite store_fields_cons; [|vm_compute; reflexivity|reflexivity|].
    2: { unfold fld. cbn [f_store]. change (l1_Level2 _) with (zero c_Level2). rewrite Hs2. reflexivity. }
    erewrite store_fields_cons; [|vm_compute; reflexivity|reflexivity|].
    2: { unfold fld. cbn [f_store]. change (store c_time jt _) with (store c_time jt zeroTime).
      rewrite Hst. reflexivity. }
    reflexivity. }
  exists (JObj [(quote "level1", j1)]). split.
  { unfold c_NestedPayload, fld.
    cbn [encode c_struct encode_fields f_encode f_name andb fmap option_fmap option_map np_Level1].
    rewrite He1. reflexivity. }
  split.
  { cbn [json_ok foldr fst snd j1]. repeat split; auto with adele;
      [by eapply codec_ok_Level2|by eapply codec_ok_time]. }
  split.
  { assert (depth jt = O) as Hjt by (revert Het; cbn [encode c_time]; case_match; [by intros [= <-]|done]).
    cbn [depth j1 foldr snd]. rewrite Hjt. lia. }
  cbn [store c_NestedPayload c_struct]. erewrite store_fields_cons; [|vm_compute; reflexivity|reflexivity|].
  2: { unfold fld. cbn [f_store]. change (np_Level1 _) with (zero c_Level1). rewrite Hs1. reflexivity. }
  reflexivity.
Qed.

End Roundtrip.
