(* ===== verification/BenchBehaviour.v ===== *)
(** * What the bench jobs do

    A [request] is a call of one of the constructors of benchjobs with its
    arguments. [expected] says, without JSON or addresses, what running the
    job once must do: its outcome and what it prints and sleeps. The
    theorems relate that to the jobs the constructors build and the handlers
    that run on their payloads. *)

From stdpp Require Import base gmap strings list list_numbers.
From Stdlib Require Import ZArith Ascii Lia.
From S2P Require Import Prelude GoString GoTime Types Services Effects RefServices GoJson GoUtf8 GoJsonText GoJsonCodec BenchJobs RefBench BenchRoundtrip.

Open Scope Z_scope.

(** ** The counters of attempts *)

Section Counters.
Context {JL : JsonLib} {EV : Env}.

(** The attempts counted for an id. *)
Definition attempts_of (id : string) (b : bench) : Z :=
  match b_flakyAttempts b !! id with
  | Some addr => default 0 (b_cells b !! addr)
  | None => 0
  end.

(** Every id has a cell of its own. *)
Definition bench_wf (b : bench) : Prop :=
  (forall id addr, b_flakyAttempts b !! id = Some addr -> (addr < length (b_cells b))%nat) /\
  (forall id id' addr, b_flakyAttempts b !! id = Some addr ->
     b_flakyAttempts b !! id' = Some addr -> id = id').

(** The number that an attempt gets, with the state after it. *)
Definition count_attempt (id : string) (b : bench) : Z * bench :=
  let '(addr, b) := loadOrCreateCounter id b in AddInt64 addr b.

Lemma count_attempt_value id b : (count_attempt id b).1 = wrap64 (attempts_of id b + 1).
Proof.
  unfold count_attempt, loadOrCreateCounter, attempts_of.
  destruct (b_flakyAttempts b !! id) as [addr|] eqn:E; [done|].
  cbn [new_zero]. unfold LoadOrStore. cbn [b_flakyAttempts put_cells]. rewrite E.
  unfold AddInt64. cbn [b_cells put_flaky put_cells fst].
  by rewrite list_lookup_middle.
Qed.

(** One attempt raises the count of its id and of no other. *)
Lemma count_attempt_spec id b : bench_wf b ->
  bench_wf (count_attempt id b).2 /\
  (forall id', attempts_of id' (count_attempt id b).2 =
     if String.eqb id' id then wrap64 (attempts_of id b + 1) else attempts_of id' b) /\
  b_acts (count_attempt id b).2 = b_acts b /\
  b_AlwaysErrorAttempts (count_attempt id b).2 = b_AlwaysErrorAttempts b /\
  b_rand (count_attempt id b).2 = b_rand b /\ b_clock (count_attempt id b).2 = b_clock b.
Proof.
  intros [Hlt Hinj]. unfold count_attempt, loadOrCreateCounter, attempts_of.
  destruct (b_flakyAttempts b !! id) as [addr|] eqn:E.
  - cbn. split_and!; try done.
    + split; cbn; [|exact Hinj]. intros id' a Ha. rewrite length_insert. by eapply Hlt.
    + intros id'. destruct (String.eqb_spec id' id) as [->|Hne].
      { rewrite E, list_lookup_insert, decide_True; [done|]. split; [done|]. by eapply Hlt. }
      destruct (b_flakyAttempts b !! id') as [a|] eqn:E'; [|done].
      rewrite list_lookup_insert_ne; [done|]. intros ->. by destruct Hne; eapply Hinj.
  - cbn [new_zero]. unfold LoadOrStore. cbn [b_flakyAttempts put_cells]. rewrite E.
    unfold AddInt64. cbn [b_cells put_flaky put_cells b_flakyAttempts snd].
    rewrite list_lookup_middle by done. change (default 0 (Some 0)) with 0.
    split_and!; try done.
    + split; cbn.
      * intros id' a. rewrite lookup_insert, length_insert, length_app. cbn.
        case_decide; [intros [= <-]; lia|]. intros Ha. apply Hlt in Ha. lia.
      * intros id1 id2 a. rewrite !lookup_insert. repeat case_decide; subst; try done.
        -- intros [= <-] Ha. apply Hlt in Ha. lia.
        -- intros Ha [= <-]. apply Hlt in Ha. lia.
        -- by apply Hinj.
    + intros id'. rewrite lookup_insert. destruct (String.eqb_spec id' id) as [->|Hne].
      { rewrite decide_True by done. rewrite list_lookup_insert, decide_True; [done|].
        rewrite length_app. cbn. lia. }
      rewrite decide_False by congruence. destruct (b_flakyAttempts b !! id') as [a|] eqn:E'; [|done].
      apply Hlt in E'. rewrite list_lookup_insert_ne by lia. by rewrite lookup_app_l.
Qed.

(** Effects of a handler that leave the counters alone. *)
Lemma attempts_of_same b b' :
  b_flakyAttempts b' = b_flakyAttempts b -> b_cells b' = b_cells b ->
  (bench_wf b -> bench_wf b') /\ forall id, attempts_of id b' = attempts_of id b.
Proof. unfold bench_wf, attempts_of. intros -> ->. done. Qed.

End Counters.

(** ** Requests *)

Section Behaviour.
Context {JL : JsonLib} {EV : Env} {RN : Rand} {FU : Fuel}.

Inductive request :=
| RHello (name : string)
| RSum (a b : Z)
| RCounter (n : Z)
| RSleep (d : Duration)
| RBusyLoop (iterations : Z)
| RFanout (workers delayMs : Z)
| RAlwaysError (msg : string)
| RPanic (msg : string)
| RNilDeref
| RFailThenSucceed (id : string) (failTimes : Z)
| RIntermittent (id : string) (p : float64)
| RExhaustRetries (id : string)
| RLarge (sizeBytes : Z)
| RUnicode
| RNested (t : gotime).

(** The constructor that a request calls. *)
Definition build (r : request) : res (string + Job) :=
  match r with
  | RHello name => Ok (NewHelloJob name)
  | RSum a b => Ok (NewSumJob a b)
  | RCounter n => Ok (NewCounterJob n)
  | RSleep d => Ok (NewSleepJob d)
  | RBusyLoop n => Ok (NewBusyLoopJob n)
  | RFanout w d => Ok (NewFanoutJob w d)
  | RAlwaysError msg => Ok (NewAlwaysErrorJob msg)
  | RPanic msg => Ok (NewPanicJob msg)
  | RNilDeref => Ok NewNilDerefJob
  | RFailThenSucceed id n => Ok (NewFailThenSucceedJob id n)
  | RIntermittent id p => Ok (NewIntermittentJob id p)
  | RExhaustRetries id => Ok (NewExhaustRetriesJob id)
  | RLarge n => NewLargePayloadJob n
  | RUnicode => Ok NewUnicodeJob
  | RNested t => Ok (NewNestedPayloadJob t)
  end.

(** Arguments that the job carries without loss and that its handler
    returns on. *)
Definition good (r : request) : Prop :=
  match r with
  | RHello s | RAlwaysError s | RPanic s => ValidString s = true
  | RSum a b => in_int64 a /\ in_int64 b
  | RCounter n => in_int64 n /\ n < two63 - 1
  | RSleep d => in_int64 d
  | RBusyLoop n => in_int64 n
  | RFanout w d => 0 <= w < 2147483648 /\ in_int64 d
  | RNilDeref | RUnicode => True
  | RFailThenSucceed id n => ValidString id = true /\ id <> EmptyString /\ in_int64 n
  | RIntermittent id p => ValidString id = true /\ id <> EmptyString /\ float_nan p = false
  | RExhaustRetries id => ValidString id = true /\ id <> EmptyString
  | RLarge n => 0 <= n
  | RNested t => rfc3339_ok (UTC t)
  end.

Definition clamp (p : float64) : float64 :=
  if float_ltb p float_zero then float_zero else if float_ltb float_one p then float_one else p.

(** Between two readings of the clock. *)
Definition elapsed (b : bench) : Duration := Sub (clock (S (b_clock b))) (clock (b_clock b)).

(** The id whose attempts the request counts. *)
Definition counts (r : request) : option string :=
  match r with
  | RFailThenSucceed id _ | RIntermittent id _ | RExhaustRetries id => Some id
  | _ => None
  end.

(** What one run of the job does. *)
Definition expected (r : request) (b : bench) : outcome * list act :=
  match r with
  | RHello name => (HOk, [Printf (ln "hello, %s") [AStr name]])
  | RSum a c => (HOk, [Printf (ln "sum: %d + %d = %d") [AInt a; AInt c; AInt (wrap64 (a + c))]])
  | RCounter n => (HOk, (fun i => Printf (ln "counter: %d") [AInt i]) <$> seqZ 0 (n + 1))
  | RSleep d =>
      let ms := Z.quot d Millisecond in
      (HOk, [Slept (ms * Millisecond);
             Printf (ln "slept %dms (actual %s)") [AInt ms; ADur (elapsed b)]])
  | RBusyLoop n =>
      (HOk, [Printf (ln "busyLoop: %d iters, sink=%d, elapsed=%s")
               [AInt n; AInt (busy_loop (Z.to_nat n) 0 0); ADur (elapsed b)]])
  | RFanout w d =>
      (HOk, replicate (Z.to_nat w) (Slept (millis d)) ++
            [Printf (ln "fanout: %d workers, %dms delay, elapsed=%s") [AInt w; AInt d; ADur (elapsed b)]])
  | RAlwaysError msg =>
      let n := wrap64 (b_AlwaysErrorAttempts b + 1) in
      (HErr msg, if Z.rem n 100 =? 0
                 then [Printf (ln "alwaysError: %d total handler invocations so far") [AInt n]] else [])
  | RPanic msg => (HPanic msg, [])
  | RNilDeref => (HPanic "runtime error: invalid memory address or nil pointer dereference", [])
  | RFailThenSucceed id k =>
      let n := wrap64 (attempts_of id b + 1) in
      if n <=? k then
        (HErr ("planned failure on attempt " +:+ Itoa n),
         [Printf (ln "failThenSucceed[%s]: attempt %d — forcing failure") [AStr id; AInt n]])
      else (HOk, [Printf (ln "failThenSucceed[%s]: attempt %d — success") [AStr id; AInt n]])
  | RIntermittent id p =>
      let n := wrap64 (attempts_of id b + 1) in
      let roll := rand_Float64 (b_rand b) in
      if float_leb (clamp p) roll then
        (HErr ("RNG failure on attempt " +:+ Itoa n),
         [Printf (ln "intermittent[%s]: attempt %d, roll=%.3f >= p=%.3f — fail")
            [AStr id; AInt n; AFloat roll; AFloat (clamp p)]])
      else
        (HOk, [Printf (ln "intermittent[%s]: attempt %d, roll=%.3f < p=%.3f — success")
                 [AStr id; AInt n; AFloat roll; AFloat (clamp p)]])
  | RExhaustRetries id =>
      let n := wrap64 (attempts_of id b + 1) in
      (HErr ("exhaustRetries: permanent failure on attempt " +:+ Itoa n),
       [if 3 <? n
        then Printf (ln "exhaustRetries[%s]: attempt %d — giving up (exceeded MaxAttempts=%d)")
               [AStr id; AInt n; AInt 3]
        else Printf (ln "exhaustRetries[%s]: attempt %d/%d") [AStr id; AInt n; AInt 3]])
  | RLarge n => (HOk, [Printf (ln "large: received %d bytes of data") [AInt n]])
  | RUnicode =>
      (HOk, [Printf (ln "unicode.text  : %q bytes=%d runes=%d") (text_args (uni_Text unicodePayload));
             Printf (ln "unicode.emoji : %q bytes=%d runes=%d") (text_args (uni_Emoji unicodePayload));
             Printf (ln "unicode.lang  : %q bytes=%d runes=%d") (text_args (uni_Lang unicodePayload))])
  | RNested t =>
      (HOk, [Printf (ln "nested: ts=%s leaf=%q rows=%d intMapLen=%d tags=%v")
               [AStr (Format (UTC t)); AStr "bottom"; AInt 2; AInt 3; AStrs ["alpha"; "beta"; "gamma"]]])
  end.

(** The fuel that the loop of the handler takes. *)
Definition fuel_for (r : request) : nat :=
  match r with RCounter n => S (Z.to_nat (n + 1)) | _ => O end.

(** A handler ran as the request says. *)
Definition as_expected (r : request) (b : bench) (res : hres) : Prop :=
  exists b', res = Returns (expected r b).1 b' /\
    b_acts b' = b_acts b ++ (expected r b).2 /\
    (bench_wf b -> bench_wf b' /\
      forall id, attempts_of id b' =
        if bool_decide (counts r = Some id) then wrap64 (attempts_of id b + 1) else attempts_of id b).

End Behaviour.

(** ** Running a job that was built *)

Section Run.
Context {JL : JsonLib} {JW : JsonLibLaws JL} {EV : Env} {RN : Rand} {FU : Fuel}.

(** The payload that a constructor writes is what the handler's first lines
    read. *)
Lemma delivered {A} (c : codec A) T v name h retry secs : roundtrips c v ->
  exists raw, marshalled c T v (fun raw => job_of name raw h retry secs) = inr (job_of name raw h retry secs) /\
    forall tag b body, with_payload c T tag (IBytes (j_Payload (job_of name raw h retry secs))) b body = body v.
Proof.
  intros H. destruct (Unmarshal_Marshal c T v H) as (raw & Hm & Hu). exists raw. unfold marshalled.
  rewrite Hm. split; [done|]. intros tag b body. cbn. by rewrite Hu.
Qed.

Lemma as_expected_quiet r b b' :
  counts r = None -> b_acts b' = b_acts b ++ (expected r b).2 ->
  b_flakyAttempts b' = b_flakyAttempts b -> b_cells b' = b_cells b ->
  as_expected r b (Returns (expected r b).1 b').
Proof.
  intros Hc Ha Hf Hl. exists b'. split; [done|]. split; [done|]. intros Hw.
  destruct (attempts_of_same b b' Hf Hl) as [Hw' Hi]. split; [auto|]. intros id.
  rewrite Hc, bool_decide_false by done. apply Hi.
Qed.

Lemma as_expected_counting r b b' id :
  counts r = Some id -> b_acts b' = b_acts b ++ (expected r b).2 ->
  b_flakyAttempts b' = b_flakyAttempts (count_attempt id b).2 -> b_cells b' = b_cells (count_attempt id b).2 ->
  as_expected r b (Returns (expected r b).1 b').
Proof.
  intros Hc Ha Hf Hl. exists b'. split; [done|]. split; [done|]. intros Hw.
  destruct (count_attempt_spec id b Hw) as (Hw1 & Hn & _).
  destruct (attempts_of_same _ b' Hf Hl) as [Hw' Hi]. split; [auto|]. intros id'. rewrite Hc, Hi, Hn.
  destruct (String.eqb_spec id' id) as [->|Hne]; [by rewrite bool_decide_true|].
  rewrite bool_decide_false by congruence. done.
Qed.

(** The loop of CounterHandler, when it ends. *)
Lemma counter_loop_prints fuel i n b :
  0 <= i -> i <= n + 1 -> n < two63 - 1 -> (Z.to_nat (n + 1 - i) < fuel)%nat ->
  exists b', counter_loop fuel i n b = Some b' /\
    b_acts b' = b_acts b ++ ((fun i => Printf (ln "counter: %d") [AInt i]) <$> seqZ i (n + 1 - i)) /\
    b_flakyAttempts b' = b_flakyAttempts b /\ b_cells b' = b_cells b.
Proof.
  revert i b. induction fuel as [|fuel IH]; intros i b Hi Hin Hn Hf; [lia|]. cbn [counter_loop].
  destruct (Z.leb_spec i n) as [Hle|Hgt].
  - rewrite wrap64_id by (unfold in_int64; lia).
    destruct (IH (i + 1) (printf (ln "counter: %d") [AInt i] b)) as (b' & -> & Ha & Hfl & Hc); [lia..|].
    exists b'. split; [done|]. split; [|done]. rewrite Ha. cbn [b_acts printf act_on].
    rewrite <- (assoc_L (++)). f_equal.
    rewrite (seqZ_cons i) by lia. cbn [fmap list_fmap app]. do 3 f_equal; lia.
  - exists b. split; [done|]. split; [|done]. replace (n + 1 - i) with 0 by lia. cbn. by rewrite app_nil_r.
Qed.

Lemma counter_loop_returns fuel n b :
  in_int64 n -> n < two63 - 1 -> (Z.to_nat (n + 1) < fuel)%nat ->
  exists b', counter_loop fuel 0 n b = Some b' /\
    b_acts b' = b_acts b ++ ((fun i => Printf (ln "counter: %d") [AInt i]) <$> seqZ 0 (n + 1)) /\
    b_flakyAttempts b' = b_flakyAttempts b /\ b_cells b' = b_cells b.
Proof.
  intros Hr Hn Hf. destruct (Z.le_gt_cases 0 (n + 1)) as [H|H].
  - destruct (counter_loop_prints fuel 0 n b) as (b' & ? & Ha & ?); [lia..|].
    exists b'. by rewrite Z.sub_0_r in Ha.
  - destruct fuel as [|fuel]; [lia|]. cbn. exists b. rewrite seqZ_nil by lia.
    cbn. rewrite app_nil_r. by destruct n.
Qed.

Lemma foldr_act_on n a b :
  foldr act_on b (replicate n a) =
  mkBench (b_AlwaysErrorAttempts b) (b_flakyAttempts b) (b_cells b) (b_clock b) (b_rand b) (b_acts b ++ replicate n a).
Proof.
  induction n as [|n IH]; cbn; [rewrite app_nil_r; by destruct b|]. rewrite IH. unfold act_on. cbn.
  rewrite <- (assoc_L (++)). do 2 f_equal. by rewrite <- replicate_S_end.
Qed.

Lemma millis_quot d : in_int64 d -> millis (Z.quot d Millisecond) = Z.quot d Millisecond * Millisecond.
Proof.
  intros H. apply wrap64_id. unfold in_int64, Millisecond, two63 in *.
  destruct (Z.le_ge_cases 0 d) as [H0|H0];
    [pose proof (Z.mul_quot_le d 1000000 H0)|pose proof (Z.mul_quot_ge d 1000000 H0)]; lia.
Qed.

(** A flaky handler's counter, as one attempt. *)
Lemma fold_count id b (k : Z -> bench -> hres) :
  (let '(addr, b) := loadOrCreateCounter id b in let '(n, b) := AddInt64 addr b in k n b) =
  k (wrap64 (attempts_of id b + 1)) (count_attempt id b).2.
Proof.
  rewrite <- count_attempt_value. unfold count_attempt. by destruct (loadOrCreateCounter id b) as [addr b'].
Qed.

Lemma count_attempt_acts id b : b_acts (count_attempt id b).2 = b_acts b /\ b_rand (count_attempt id b).2 = b_rand b.
Proof.
  unfold count_attempt, loadOrCreateCounter, LoadOrStore, AddInt64, new_zero.
  repeat (cbn; case_match); simplify_eq; done.
Qed.

(** The job of a request is built, and its handler does what is expected. *)
Definition behaves (r : request) : Prop :=
  exists job h, build r = Ok (inr job) /\ j_Handler job = Some h /\
    forall fuel b, (fuel_for r <= fuel)%nat -> as_expected r b (run_handler fuel h (IBytes (j_Payload job)) b).

(** A payload that reads back reaches the body of the handler. *)
Lemma behaves_intro {A} (c : codec A) T v name h retry secs r :
  roundtrips c v ->
  build r = Ok (marshalled c T v (fun raw => job_of name raw h retry secs)) ->
  (forall fuel b raw, (fuel_for r <= fuel)%nat ->
     (forall tag b body, with_payload c T tag (IBytes (Some raw)) b body = body v) ->
     as_expected r b (run_handler fuel h (IBytes (Some raw)) b)) ->
  behaves r.
Proof.
  intros Hrt Hb H. destruct (delivered c T v name h retry secs Hrt) as (raw & Hm & Hd).
  exists (job_of name raw h retry secs), h. rewrite Hb, Hm. split; [done|]. split; [done|].
  intros fuel b Hf. by apply H.
Qed.

Ltac deliver rt := eapply (behaves_intro _ _ _ _ _ _ _ _ rt); [try reflexivity|intros fuel b raw Hfuel Hdel;
  cbn [run_handler]].

Lemma behaves_simple r : good r ->
  match r with RHello _ | RSum _ _ | RBusyLoop _ | RAlwaysError _ | RPanic _ => True | _ => False end ->
  behaves r.
Proof.
  intros Hg. destruct r as [name|a c| | |n| |msg|msg| | | | | | |]; intros Hr; try done; cbn [good] in Hg.
  - deliver (rt_one_string "name" name eq_refl Hg eq_refl). unfold HelloHandler.
    rewrite Hdel. by apply as_expected_quiet.
  - destruct Hg as [Ha Hc]. deliver (rt_Sum a c Ha Hc). unfold SumHandler.
    rewrite Hdel. by apply as_expected_quiet.
  - deliver (rt_one_int "iterations" n eq_refl Hg eq_refl). unfold BusyLoopHandler.
    rewrite Hdel. by apply as_expected_quiet.
  - deliver (rt_one_string "msg" msg eq_refl Hg eq_refl). unfold AlwaysErrorHandler.
    rewrite Hdel. cbv zeta. apply as_expected_quiet; [done|..]; cbn [expected fst snd];
      destruct (Z.rem _ 100 =? 0); cbn; by rewrite ?app_nil_r.
  - deliver (rt_one_string "msg" msg eq_refl Hg eq_refl). unfold PanicHandler.
    rewrite Hdel. apply as_expected_quiet; cbn; by rewrite ?app_nil_r.
Qed.

Lemma behaves_slow r : good r ->
  match r with RCounter _ | RSleep _ | RFanout _ _ => True | _ => False end -> behaves r.
Proof.
  intros Hg. destruct r as [| |n|d| |w d| | | | | | | | |]; intros Hr; try done; cbn [good] in Hg.
  - destruct Hg as [Hr1 Hr2]. deliver (rt_one_int "n" n eq_refl Hr1 eq_refl).
    unfold CounterHandler. rewrite Hdel.
    destruct (counter_loop_returns fuel n b Hr1 Hr2) as (b' & -> & Ha & Hf & Hc); [cbn in Hfuel; lia|].
    by apply as_expected_quiet.
  - assert (Hq : in_int64 (Z.quot d Millisecond)).
    { unfold in_int64, Millisecond, two63 in *. destruct (Z.le_ge_cases 0 d) as [H0|H0];
        [pose proof (Z.mul_quot_le d 1000000 H0)|pose proof (Z.mul_quot_ge d 1000000 H0)]; lia. }
    deliver (rt_one_int "millis" (Z.quot d Millisecond) eq_refl Hq eq_refl).
    unfold SleepHandler. rewrite Hdel. apply as_expected_quiet; [done|..]; cbn;
      rewrite ?millis_quot by done; by rewrite <- ?(assoc_L (++)).
  - destruct Hg as [Hw Hd]. assert (Hw' : in_int64 w) by (unfold in_int64, two63; lia).
    deliver (rt_Fanout w d Hw' Hd). unfold FanoutHandler. rewrite Hdel.
    cbn [now fan_Workers fan_DelayMs]. cbv zeta.
    assert (wrap32 w = w) as -> by (unfold wrap32; rewrite Z.mod_small; lia).
    rewrite (proj2 (Z.ltb_ge w 0)), !(Z.max_r 0 w), (Z.ltb_irrefl w) by lia.
    rewrite foldr_act_on. apply as_expected_quiet; [done|..]; cbn; by rewrite <- ?(assoc_L (++)).
Qed.

(** The end of a flaky handler: what it prints after counting. *)
Lemma as_expected_flaky r b id b' :
  counts r = Some id ->
  b_acts b' = b_acts (count_attempt id b).2 ++ (expected r b).2 ->
  b_flakyAttempts b' = b_flakyAttempts (count_attempt id b).2 ->
  b_cells b' = b_cells (count_attempt id b).2 ->
  as_expected r b (Returns (expected r b).1 b').
Proof.
  intros Hc Ha Hf Hl. eapply as_expected_counting; [done|..]; try done.
  by rewrite Ha, (proj1 (count_attempt_acts id b)).
Qed.

Lemma behaves_flaky r : good r ->
  match r with RFailThenSucceed _ _ | RIntermittent _ _ | RExhaustRetries _ => True | _ => False end ->
  behaves r.
Proof.
  intros Hg. destruct r as [| | | | | | | | |id k|id p|id| | |]; intros Hr; try done; cbn [good] in Hg;
    (destruct Hg as (Hi & Hne & Hg) || destruct Hg as (Hi & Hne)); apply String.eqb_neq in Hne.
  - deliver (rt_FailThenSucceed id k Hi Hg); [cbn [build]; unfold NewFailThenSucceedJob; by rewrite Hne|].
    cbn [run_handler]. unfold FailThenSucceedHandler. rewrite Hdel. cbn [fts_ID fts_FailTimes].
    rewrite Hne, (fold_count id b (fun n b => if n <=? k then _ else _)).
    destruct (wrap64 (attempts_of id b + 1) <=? k) eqn:E;
      [eassert (Hx : expected (RFailThenSucceed id k) b = (HErr _, _)) by
         (cbn [expected]; cbv zeta; rewrite E; reflexivity)|
       eassert (Hx : expected (RFailThenSucceed id k) b = (HOk, _)) by
         (cbn [expected]; cbv zeta; rewrite E; reflexivity)];
      pose proof (as_expected_flaky (RFailThenSucceed id k) b id) as Hend; rewrite Hx in Hend; by apply Hend.
  - assert (Hp : is_Some (float_print (clamp p))).
    { destruct float_in_unit as (N0 & Nh & N1 & L00 & L10 & L11 & Lh0 & L1h). unfold clamp.
      destruct (float_ltb p float_zero) eqn:E0; [by apply float_print_unit|].
      destruct (float_ltb float_one p) eqn:E1; by apply float_print_unit. }
    deliver (rt_Intermittent id (clamp p) Hi Hp); [cbn [build]; unfold NewIntermittentJob; by rewrite Hne|].
    cbn [run_handler]. unfold IntermittentHandler. rewrite Hdel. cbn [int_ID int_P].
    rewrite Hne, (fold_count id b (fun n b => if float_leb (clamp p) (rand_Float64 (b_rand b)) then _ else _)).
    destruct (count_attempt_acts id b) as [_ Hrand]. rewrite Hrand.
    destruct (float_leb (clamp p) (rand_Float64 (b_rand b))) eqn:E;
      [eassert (Hx : expected (RIntermittent id p) b = (HErr _, _)) by
         (cbn [expected]; cbv zeta; rewrite E; reflexivity)|
       eassert (Hx : expected (RIntermittent id p) b = (HOk, _)) by
         (cbn [expected]; cbv zeta; rewrite E; reflexivity)];
      pose proof (as_expected_flaky (RIntermittent id p) b id) as Hend; rewrite Hx in Hend; by apply Hend.
  - deliver (rt_one_string "id" id eq_refl Hi eq_refl);
      [cbn [build]; unfold NewExhaustRetriesJob; by rewrite Hne|].
    cbn [run_handler]. unfold ExhaustRetriesHandler. rewrite Hdel.
    rewrite Hne, (fold_count id b (fun n b => Returns _ (if maxAttemptsForExhaust <? n then _ else _))).
    apply (as_expected_flaky (RExhaustRetries id) b id); [done|..];
      cbn [expected snd]; unfold maxAttemptsForExhaust; destruct (3 <? _); reflexivity.
Qed.

(** A run of the letter A. *)
Lemma repeated_A n : runes (concat_str (replicate n "A")) = replicate n (Rune 65 "A") /\
  String.length (concat_str (replicate n "A")) = n.
Proof.
  induction n as [|n [IH1 IH2]]; [done|].
  change (concat_str (replicate (S n) "A")) with ("A" +:+ concat_str (replicate n "A")).
  rewrite (runes_reads 65 "A") by (by apply (reads1 "A")). rewrite IH1. split; [done|]. cbn. by f_equal.
Qed.

Lemma behaves_payload r : good r ->
  match r with RNilDeref | RLarge _ | RUnicode | RNested _ => True | _ => False end -> behaves r.
Proof.
  intros Hg. destruct r as [| | | | | | | | | | | |n| |t]; intros Hr; try done; cbn [good] in Hg.
  - exists (job_of "fail-nil-deref" "{}" hNilDeref false 0), hNilDeref. split; [done|]. split; [done|].
    intros fuel b _. apply as_expected_quiet; cbn; by rewrite ?app_nil_r.
  - destruct (repeated_A (Z.to_nat n)) as [Hrunes Hlen].
    assert (Hv : ValidString (concat_str (replicate (Z.to_nat n) "A")) = true).
    { unfold ValidString. rewrite Hrunes. clear. by induction (Z.to_nat n). }
    deliver (rt_one_string "data" _ eq_refl Hv eq_refl).
    { cbn [build]. unfold NewLargePayloadJob, Repeat. by rewrite (proj2 (Z.ltb_ge n 0)). }
    cbn [run_handler]. unfold LargePayloadHandler. rewrite Hdel, Hlen, Z2Nat.id by done.
    by apply as_expected_quiet.
  - eassert (Hrt : roundtrips c_UnicodePayload unicodePayload) by (by apply rt_Unicode; vm_compute).
    deliver Hrt. unfold UnicodeHandler. rewrite Hdel. cbv zeta.
    apply as_expected_quiet; [done|..]; cbn [expected fst snd]; try done.
    cbn [b_acts printf act_on]. by rewrite <- !(assoc_L (++)).
  - deliver (rt_Nested t Hg). unfold NestedHandler. rewrite Hdel. cbv zeta.
    apply as_expected_quiet; reflexivity.
Qed.

Lemma request_behaves r : good r -> behaves r.
Proof.
  intros Hg. destruct r; first [by apply behaves_simple | by apply behaves_slow
    | by apply behaves_flaky | by apply behaves_payload].
Qed.

(** C14: every job that a constructor of benchjobs builds from arguments its
    payload can carry does, when its handler runs on that payload, exactly
    what the arguments ask for: the outcome, what is printed and slept, and
    the attempt counted for its id and no other. *)
Theorem job_behaves r : good r ->
  exists job h, build r = Ok (inr job) /\ j_Handler job = Some h /\
    forall fuel b, (fuel_for r <= fuel)%nat -> as_expected r b (run_handler fuel h (IBytes (j_Payload job)) b).
Proof. apply request_behaves. Qed.

End Run.

(** ** Calls that do not return *)

Section Termination.
Context {JL : JsonLib} {EV : Env} {RN : Rand}.








(** Payloads the handlers refuse: no byte slice, no JSON, or JSON that is
    not an object nor null. *)
Definition refused (payload : iface) : Prop :=
  match payload with
  | IOther _ => True
  | IBytes raw =>
      match parse (default EmptyString raw) with
      | None => True
      | Some JNull | Some (JObj _) => False
      | Some _ => True
      end
  end.

(** C28: on a payload that is not a byte slice, not JSON or JSON of the wrong
    kind, every handler but NilDerefHandler returns an error without
    printing, sleeping, drawing or counting anything; that one panics on
    each of them. *)
Theorem refused_payloads h fuel payload b : refused payload ->
  exists o, run_handler fuel h payload b = Returns o b /\
    match o with HOk => False | HErr _ => h <> hNilDeref | HPanic _ => h = hNilDeref end.
Proof.
  assert (Hs : forall S (z : S) fs T tag body, refused payload ->
    exists msg, with_payload (c_struct z fs) T tag payload b body = Returns (HErr msg) b).
  { intros S z fs T tag body Hr. unfold with_payload. destruct payload as [raw|ty]; [|by eauto].
    unfold Unmarshal. cbn [refused] in Hr. destruct (parse _) as [j|]; [|by eauto].
    destruct j; cbn; by eauto. }
  intros Hr. destruct h; cbn [run_handler]; try (edestruct Hs as [msg Hm]; [exact Hr|];
    exists (HErr msg); split; [exact Hm|discriminate]).
  by eexists.
Qed.

End Termination.

(** ** Witness *)

Lemma job_behaves_witness :
  exists job h, build (RFailThenSucceed "flaky-1" 2) = Ok (inr job) /\ j_Handler job = Some h /\
    as_expected (RFailThenSucceed "flaky-1" 2) freshBench
      (run_handler 1 h (IBytes (j_Payload job)) freshBench).
Proof.
  destruct (job_behaves (RFailThenSucceed "flaky-1" 2)) as (job & h & Hb & Hh & Hrun).
  { split; [vm_compute; reflexivity|]. split; [discriminate|]. unfold in_int64, two63. lia. }
  exists job, h. split; [exact Hb|]. split; [exact Hh|]. apply Hrun. cbn. lia.
Defined.

Lemma refused_payloads_witness :
  exists o, run_handler 1 hHello (IOther "string") freshBench = Returns o freshBench /\
    match o with HErr _ => True | _ => False end.
Proof.
  destruct (refused_payloads hHello 1 (IOther "string") freshBench I) as (o & Ho & Hm).
  exists o. split; [exact Ho|]. destruct o; [exact Hm|exact I|discriminate].
Defined.
