(* ===== verification/FlakyCounter.v ===== *)
(** * Concurrent attempts of flaky jobs (flaky_fail_then_succeed.go)

    Handlers of several workers count attempts at the same time: each call
    of loadOrCreateCounter is a Load and, when that misses, a LoadOrStore of
    a new cell; the count is an atomic add on the cell. A call is a thread
    that takes these steps one by one, and any interleaving of threads may
    happen. *)

From stdpp Require Import base gmap strings list list_numbers relations.
From Stdlib Require Import ZArith Lia.
From S2P Require Import Prelude GoString GoTime Types Services Effects RefServices GoJson GoUtf8 GoJsonText GoJsonCodec BenchJobs RefBench BenchRoundtrip BenchBehaviour.

Open Scope Z_scope.

Section Threads.
Context {JL : JsonLib} {EV : Env}.

(** Where a call is: before the Load, after it missed, with the address of
    the counter, with the number it got. *)
Inductive phase :=
| AtStart
| Missed
| Holds (addr : nat)
| Got (n : Z).

Definition caller := (string * phase)%type.

(** The next step of a call. *)
Definition call_step (t : caller) (b : bench) : option (caller * bench) :=
  let '(id, ph) := t in
  match ph with
  | AtStart =>
      match b_flakyAttempts b !! id with
      | Some addr => Some ((id, Holds addr), b)
      | None => Some ((id, Missed), b)
      end
  | Missed =>
      let '(zero, b) := new_zero b in
      let '(addr, b) := LoadOrStore id zero b in
      Some ((id, Holds addr), b)
  | Holds addr => let '(n, b) := AddInt64 addr b in Some ((id, Got n), b)
  | Got _ => None
  end.

(** Any caller may go next. *)
Inductive calls_step : list caller * bench -> list caller * bench -> Prop :=
| one_call l t k b t' b' :
    call_step t b = Some (t', b') ->
    calls_step (l ++ t :: k, b) (l ++ t' :: k, b').

(** Up to [n] steps of one call. *)
Fixpoint call_steps (n : nat) (t : caller) (b : bench) : caller * bench :=
  match n with
  | O => (t, b)
  | S n' => match call_step t b with Some (t', b') => call_steps n' t' b' | None => (t, b) end
  end.

(** A call that runs alone counts as [loadOrCreateCounter] and the add say. *)
Lemma call_alone id b :
  call_steps 3 (id, AtStart) b = ((id, Got (count_attempt id b).1), (count_attempt id b).2).
Proof.
  unfold count_attempt, loadOrCreateCounter. cbn [call_steps call_step].
  destruct (b_flakyAttempts b !! id) as [addr|] eqn:E; [done|]. cbn [call_steps call_step].
  destruct (new_zero b) as [z b1]. by destruct (LoadOrStore id z b1) as [addr b2].
Qed.

(** The numbers that the callers with an id got. *)
Definition got (id : string) (t : caller) : option Z :=
  match t with
  | (id', Got n) => if String.eqb id' id then Some n else None
  | _ => None
  end.
Definition gots (id : string) (ts : list caller) : list Z := omap (got id) ts.

(** The callers hold the cells of their ids, and the numbers given out since
    the counts were [k] are the next ones, each once. *)
Definition counted (k : string -> Z) (s : list caller * bench) : Prop :=
  let '(ts, b) := s in
  bench_wf b /\
  (forall id addr, (id, Holds addr) ∈ ts -> b_flakyAttempts b !! id = Some addr) /\
  (forall id, k id <= attempts_of id b /\
     gots id ts ≡ₚ seqZ (k id + 1) (attempts_of id b - k id)).

Lemma gots_replace id l t t' k :
  got id t = None ->
  gots id (l ++ t' :: k) ≡ₚ (match got id t' with Some n => [n] | None => [] end) ++ gots id (l ++ t :: k).
Proof.
  intros H. unfold gots. rewrite !omap_app. cbn [omap list_omap]. rewrite H.
  destruct (got id t') as [n|]; [|done]. cbn. symmetry. apply Permutation_middle.
Qed.

(** A step that gives out no number keeps the counts. *)
Lemma counted_quiet k l t c b t' b' :
  counted k (l ++ t :: c, b) -> bench_wf b' ->
  (forall id, got id t = None) -> (forall id, got id t' = None) ->
  (forall id addr, b_flakyAttempts b !! id = Some addr -> b_flakyAttempts b' !! id = Some addr) ->
  (forall id addr, t' = (id, Holds addr) -> b_flakyAttempts b' !! id = Some addr) ->
  (forall id, attempts_of id b' = attempts_of id b) ->
  counted k (l ++ t' :: c, b').
Proof.
  intros (Hw & Hh & Hg) Hw' Ht Ht' Hkeep Hnew Hsame. split_and!; [done|..].
  - intros id addr Hin. apply elem_of_app in Hin as [Hin|Hin].
    + apply Hkeep, Hh, elem_of_app. by left.
    + apply elem_of_cons in Hin as [Heq|Hin]; [by apply Hnew|].
      apply Hkeep, Hh, elem_of_app. right. apply elem_of_cons. by right.
  - intros id. rewrite Hsame. destruct (Hg id) as [? Hp]. split; [done|].
    rewrite (gots_replace id l t t' c (Ht id)), Ht'. cbn. done.
Qed.

(** A new cell changes no count. *)
Lemma store_quiet id b z b1 addr b2 : bench_wf b -> new_zero b = (z, b1) -> LoadOrStore id z b1 = (addr, b2) ->
  bench_wf b2 /\ b_flakyAttempts b2 !! id = Some addr /\
  (forall id' a, b_flakyAttempts b !! id' = Some a -> b_flakyAttempts b2 !! id' = Some a) /\
  forall id', attempts_of id' b2 = attempts_of id' b.
Proof.
  intros [Hlt Hinj] [= <- <-]. unfold LoadOrStore, bench_wf, attempts_of. cbn.
  destruct (b_flakyAttempts b !! id) as [a0|] eqn:E; intros [= <- <-]; cbn.
  - split_and!; try done.
    + intros id' a Ha. rewrite length_app. apply Hlt in Ha. lia.
    + intros id'. destruct (b_flakyAttempts b !! id') as [a|] eqn:E'; [|done].
      by rewrite lookup_app_l by (by eapply Hlt).
  - split_and!.
    + intros id' a. rewrite lookup_insert, length_app. cbn. case_decide; [intros [= <-]; lia|].
      intros Ha. apply Hlt in Ha. lia.
    + intros id1 id2 a. rewrite !lookup_insert. repeat case_decide; subst; try done.
      * intros [= <-] Ha. apply Hlt in Ha. lia.
      * intros Ha [= <-]. apply Hlt in Ha. lia.
      * apply Hinj.
    + by rewrite lookup_insert, decide_True.
    + intros id' a Ha. rewrite lookup_insert, decide_False; [done|]. intros ->. congruence.
    + intros id'. rewrite lookup_insert. case_decide as Hd.
      * subst id'. rewrite E, list_lookup_middle by done. done.
      * destruct (b_flakyAttempts b !! id') as [a|] eqn:E'; [|done].
        by rewrite lookup_app_l by (by eapply Hlt).
Qed.

Lemma Add_count id addr b : bench_wf b -> b_flakyAttempts b !! id = Some addr ->
  bench_wf (AddInt64 addr b).2 /\ (AddInt64 addr b).1 = wrap64 (attempts_of id b + 1) /\
  b_flakyAttempts (AddInt64 addr b).2 = b_flakyAttempts b /\
  forall id', attempts_of id' (AddInt64 addr b).2 =
    if String.eqb id' id then wrap64 (attempts_of id b + 1) else attempts_of id' b.
Proof.
  intros Hw Ha. destruct (count_attempt_spec id b Hw) as (Hw' & Hc & _).
  assert (E : count_attempt id b = AddInt64 addr b) by (unfold count_attempt, loadOrCreateCounter; by rewrite Ha).
  pose proof (count_attempt_value id b) as Hv. rewrite E in *. done.
Qed.

Lemma counted_step k s s' :
  (forall id, attempts_of id s.2 + 1 < two63 /\ - two63 <= k id) -> counted k s -> calls_step s s' -> counted k s'.
Proof.
  intros Hb Hc Hs. destruct Hs as [l [id ph] c b t' b' E]. cbn [snd] in Hb.
  pose proof Hc as (Hw & Hh & Hg). destruct ph as [| |addr|n]; cbn [call_step] in E; [..|done].
  - destruct (b_flakyAttempts b !! id) as [addr|] eqn:Ef; injection E as <- <-;
      eapply counted_quiet; try done. by intros ? ? [= <- <-].
  - destruct (new_zero b) as [z b1] eqn:E1. destruct (LoadOrStore id z b1) as [addr b2] eqn:E2.
    injection E as <- <-. destruct (store_quiet id b z b1 addr b2 Hw E1 E2) as (Hw2 & Hid & Hkeep & Hsame).
    eapply counted_quiet; try done. by intros ? ? [= <- <-].
  - assert (Ha : b_flakyAttempts b !! id = Some addr).
    { apply Hh, elem_of_app. right. apply elem_of_cons. by left. }
    destruct (Add_count id addr b Hw Ha) as (Hw' & Hn & Hfl & Hat).
    destruct (AddInt64 addr b) as [n b1]. cbn [fst snd] in *. injection E as <- <-.
    destruct (Hb id) as [Hmax Hmin]. destruct (Hg id) as [Hle Hp].
    rewrite wrap64_id in Hn, Hat by (unfold in_int64; lia).
    split_and!; [done|..].
    + intros id' a Hin. rewrite Hfl. apply Hh. apply elem_of_app in Hin as [Hin|Hin]; apply elem_of_app; [by left|].
      right. apply elem_of_cons in Hin as [[=]|Hin]. apply elem_of_cons. by right.
    + intros id'. rewrite Hat. rewrite (gots_replace id' l (id, Holds addr)) by done. cbn [got].
      destruct (String.eqb_spec id' id) as [->|Hne].
      * rewrite String.eqb_refl. split; [lia|]. rewrite Hp, Hn.
        replace (attempts_of id b + 1 - k id) with (attempts_of id b - k id + 1) by lia.
        rewrite seqZ_app by lia. rewrite Permutation_app_comm. f_equiv.
        by replace (k id + 1 + (attempts_of id b - k id)) with (attempts_of id b + 1) by lia.
      * rewrite (proj2 (String.eqb_neq id id')) by congruence. cbn. apply Hg.
Qed.

Lemma counted_length k ts b id : counted k (ts, b) ->
  attempts_of id b = k id + Z.of_nat (length (gots id ts)) /\ (length (gots id ts) <= length ts)%nat.
Proof.
  intros (_ & _ & Hg). destruct (Hg id) as [Hle Hp]. apply Permutation_length in Hp.
  rewrite length_seqZ in Hp. split; [lia|]. clear. unfold gots.
  induction ts as [|t ts IH]; cbn; [done|]. destruct (got id t); cbn; lia.
Qed.

Lemma gots_start id ts : Forall (fun t => t.2 = AtStart) ts -> gots id ts = [].
Proof. induction 1 as [|[id' ph] ts Ht _ IH]; [done|]. cbn in Ht. by subst ph. Qed.

(** C26: however the calls of any number of handlers interleave, no attempt
    is lost or counted twice: the numbers that the calls for an id got are
    the ones that follow the count before, each exactly once, and the count
    after is as many more. *)
Theorem attempts_linear ts b ts' b' :
  bench_wf b -> Forall (fun t => t.2 = AtStart) ts ->
  (forall id, 0 <= attempts_of id b /\ attempts_of id b + Z.of_nat (length ts) + 1 < two63) ->
  rtc calls_step (ts, b) (ts', b') ->
  forall id, attempts_of id b' = attempts_of id b + Z.of_nat (length (gots id ts')) /\
    gots id ts' ≡ₚ seqZ (attempts_of id b + 1) (Z.of_nat (length (gots id ts'))).
Proof.
  intros Hw Hst Hmax Hrun. set (k := fun id => attempts_of id b).
  assert (Hinit : counted k (ts, b)).
  { split_and!; [done|..].
    - intros id addr Hin. rewrite Forall_forall in Hst. by apply Hst in Hin.
    - intros id. subst k. cbn. split; [done|]. rewrite Z.sub_diag. cbn.
      by rewrite gots_start. }
  assert (Hinv : forall s, rtc calls_step (ts, b) s -> counted k s /\ length s.1 = length ts).
  { intros s Hr. refine (rtc_ind_r (R := calls_step) (fun s => counted k s /\ length s.1 = length ts) (ts, b) _ _ s Hr); [done|].
    intros [ts1 b1] s2 _ Hs [Hc Hl]. split.
    - eapply counted_step; [|exact Hc|exact Hs]. intros id. cbn [snd fst] in *.
      destruct (counted_length k ts1 b1 id Hc) as [-> Hle]. destruct (Hmax id). subst k. cbn in *. lia.
    - destruct Hs. cbn in *. rewrite length_app in *. done. }
  destruct (Hinv (ts', b') Hrun) as [Hc _]. intros id.
  destruct (counted_length k ts' b' id Hc) as [E Hle]. destruct Hc as (_ & _ & Hg).
  destruct (Hg id) as [_ Hp]. subst k. cbn in *. split; [done|].
  rewrite Hp at 1. f_equiv. lia.
Qed.

End Threads.

(** ** Witness *)

(** Two handlers that both miss the first Load of the same id. *)
Lemma attempts_linear_witness :
  exists ts' b', rtc calls_step ([("a", AtStart); ("a", AtStart)], freshBench) (ts', b') /\
    gots "a" ts' ≡ₚ [1; 2] /\ attempts_of "a" b' = 2.
Proof.
  eexists _, _.
  assert (Hrun : rtc calls_step ([("a", AtStart); ("a", AtStart)], freshBench)
    ([("a", Got 2); ("a", Got 1)], mkBench 0 {["a" := 0%nat]} [2; 0] 0 0 [])).
  { eapply (rtc_l _ _ (_, _)); [apply (one_call []); vm_compute; reflexivity|].
    eapply (rtc_l _ _ (_, _)); [apply (one_call [("a", Missed)] _ []); vm_compute; reflexivity|].
    eapply (rtc_l _ _ (_, _)); [apply (one_call [] _ [("a", Missed)]); vm_compute; reflexivity|].
    eapply (rtc_l _ _ (_, _)); [apply (one_call [("a", Holds 0)] _ []); vm_compute; reflexivity|].
    eapply (rtc_l _ _ (_, _)); [apply (one_call [("a", Holds 0)] _ []); vm_compute; reflexivity|].
    eapply (rtc_l _ _ (_, _)); [apply (one_call [] _ [("a", Got 1)]); vm_compute; reflexivity|].
    apply rtc_refl. }
  split; [exact Hrun|].
  assert (Hw : bench_wf freshBench) by (split; intros *; cbn; by rewrite lookup_empty).
  assert (Hst : Forall (fun t : caller => t.2 = AtStart) [("a", AtStart); ("a", AtStart)]) by (by repeat constructor).
  assert (Hmax : forall id, 0 <= attempts_of id freshBench /\ attempts_of id freshBench + 2 + 1 < two63)
    by (intros id; unfold attempts_of; cbn; by rewrite lookup_empty).
  destruct (attempts_linear _ _ _ _ Hw Hst Hmax Hrun "a") as [Ha Hg].
  split; [exact Hg|exact Ha].
Defined.
