(* ===== verification/BenchRegistry.v ===== *)
(** * Registering and seeding the bench jobs (benchjobs/registry.go)

    [RegisterAll] binds the fifteen handlers by name; [seedAll] builds and
    dispatches one job of each kind through the interface [QueueDispatcher].
    The lines that only log are left out, as elsewhere. *)

From stdpp Require Import base gmap strings list.
From Stdlib Require Import ZArith Lia.
From S2P Require Import Prelude GoString GoTime Types Services Effects RefServices Redis Registry GoJson GoUtf8 GoJsonText GoJsonCodec Memory Queue BenchJobs RefBench BenchRoundtrip BenchBehaviour.

Open Scope Z_scope.

Section BenchRegistry.
Context {JL : JsonLib} {EV : Env} {RN : Rand} {FU : Fuel}.
Context {RS : RedisServer} {DB : Database} {UT : UnicodeTables}.

(** ** RegisterAll *)

(** The table of [RegisterAll]. *)
Definition handlers : list (string * benchHandler) :=
  [("hello-world", hHello);
   ("simple-sum", hSum);
   ("simple-counter", hCounter);
   ("slow-sleep", hSleep);
   ("slow-busy-loop", hBusyLoop);
   ("slow-fanout", hFanout);
   ("fail-error", hAlwaysError);
   ("fail-panic", hPanic);
   ("fail-nil-deref", hNilDeref);
   ("flaky-fail-then-succeed", hFailThenSucceed);
   ("flaky-intermittent", hIntermittent);
   ("flaky-exhaust-retries", hExhaustRetries);
   ("payload-large", hLargePayload);
   ("payload-unicode", hUnicode);
   ("payload-nested", hNested)].

Fixpoint register_each (hs : list (string * benchHandler)) (errs : list string) (w : world)
    : list string * world :=
  match hs with
  | [] => (errs, w)
  | (name, fn) :: hs' =>
      let '(err, w) := RegisterHandler name (Some fn) w in
      register_each hs' (match err with Some err => errs ++ [name +:+ ": " +:+ err] | None => errs end) w
  end.

Definition RegisterAll (w : world) : list string * world := register_each handlers [] w.

(** ** SeedAll *)

(** [QueueDispatcher]: the id and the error of a dispatch. *)
Class QueueDispatcher := dispatch : Job -> prog (string * option string).

(** The constructors as programs: one may panic, one reads the clock. *)
Definition ctor (r : res (string + Job)) : prog (string + Job) :=
  match r with Ok x => Ret x | Panicked m => Panic m end.

Definition seed_entries : list (string * prog (string + Job)) :=
  [("HelloJob", Ret (NewHelloJob "world"));
   ("SumJob", Ret (NewSumJob 3 4));
   ("CounterJob", Ret (NewCounterJob 10));
   ("SleepJob", Ret (NewSleepJob (500 * Millisecond)));
   ("BusyLoopJob", Ret (NewBusyLoopJob 1000000));
   ("FanoutJob", Ret (NewFanoutJob 5 100));
   ("AlwaysErrorJob", Ret (NewAlwaysErrorJob "expected failure"));
   ("PanicJob", Ret (NewPanicJob "expected panic"));
   ("NilDerefJob", Ret NewNilDerefJob);
   ("FailThenSucceedJob", Ret (NewFailThenSucceedJob "flaky-1" 2));
   ("IntermittentJob", Ret (NewIntermittentJob "flaky-2" float_half));
   ("ExhaustRetriesJob", Ret (NewExhaustRetriesJob "flaky-3"));
   ("LargePayloadJob", ctor (NewLargePayloadJob 1048576));
   ("UnicodeJob", Ret NewUnicodeJob);
   ("NestedPayloadJob", let* t := perform ENow in Ret (NewNestedPayloadJob t))].

(** The loop over the entries; the constructors never return a nil job
    without an error. There is a pause after each dispatch but the last. *)
Fixpoint seed_loop {QD : QueueDispatcher} (entries : list (string * prog (string + Job))) (errs : list string)
    : prog (list string) :=
  match entries with
  | [] => Ret errs
  | (name, new) :: rest =>
      let* r := new in
      match r with
      | inl err => seed_loop rest (errs ++ [name +:+ ": construct: " +:+ err])
      | inr job =>
          let* (_, err) := dispatch job in
          match err with
          | Some err => seed_loop rest (errs ++ [name +:+ ": dispatch: " +:+ err])
          | None =>
              match rest with
              | [] => seed_loop rest errs
              | _ => let* _ := perform (ESleep (100 * Millisecond)) in seed_loop rest errs
              end
          end
      end
  end.

(** [errors.Join]: nil when there is none, else one line for each. *)
Definition errors_Join (errs : list string) : option string :=
  match errs with
  | [] => None
  | _ => Some (Join errs (Ascii.ascii_of_nat 10))
  end.

Definition seedAll (queue : option QueueDispatcher) : prog (option string) :=
  match queue with
  | None => Ret (Some "jobs.SeedAll: queue dispatcher is nil")
  | Some QD => let* errs := seed_loop seed_entries [] in Ret (errors_Join errs)
  end.

Definition SeedAll (queue : option QueueDispatcher) : prog (option string) := seedAll queue.

(** ** The registry after RegisterAll *)

Definition registration_of (h : string * benchHandler) : registration :=
  let '(name, fn) := h in RegPlain name (Some fn).

Lemma register_each_all hs errs w : (register_each hs errs w).2 = register_all (registration_of <$> hs) w.
Proof.
  revert errs w. induction hs as [|[name fn] hs IH]; intros errs w; [done|].
  change (register_all (registration_of <$> (name, fn) :: hs) w)
    with (register_all (registration_of <$> hs) (register (registration_of (name, fn)) w).2).
  cbn [register_each registration_of register].
  destruct (RegisterHandler name _ w) as [err w'] eqn:E. apply IH.
Qed.

(** The names and handlers that the constructors use. *)
Definition job_name (r : request) : string :=
  match r with
  | RHello _ => "hello-world" | RSum _ _ => "simple-sum" | RCounter _ => "simple-counter"
  | RSleep _ => "slow-sleep" | RBusyLoop _ => "slow-busy-loop" | RFanout _ _ => "slow-fanout"
  | RAlwaysError _ => "fail-error" | RPanic _ => "fail-panic" | RNilDeref => "fail-nil-deref"
  | RFailThenSucceed _ _ => "flaky-fail-then-succeed" | RIntermittent _ _ => "flaky-intermittent"
  | RExhaustRetries _ => "flaky-exhaust-retries" | RLarge _ => "payload-large"
  | RUnicode => "payload-unicode" | RNested _ => "payload-nested"
  end.

Definition job_handler (r : request) : benchHandler :=
  match r with
  | RHello _ => hHello | RSum _ _ => hSum | RCounter _ => hCounter | RSleep _ => hSleep
  | RBusyLoop _ => hBusyLoop | RFanout _ _ => hFanout | RAlwaysError _ => hAlwaysError
  | RPanic _ => hPanic | RNilDeref => hNilDeref | RFailThenSucceed _ _ => hFailThenSucceed
  | RIntermittent _ _ => hIntermittent | RExhaustRetries _ => hExhaustRetries
  | RLarge _ => hLargePayload | RUnicode => hUnicode | RNested _ => hNested
  end.

Lemma marshalled_inr {A} (c : codec A) T v mk job : marshalled c T v mk = inr job -> exists raw, job = mk raw.
Proof. unfold marshalled. destruct (Marshal c T v) as [err|raw]; [done|]. intros [= <-]. by exists raw. Qed.

Lemma Ok_inj {A} (a b : A) : Ok a = Ok b -> a = b.
Proof. by intros [= ->]. Qed.

(** What a constructor puts into the job besides the payload. *)
Lemma build_shape r job : build r = Ok (inr job) ->
  exists raw retry secs, job = job_of (job_name r) raw (job_handler r) retry secs.
Proof.
  destruct r as [| | | | | | | | |id n|id p|id|n| |]; cbn [build job_name job_handler]; intros H.
  13: { unfold NewLargePayloadJob, Repeat in H. destruct (n <? 0); [done|].
        apply Ok_inj, marshalled_inr in H as [raw ->]. by eauto. }
  all: apply Ok_inj in H.
  9: { apply inr_inj in H. subst job. by eauto. }
  9: unfold NewFailThenSucceedJob in H; destruct (String.eqb id EmptyString); [done|].
  10: unfold NewIntermittentJob in H; destruct (String.eqb id EmptyString); [done|].
  11: unfold NewExhaustRetriesJob in H; destruct (String.eqb id EmptyString); [done|].
  all: apply marshalled_inr in H as [raw ->]; by eauto.
Qed.

(** C15: the two ways to a handler agree. After RegisterAll on a queue whose
    registry is empty (no error is reported), every job that a constructor
    builds finds under its name the very handler it carries, so that a redis
    worker, which has only the name, and a memory worker run the same
    function, and the memory worker calls the same with or without
    RegisterAll. *)
Theorem RegisterAll_agrees r job w :
  w_handlers w = None \/ w_handlers w = Some ∅ -> build r = Ok (inr job) ->
  (RegisterAll w).1 = [] /\
  lookup_handler (j_Name job) (RegisterAll w).2 = Some (mkRegistered (j_Handler job) None) /\
  call_entry (lookup_handler (j_Name job) (RegisterAll w).2) (j_Payload job) w = Some (call_memory job w) /\
  call_memory job (put_handlers (w_handlers (RegisterAll w).2) w) = call_memory job w.
Proof.
  intros Hw Hb. destruct (build_shape r job Hb) as (raw & retry & secs & ->).
  assert (Hempty : forall name, lookup_handler name w = None).
  { intros name. unfold lookup_handler. destruct Hw as [-> | ->]; [done|apply lookup_empty]. }
  assert (Hl : lookup_handler (job_name r) (RegisterAll w).2 = Some (mkRegistered (Some (job_handler r)) None)).
  { unfold RegisterAll. rewrite register_each_all, register_all_first, Hempty. by destruct r. }
  split; [|split; [exact Hl|]].
  { destruct w as [? ? ? ? ? ? ? hs]. cbn in Hw. by destruct Hw as [-> | ->]. }
  cbn [job_of set_Queue j_Name j_Handler j_Payload]. rewrite Hl.
  unfold call_memory, lookup_handler in *. cbn [job_of set_Queue j_Name j_Handler j_Payload] in *. wsimpl.
  specialize (Hempty (job_name r)). cbn in Hempty. rewrite Hempty, Hl. done.
Qed.

End BenchRegistry.

(** ** Seeding *)

Section Seed.
Context {JL : JsonLib} {JW : JsonLibLaws JL} {EV : Env} {CL : ClockLaws EV} {RN : Rand} {FU : Fuel}.
Context {RS : RedisServer} {DB : Database} {UT : UnicodeTables}.

(** What the entries build, given the time a constructor reads. *)
Definition seed_requests : list (gotime -> request) :=
  [fun _ => RHello "world"; fun _ => RSum 3 4; fun _ => RCounter 10;
   fun _ => RSleep (500 * Millisecond); fun _ => RBusyLoop 1000000; fun _ => RFanout 5 100;
   fun _ => RAlwaysError "expected failure"; fun _ => RPanic "expected panic"; fun _ => RNilDeref;
   fun _ => RFailThenSucceed "flaky-1" 2; fun _ => RIntermittent "flaky-2" float_half;
   fun _ => RExhaustRetries "flaky-3"; fun _ => RLarge 1048576; fun _ => RUnicode; RNested].

(** An entry builds the job of a request, at most reading the clock. *)
Definition makes (e : string * prog (string + Job)) (r : gotime -> request) : Prop :=
  (exists job, e.2 = Ret (inr job) /\ build (r zeroTime) = Ok (inr job)) \/
  (exists f, e.2 = (let* t := perform ENow in Ret (f t)) /\
     forall n, exists job, f (clock n) = inr job /\ build (r (clock n)) = Ok (inr job)).

Lemma makes_run e r (w : world) : makes e r ->
  exists t job, build (r t) = Ok (inr job) /\
    (run e.2 w = (Ok (inr job), w) \/ run e.2 w = (Ok (inr job), put_clock (S (w_clock w)) w)).
Proof.
  intros [(job & -> & Hb)|(f & -> & Hf)].
  - exists zeroTime, job. split; [done|]. by left.
  - destruct (Hf (w_clock w)) as (job & Hj & Hb). exists (clock (w_clock w)), job. split; [done|]. right.
    rewrite run_bind. cbn [perform run handle]. by rewrite Hj.
Qed.

Lemma makes_pure name r x : good r -> build r = Ok x -> makes (name, Ret x) (fun _ => r).
Proof.
  intros Hg Hb. destruct (request_behaves r Hg) as (job & _ & Hj & _). left. exists job.
  rewrite Hb in Hj. injection Hj as ->. done.
Qed.

Lemma seed_makes : Forall2 makes seed_entries seed_requests.
Proof.
  assert (Hi : forall z, -1000000000 <= z <= 1000000000 -> in_int64 z)
    by (intros z; unfold in_int64, two63; lia).
  destruct float_in_unit as (_ & Hnan & _).
  repeat match goal with
    | |- Forall2 _ _ _ => constructor
    | |- makes (_, Ret _) _ => apply makes_pure; [|reflexivity]; cbn [good]
    end;
    lazymatch goal with
    | |- makes _ _ => idtac
    | |- _ => repeat split;
        first [by apply Hi | exact Hnan | exact I | discriminate | unfold two63; lia | vm_compute; reflexivity]
    end.
  - destruct (request_behaves (RLarge 1048576)) as (job & _ & Hj & _); [cbn; lia|].
    left. exists job. split; [|done]. cbn [snd]. cbn [build] in Hj. by rewrite Hj.
  - right. eexists. split; [reflexivity|]. intros n.
    destruct (request_behaves (RNested (clock n))) as (job & _ & Hj & _).
    { cbn. apply epoch_ok_rfc, epoch_ok_UTC, clock_ok. }
    exists job. split; [|done]. cbn [build] in Hj. by apply Ok_inj in Hj.
Qed.

(** A dispatcher that hands every job over and then fails as [f] says. *)
Definition recording (f : Job -> option string) : QueueDispatcher := fun job =>
  let* _ := perform (ESend job) in Ret (EmptyString, f job).

(** The errors of the jobs that fail to dispatch. *)
Definition dispatch_errors (f : Job -> option string) (entries : list (string * prog (string + Job)))
    (jobs : list Job) : list string :=
  concat (zip_with (fun e job => match f job with
                                 | Some err => [e.1 +:+ ": dispatch: " +:+ err]
                                 | None => []
                                 end) entries jobs).

Lemma seed_loop_records f entries rs errs w :
  Forall2 makes entries rs -> w_closed w = false ->
  exists jobs, Forall2 (fun r job => exists t, build (r t) = Ok (inr job)) rs jobs /\
    wp (seed_loop (QD := recording f) entries errs) (fun errs' w' =>
      errs' = errs ++ dispatch_errors f entries jobs /\ w_sent w' = w_sent w ++ jobs) w.
Proof.
  intros Hm. revert errs w. induction Hm as [|[name new] r entries rs He Hes IH]; intros errs w Hc.
  { exists []. split; [constructor|]. apply wp_ret. cbn. by rewrite !app_nil_r. }
  destruct (makes_run _ _ w He) as (t & job & Hb & Hrun). cbn [snd] in Hrun.
  assert (exists w1, run new w = (Ok (inr job), w1) /\ w_closed w1 = false /\ w_sent w1 = w_sent w)
    as (w1 & Hnew & Hc1 & Hs1) by (destruct Hrun as [-> | ->]; eexists; split; [reflexivity|done| reflexivity|done]).
  set (errs1 := match f job with Some err => errs ++ [name +:+ ": dispatch: " +:+ err] | None => errs end).
  destruct (IH errs1 (put_sent (w_sent w1 ++ [job]) w1)) as (jobs & Hjobs & Hwp); [done|].
  exists (job :: jobs). split; [constructor; eauto|]. cbn [seed_loop]. apply wp_bind.
  unfold wp at 1. rewrite Hnew. cbv beta iota. apply wp_bind. unfold dispatch, recording. repeat wp_pure.
  rewrite Hc1. cbv iota. repeat wp_pure.
  assert (Hfin : wp (seed_loop (QD := recording f) entries errs1) (fun errs' w' =>
    errs' = errs ++ dispatch_errors f ((name, new) :: entries) (job :: jobs) /\ w_sent w' = w_sent w ++ job :: jobs)
    (put_sent (w_sent w1 ++ [job]) w1)).
  { eapply wp_mono; [|exact Hwp]. intros errs' w' [-> ->]. wsimpl. rewrite Hs1, <- (assoc_L (++)).
    split; [|done]. unfold errs1, dispatch_errors. cbn [zip_with concat fst].
    destruct (f job); [by rewrite <- (assoc_L (++))|done]. }
  unfold errs1 in Hfin. destruct (f job) as [err|]; [exact Hfin|].
  destruct entries; [exact Hfin|]. repeat wp_pure. exact Hfin.
Qed.

(** C29: one bad job does not hide the rest. Whatever dispatches fail, seedAll
    offers one job of each of the fifteen kinds, in the order of the list,
    and returns the errors of the failing ones joined, each with its name,
    and nil when there are none; a nil dispatcher is an error. *)
Theorem seedAll_reports f w :
  run (seedAll None) w = (Ok (Some "jobs.SeedAll: queue dispatcher is nil"), w) /\
  (w_closed w = false ->
   exists jobs, Forall2 (fun r job => exists t, build (r t) = Ok (inr job)) seed_requests jobs /\
     wp (seedAll (Some (recording f))) (fun err w' =>
       err = errors_Join (dispatch_errors f seed_entries jobs) /\ w_sent w' = w_sent w ++ jobs) w).
Proof.
  split; [done|]. intros Hc.
  destruct (seed_loop_records f seed_entries seed_requests [] w seed_makes Hc) as (jobs & Hj & Hwp).
  exists jobs. split; [done|]. unfold seedAll. apply wp_bind. eapply wp_mono; [|exact Hwp].
  intros errs w' [-> Hs]. by apply wp_ret.
Qed.

End Seed.

(** ** Witnesses *)

Lemma RegisterAll_agrees_witness :
  exists job, build (RSum 3 4) = Ok (inr job) /\
    lookup_handler (j_Name job) (RegisterAll benchWorld).2 = Some (mkRegistered (j_Handler job) None).
Proof.
  destruct (request_behaves (RSum 3 4)) as (job & h & Hb & _); [unfold good, in_int64, two63; lia|].
  exists job. split; [exact Hb|].
  destruct (RegisterAll_agrees (RSum 3 4) job benchWorld (or_introl eq_refl) Hb) as (_ & Hl & _).
  exact Hl.
Defined.

Lemma seedAll_reports_witness :
  exists jobs, Forall2 (fun r job => exists t, build (r t) = Ok (inr job)) seed_requests jobs /\
    wp (seedAll (Some (recording (fun _ => Some "down")))) (fun err w' =>
      err = errors_Join (dispatch_errors (fun _ => Some "down") seed_entries jobs) /\
      w_sent w' = w_sent benchWorld ++ jobs) benchWorld.
Proof. exact (proj2 (seedAll_reports (fun _ => Some "down") benchWorld) eq_refl). Defined.
