(* ===== verification/BenchFlaky.v ===== *)
(** * A flaky job from its constructor to the database

    The composition of the constructor NewFailThenSucceedJob, its handler
    with the shared counters, the memory worker, its detached retries and
    the tables: how often the handler of a job that fails [k] times runs,
    and where the job ends. *)

From stdpp Require Import base gmap strings list.
From Stdlib Require Import ZArith Lia.
From S2P Require Import Prelude GoString GoTime Types Services Effects RefServices Registry GoJson GoUtf8 GoJsonText GoJsonCodec Memory BenchJobs RefBench BenchRoundtrip BenchBehaviour BenchRegistry.

Open Scope Z_scope.

Section Flaky.
Context {JL : JsonLib} {JW : JsonLibLaws JL} {EV : Env} {RN : Rand} {FU : Fuel}.
Context {RS : RedisServer} {DB : Database}.

(** A job as a queue passes it on: another id, times and counter, the same
    work. *)
Definition same_work (job j : Job) : Prop :=
  j_Handler j = j_Handler job /\ j_Name j = j_Name job /\ j_Payload j = j_Payload job /\ j_Retry j = j_Retry job.

(** The worker has the job's own handler, inline or registered. *)
Definition own_handler (job : Job) (w : world) : Prop :=
  lookup_handler (j_Name job) w = None \/
  lookup_handler (j_Name job) w = Some (mkRegistered (j_Handler job) None).

Lemma call_own job j h w : j_Handler job = Some h -> same_work job j -> own_handler job w ->
  call_memory j w = invoke h (j_Payload job) (w_app w) /\ runnable j w = true.
Proof.
  intros Hh (Hj & Hn & Hp & _) Ho. unfold call_memory, runnable. rewrite Hn, Hj, Hp, Hh in *.
  unfold own_handler in Ho. rewrite Hh in Ho. by destruct Ho as [-> | ->].
Qed.

(** One delivery of a job that fails [k] times, with [c] attempts made. *)
Lemma flaky_call id k : good (RFailThenSucceed id k) ->
  exists job, NewFailThenSucceedJob id k = inr job /\ j_Retry job = true /\ j_RetryCounter job = 0 /\
    forall j w, same_work job j -> own_handler job w -> bench_wf (w_app w) ->
      0 <= attempts_of id (w_app w) < two63 - 1 ->
      exists o a, call_memory j w = (o, a) /\ runnable j w = true /\ bench_wf a /\
        attempts_of id a = attempts_of id (w_app w) + 1 /\
        (o = HOk <-> k < attempts_of id (w_app w) + 1) /\ (forall m, o <> HPanic m).
Proof.
  intros Hg. destruct (request_behaves _ Hg) as (job & h & Hb & Hh & Hrun). cbn [build] in Hb.
  apply Ok_inj in Hb. exists job. split; [done|].
  destruct (build_shape (RFailThenSucceed id k) job) as (raw & retry & secs & Ej); [cbn [build]; by rewrite Hb|].
  assert (Hretry : retry = true).
  { unfold NewFailThenSucceedJob in Hb. destruct (String.eqb id EmptyString); [done|].
    apply marshalled_inr in Hb as [raw' E]. rewrite Ej in E. by injection E. }
  split; [by rewrite Ej|]. split; [by rewrite Ej|]. intros j w Hs Ho Hw Ha.
  destruct (call_own job j h w Hh Hs Ho) as [Hc Hr].
  destruct (Hrun fuel (w_app w)) as (b' & Hres & _ & Hcount); [cbn; lia|].
  destruct (Hcount Hw) as [Hw' Hat]. specialize (Hat id). cbn [counts] in Hat.
  rewrite bool_decide_true, wrap64_id in Hat by (try done; unfold in_int64; lia).
  exists (expected (RFailThenSucceed id k) (w_app w)).1, b'. split.
  { rewrite Hc. cbn [invoke benchSig]. by rewrite Hres. }
  split; [done|]. split; [done|]. split; [done|]. cbn [expected].
  rewrite wrap64_id by (unfold in_int64; lia). cbv zeta.
  destruct (Z.leb_spec (attempts_of id (w_app w) + 1) k); cbn [fst]; (split; [|by intros]); split; intros; (done || lia).
Qed.

(** A delivery that starts no retry, and one that does. *)
Lemma deliver_ends fuel q j w : runnable j w = true -> w_go (ran q j w) = w_go w ->
  deliver (S fuel) q j w = Some (put_pending (wrap64 (w_pending (ran q j w) - 1)) (ran q j w)).
Proof.
  intros Hr Hgo. cbn [deliver]. rewrite run_memoryStep, Hr. cbv zeta iota. wsimpl. by rewrite Hgo, drop_all.
Qed.

Lemma deliver_retries fuel q j w e a :
  call_memory j w = (HErr e, a) -> runnable j w = true -> memory_retries q j = true -> w_closed w = false ->
  exists w2, deliver (S fuel) q j w = deliver fuel q (retried e j) w2 /\
    w_app w2 = a /\ w_closed w2 = false /\ w_handlers w2 = w_handlers w /\ w_db w2 = w_db w.
Proof.
  intros Hc Hr Hm Hcl. cbn [deliver]. rewrite run_memoryStep, Hr. cbv zeta iota.
  assert (Hran : ran q j w = put_go (w_go w ++ [GSend (retry_delay j) (retried e j)])
    (put_failed (record_failure q (j_ID j) (w_failed w)) (put_app a w))) by (unfold ran; by rewrite Hc, Hm).
  rewrite Hran. wsimpl. rewrite drop_app_length. cbn [app]. rewrite run_detachedSend by done. by eexists.
Qed.

(** What the last delivery leaves. *)
Lemma ran_last q j w o a : call_memory j w = (o, a) -> (o = HOk \/ memory_retries q j = false) ->
  w_go (ran q j w) = w_go w /\ w_app (ran q j w) = a /\
  w_db (ran q j w) = w_db (match o with
                           | HOk => insert_row q "jobs" (completed_row j) w
                           | _ => insert_row q "failed_jobs" (failed_row j) w
                           end).
Proof.
  intros Hc Ho. unfold ran, insert_row. rewrite Hc. destruct o; [by destruct (q_DB q)|..];
    (destruct Ho as [Ho|Ho]; [done|]); rewrite Ho; by destruct (q_DB q).
Qed.

(** The deliveries of such a job from its attempt number [c] on. *)
Lemma flaky_deliver q id k job :
  NewFailThenSucceedJob id k = inr job -> good (RFailThenSucceed id k) ->
  0 <= q_MaxAttempts q < two63 - 1 ->
  forall fuel c j w, same_work job j -> own_handler job w -> bench_wf (w_app w) -> w_closed w = false ->
    attempts_of id (w_app w) = c -> j_RetryCounter j = c -> 0 <= c <= Z.min (Z.max 0 k) (q_MaxAttempts q) ->
    Z.min (Z.max 0 k) (q_MaxAttempts q) - c < Z.of_nat fuel ->
    exists w' jn, deliver fuel q j w = Some w' /\ same_work job jn /\ j_ID jn = j_ID j /\
      attempts_of id (w_app w') = Z.min (Z.max 0 k) (q_MaxAttempts q) + 1 /\
      w_db w' = w_db (if k <=? q_MaxAttempts q then insert_row q "jobs" (completed_row jn) w
                      else insert_row q "failed_jobs" (failed_row jn) w).
Proof.
  intros Hjob Hg Hm. destruct (flaky_call id k Hg) as (job' & Hjob' & Hretry & _ & Hcall).
  rewrite Hjob in Hjob'. injection Hjob' as <-.
  intros fuel. induction fuel as [|fuel IH]; intros c j w Hs Ho Hw Hcl Ha Hrc Hc Hfu; [lia|].
  destruct (Hcall j w Hs Ho Hw) as (o & a & Hcm & Hrun & Hwa & Hat & Hok & Hnp); [lia|]. rewrite Ha in Hat, Hok.
  assert (Hret : memory_retries q j = (c <? q_MaxAttempts q)).
  { unfold memory_retries. destruct Hs as (_ & _ & _ & ->). by rewrite Hretry, Hrc. }
  assert (Hlast : o = HOk \/ memory_retries q j = false ->
    Z.min (Z.max 0 k) (q_MaxAttempts q) = c -> (o = HOk <-> k <= q_MaxAttempts q) ->
    exists w' jn, deliver (S fuel) q j w = Some w' /\ same_work job jn /\ j_ID jn = j_ID j /\
      attempts_of id (w_app w') = Z.min (Z.max 0 k) (q_MaxAttempts q) + 1 /\
      w_db w' = w_db (if k <=? q_MaxAttempts q then insert_row q "jobs" (completed_row jn) w
                      else insert_row q "failed_jobs" (failed_row jn) w)).
  { intros Hl Hmin Hk. destruct (ran_last q j w o a Hcm Hl) as (Hgo & Happ & Hdb).
    eexists _, j. split; [by apply deliver_ends|]. split; [done|]. split; [done|]. wsimpl.
    rewrite Happ, Hat, Hmin. split; [done|]. rewrite Hdb.
    destruct (Z.leb_spec k (q_MaxAttempts q)) as [Hle|Hgt]; [by rewrite (proj2 Hk Hle)|].
    destruct o; [specialize (proj1 Hk eq_refl) as Hle; lia|done..]. }
  destruct o as [|e|m]; [..|by destruct (Hnp m)].
  - assert (k < c + 1) by (by apply Hok). apply Hlast; [by left|lia|]. split; [lia|done].
  - assert (c + 1 <= k) by (destruct (Z.le_gt_cases (c + 1) k) as [|Hgt]; [done|]; by apply Hok in Hgt).
    destruct (Z.ltb_spec c (q_MaxAttempts q)) as [Hlt|Hge];
      [|apply Hlast; [by right|lia|]; split; [done|lia]].
    destruct (deliver_retries fuel q j w e a Hcm Hrun Hret Hcl) as (w2 & -> & Ha2 & Hcl2 & Hh2 & Hdb2).
    destruct (IH (c + 1) (retried e j) w2) as (w' & jn & -> & Hsn & Hid & Hn & Hdb); try done;
      rewrite ?Ha2; try done; try lia.
    + unfold own_handler, lookup_handler. by rewrite Hh2.
    + unfold retried. cbn. rewrite Hrc. apply wrap64_id. unfold in_int64. lia.
    + exists w', jn. split; [done|]. split; [done|]. split; [done|]. split; [done|]. rewrite Hdb.
      unfold insert_row. destruct (k <=? q_MaxAttempts q), (q_DB q); wsimpl; by rewrite ?Hdb2.
Qed.

(** C13: a job from NewFailThenSucceedJob that fails [k] times, delivered to
    the memory backend with a fresh id, comes to rest after exactly
    [min(k, MaxAttempts) + 1] runs of its handler: with a row in jobs when
    [k <= MaxAttempts], with a row in failed_jobs otherwise. This holds
    whether the worker uses the inline handler or the one that RegisterAll
    registers. *)
Theorem fail_then_succeed q id k fuel w :
  good (RFailThenSucceed id k) -> 0 <= k -> 0 <= q_MaxAttempts q < two63 - 1 ->
  bench_wf (w_app w) -> attempts_of id (w_app w) = 0 -> w_closed w = false ->
  Z.min k (q_MaxAttempts q) < Z.of_nat fuel ->
  exists job, NewFailThenSucceedJob id k = inr job /\
    forall j, same_work job j -> j_RetryCounter j = 0 -> own_handler job w ->
    exists w' jn, deliver fuel q j w = Some w' /\ same_work job jn /\ j_ID jn = j_ID j /\
      attempts_of id (w_app w') = Z.min k (q_MaxAttempts q) + 1 /\
      w_db w' = w_db (if k <=? q_MaxAttempts q then insert_row q "jobs" (completed_row jn) w
                      else insert_row q "failed_jobs" (failed_row jn) w).
Proof.
  intros Hg Hk Hm Hw Ha Hcl Hf. destruct (flaky_call id k Hg) as (job & Hjob & _).
  exists job. split; [done|]. intros j Hs Hrc Ho.
  destruct (flaky_deliver q id k job Hjob Hg Hm fuel 0 j w) as (w' & jn & H); try done; [lia..|].
  rewrite !(Z.max_r 0 k) in H by done. by exists w', jn.
Qed.

End Flaky.

(** ** Witness *)

Definition benchMemQueue : Queue :=
  mkQueue "memory" false 1 3 10 ["job"] "job" 300 30 (mkRedis false EmptyString 1) true.

Lemma fail_then_succeed_witness :
  exists job w', NewFailThenSucceedJob "flaky-1" 2 = inr job /\
    deliver 10 benchMemQueue job benchWorld = Some w' /\ attempts_of "flaky-1" (w_app w') = 3.
Proof.
  destruct (fail_then_succeed benchMemQueue "flaky-1" 2 10 benchWorld) as (job & Hjob & H).
  - split; [vm_compute; reflexivity|]. split; [discriminate|]. unfold in_int64, two63. lia.
  - lia.
  - unfold two63. cbn. lia.
  - split; intros *; cbn; by rewrite lookup_empty.
  - reflexivity.
  - reflexivity.
  - cbn. lia.
  - destruct (H job) as (w' & jn & Hd & _ & _ & Hn & _); [done| |by left|].
    + unfold NewFailThenSucceedJob in Hjob. cbn [String.eqb] in Hjob.
      apply marshalled_inr in Hjob as [raw ->]. reflexivity.
    + exists job, w'. split; [exact Hjob|]. split; [exact Hd|exact Hn].
Defined.
