(* ===== verification/BenchStress.v ===== *)
(** * The load generator (benchjobs/stress.go)

    [Stress] starts one goroutine for each job, at most [Concurrency] of
    them at a time (a semaphore), waits for all of them, lets the workers
    drain and stops the goroutine that samples the number of goroutines. Its
    goroutines share the counters of the result, the semaphore, a WaitGroup
    and the random generator, so it is a step relation on that state; the
    dispatcher is a parameter that may answer in any way. *)

From stdpp Require Import base gmap strings list relations.
From Stdlib Require Import ZArith Lia.
From S2P Require Import Prelude GoString GoTime Types Services Effects RefServices GoJson GoUtf8 GoJsonText GoJsonCodec BenchJobs RefBench BenchRoundtrip BenchBehaviour BenchRegistry.

Open Scope Z_scope.

Definition StressModeHello : string := "hello".
Definition StressModeMixed : string := "mixed".
Definition StressModeFail : string := "fail".

Record StressConfig := mkStressConfig {
  sc_Count : Z;
  sc_Concurrency : Z;
  sc_Mode : string;
}.

Record StressResult := mkStressResult {
  sr_Dispatched : Z;
  sr_DispatchErrors : Z;
  sr_ConstructErrors : Z;
  sr_Elapsed : Duration;
  sr_StartGoroutines : Z;
  sr_PeakGoroutines : Z;
}.

(** The checks and defaults at the start; [queue] says that the dispatcher
    is not nil. *)
Definition stress_config (queue : bool) (cfg : StressConfig) : string + StressConfig :=
  if negb queue then inl "stress: nil queue dispatcher"
  else if sc_Count cfg <=? 0 then inl "stress: count must be > 0"
  else inr (mkStressConfig (sc_Count cfg)
    (if sc_Concurrency cfg <=? 0 then 16 else sc_Concurrency cfg)
    (if String.eqb (sc_Mode cfg) EmptyString then StressModeHello else sc_Mode cfg)).

Section Jobs.
Context {JL : JsonLib} {EV : Env} {RN : Rand} {FU : Fuel} {UT : UnicodeTables}.

(** [stressJobFor] when [n] random values were drawn before: the job and the
    number drawn after. *)
Definition stressJobFor (n : nat) (mode : string) (i : Z) : (string + Job) * nat :=
  if String.eqb mode StressModeHello then (NewHelloJob ("stress-" +:+ Itoa i), n)
  else if String.eqb mode StressModeFail then (NewAlwaysErrorJob ("stress-fail-" +:+ Itoa i), n)
  else if String.eqb mode StressModeMixed then
    let roll := rand_IntN n 100 in
    if roll <? 60 then (NewHelloJob ("stress-hello-" +:+ Itoa i), S n)
    else if roll <? 80 then
      (NewSleepJob (wrap64 (wrap64 (10 + rand_IntN (S n) 40) * Millisecond)), S (S n))
    else if roll <? 90 then (NewAlwaysErrorJob ("stress-err-" +:+ Itoa i), S n)
    else if roll <? 95 then (NewPanicJob ("stress-panic-" +:+ Itoa i), S n)
    else (NewBusyLoopJob 50000, S n)
  else (inl ("stress: unknown mode " +:+ uni_Quote mode), n).

(** How long [Stress] waits for workers after the last dispatch. *)
Definition drainWindow (mode : string) : Duration :=
  if String.eqb mode StressModeFail || String.eqb mode StressModeMixed
  then 7 * Second else 100 * Millisecond.

(** ** State *)

(** Where the goroutine of a job is: building the job with index [i], in
    Dispatch, about to leave the semaphore, about to call Done. *)
Inductive gphase :=
| Building (i : Z)
| Dispatching (job : Job)
| Releasing
| Finishing.

(** Where Stress is: before [wg.Add], before the semaphore, before [go], all
    with the index; in [wg.Wait]; in the drain window; waiting for the
    sampler; returned. *)
Inductive mphase :=
| Adding (i : Z)
| Acquiring (i : Z)
| Starting (i : Z)
| Waiting
| Draining
| Joining
| Finished.

Record counts3 := mkCounts { n_dispatched : Z; n_dispatchErr : Z; n_constructErr : Z }.

Record sampler := mkSampler { sa_peak : Z; sa_running : bool; sa_stop : bool }.

Context {W : Type}.

Record stress := mkStress {
  st_main : mphase;
  st_gs : list gphase; (* goroutines of jobs *)
  st_sem : Z; (* tokens in the semaphore *)
  st_wg : Z; (* the WaitGroup; Go's counter has 32 bits, one per job not yet done *)
  st_counts : counts3;
  st_sampler : sampler;
  st_draws : nat; (* random values drawn *)
  st_clock : nat; (* readings of the clock *)
  st_elapsed : Duration;
  st_world : W; (* what the dispatcher acts on *)
}.

(** The three atomic counters. *)
Definition add_dispatched (c : counts3) : counts3 :=
  mkCounts (wrap64 (n_dispatched c + 1)) (n_dispatchErr c) (n_constructErr c).
Definition add_dispatchErr (c : counts3) : counts3 :=
  mkCounts (n_dispatched c) (wrap64 (n_dispatchErr c + 1)) (n_constructErr c).
Definition add_constructErr (c : counts3) : counts3 :=
  mkCounts (n_dispatched c) (n_dispatchErr c) (wrap64 (n_constructErr c + 1)).

(** What a dispatch of a job may answer. *)
Context (dispatches : Job -> W -> option string -> W -> Prop).

(** ** Steps *)

(** A step of a job's goroutine: the draws, counters and world it leaves,
    its next phase ([None] when it ends) and what it adds to the semaphore
    and the WaitGroup. *)
Inductive gstep (mode : string) : gphase -> (nat * counts3 * W) -> option gphase -> (nat * counts3 * W) -> Z -> Z -> Prop :=
| g_construct_error i n c w err n' :
    stressJobFor n mode i = (inl err, n') ->
    gstep mode (Building i) (n, c, w) (Some Releasing) (n', add_constructErr c, w) 0 0
| g_construct i n c w job n' :
    stressJobFor n mode i = (inr job, n') ->
    gstep mode (Building i) (n, c, w) (Some (Dispatching job)) (n', c, w) 0 0
| g_dispatch_error job n c w err w' :
    dispatches job w (Some err) w' ->
    gstep mode (Dispatching job) (n, c, w) (Some Releasing) (n, add_dispatchErr c, w') 0 0
| g_dispatch job n c w w' :
    dispatches job w None w' ->
    gstep mode (Dispatching job) (n, c, w) (Some Releasing) (n, add_dispatched c, w') 0 0
| g_release s : gstep mode Releasing s (Some Finishing) s (-1) 0
| g_done s : gstep mode Finishing s None s 0 (-1).

(** A step of Stress itself. *)
Inductive mstep (cfg : StressConfig) : stress -> stress -> Prop :=
| m_add i gs sem wg c sa n k e w :
    i < sc_Count cfg ->
    mstep cfg (mkStress (Adding i) gs sem wg c sa n k e w) (mkStress (Acquiring i) gs sem (wg + 1) c sa n k e w)
| m_acquire i gs sem wg c sa n k e w :
    sem < sc_Concurrency cfg ->
    mstep cfg (mkStress (Acquiring i) gs sem wg c sa n k e w) (mkStress (Starting i) gs (sem + 1) wg c sa n k e w)
| m_go i gs sem wg c sa n k e w :
    mstep cfg (mkStress (Starting i) gs sem wg c sa n k e w)
      (mkStress (Adding (wrap64 (i + 1))) (gs ++ [Building i]) sem wg c sa n k e w)
| m_loop_end i gs sem wg c sa n k e w :
    ~ i < sc_Count cfg ->
    mstep cfg (mkStress (Adding i) gs sem wg c sa n k e w) (mkStress Waiting gs sem wg c sa n k e w)
| m_wait gs sem c sa n k e w :
    mstep cfg (mkStress Waiting gs sem 0 c sa n k e w)
      (mkStress Draining gs sem 0 c sa n (S k) (Sub (clock k) (clock (pred k))) w)
| m_drain gs sem wg c p r b n k e w :
    mstep cfg (mkStress Draining gs sem wg c (mkSampler p r b) n k e w)
      (mkStress Joining gs sem wg c (mkSampler p r true) n k e w)
| m_join gs sem wg c p b n k e w :
    mstep cfg (mkStress Joining gs sem wg c (mkSampler p false b) n k e w)
      (mkStress Finished gs sem wg c (mkSampler p false b) n k e w).

(** The sampler returns once it is told to stop; until then it may read any
    number of goroutines and keeps the largest. *)
Inductive sstep : sampler -> sampler -> Prop :=
| s_sample p b g : sstep (mkSampler p true b) (mkSampler (if g <=? p then p else g) true b)
| s_stop p : sstep (mkSampler p true true) (mkSampler p false true).

Inductive step (cfg : StressConfig) : stress -> stress -> Prop :=
| step_main s s' : mstep cfg s s' -> step cfg s s'
| step_go m l g k sem wg c sa n t e w og n' c' w' ds dw :
    gstep (sc_Mode cfg) g (n, c, w) og (n', c', w') ds dw ->
    step cfg (mkStress m (l ++ g :: k) sem wg c sa n t e w)
      (mkStress m (l ++ option_list og ++ k) (sem + ds) (wg + dw) c' sa n' t e w')
| step_sampler m gs sem wg c sa sa' n t e w :
    sstep sa sa' ->
    step cfg (mkStress m gs sem wg c sa n t e w) (mkStress m gs sem wg c sa' n t e w).

(** The state when the loop starts: [start] goroutines ran, and the clock
    was read once. *)
Definition stress_init (start : Z) (n k : nat) (w : W) : stress :=
  mkStress (Adding 0) [] 0 0 (mkCounts 0 0 0) (mkSampler start true false) n (S k) 0 w.

(** What Stress returns from its last state. *)
Definition stress_result (start : Z) (s : stress) : StressResult :=
  let c := st_counts s in
  mkStressResult (n_dispatched c) (n_dispatchErr c) (n_constructErr c) (st_elapsed s) start
    (sa_peak (st_sampler s)).

End Jobs.

(** ** Accounting *)

Section Stress.
Context {JL : JsonLib} {EV : Env} {RN : Rand} {FU : Fuel} {UT : UnicodeTables} {W : Type}.
Context (dispatches : Job -> W -> option string -> W -> Prop) (cfg : StressConfig) (start : Z).
Context (Hcount : 0 < sc_Count cfg < two63) (Hconc : 0 < sc_Concurrency cfg).

(** Goroutines that have not counted their job yet, that hold a token, that
    are in Dispatch. *)
Definition uncounted (g : gphase) : Z := match g with Building _ | Dispatching _ => 1 | _ => 0 end.
Definition holds (g : gphase) : Z := match g with Finishing => 0 | _ => 1 end.
Definition in_dispatch (g : gphase) : Z := match g with Dispatching _ => 1 | _ => 0 end.

(** Goroutines started, and calls of [wg.Add]. *)
Definition started (m : mphase) : Z :=
  match m with Adding i | Acquiring i | Starting i => i | _ => sc_Count cfg end.
Definition added (m : mphase) : Z :=
  match m with Adding i => i | Acquiring i | Starting i => i + 1 | _ => sc_Count cfg end.
Definition main_token (m : mphase) : Z := match m with Starting _ => 1 | _ => 0 end.
Definition index_ok (m : mphase) : Prop :=
  match m with
  | Adding i => 0 <= i <= sc_Count cfg
  | Acquiring i | Starting i => 0 <= i < sc_Count cfg
  | _ => True
  end.

Definition total (c : counts3) : Z := n_dispatched c + n_dispatchErr c + n_constructErr c.
Definition counts_ok (c : counts3) : Prop :=
  0 <= n_dispatched c /\ 0 <= n_dispatchErr c /\ 0 <= n_constructErr c.

(** No goroutine of a job runs after the wait. *)
Definition quiet (m : mphase) (gs : list gphase) : Prop :=
  match m with Draining | Joining | Finished => gs = [] | _ => True end.

(** The sampler is told to stop before Stress waits for it. *)
Definition told (m : mphase) (sa : sampler) : Prop :=
  match m with Joining | Finished => sa_stop sa = true | _ => True end.

Definition stress_inv (s : stress (W := W)) : Prop :=
  index_ok (st_main s) /\ counts_ok (st_counts s) /\
  total (st_counts s) + sumZ (uncounted <$> st_gs s) = started (st_main s) /\
  st_sem s = sumZ (holds <$> st_gs s) + main_token (st_main s) /\ st_sem s <= sc_Concurrency cfg /\
  st_wg s = Z.of_nat (length (st_gs s)) + (added (st_main s) - started (st_main s)) /\
  quiet (st_main s) (st_gs s) /\ told (st_main s) (st_sampler s) /\ start <= sa_peak (st_sampler s).

Lemma sum_nonneg (f : gphase -> Z) gs : (forall g, 0 <= f g) -> 0 <= sumZ (f <$> gs).
Proof. intros H. induction gs as [|g gs IH]; cbn; [done|]. specialize (H g). unfold sumZ in IH. lia. Qed.

Lemma sum_le (f h : gphase -> Z) gs : (forall g, f g <= h g) -> sumZ (f <$> gs) <= sumZ (h <$> gs).
Proof. intros H. induction gs as [|g gs IH]; cbn; [done|]. specialize (H g). unfold sumZ in IH. lia. Qed.

Lemma sum_split (f : gphase -> Z) l g k :
  sumZ (f <$> l ++ g :: k) = f g + sumZ (f <$> l ++ k).
Proof. rewrite !fmap_app, !sumZ_app. unfold sumZ. cbn. lia. Qed.

Lemma started_bound m : index_ok m -> started m <= sc_Count cfg.
Proof. destruct m; cbn [started index_ok]; intros; lia. Qed.

Lemma mstep_inv s s' : stress_inv s -> mstep cfg s s' -> stress_inv s'.
Proof.
  intros (Hi & Hc & Ht & Hs & Hsm & Hw & Hq & Hto & Hp) Hstep.
  destruct Hstep; cbn [st_main st_gs st_sem st_wg st_counts st_sampler sa_peak] in *;
    unfold stress_inv; cbn [st_main st_gs st_sem st_wg st_counts st_sampler sa_peak];
    cbn [index_ok started added main_token quiet told sa_stop] in *; split_and!; try done; try lia.
  all: try (rewrite ?wrap64_id by (unfold in_int64; lia); rewrite ?fmap_app, ?sumZ_app, ?length_app; cbn; lia).
  destruct gs; [done|]. cbn [length] in Hw. lia.
Qed.

Lemma gstep_inv g n c w og n' c' w' ds dw :
  gstep dispatches (sc_Mode cfg) g (n, c, w) og (n', c', w') ds dw ->
  counts_ok c -> total c < two63 - 1 ->
  counts_ok c' /\ total c' + sumZ (uncounted <$> option_list og) = total c + uncounted g /\
  sumZ (holds <$> option_list og) = holds g + ds /\
  Z.of_nat (length (option_list og)) = 1 + dw.
Proof.
  intros Hg (H1 & H2 & H3) Ht. unfold total, counts_ok in *.
  inversion Hg; subst; cbn in *; rewrite ?wrap64_id by (unfold in_int64, two63 in *; lia); lia.
Qed.

Lemma step_inv s s' : stress_inv s -> step dispatches cfg s s' -> stress_inv s'.
Proof.
  intros Hinv Hstep. destruct Hstep as [s s' Hm|m l g k sem wg c sa n t e w og n' c' w' ds dw Hg|m gs sem wg c sa sa' n t e w Hs].
  - by eapply mstep_inv.
  - destruct Hinv as (Hi & Hc & Ht & Hs & Hsm & Hw & Hq & Hto & Hp).
    cbn [st_main st_gs st_sem st_wg st_counts st_sampler] in *.
    rewrite sum_split in Ht, Hs. rewrite length_app in Hw. cbn [length] in Hw.
    pose proof (started_bound m Hi). pose proof (sum_nonneg uncounted (l ++ k) ltac:(by intros [])).
    assert (0 <= uncounted g) by (by destruct g).
    assert (Hlt : uncounted g = 1 -> total c < two63 - 1) by lia.
    assert (Hsame : uncounted g = 0 -> c' = c) by (inversion Hg; subst; cbn; (done || lia)).
    assert (Hg' : counts_ok c' /\ total c' + sumZ (uncounted <$> option_list og) = total c + uncounted g /\
      sumZ (holds <$> option_list og) = holds g + ds /\ Z.of_nat (length (option_list og)) = 1 + dw).
    { destruct (Z.eq_dec (uncounted g) 1) as [E|E]; [by eapply gstep_inv; eauto|].
      inversion Hg; subst; cbn in *; try lia; split_and!; (done || lia). }
    destruct Hg' as (Hc' & Ht' & Hh' & Hl').
    assert (Hquiet : quiet m (l ++ g :: k) -> match m with Draining | Joining | Finished => False | _ => True end)
      by (destruct m; try done; cbn; by destruct l).
    specialize (Hquiet Hq).
    unfold stress_inv. cbn [st_main st_gs st_sem st_wg st_counts st_sampler].
    rewrite !fmap_app, !sumZ_app in *. rewrite !length_app.
    assert (ds <= 0) by (inversion Hg; subst; lia).
    split_and!; try done; try lia. by destruct m.
  - destruct Hinv as (Hi & Hc & Ht & Hse & Hsm & Hw & Hq & Hto & Hp).
    unfold stress_inv. cbn [st_main st_gs st_sem st_wg st_counts st_sampler] in *. split_and!; try done;
      destruct Hs as [p b g|p]; cbn [sa_peak] in *; try done. destruct (Z.leb_spec g p); lia.
Qed.

Lemma init_inv n k (w : W) : stress_inv (stress_init start n k w).
Proof.
  unfold stress_inv, stress_init, counts_ok, total. cbn -[Z.le Z.lt]. split_and!; (done || lia).
Qed.

Lemma reach_inv n k w s : rtc (step dispatches cfg) (stress_init start n k w) s -> stress_inv s.
Proof.
  intros Hr. refine (rtc_ind_r (R := step dispatches cfg) stress_inv _ (init_inv n k w) _ s Hr).
  intros s1 s2 _ Hs Hi. by eapply step_inv.
Qed.

Lemma stress_books n k w s :
  rtc (step dispatches cfg) (stress_init start n k w) s ->
  sumZ (in_dispatch <$> st_gs s) <= sc_Concurrency cfg /\
  total (st_counts s) <= sc_Count cfg /\ 0 <= st_wg s /\
  (st_main s = Finished ->
     let r := stress_result start s in
     sr_Dispatched r + sr_DispatchErrors r + sr_ConstructErrors r = sc_Count cfg /\
     0 <= sr_Dispatched r /\ 0 <= sr_DispatchErrors r /\ 0 <= sr_ConstructErrors r /\
     st_gs s = [] /\ sr_StartGoroutines r <= sr_PeakGoroutines r).
Proof.
  intros Hr. destruct (reach_inv n k w s Hr) as (Hi & (Hc1 & Hc2 & Hc3) & Ht & Hs & Hsm & Hw & Hq & Hto & Hp).
  pose proof (sum_le in_dispatch holds (st_gs s) ltac:(by intros [])).
  pose proof (sum_nonneg uncounted (st_gs s) ltac:(by intros [])).
  assert (0 <= main_token (st_main s)) by (by destruct (st_main s)).
  assert (0 <= added (st_main s) - started (st_main s)) by (destruct (st_main s); cbn [added started]; lia).
  pose proof (started_bound _ Hi). split; [lia|]. split; [lia|]. split; [lia|].
  intros Hm. rewrite Hm in *. cbn [quiet started] in *. rewrite Hq in *. cbn [fmap list_fmap sumZ foldr] in Ht.
  unfold total in Ht. cbn. split_and!; try done. lia.
Qed.

(** ** Termination *)

Definition gweight (g : gphase) : Z :=
  match g with Building _ => 4 | Dispatching _ => 3 | Releasing => 2 | Finishing => 1 end.

Definition mweight (m : mphase) : Z :=
  match m with
  | Adding i => 8 * (sc_Count cfg - i) + 5
  | Acquiring i => 8 * (sc_Count cfg - i) + 4
  | Starting i => 8 * (sc_Count cfg - i) + 3
  | Waiting => 4
  | Draining => 3
  | Joining => 2
  | Finished => 1
  end.

(** The steps that are left, not counting samples. *)
Definition steps_left (s : stress (W := W)) : Z :=
  mweight (st_main s) + sumZ (gweight <$> st_gs s) + (if sa_running (st_sampler s) then 1 else 0).

Lemma steps_left_nonneg s : stress_inv s -> 0 <= steps_left s.
Proof.
  intros (Hi & _). unfold steps_left. pose proof (sum_nonneg gweight (st_gs s) ltac:(by intros [])).
  assert (0 <= mweight (st_main s)) by (destruct (st_main s); cbn [index_ok mweight] in *; lia).
  destruct (sa_running (st_sampler s)); lia.
Qed.

(** A step that only samples. *)
Definition samples (s s' : stress (W := W)) : Prop :=
  exists g, s' = mkStress (st_main s) (st_gs s) (st_sem s) (st_wg s) (st_counts s)
    (mkSampler (if g <=? sa_peak (st_sampler s) then sa_peak (st_sampler s) else g)
       (sa_running (st_sampler s)) (sa_stop (st_sampler s)))
    (st_draws s) (st_clock s) (st_elapsed s) (st_world s).

Lemma mstep_decreases s s' : index_ok (st_main s) -> mstep cfg s s' -> steps_left s' < steps_left s.
Proof.
  intros Hi Hm. unfold steps_left.
  destruct Hm; cbn [st_main st_gs st_sampler sa_running index_ok mweight] in *; try lia.
  rewrite wrap64_id by (unfold in_int64; lia). rewrite fmap_app, sumZ_app. cbn. lia.
Qed.

Lemma step_decreases s s' : stress_inv s -> step dispatches cfg s s' ->
  samples s s' \/ steps_left s' < steps_left s.
Proof.
  intros (Hi & _) Hs. destruct Hs as [s s' Hm|m l g k sem wg c sa n t e w og n' c' w' ds dw Hg
    |m gs sem wg c sa sa' n t e w Hsa].
  - right. by apply mstep_decreases.
  - right. unfold steps_left. cbn [st_main st_gs st_sampler]. rewrite sum_split, !fmap_app, !sumZ_app.
    assert (sumZ (gweight <$> option_list og) < gweight g) by (inversion Hg; subst; cbn; lia). lia.
  - destruct Hsa as [p b g|p]; [left; by exists g|right]. unfold steps_left. cbn. lia.
Qed.

(** The dispatcher answers every call. *)
Context (Hanswers : forall job w, exists err w', dispatches job w err w').

Lemma gstep_exists g n c w : exists og n' c' w' ds dw, gstep dispatches (sc_Mode cfg) g (n, c, w) og (n', c', w') ds dw.
Proof.
  destruct g as [i|job| |].
  - destruct (stressJobFor n (sc_Mode cfg) i) as [[err|job] n'] eqn:E;
      [by eexists _, _, _, _, _, _; eapply g_construct_error|by eexists _, _, _, _, _, _; eapply g_construct].
  - destruct (Hanswers job w) as ([err|] & w' & Hd);
      [by eexists _, _, _, _, _, _; eapply g_dispatch_error|by eexists _, _, _, _, _, _; eapply g_dispatch].
  - eexists _, _, _, _, _, _; eapply g_release.
  - eexists _, _, _, _, _, _; eapply g_done.
Qed.

Lemma goroutine_moves m g k sem wg c sa n t e w : exists s',
  step dispatches cfg (mkStress m (g :: k) sem wg c sa n t e w) s' /\
  steps_left s' < steps_left (mkStress m (g :: k) sem wg c sa n t e w).
Proof.
  destruct (gstep_exists g n c w) as (og & n' & c' & w' & ds & dw & Hg). eexists. split.
  - apply (step_go dispatches cfg m [] g k). exact Hg.
  - unfold steps_left. cbn [st_main st_gs st_sampler app]. rewrite fmap_app, sumZ_app.
    assert (sumZ (gweight <$> option_list og) < gweight g) by (inversion Hg; subst; cbn; lia).
    cbn [fmap list_fmap]. change (sumZ (gweight g :: ?l)) with (gweight g + sumZ l). lia.
Qed.

Lemma stress_moves s : stress_inv s -> st_main s <> Finished ->
  exists s', step dispatches cfg s s' /\ steps_left s' < steps_left s.
Proof.
  intros (Hi & _ & _ & Hs & Hsm & Hw & Hq & Hto & _) Hm.
  destruct s as [m gs sem wg c sa n t e w].
  cbn [st_main st_gs st_sem st_wg st_counts st_sampler] in *.
  destruct gs as [|g gs]; [|apply goroutine_moves]. cbn in Hs, Hw.
  assert (Hgo : forall s', mstep cfg (mkStress m [] sem wg c sa n t e w) s' ->
    exists s', step dispatches cfg (mkStress m [] sem wg c sa n t e w) s' /\
      steps_left s' < steps_left (mkStress m [] sem wg c sa n t e w)).
  { intros s' Hstep. exists s'. split; [by apply step_main|].
    by apply mstep_decreases. }
  destruct m as [i|i|i| | | |]; cbn [index_ok main_token added started told] in *.
  - destruct (Z.lt_ge_cases i (sc_Count cfg)); eapply Hgo; [by apply m_add|apply m_loop_end; lia].
  - eapply Hgo, m_acquire. lia.
  - eapply Hgo, m_go.
  - assert (wg = 0) as -> by lia. eapply Hgo, m_wait.
  - destruct sa as [p r b]. eapply Hgo, m_drain.
  - destruct sa as [p [] b]; cbn in Hto; subst b; [|eapply Hgo, m_join].
    eexists. split; [apply step_sampler, s_stop|]. unfold steps_left. cbn. lia.
  - done.
Qed.

Lemma stress_finishes n k w s :
  rtc (step dispatches cfg) (stress_init start n k w) s ->
  0 <= steps_left s /\
  (exists s', rtc (step dispatches cfg) s s' /\ st_main s' = Finished) /\
  (st_main s <> Finished -> exists s', step dispatches cfg s s' /\ steps_left s' < steps_left s) /\
  (forall s', step dispatches cfg s s' -> samples s s' \/ steps_left s' < steps_left s).
Proof.
  intros Hr. pose proof (reach_inv n k w s Hr) as Hinv.
  split; [by apply steps_left_nonneg|]. split; [|split; [by apply stress_moves|intros s'; by apply step_decreases]].
  clear Hr. remember (Z.to_nat (steps_left s)) as f eqn:Hf. revert s Hinv Hf.
  induction f as [f IH] using lt_wf_ind. intros s Hinv Hf.
  assert (Hd : st_main s = Finished \/ st_main s <> Finished) by (destruct (st_main s); (by left) || by right).
  destruct Hd as [Hd|Hd]; [by exists s|].
  destruct (stress_moves s Hinv Hd) as (s1 & Hs & Hlt).
  pose proof (step_inv s s1 Hinv Hs) as Hinv1. pose proof (steps_left_nonneg s1 Hinv1).
  destruct (IH (Z.to_nat (steps_left s1))) with (s := s1) as (s' & Hr & Hfin); [lia|done|done|].
  exists s'. split; [by eapply rtc_l|done].
Qed.

End Stress.

Section Run.
Context {JL : JsonLib} {EV : Env} {RN : Rand} {FU : Fuel} {UT : UnicodeTables} {W : Type}.
Context (dispatches : Job -> W -> option string -> W -> Prop).

(** A configuration that passes the checks: a positive count of 64 bits and
    a positive bound. *)
Lemma stress_config_ok cfg0 cfg : in_int64 (sc_Count cfg0) -> stress_config true cfg0 = inr cfg ->
  0 < sc_Count cfg < two63 /\ 0 < sc_Concurrency cfg.
Proof.
  unfold stress_config, in_int64. cbn [negb]. destruct (Z.leb_spec (sc_Count cfg0) 0); [done|].
  intros Hi [= <-]. cbn [sc_Count sc_Concurrency]. destruct (Z.leb_spec (sc_Concurrency cfg0) 0); lia.
Qed.

(** C17: the books of a stress run. In every state it can reach, under any
    interleaving and whatever the dispatches answer, at most Concurrency
    calls of Dispatch are in flight, no more jobs are counted than asked
    for, and the WaitGroup is not negative. When it returns, every job is
    counted exactly once as dispatched, dispatch error or construct error,
    no goroutine of it is left, and the peak is at least the number of
    goroutines at the start. *)
Theorem stress_accounts cfg0 cfg start n k w s :
  in_int64 (sc_Count cfg0) -> stress_config true cfg0 = inr cfg ->
  rtc (step dispatches cfg) (stress_init start n k w) s ->
  sumZ (in_dispatch <$> st_gs s) <= sc_Concurrency cfg /\
  total (st_counts s) <= sc_Count cfg0 /\ 0 <= st_wg s /\
  (st_main s = Finished ->
     let r := stress_result start s in
     sr_Dispatched r + sr_DispatchErrors r + sr_ConstructErrors r = sc_Count cfg0 /\
     0 <= sr_Dispatched r /\ 0 <= sr_DispatchErrors r /\ 0 <= sr_ConstructErrors r /\
     st_gs s = [] /\ sr_StartGoroutines r <= sr_PeakGoroutines r).
Proof.
  intros Hi Hc Hr. destruct (stress_config_ok _ _ Hi Hc) as [H1 H2].
  assert (sc_Count cfg = sc_Count cfg0) as <-.
  { unfold stress_config in Hc. cbn [negb] in Hc. destruct (sc_Count cfg0 <=? 0); [done|]. by injection Hc as <-. }
  by eapply stress_books.
Qed.

(** C18: a stress run ends. From every state it can reach it can go on to
    return, it is never stuck before, and every step that is not a sample
    of the goroutine count brings the return nearer: [steps_left] goes down
    and is not negative, so a run that never returned would do nothing but
    sample from some point on. (The dispatcher must answer every call.) *)
Theorem stress_ends cfg0 cfg start n k w s :
  in_int64 (sc_Count cfg0) -> stress_config true cfg0 = inr cfg ->
  (forall job w, exists err w', dispatches job w err w') ->
  rtc (step dispatches cfg) (stress_init start n k w) s ->
  0 <= steps_left cfg s /\
  (exists s', rtc (step dispatches cfg) s s' /\ st_main s' = Finished) /\
  (st_main s <> Finished -> exists s', step dispatches cfg s s' /\ steps_left cfg s' < steps_left cfg s) /\
  (forall s', step dispatches cfg s s' -> samples s s' \/ steps_left cfg s' < steps_left cfg s).
Proof.
  intros Hi Hc Ha Hr. destruct (stress_config_ok _ _ Hi Hc) as [H1 H2]. by eapply stress_finishes.
Qed.

End Run.

(** ** The mix of jobs *)

(** [rand.IntN(bound)] is in [0, bound). *)
Class RandLaws `{JL : JsonLib} (RN : Rand) := {
  rand_IntN_range n bound : 0 < bound -> 0 <= rand_IntN n bound < bound;
}.

Section Mix.
Context {JL : JsonLib} {JW : JsonLibLaws JL} {EV : Env} {RN : Rand} {RW : RandLaws RN} {FU : Fuel}.
Context {UT : UnicodeTables}.

(** The jobs of the mixed mode, one entry for each of the hundred rolls. *)
Definition mix_table : list string :=
  replicate 60 "hello-world" ++ replicate 20 "slow-sleep" ++ replicate 10 "fail-error" ++
  replicate 5 "fail-panic" ++ replicate 5 "slow-busy-loop".

Definition mix_name (roll : Z) : string :=
  if roll <? 60 then "hello-world" else if roll <? 80 then "slow-sleep"
  else if roll <? 90 then "fail-error" else if roll <? 95 then "fail-panic" else "slow-busy-loop".

Lemma mix_name_table roll : 0 <= roll < 100 -> mix_table !! Z.to_nat roll = Some (mix_name roll).
Proof.
  intros H.
  assert (Hall : forallb (fun i => bool_decide (mix_table !! i = Some (mix_name (Z.of_nat i)))) (seq 0 100) = true)
    by (vm_compute; reflexivity).
  rewrite forallb_forall in Hall. specialize (Hall (Z.to_nat roll)).
  rewrite bool_decide_eq_true, Z2Nat.id in Hall by lia. apply Hall, in_seq. lia.
Qed.

(** A constructor that succeeds, with the name of its job. *)
Lemma built r x : good r -> build r = Ok x -> exists job, x = inr job /\ j_Name job = job_name r.
Proof.
  intros Hg Hx. destruct (request_behaves r Hg) as (job & h & Hb & _).
  destruct (build_shape r job Hb) as (raw & retry & secs & E). exists job.
  rewrite Hx in Hb. apply Ok_inj in Hb. split; [done|]. by rewrite E.
Qed.

Lemma numbered_valid p i : plain p -> ValidString (p +:+ Itoa i) = true.
Proof. intros Hp. apply plain_valid, plain_app; [done|apply plain_Itoa]. Qed.

(** The sleep of the mixed mode. *)
Definition mix_sleep (n : nat) : Duration := (10 + rand_IntN (S n) 40) * Millisecond.

(** C30: what the load generator builds. The modes hello, fail and mixed
    never fail to build a job, and give hello, always-error and mixed jobs;
    over the hundred equally likely rolls the mix is exactly 60 hello, 20
    sleep, 10 error, 5 panic and 5 busy-loop jobs, and a sleep lasts from
    10 to 49 milliseconds. Every other mode builds no job at all. *)
Theorem stressJobFor_mix n i mode :
  match stressJobFor n mode i with
  | (inr job, n') =>
      mode = StressModeHello /\ j_Name job = "hello-world" /\ n' = n \/
      mode = StressModeFail /\ j_Name job = "fail-error" /\ n' = n \/
      mode = StressModeMixed /\ mix_table !! Z.to_nat (rand_IntN n 100) = Some (j_Name job) /\
        (j_Name job = "slow-sleep" ->
           NewSleepJob (mix_sleep n) = inr job /\ 10 * Millisecond <= mix_sleep n <= 49 * Millisecond)
  | (inl _, _) => mode <> StressModeHello /\ mode <> StressModeFail /\ mode <> StressModeMixed
  end.
Proof.
  unfold stressJobFor.
  destruct (String.eqb_spec mode StressModeHello) as [->|H1].
  { destruct (built (RHello ("stress-" +:+ Itoa i)) _ (numbered_valid "stress-" i ltac:(plain_text)) eq_refl)
      as (job & -> & Hn). by left. }
  destruct (String.eqb_spec mode StressModeFail) as [->|H2].
  { destruct (built (RAlwaysError ("stress-fail-" +:+ Itoa i)) _ (numbered_valid "stress-fail-" i ltac:(plain_text)) eq_refl)
      as (job & -> & Hn). by right; left. }
  destruct (String.eqb_spec mode StressModeMixed) as [->|H3]; [|done].
  cbv zeta. pose proof (rand_IntN_range n 100 ltac:(lia)) as Hr. pose proof (rand_IntN_range (S n) 40 ltac:(lia)) as Hs.
  pose proof (mix_name_table _ Hr) as Ht. unfold mix_name in Ht.
  assert (Hsleep : wrap64 (wrap64 (10 + rand_IntN (S n) 40) * Millisecond) = mix_sleep n).
  { unfold mix_sleep. rewrite !wrap64_id; [done|unfold in_int64, two63; lia..|].
    rewrite wrap64_id; unfold in_int64, two63, Millisecond; lia. }
  assert (Hms : in_int64 (mix_sleep n)) by (unfold in_int64, two63, mix_sleep, Millisecond; lia).
  destruct (rand_IntN n 100 <? 60); [|destruct (rand_IntN n 100 <? 80);
    [|destruct (rand_IntN n 100 <? 90); [|destruct (rand_IntN n 100 <? 95)]]].
  - destruct (built (RHello ("stress-hello-" +:+ Itoa i)) _ (numbered_valid "stress-hello-" i ltac:(plain_text)) eq_refl)
      as (job & -> & Hn). right; right. by rewrite Hn.
  - rewrite Hsleep. destruct (built (RSleep (mix_sleep n)) _ Hms eq_refl) as (job & -> & Hn).
    right; right. rewrite Hn. split; [done|]. split; [done|]. intros _. split; [done|].
    unfold mix_sleep, Millisecond. lia.
  - destruct (built (RAlwaysError ("stress-err-" +:+ Itoa i)) _ (numbered_valid "stress-err-" i ltac:(plain_text)) eq_refl)
      as (job & -> & Hn). right; right. by rewrite Hn.
  - destruct (built (RPanic ("stress-panic-" +:+ Itoa i)) _ (numbered_valid "stress-panic-" i ltac:(plain_text)) eq_refl)
      as (job & -> & Hn). right; right. by rewrite Hn.
  - destruct (built (RBusyLoop 50000) _ ltac:(unfold good, in_int64, two63; lia) eq_refl) as (job & -> & Hn).
    right; right. by rewrite Hn.
Qed.

End Mix.

(** ** Witnesses *)

#[export] Instance refRandLaws : RandLaws refRand.
Proof. split. intros n bound Hb. cbn. zlia. Qed.

Definition stressCfg : StressConfig := mkStressConfig 2 0 EmptyString.

(** A dispatcher that fails on every call. *)
Definition refuses (job : Job) (w : unit) (err : option string) (w' : unit) : Prop := err = Some "down".

Lemma stress_accounts_witness :
  exists s, rtc (step refuses (mkStressConfig 2 16 StressModeHello)) (stress_init 7 0 0 tt) s /\
    st_main s = Finished /\
    sr_Dispatched (stress_result 7 s) + sr_DispatchErrors (stress_result 7 s) +
      sr_ConstructErrors (stress_result 7 s) = 2 /\ st_gs s = [].
Proof.
  destruct (stress_finishes refuses (mkStressConfig 2 16 StressModeHello) 7 ltac:(cbn; unfold two63; lia)
    ltac:(cbn; lia) ltac:(intros; by exists (Some "down"), tt) 0 0 tt (stress_init 7 0 0 tt))
    as (_ & (s & Hr & Hf) & _); [apply rtc_refl|].
  exists s. split; [exact Hr|]. split; [exact Hf|].
  destruct (stress_accounts refuses stressCfg (mkStressConfig 2 16 StressModeHello) 7 0 0 tt s)
    as (_ & _ & _ & H); [unfold in_int64, two63; cbn; lia|reflexivity|exact Hr|].
  destruct (H Hf) as (Hsum & _ & _ & _ & Hgs & _). split; [exact Hsum|exact Hgs].
Defined.

Lemma stress_ends_witness :
  exists s', rtc (step refuses (mkStressConfig 2 16 StressModeHello)) (stress_init 7 0 0 tt) s' /\
    st_main s' = Finished.
Proof.
  destruct (stress_ends refuses stressCfg (mkStressConfig 2 16 StressModeHello) 7 0 0 tt
    (stress_init 7 0 0 tt)) as (_ & H & _);
    [unfold in_int64, two63; cbn; lia|reflexivity| |apply rtc_refl|exact H].
  intros job w. by exists (Some "down"), tt.
Defined.

Lemma stressJobFor_mix_witness :
  match stressJobFor 0 StressModeMixed 7 with
  | (inr job, _) => j_Name job = "hello-world"
  | (inl _, _) => False
  end.
Proof.
  pose proof (stressJobFor_mix 0 7 StressModeMixed) as H.
  assert (E : mix_table !! Z.to_nat (rand_IntN 0 100) = Some "hello-world") by (vm_compute; reflexivity).
  destruct (stressJobFor 0 StressModeMixed 7) as [[err|job] n'].
  - destruct H as (_ & _ & H). exact (H eq_refl).
  - destruct H as [[H _]|[[H _]|(_ & H & _)]]; [discriminate|discriminate|]. congruence.
Defined.
