(* ===== verification/JobJson.v ===== *)
(** * Jobs as JSON (api/types.go, UnmarshalPayload of api/queue.go)

    The struct tags of [Job] as a codec, and [UnmarshalPayload]. *)

From stdpp Require Import base gmap strings list.
From Stdlib Require Import ZArith Ascii Lia.
From S2P Require Import Prelude GoString GoTime Types Services Effects RefServices GoJson GoUtf8 GoJsonText GoJsonCodec BenchJobs RefBench.

Open Scope Z_scope.

Section JobJson.
Context {HS : HandlerSig} {JL : JsonLib}.

(** A job variable: the job, and what is left behind the bytes of its
    payload. *)
Definition jobvar := (Job * list Z)%type.

Definition get_bytes (v : jobvar) : slice Z := mkSlice (byte_list <$> j_Payload v.1) v.2.
Definition set_bytes (s : slice Z) (v : jobvar) : jobvar :=
  (set_Payload (of_byte_list <$> sl_elems s) v.1, sl_rest s).

(** A field of the job under its tag. *)
Definition jfld {A} (c : codec A) (name : string) (omitempty : bool) (get : Job -> A) (set : A -> Job -> Job)
    : field jobvar :=
  fld c name omitempty (fun v => get v.1) (fun a v => (set a v.1, v.2)).

(** The fields that encoding/json sees, in the order of the struct; those
    tagged with a dash are left out. *)
Definition job_fields : list (field jobvar) :=
  [jfld c_string "id" false j_ID set_ID;
   jfld c_string "name" false j_Name set_Name;
   fld c_bytes "Payload" false get_bytes set_bytes;
   jfld c_int "retryCounter" false j_RetryCounter set_RetryCounter;
   jfld c_string "reservedAt" false j_ReservedAt set_ReservedAt;
   jfld c_string "dispatchAt" true j_DispatchAt set_DispatchAt;
   jfld c_string "completedAt" false j_CompletedAt set_CompletedAt;
   jfld c_string "failedAt" false j_FailedAt set_FailedAt;
   jfld c_string "lockedAt" true j_LockedAt set_LockedAt;
   jfld c_int "lockFor" true j_LockFor set_LockFor;
   jfld c_string "queue" false j_Queue set_Queue;
   jfld c_string "exception" false j_Exception set_Exception;
   jfld c_string "status" false j_Status set_Status].

Definition c_job : codec jobvar := c_struct (zeroJob, []) job_fields.

(** [UnmarshalPayload] *)
Definition UnmarshalPayload (cachedJob : option string) : string + Job :=
  match Unmarshal c_job "Job" cachedJob with
  | inl err => inl err
  | inr v => inr v.1
  end.

(** ** The jobs it returns *)

Definition strings_of (j : Job) : list string :=
  [j_ID j; j_Name j; j_ReservedAt j; j_DispatchAt j; j_CompletedAt j; j_FailedAt j; j_LockedAt j;
   j_Queue j; j_Exception j; j_Status j].

(** The fields JSON does not carry have their zero values, strings are valid
    UTF-8 and integers have 64 bits. *)
Definition json_job (j : Job) : Prop :=
  j_Handler j = None /\ j_Retry j = false /\ j_RetryInSeconds j = 0 /\ j_RetryAfter j = EmptyString /\
  j_CreatedAt j = zeroTime /\ j_UpdatedAt j = zeroTime /\
  in_int64 (j_RetryCounter j) /\ in_int64 (j_LockFor j) /\
  Forall (fun s => ValidString s = true) (strings_of j).

(** What the fields of the struct keep. *)
Definition json_var (v : jobvar) : Prop := json_job v.1.

Lemma job_fields_keep : Forall (keeps json_var) job_fields.
Proof.
  assert (Hs : forall name omit get set,
    (forall j s, json_job j -> ValidString s = true -> json_job (set s j)) ->
    (forall j, json_job j -> ValidString (get j) = true) -> keeps json_var (jfld c_string name omit get set)).
  { intros name omit get set Hset Hget j [job rest] v' Hv. cbn [jfld fld f_store fst snd].
    destruct (store c_string j (get job)) as [s|] eqn:E; [|done]. intros [= <-]. apply Hset; [exact Hv|].
    eapply store_string_valid; [|exact E]. by apply Hget. }
  assert (Hi : forall name omit get set,
    (forall j z, json_job j -> in_int64 z -> json_job (set z j)) ->
    (forall j, json_job j -> in_int64 (get j)) -> keeps json_var (jfld c_int name omit get set)).
  { intros name omit get set Hset Hget j [job rest] v' Hv. cbn [jfld fld f_store fst snd].
    destruct (store c_int j (get job)) as [z|] eqn:E; [|done]. intros [= <-]. apply Hset; [exact Hv|].
    eapply store_int_range; [|exact E]. by apply Hget. }
  assert (Hj : forall j, json_job j -> in_int64 (j_RetryCounter j) /\ in_int64 (j_LockFor j) /\
    Forall (fun s => ValidString s = true) (strings_of j)) by (intros j H; apply H).
  unfold strings_of in Hj.
  unfold job_fields. repeat (apply Forall_cons_2; [lazymatch goal with
    | |- keeps _ (fld c_bytes _ _ _ _) => intros j [job rest] v' Hv; cbn [fld f_store];
        destruct (store c_bytes j _) as [b|]; [|done]; intros [= <-]; exact Hv
    | |- keeps _ (jfld c_string _ _ _ _) => apply Hs
    | |- keeps _ (jfld c_int _ _ _ _) => apply Hi
    end|]); try apply Forall_nil_2.
  all: try (intros job Hjj; destruct (Hj job Hjj) as (H1 & H2 & H3); rewrite ?Forall_cons in H3;
            first [exact H1|exact H2|apply H3]).
  all: intros job x (? & ? & ? & ? & ? & ? & ? & ? & Hf) Hx; unfold strings_of in Hf; rewrite !Forall_cons in Hf;
    unfold json_job, strings_of; rewrite !Forall_cons; cbn; split_and!; (done || apply Hf).
Qed.

(** C25: what UnmarshalPayload can return. Whatever the text, a job it
    returns has no handler, no retry settings and zero timestamps (JSON does
    not carry them), its counters are 64-bit integers and all its strings
    are valid UTF-8; texts that are not JSON, or are JSON other than an
    object or null, are errors. *)
Theorem UnmarshalPayload_typed cachedJob :
  match UnmarshalPayload cachedJob with
  | inr job => json_job job /\
      exists j, parse (default EmptyString cachedJob) = Some j /\ (j = JNull \/ exists ms, j = JObj ms)
  | inl err => err = unmarshal_error "Job" (default EmptyString cachedJob)
  end.
Proof.
  unfold UnmarshalPayload. destruct (Unmarshal c_job "Job" cachedJob) as [err|v] eqn:E.
  - unfold Unmarshal in E. destruct (parse _ ≫= _); [done|]. by injection E as <-.
  - split.
    + apply (Unmarshal_keeps json_var) in E; [exact E| |exact job_fields_keep].
      unfold json_var, json_job, in_int64, two63. cbn. split_and!; try done.
      repeat constructor.
    + unfold Unmarshal in E. destruct (parse _) as [j|]; [|done]. exists j. split; [done|].
      destruct j; cbn in E; try done; [by left|right; by eexists].
Qed.

(** ** Jobs that json.Marshal wrote *)

(** The part of a job that JSON carries. *)
Definition json_part (j : Job) : Job :=
  mkJob (j_ID j) None (j_Name j) (j_Payload j) false 0 (j_RetryCounter j) (j_ReservedAt j) EmptyString
    (j_DispatchAt j) (j_CompletedAt j) (j_FailedAt j) (j_LockedAt j) (j_LockFor j) (j_Queue j)
    zeroTime zeroTime (j_Exception j) (j_Status j).

Lemma byte_list_some p : of_byte_list <$> (byte_list <$> p) = p :> option string.
Proof. destruct p as [s|]; [|done]. cbn. by rewrite of_byte_list_inv. Qed.

Lemma store_bytes (p : option string) old : exists j, encode c_bytes (mkSlice (byte_list <$> p) []) = Some j /\
  json_ok j /\ depth j = O /\ store c_bytes j old = Some (mkSlice (byte_list <$> p) []).
Proof.
  destruct p as [s|]; [|by exists JNull]. exists (JStr (b64 (byte_list s))).
  destruct (plain_b64 (byte_list s) (byte_list_range s)) as [Hp Hb].
  cbn [encode store c_bytes fmap option_fmap option_map sl_elems]. split; [done|].
  split; [by apply plain_raw_ok|]. split; [done|].
  rewrite unquote_plain by done. rewrite Hb, unb64_b64 by apply byte_list_range. done.
Qed.

(** The members that [Marshal] writes for a job whose payload is [jp]. *)
Definition job_members (jp : json) (j : Job) : list (string * json) :=
  [(quote "id", JStr (quote (j_ID j))); (quote "name", JStr (quote (j_Name j))); (quote "Payload", jp);
   (quote "retryCounter", JNum (Itoa (j_RetryCounter j))); (quote "reservedAt", JStr (quote (j_ReservedAt j)))] ++
  (if String.eqb (j_DispatchAt j) EmptyString then [] else [(quote "dispatchAt", JStr (quote (j_DispatchAt j)))]) ++
  [(quote "completedAt", JStr (quote (j_CompletedAt j))); (quote "failedAt", JStr (quote (j_FailedAt j)))] ++
  (if String.eqb (j_LockedAt j) EmptyString then [] else [(quote "lockedAt", JStr (quote (j_LockedAt j)))]) ++
  (if j_LockFor j =? 0 then [] else [(quote "lockFor", JNum (Itoa (j_LockFor j)))]) ++
  [(quote "queue", JStr (quote (j_Queue j))); (quote "exception", JStr (quote (j_Exception j)));
   (quote "status", JStr (quote (j_Status j)))].

Lemma encode_job jp j : encode c_bytes (mkSlice (byte_list <$> j_Payload j) []) = Some jp ->
  encode c_job (j, []) = Some (JObj (job_members jp j)).
Proof.
  intros He. unfold c_job, job_fields, jfld, fld, get_bytes. cbn [encode c_struct encode_fields f_encode f_name fst snd].
  rewrite He. cbn [andb is_empty c_string c_int encode fmap option_fmap option_map]. unfold job_members.
  destruct (String.eqb (j_DispatchAt j) EmptyString), (String.eqb (j_LockedAt j) EmptyString), (j_LockFor j =? 0);
    reflexivity.
Qed.

Lemma job_members_ok jp j : json_ok jp -> depth jp = O ->
  json_ok (JObj (job_members jp j)) /\ depth (JObj (job_members jp j)) = 1%nat.
Proof.
  intros Hok Hd. unfold job_members.
  destruct (String.eqb (j_DispatchAt j) EmptyString), (String.eqb (j_LockedAt j) EmptyString), (j_LockFor j =? 0);
    cbn [app json_ok depth foldr fst snd]; rewrite Hd; (split; [|reflexivity]);
    repeat split; auto using raw_ok_quote, num_ok_Itoa.
Qed.

(** Storing a string or integer member into a job variable. *)
Lemma store_job_string name get set s v js :
  ValidString name = true -> field_for job_fields name = Some (jfld c_string name false get set) \/
    field_for job_fields name = Some (jfld c_string name true get set) -> ValidString s = true ->
  store_fields job_fields ((quote name, JStr (quote s)) :: js) v = store_fields job_fields js (set s v.1, v.2).
Proof.
  intros Hn [Hf|Hf] Hs; (eapply store_fields_cons; [done|exact Hf|]);
    unfold jfld, fld; cbn [f_store]; by rewrite store_string.
Qed.

Lemma store_job_int name get set z v js :
  ValidString name = true -> field_for job_fields name = Some (jfld c_int name false get set) \/
    field_for job_fields name = Some (jfld c_int name true get set) -> in_int64 z ->
  store_fields job_fields ((quote name, JNum (Itoa z)) :: js) v = store_fields job_fields js (set z v.1, v.2).
Proof.
  intros Hn [Hf|Hf] Hs; (eapply store_fields_cons; [done|exact Hf|]);
    unfold jfld, fld; cbn [f_store]; by rewrite store_int.
Qed.

Ltac store_job_members := repeat (first
  [ erewrite store_job_string;
      [|vm_compute; reflexivity|first [left; reflexivity|right; reflexivity]|assumption]
  | erewrite store_job_int;
      [|vm_compute; reflexivity|first [left; reflexivity|right; reflexivity]|assumption] ]).

Lemma store_job jp j :
  Forall (fun s => ValidString s = true) (strings_of j) -> in_int64 (j_RetryCounter j) -> in_int64 (j_LockFor j) ->
  store c_bytes jp nil_slice = Some (mkSlice (byte_list <$> j_Payload j) []) ->
  store_fields job_fields (job_members jp j) (zeroJob, []) = Some (json_part j, []).
Proof.
  intros Hv Hr Hl Hp. unfold strings_of in Hv. rewrite !Forall_cons in Hv.
  destruct Hv as (? & ? & ? & ? & ? & ? & ? & ? & ? & ? & _). unfold job_members. cbn [app].
  store_job_members. erewrite store_fields_cons; [|vm_compute; reflexivity|reflexivity|].
  2: { unfold fld. cbn [f_store]. change (get_bytes _) with (@nil_slice Z). rewrite Hp.
       cbn [fmap option_fmap option_map]. unfold set_bytes. cbn [sl_elems sl_rest fst snd].
       rewrite byte_list_some. reflexivity. }
  unfold json_part.
  destruct (String.eqb_spec (j_DispatchAt j) EmptyString) as [->|], (String.eqb_spec (j_LockedAt j) EmptyString) as [->|],
    (Z.eqb_spec (j_LockFor j) 0) as [->|]; cbn [app]; store_job_members; reflexivity.
Qed.

(** C24: UnmarshalPayload reads back the JSON of a job: for a job whose
    strings are valid UTF-8, what json.Marshal writes is read as the same
    job with the handler, the retry settings and the timestamps, which JSON
    leaves out, at their zero values; a nil payload stays nil. *)
Theorem UnmarshalPayload_roundtrip j :
  Forall (fun s => ValidString s = true) (strings_of j) -> in_int64 (j_RetryCounter j) -> in_int64 (j_LockFor j) ->
  exists raw, Marshal c_job "Job" (j, []) = inr raw /\ UnmarshalPayload (Some raw) = inr (json_part j).
Proof.
  intros Hv Hr Hl. destruct (store_bytes (j_Payload j) nil_slice) as (jp & He & Hok & Hd & Hs).
  destruct (job_members_ok jp j Hok Hd) as [Hmok Hmd].
  exists (print (JObj (job_members jp j))). unfold Marshal. rewrite (encode_job jp j He). split; [done|].
  unfold UnmarshalPayload, Unmarshal.
  change (default EmptyString (Some ?x)) with x.
  rewrite parse_print; [|done|rewrite Hmd; unfold maxNestingDepth; lia].
  assert (E : store c_job (JObj (job_members jp j)) (zero c_job) = Some (json_part j, []))
    by (by apply store_job). cbn [mbind option_bind]. by rewrite E.
Qed.

End JobJson.

(** ** Witness *)

Lemma UnmarshalPayload_roundtrip_witness :
  exists raw, Marshal c_job "Job" (refJob, []) = inr raw /\ UnmarshalPayload (Some raw) = inr (json_part refJob).
Proof.
  apply (UnmarshalPayload_roundtrip (HS := refHandlers) refJob).
  - repeat constructor.
  - unfold in_int64, two63. cbn. lia.
  - unfold in_int64, two63. cbn. lia.
Defined.
