(* ===== verification/Queuebench.v ===== *)
(** * The bench command (cmd/queuebench/main.go)

    The queuebench program: it bootstraps the framework with a configuration
    of its own, registers the bench handlers, dispatches what its flags ask
    for and then runs for ever; a second goroutine waits for a signal and
    shuts it down. The framework, the RPC server and the operating system
    are parameters; the lines that only log are left out. From the boot on
    the main goroutine interleaves, effect by effect, with the workers and
    the reaper that it started ([hstep]). *)

From stdpp Require Import base gmap strings list list_numbers relations.
From Stdlib Require Import ZArith Lia.
From S2P Require Import Prelude GoString GoTime Types Services Effects RefServices Redis Config Registry GoJson GoUtf8 GoJsonText GoJsonCodec Memory Queue Provider Concurrency Interference BenchJobs RefBench BenchRoundtrip BenchBehaviour BenchRegistry BenchStress.

Open Scope Z_scope.

(** The flags after [flag.Parse]. *)
Record flags := mkFlags {
  fl_seedJobs : bool;
  fl_stressN : Z;
  fl_stressC : Z;
  fl_stressMode : string;
  fl_longSleep : Z;
}.

(** Their values when none is given. *)
Definition default_flags : flags := mkFlags false 0 16 "hello" 0.

(** The map that [bootstrapApplication] sets for the provider. *)
Definition bench_config : gmap string gval :=
  {["backend" := GString "redis";
    "worker_count" := GInt 4;
    "max_attempts" := GInt 5;
    "high_water_mark" := GInt 10000;
    "queue_channels" := GStrings ["job"; "email"];
    "queue_channel_default" := GString "job";
    "debug" := GBool false;
    "redis_prefix" := GString "queuebench";
    "redis_scan_interval" := GInt 1;
    "lock_timeout" := GInt 10;
    "reaper_interval" := GInt 5]}.

(** The providers that the framework knows: this package's, or another with
    its name. *)
Inductive provider_val :=
| QueueProvider (p : ServiceProvider)
| OtherProvider (name : string).

Definition provider_name (sp : provider_val) : string :=
  match sp with QueueProvider _ => Name | OtherProvider name => name end.

(** [lookupQueueService] over the registered providers. *)
Fixpoint lookupQueueService (ps : list provider_val) : option Queue :=
  match ps with
  | [] => None
  | sp :: ps' =>
      if negb (String.eqb (provider_name sp) "queue") then lookupQueueService ps'
      else match sp with
           | QueueProvider qp => Service qp
           | OtherProvider _ => lookupQueueService ps'
           end
  end.

Section Main.
Context {JL : JsonLib} {EV : Env} {RN : Rand} {FU : Fuel}.
Context {RS : RedisServer} {RG : Redigo} {DB : Database} {UT : UnicodeTables}.

(** The framework and the operating system: the working directory, the
    start of an application in it, loading the providers with their
    configurations (the error, the providers and the world after), starting
    and stopping the RPC server. *)
Class Framework := {
  os_Getwd : string + string;
  adele_New : string -> option string;
  LoadProviders : gmap string (gmap string gval) -> list provider_val -> world ->
    option string * list provider_val * world;
  rpc_Start : option string;
  rpc_Stop : option string;
}.

Context {FW : Framework}.

(** [bootstrapApplication]: the code the process exits with, or the
    providers and the world. *)
Definition bootstrapApplication (ps : list provider_val) (w : world) : Z + list provider_val * world :=
  match os_Getwd with
  | inl _ => inl 1
  | inr path =>
      match adele_New path with
      | Some _ => inl 1
      | None =>
          match LoadProviders {["queue" := bench_config]} ps w with
          | (Some _, _, _) => inl 1
          | (None, ps, w) => inr (ps, w)
          end
      end
  end.




(** ** main, among the goroutines of the queue *)










(** [listenForShutdown] after a signal: the code of the exit. The error of
    stopping the RPC server is only logged. *)
Definition listenForShutdown (ps : list provider_val) : prog Z :=
  match lookupQueueService ps with
  | None => Ret 0
  | Some q => let* _ := Close q false in Ret 0
  end.

End Main.

(** ** The configuration of the harness *)

(** What the provider builds its queue from. *)
Definition harness : Configuration :=
  mkConfiguration "redis" 4 5 10000 ["job"; "email"] "job" false "queuebench" 1 10 5.

(** Every key of the map has the type that Configure looks for, and no value
    is replaced by a default. *)
Lemma harness_config :
  sp_config (Configure bench_config zeroProvider) = harness /\ setConfigDefaults harness = harness.
Proof. by split. Qed.

(** The queue of the harness for an application with a redis pool. *)
Definition harness_queue (db : bool) : Queue :=
  mkQueue "redis" false 4 5 10000 ["job"; "email"] "job" 10 5 (mkRedis true "queuebench" 1) db.

Section Harness.
Context {JL : JsonLib} {JW : JsonLibLaws JL} {EV : Env} {CL : ClockLaws EV} {RN : Rand} {FU : Fuel}.
Context {RS : RedisServer} {RG : Redigo} {DB : Database} {UT : UnicodeTables}.
Context {RL : RedisLaws RS} {GL : RedigoLaws RG} {FW : Framework}.

(** What the framework promises: loading the providers without an error has
    configured the queue provider with its map, registered it with the
    application and booted it. *)
Class FrameworkLaws := {
  fw_app : adele;
  load_queue configs c p w ps' w' :
    configs !! "queue" = Some c ->
    LoadProviders configs [QueueProvider p] w = (None, ps', w') ->
    exists yaml d d' p' w1,
      Register yaml (AppAdele (Some fw_app)) (Configure c p) d w = (Ok None, p', d', w1) /\
      run (Boot p') w1 = (Ok tt, w') /\ ps' = [QueueProvider p'];
}.

Context {FL : FrameworkLaws}.


(** The database session of an application, as buildQueue reads it. *)
Definition session_of (a : adele) : bool := default false (a_DB a).

Lemma harness_builds a prefix w :
  redis_pool (Some a) = Some (true, prefix) ->
  NewWithConfig (Some a) harness w = (Ok (harness_queue (session_of a)), fresh [] w).
Proof.
  intros Hp. unfold NewWithConfig, buildQueue. rewrite (proj2 harness_config). cbv zeta. rewrite Hp.
  destruct a as [root ca [s|]]; reflexivity.
Qed.

Lemma harness_registers yaml a prefix d w :
  redis_pool (Some a) = Some (true, prefix) ->
  Register yaml (AppAdele (Some a)) (Configure bench_config zeroProvider) d w =
    (Ok None, mkProvider (Some (harness_queue (session_of a))) harness true, d, fresh [] w).
Proof.
  intros Hp. destruct harness_config as [Hc _]. destruct (Configure bench_config zeroProvider) as [s c b] eqn:E.
  assert (b = true) as -> by (unfold Configure in E; congruence). cbn [sp_config] in Hc. subst c.
  unfold Register. cbn [sp_hasConfig sp_config]. by rewrite (harness_builds a prefix).
Qed.

(** Loading the providers leaves the harness queue, booted. *)
Lemma harness_loads prefix w ps1 w1 :
  redis_pool (Some fw_app) = Some (true, prefix) ->
  bootstrapApplication [QueueProvider zeroProvider] w = inr (ps1, w1) ->
  ps1 = [QueueProvider (mkProvider (Some (harness_queue (session_of fw_app))) harness true)] /\
  run (Boot (mkProvider (Some (harness_queue (session_of fw_app))) harness true)) (fresh [] w) = (Ok tt, w1).
Proof.
  intros Hpool. unfold bootstrapApplication.
  destruct os_Getwd as [|path]; [done|]. destruct (adele_New path); [done|].
  assert (Hc : ({["queue" := bench_config]} : gmap string (gmap string gval)) !! "queue" = Some bench_config)
    by apply lookup_singleton_eq.
  revert Hc. generalize ({["queue" := bench_config]} : gmap string (gmap string gval)). intros configs Hc.
  destruct (LoadProviders configs _ w) as [[[err|] ps'] w'] eqn:E; [done|]. intros Hboot.
  apply (inr_inj (A := Z)), pair_equal_spec in Hboot as [<- <-].
  destruct (load_queue _ _ _ _ _ _ Hc E) as (yaml & d & d' & p' & w2 & Hreg & Hrun & ->).
  rewrite (harness_registers yaml fw_app prefix d w Hpool) in Hreg.
  apply pair_equal_spec in Hreg as [Hreg <-]. apply pair_equal_spec in Hreg as [Hreg _].
  apply pair_equal_spec in Hreg as [_ <-]. done.
Qed.


Lemma wp_discard {A} (p : prog A) (Q : A -> world -> Prop) w :
  wp p Q w -> exists w' a, run (let* _ := p in Ret tt) w = (Ok tt, w') /\ Q a w'.
Proof. rewrite run_bind. unfold wp. destruct (run p w) as [[a|] w']; [|done]. intros H. by exists w', a. Qed.

Lemma Boot_service q c b : Boot (mkProvider (Some q) c b) = Listen q.
Proof. done. Qed.




(** ** Seeding among other goroutines *)






(** ** The invariant of the harness *)




Section Run.
Context (fuel : nat) (q : Queue) (w1 : world).
Context (Hb : q_Backend q = "redis") (Hp : r_Pool (q_Redis q) = true).
Context (Hu : forall i, (i < 15)%nat -> is_Some (uuids (w_uuid w1 + i))).









End Run.


(** C39: a signal ends the harness in order. From whatever state the
    goroutines have reached since the boot, listenForShutdown exits with
    code 0, having cancelled the lifecycle context and set the shutdown flag
    without a redis command of its own; a worker that comes round to its
    next scan, or starts, after that returns without touching redis or
    calling a handler. *)
Theorem queuebench_shuts_down prefix w ps1 w1 w2 :
  redis_pool (Some fw_app) = Some (true, prefix) ->
  bootstrapApplication [QueueProvider zeroProvider] w = inr (ps1, w1) -> 1 <= w_wg w2 ->
  exists w3, run (listenForShutdown ps1) w2 = (Ok 0, w3) /\
    w_cancelled w3 = true /\ w_shutdown w3 = true /\ w_redis w3 = w_redis w2 /\ w_app w3 = w_app w2 /\
    forall fuel id, exists w4,
      run (worker (S fuel) (harness_queue (session_of fw_app)) id) w3 = (Ok Returned, w4) /\
      w_redis w4 = w_redis w2 /\ w_app w4 = w_app w2.
Proof.
  intros Hpool Hboot Hwg. destruct (harness_loads prefix w ps1 w1 Hpool Hboot) as [-> _].
  exists (put_shutdown true (put_cancelled true w2)). split; [done|]. do 4 (split; [done|]).
  intros fuel id. exists (put_wg (w_wg w2 - 1) (put_shutdown true (put_cancelled true w2))).
  split; [|done]. by rewrite worker_after_shutdown.
Qed.

End Harness.

(** ** Witnesses *)

(** A framework that starts, with an application whose cache is redis, and
    that takes the registered queue provider through its life. *)
Definition refApp : adele := mkAdele "/srv/bench" (Some (CacheRedis (Some (true, "bench")))) None.

#[export] Instance refFramework : Framework := {|
  os_Getwd := inr "/srv/bench";
  adele_New _ := None;
  LoadProviders configs ps w :=
    match ps, configs !! "queue" with
    | [QueueProvider p], Some c =>
        match Register refYaml (AppAdele (Some refApp)) (Configure c p) emptyDisk w with
        | (Ok None, p', _, w1) =>
            match run (Boot p') w1 with
            | (Ok tt, w2) => (None, [QueueProvider p'], w2)
            | (Panicked m, w2) => (Some m, ps, w2)
            end
        | (_, _, _, w1) => (Some "register", ps, w1)
        end
    | _, _ => (Some "unknown provider", ps, w)
    end;
  rpc_Start := None;
  rpc_Stop := None;
|}.

#[export] Instance refFrameworkLaws : FrameworkLaws.
Proof.
  refine {| fw_app := refApp |}. intros configs c p w ps' w' Hc. cbn [LoadProviders refFramework].
  rewrite Hc. destruct (Register _ _ _ _ _) as [[[[[err|]|m] p'] d'] w1] eqn:E; [done| |done].
  destruct (run (Boot p') w1) as [[[]|m] w2] eqn:Er; [|done].
  intros [= <- <-]. exists refYaml, emptyDisk, d', p', w1. done.
Defined.

Lemma ref_boots : exists ps1 w1, bootstrapApplication [QueueProvider zeroProvider] benchWorld = inr (ps1, w1).
Proof.
  unfold bootstrapApplication. cbn [os_Getwd adele_New LoadProviders refFramework].
  rewrite lookup_singleton_eq, (harness_registers refYaml refApp "bench" emptyDisk benchWorld eq_refl), Boot_service.
  destruct (wp_discard _ _ _ (Listen_starts (harness_queue (session_of refApp)) (fresh [] benchWorld) ltac:(done)))
    as (w2 & [] & Hrun & _).
  rewrite run_bind in Hrun. destruct (run (Listen _) _) as [[[]|] w3]; [by eexists _, _|done].
Qed.


Lemma queuebench_shuts_down_witness :
  exists ps1 w1 w3, bootstrapApplication [QueueProvider zeroProvider] benchWorld = inr (ps1, w1) /\
    run (listenForShutdown ps1) (put_wg 5 benchWorld) = (Ok 0, w3) /\ w_shutdown w3 = true.
Proof.
  destruct ref_boots as (ps1 & w1 & Hb).
  destruct (queuebench_shuts_down "bench" benchWorld ps1 w1 (put_wg 5 benchWorld))
    as (w3 & Hr & _ & Hs & _); [reflexivity|exact Hb|done|].
  exists ps1, w1, w3. split; [exact Hb|]. split; [exact Hr|exact Hs].
Defined.
